(* ===== verification/_CoqProject ===== *)
-Q . S2P
Prelude.v
Endian.v
BytesBuffer.v
Buffer.v
Base64.v
Frame.v
Context.v
Parser.v
ParserSafety.v
Receiver.v
Stream.v
Delivery.v
Violations.v
Pack.v
Http.v
Handshake.v
Lifecycle.v
SocketIO.v
Channel.v
TcpConnection.v
TcpStream.v
TcpFaults.v
TimerQueue.v
BlockHash.v
Sha1.v
Sha1Correct.v
PollPoller.v
Calendar.v
BlockingQueues.v
ThreadPool.v
HttpServer.v
Connector.v
UrlCodec.v
LogStream.v
EventLoop.v
TcpServer.v
WsServer.v
Aes.v
Md5.v
ApiQuery.v
ApiOrder.v
ApiConn.v
ApiConnSafety.v
ProtobufCodec.v
RpcChannel.v
TcpClient.v
