(* ===== verification/Prelude.v ===== *)
(** * libwebsocket-component: a verification development

    ** The program

    The repository is a server-side implementation of the WebSocket protocol
    (RFC 6455) as a component, src/libwebsocket, that a network library uses:
    here a modified muduo (src/muduo-vip) and the servers built on it (src/demo,
    src/https).  A connection works as follows.  The network library reads from a
    socket into an input buffer and calls [websocket::parse_message_frame] with
    the connection's context.  While the connection is closed this is the opening
    handshake ([do_handshake]): the HTTP context parses the request, the answer
    with the accept key is sent and the state becomes [kConnected].  From then on
    [parse_frame] consumes frames step by step: two header bytes, an extended
    length, a masking key, the payload, which is moved into the buffer of the
    current data or control message and unmasked there.  A completed message is
    handed to the callback.  In the other direction the [pack_unmask_*] functions
    write frames to a buffer.  The protocol code knows buffers, HTTP contexts and
    callbacks only through the interfaces IBytesBuffer, IHttpContext, ICallback.

    ** The files

    - [Prelude]: the outcome monad for code that can stop the process (a failed
      assertion, an access out of range, ...), machine integers, bytes, sequences.
    - [Endian]: src/libwebsocket/private/Endian.h.
    - [BytesBuffer]: the interface src/libwebsocket/IBytesBuffer.h as a class of
      operations with the laws its clients rely on.
    - [Buffer]: src/muduo-vip/muduo/net/Buffer.{h,cc}, the buffer class, an
      instance of the laws, and its refinement of a queue of bytes.
    - [Base64]: src/libwebsocket/private/base64.cc.
    - [Frame]: enumerations, frame headers and message headers of
      src/libwebsocket/private/websocket.cc; [Context]: its [Message] and
      [Context_] classes, the events a callback sees, and the [World] of a
      connection; [Parser]: the frame parser, one definition per function.
    - [ParserSafety]: what holds for every input.
    - [Receiver]: the wire format and the delivery rules of the RFC, the
      specification; [Stream]: the simulation between parser and specification;
      [Delivery]: the end-to-end theorems of reception.
    - [Violations]: what frames the RFC forbids cause.
    - [Pack]: the functions that write frames.
    - [Http]: src/muduo-vip/muduo/net/http/HttpContext.{h,cc} and HttpRequest.h.
    - [Handshake]: the opening handshake and the entry point
      [parse_message_frame]; [Lifecycle]: a connection from its creation to its
      messages, the composition of all parts.
    - [SocketIO]: src/libwebsocket/private/IBytesBuffer.cc and the input and output
      of src/libwebsocket/ssl: vectored and SSL reads and writes of buffers.
    - [Channel]: src/muduo-vip/muduo/net/Channel.{h,cc} and the registration side
      of poller/EPollPoller.cc; [PollPoller]: poller/PollPoller.cc, and that both
      pollers agree.
    - [TcpConnection]: src/muduo-vip/muduo/net/TcpConnection.cc over the functors of
      EventLoop.cc; [TcpStream]: the runs of a connection and what they promise;
      [TcpFaults]: the runs in which it does not behave.
    - [TimerQueue]: src/muduo-vip/muduo/net/TimerQueue.cc and Timer.{h,cc}.
    - [Sha1]: src/libwebsocket/private/sha1.cc next to the definition of FIPS 180-4;
      [Sha1Correct]: that they agree.
    - [Calendar]: src/muduo-vip/muduo/base/Date.{h,cc}, UTC part of TimeZone.cc.
    - [BlockingQueues]: BlockingQueue.h, BoundedBlockingQueue.h, CountDownLatch.cc;
      [ThreadPool]: ThreadPool.cc, all of src/muduo-vip/muduo/base.
    - [HttpServer]: src/muduo-vip/muduo/net/http/HttpServer.cc, HttpResponse.{h,cc}.
    - [Connector]: src/muduo-vip/muduo/net/Connector.{h,cc}; [EventLoop]: the loop of
      EventLoop.cc with the functors other threads queue; [TcpServer]: TcpServer.cc,
      Acceptor.cc and EventLoopThreadPool.cc.
    - [WsServer]: the glue src/muduo-vip/muduo/net/libwebsocket and the connection
      callback of src/demo/echo.cc: a WebSocket server from the socket to the message.
    - [LogStream]: src/muduo-vip/muduo/base/LogStream.{h,cc}.
    - [UrlCodec]: src/https/urlcodec.cpp; [Aes]: src/https/AES_Cipher.cpp; [Md5]:
      src/https/mymd5.cpp; [BlockHash]: what the proofs of the two digests share.
    - [ApiQuery], [ApiOrder], [ApiConn]: src/https/ApiServer.{h,cpp} with htmlcodec.h and
      the decryption of aes.h: queries and scores, the requests and orders, and the
      connections with their timeouts and workers; [ApiConnSafety]: what holds in every
      run of the loop, the timer and the workers.
    - [ProtobufCodec]: src/muduo-vip/muduo/net/protobuf/ProtobufCodecLite.{h,cc};
      [RpcChannel]: src/muduo-vip/muduo/net/protorpc/RpcChannel.{h,cc}.
    - [TcpClient]: src/muduo-vip/muduo/net/TcpClient.{h,cc}, over [Connector], the pool
      of [TcpServer] and an abstraction of [TcpConnection].

    ** What the theorems show

    Reception: for every stream of frames a client may send, cut into reads
    anywhere, the parser delivers what the RFC prescribes for exactly the frames
    that have arrived completely ([Delivery.reception_correct]; from the handshake on, with
    a request that arrives in one piece, and without close frames,
    [Lifecycle.connection_lifecycle]), provided fragments that others follow have
    a length divisible by 4: the key index runs over the message instead of the
    frame ([Delivery.second_fragment_key_offset]).  For arbitrary bytes and an
    arbitrary callback no access is out of range, no allocation fails and the
    loop terminates; only assertions of the source stop the process
    ([ParserSafety.parse_frame_safe]), which some illegal frames reach and others do not
    ([Violations]).  Sending: a client reads back every message of up to 65535
    bytes, and every fragmented one ([Pack.pack_data_roundtrip]); longer single
    frames announce a wrong length ([Pack.long_frame_length_lost]).  HTTP: parsing
    inverts printing of requests and is total on arbitrary input; the handshake is
    characterised for every input ([Handshake.handshake_outcomes]), including the
    ways it stops the process.  Buffer: every sequence of operations behaves like
    a queue of bytes ([Buffer.Buffer.buffer_refines_queue]).  Base64: decoding
    inverts encoding.  SHA-1: the code computes the digest of the standard, for a
    message given in pieces ([Sha1Correct.Sha1Correct.sha1_is_fips]).

    Network: a plain connection, in every run of reports of epoll, user calls, sends and
    shutdowns of other threads, functors and timers with a peer that does not reset it and
    users that leave the reading of a closed connection alone, is a
    duplex byte stream up to the prefixes a partial write repeats
    ([TcpStream.connection_is_duplex_stream]); [TcpFaults] shows that defect and
    the others: a send that fails inside a callback, a stale errno, an empty
    message, a paused connection.  The epoll poller serves all requests without a
    failing system call ([Channel.Channel.poller_protocol]), the poll poller asks for
    the same events ([PollPoller.PollPoller.pollers_agree]) and reports exactly the ready
    channels.  The timer queue keeps its invariant and its descriptor armed under every
    use, callbacks that add and cancel included, runs exactly the due timers in order, and
    schedules the repeating ones again that no callback cancels.  The HTTP
    server answers requests, cut into reads anywhere, in order, one per read
    ([HttpServer.HttpServer.http_server_answers]); a bad version followed by more
    data stops it.

    Base: day numbers and UTC time are inverse to the calendar; the queues are
    first-in first-out and lose no wake-up; a running pool can always start a queued
    task, a stopped one leaves callers waiting ([ThreadPool]).  A functor queued to a
    running loop is executed, in the order of queueing ([EventLoop]); a server keeps
    its map of connections in agreement with what exists and takes its loops from the
    pool that all servers and clients of the process share ([TcpServer]); a connector
    whose owner keeps to its protocol hands over or closes every socket exactly once
    ([Connector]); a client, under the discipline its theorem states, has at most
    one attempt or connection at a time, destroys connections when nobody refers to
    them, and replaces one that it loses ([TcpClient]); runs outside of these protocols
    that fail are shown as well.  A log stream holds
    the text of its items ([LogStream]).

    WebSocket server: over a plain connection, a client whose request arrives in one
    piece and whose legal frames, cut into reads anywhere, are aligned as above gets its
    handshake and its messages answered
    ([WsServer.WsServer.websocket_server_serves]), the composition of the connection,
    the glue and the protocol.

    API server: the cipher and the digest are those of FIPS 197 and RFC 1321 ([Aes],
    [Md5]); queries and URLs are decoded to what was encoded; an order in plain text
    is booked exactly when all its parameters are valid, else the last failing test
    decides the answer ([ApiOrder.ApiOrder.plain_order_outcome]), and nobody but an administrator changes
    the service.  The theorems on errors show a key that is compared for its own
    length only, the answer of an order that is overwritten and a decryption that
    writes behind its buffer.  In every run of loop, timer and workers in which clients
    wait until their request is done, nothing but that decryption aborts,
    no connection gets both an answer and a timeout
    ([ApiConnSafety.ApiConnSafety.timeout_or_answer]), and timeouts are sent exactly
    when they are due ([ApiConnSafety.ApiConnSafety.timeout_when_due]).  Data that comes
    earlier races with the worker that has the request (a fault of the model), data after
    a request that no worker got hangs the loop
    ([ApiConnSafety.ApiConnSafety.data_after_timeout_hangs]), and a request in two reads is
    refused.

    Protocol buffers: a stream of messages, cut into reads anywhere, is delivered
    message by message when the integers of a buffer are in network order
    ([ProtobufCodec.ProtobufCodec.codec_stream]), arbitrary bytes stop nothing, and as
    the sources are configured a codec rejects what it has itself written.  Remote
    calls over a channel are answered at most once, each by its own answer, and can
    finish while the connection is up; an answer after that uses a freed channel
    ([RpcChannel]).

    ** Conventions

    Assertions are enabled: [assert(e)] that fails is [Abort AssertFailed].  The
    macro LIBWEBSOCKET_DEBUG is the boolean [debug]; theorems hold for both
    values.  The host is little-endian, _NETTOHOST_BIGENDIAN_ and
    _MUDUO_HOSTTONET_TRANSFORM_ are not defined; only [ProtobufCodec], where the second
    decides what is on the wire, keeps it as the boolean [transform].  Integers are [Z] with their
    width written out where the code can wrap.  Loops whose recursion is not
    structural carry fuel computed from the input: twice the number of readable
    bytes plus 2 for [parse_frame], one more than the number of readable bytes for
    [parseRequest], the data length for the fragmenting loop; each is shown to be
    enough ([OutOfFuel] does not occur; only [parseRequest] in a state from which the code
    does not return has it for every fuel).  A callback may do anything to the buffer
    it is handed as long as the buffer stays valid.

    In [TcpConnection] the asserts that NDEBUG removes are governed by the boolean
    [ndebug].  Signed arithmetic that must not overflow is guarded by [ints].
    Threads ([BlockingQueues], [ThreadPool]) are step relations: a step is what one
    thread does between two points where others can run, and a condition variable
    may wake up spuriously, which no theorem on progress relies on.  Time is an argument of the operations that read it.

    OpenSSL's SHA1, Boost's string algorithms and the clock are parameters.  The
    system calls and OpenSSL's SSL_read and SSL_write are interfaces ([SocketIO]):
    classes of operations whose laws state their documented behaviour, with
    instances.  User callbacks are arguments or events.  What the API server uses of
    Boost, OpenSSL and the C library is the class [ApiOrder.Env], with the laws
    [ApiOrder.EnvLaws] and an instance.  Doubles are those of [SpecFloat].

    ** What is not modelled

    Console and log output; the creation of SSL contexts and certificates; epoll_wait
    and poll(2), which are given by what they return; time-zone files; generated
    code, given to the codec and the channel by its laws; the RPC server, which
    registers services and forwards to the channel; the inspection server, which prints what the
    system reports; wrappers of threads, files and sockets; the construction of the API
    server, its statistics, which a macro leaves out, and the DES functions of aes.h,
    which nothing calls. *)

From stdpp Require Export base tactics numbers list strings gmap.
From Stdlib Require Export ZArith Lia.

#[export] Set Default Proof Using "Type".
#[global] Open Scope Z_scope.

(** ** Faults and the outcome monad

    Code under verification either returns, or stops the process: a failed
    [assert], a read or write outside an object, a [std::length_error] thrown
    by [std::vector], a null pointer that is dereferenced, a signed integer that
    overflows, a message logged with LOG_FATAL, the use of an object that was deleted,
    a division by zero, an exception that nobody catches, a data race.  [OutOfFuel] marks an unfinished
    loop of the model; the termination theorems show that it does not occur. *)
Inductive fault : Type :=
  | AssertFailed
  | OutOfBounds
  | LengthError
  | NullPointer
  | UndefinedShift
  | SignedOverflow
  | LogFatal
  | UseAfterFree
  | DivisionByZero
  | Terminate
  | DataRace
  | OutOfFuel.

#[global] Instance fault_eq_dec : EqDecision fault.
Proof. solve_decision. Defined.

Inductive outcome (A : Type) : Type :=
  | Ret (a : A)
  | Abort (f : fault).
Arguments Ret {_} _.
Arguments Abort {_} _.

#[global] Instance outcome_ret : MRet outcome := @Ret.
#[global] Instance outcome_bind : MBind outcome := λ A B k m,
  match m with
  | Ret a => k a
  | Abort f => Abort f
  end.

(** [assert(b)] of the C++ code, compiled with assertions enabled. *)
Definition assert (b : bool) : outcome unit :=
  if b then Ret tt else Abort AssertFailed.

(** An access that must stay inside an object. *)
Definition in_bounds (b : bool) : outcome unit :=
  if b then Ret tt else Abort OutOfBounds.

(** [m] returns a value that satisfies [Q]. *)
Definition runs {A} (m : outcome A) (Q : A → Prop) : Prop := ∃ a, m = Ret a ∧ Q a.

Create HintDb ws discriminated.
Create Rewrite HintDb outcome.
Create Rewrite HintDb bytes.

Lemma bind_ret {A B} (a : A) (k : A → outcome B) : (Ret a ≫= k) = k a.
Proof. reflexivity. Qed.

Lemma bind_abort {A B} f (k : A → outcome B) : (Abort f ≫= k) = Abort f.
Proof. reflexivity. Qed.

Lemma bind_assoc {A B C} (m : outcome A) (k : A → outcome B) (k' : B → outcome C) :
  ((m ≫= k) ≫= k') = (m ≫= λ a, k a ≫= k').
Proof. by destruct m. Qed.

Lemma assert_true b : b = true → assert b = Ret tt.
Proof. by intros ->. Qed.

Lemma assert_false b : b = false → assert b = Abort AssertFailed.
Proof. by intros ->. Qed.

Lemma in_bounds_true b : b = true → in_bounds b = Ret tt.
Proof. by intros ->. Qed.

Lemma bind_ret_inv {A B} (m : outcome A) (k : A → outcome B) b :
  (m ≫= k) = Ret b → ∃ a, m = Ret a ∧ k a = Ret b.
Proof. destruct m as [a|f]; intros H; [by exists a|discriminate]. Qed.

Lemma bind_abort_inv {A B} (m : outcome A) (k : A → outcome B) f :
  (m ≫= k) = Abort f → m = Abort f ∨ ∃ a, m = Ret a ∧ k a = Abort f.
Proof. destruct m as [a|f']; intros H; [right; by exists a|left; by simplify_eq/=]. Qed.

Lemma assert_inv b u : assert b = Ret u → b = true.
Proof. by destruct b. Qed.

Lemma in_bounds_inv b u : in_bounds b = Ret u → b = true.
Proof. by destruct b. Qed.

Lemma runs_ret {A} (a : A) (Q : A → Prop) : Q a → runs (Ret a) Q.
Proof. intros. by exists a. Qed.

Lemma runs_bind {A B} (m : outcome A) (k : A → outcome B) (P : A → Prop) (Q : B → Prop) :
  runs m P → (∀ a, P a → runs (k a) Q) → runs (m ≫= k) Q.
Proof. intros (a & -> & Ha) Hk. by apply Hk. Qed.

Lemma runs_mono {A} (m : outcome A) (P Q : A → Prop) :
  runs m P → (∀ a, P a → Q a) → runs m Q.
Proof. intros (a & -> & Ha) HPQ. exists a. auto. Qed.

#[export] Hint Rewrite @bind_ret @bind_abort @bind_assoc : outcome.

(** [orun] symbolically executes the binds of a goal: it discharges the
    asserts whose condition [lia] or the hypotheses settle. *)
Ltac bool_side :=
  first
    [ done
    | assumption
    | rewrite ?andb_true_iff, ?orb_true_iff, ?negb_true_iff, ?Z.eqb_eq, ?Z.leb_le,
        ?Z.ltb_lt, ?Z.eqb_neq, ?Z.ltb_ge, ?Z.leb_gt; solve [auto | lia] ].

Ltac orun1 :=
  first
    [ rewrite bind_ret
    | rewrite bind_abort
    | rewrite bind_assoc
    | rewrite assert_true by bool_side
    | rewrite in_bounds_true by bool_side ].

Ltac orun := repeat (orun1; cbn beta).

(** [lia] with division and remainder by constants. *)
Ltac dlia := Z.to_euclidean_division_equations; lia.

(** ** Machine integers *)

Definition u8 (z : Z) : Z := z mod 2 ^ 8.
Definition u16 (z : Z) : Z := z mod 2 ^ 16.
Definition u32 (z : Z) : Z := z mod 2 ^ 32.
Definition u64 (z : Z) : Z := z mod 2 ^ 64.

(** Two's complement reading of the low [w] bits. *)
Definition sint (w z : Z) : Z := (z + 2 ^ (w - 1)) mod 2 ^ w - 2 ^ (w - 1).
Definition s8 (z : Z) : Z := sint 8 z.
Definition s16 (z : Z) : Z := sint 16 z.
Definition s32 (z : Z) : Z := sint 32 z.
Definition s64 (z : Z) : Z := sint 64 z.

(** The values of [int] that an expression computes; an overflow is undefined. *)
Definition is_int (z : Z) : bool := (- 2 ^ 31 <=? z) && (z <? 2 ^ 31).
Definition ints (l : list Z) : outcome unit :=
  if forallb is_int l then Ret tt else Abort SignedOverflow.

Lemma ints_ok l : Forall (λ z, - 2 ^ 31 ≤ z < 2 ^ 31) l → ints l = Ret tt.
Proof.
  intros H. unfold ints. replace (forallb is_int l) with true; [done|].
  induction H as [|z l Hz _ IH]; cbn [forallb]; [done|]. rewrite <- IH. unfold is_int.
  rewrite (proj2 (Z.leb_le _ _)), (proj2 (Z.ltb_lt _ _)) by lia. done.
Qed.

Lemma u64_small z : 0 ≤ z < 2 ^ 64 → u64 z = z.
Proof. apply Z.mod_small. Qed.

Lemma u16_small z : 0 ≤ z < 2 ^ 16 → u16 z = z.
Proof. apply Z.mod_small. Qed.

Lemma u64_range z : 0 ≤ u64 z < 2 ^ 64.
Proof. by apply Z.mod_pos_bound. Qed.

Lemma sint_range w z : 0 < w → - 2 ^ (w - 1) ≤ sint w z < 2 ^ (w - 1).
Proof.
  intros Hw. unfold sint.
  replace (2 ^ w) with (2 * 2 ^ (w - 1)) by (rewrite <- Z.pow_succ_r; [f_equal|]; lia).
  assert (0 < 2 ^ (w - 1)) by (apply Z.pow_pos_nonneg; lia).
  pose proof (Z.mod_pos_bound (z + 2 ^ (w - 1)) (2 * 2 ^ (w - 1))). lia.
Qed.

Lemma sint_small w z : 0 < w → - 2 ^ (w - 1) ≤ z < 2 ^ (w - 1) → sint w z = z.
Proof.
  intros Hw Hz. unfold sint. rewrite Z.mod_small; [lia|].
  replace (2 ^ w) with (2 * 2 ^ (w - 1)) by (rewrite <- Z.pow_succ_r; [f_equal|]; lia).
  lia.
Qed.

(** Reading a signed integer back as unsigned gives the low bits. *)
Lemma sint_mod w z : 0 < w → sint w z mod 2 ^ w = z mod 2 ^ w.
Proof.
  intros Hw. unfold sint. rewrite Zminus_mod_idemp_l. f_equal. lia.
Qed.

Lemma u64_s64 z : u64 (s64 z) = u64 z.
Proof. by apply sint_mod. Qed.

Lemma u16_s16 z : u16 (s16 z) = u16 z.
Proof. by apply sint_mod. Qed.

(** Joining bit fields that do not overlap is addition. *)
Lemma lor_shiftl_add a b k : 0 ≤ k → 0 ≤ b < 2 ^ k → Z.lor (Z.shiftl a k) b = a * 2 ^ k + b.
Proof.
  intros Hk Hb. pose proof (Z.add_lor_land (Z.shiftl a k) b) as H.
  assert (Z.land (Z.shiftl a k) b = 0) as H0.
  { apply Z.bits_inj'. intros i Hi. rewrite Z.land_spec, Z.bits_0.
    destruct (Z.lt_ge_cases i k).
    - by rewrite Z.shiftl_spec_low.
    - rewrite <- (Z.mod_small b (2 ^ k)) by done.
      rewrite Z.mod_pow2_bits_high by lia. by rewrite andb_false_r. }
  rewrite Z.shiftl_mul_pow2 in * by done. lia.
Qed.

Lemma u32_lor a b : u32 (Z.lor a b) = Z.lor (u32 a) (u32 b).
Proof.
  unfold u32. rewrite <- !Z.land_ones by lia. apply Z.land_lor_distr_l.
Qed.

Lemma u32_s32 z : u32 (s32 z) = u32 z.
Proof. by apply sint_mod. Qed.

(** ** Bytes *)

Notation bytes := (list Z).

Definition is_byte (z : Z) : Prop := 0 ≤ z < 256.

#[global] Instance is_byte_dec z : Decision (is_byte z).
Proof. unfold is_byte. apply _. Defined.

Notation Forall_byte := (Forall is_byte).

Lemma is_byte_lxor a b : is_byte a → is_byte b → is_byte (Z.lxor a b).
Proof.
  unfold is_byte. intros Ha Hb. assert (0 ≤ Z.lxor a b) by (apply Z.lxor_nonneg; lia).
  split; [done|]. destruct (decide (Z.lxor a b = 0)) as [->|Hne]; [lia|].
  change 256 with (2 ^ 8). apply Z.log2_lt_pow2; [lia|].
  eapply Z.le_lt_trans; [apply Z.log2_lxor; lia|].
  assert (∀ x, 0 ≤ x < 256 → Z.log2 x < 8) as Hlog.
  { intros x Hx. destruct (decide (x = 0)) as [->|]; [done|].
    apply Z.log2_lt_pow2; lia. }
  apply Z.max_lub_lt; by apply Hlog.
Qed.

(** The characters of a literal, as bytes. *)
Fixpoint str (s : string) : bytes :=
  match s with
  | EmptyString => []
  | String c s => Z.of_N (Ascii.N_of_ascii c) :: str s
  end.

Lemma str_bytes s : Forall_byte (str s).
Proof.
  induction s as [|c s IH]; constructor; [|done].
  pose proof (Ascii.N_ascii_bounded c). unfold is_byte. lia.
Qed.

Notation zlen l := (Z.of_nat (length l)).

(** Little-endian memory image of an integer of [n] bytes and back. *)
Fixpoint le_split (n : nat) (z : Z) : bytes :=
  match n with
  | O => []
  | S n => z mod 256 :: le_split n (z / 256)
  end.

Fixpoint le_combine (l : bytes) : Z :=
  match l with
  | [] => 0
  | b :: l => b + 256 * le_combine l
  end.

Lemma length_le_split n z : length (le_split n z) = n.
Proof. revert z. induction n as [|n IH]; intros z; cbn; [done|]. by rewrite IH. Qed.

Lemma le_split_bytes n z : Forall_byte (le_split n z).
Proof.
  revert z. induction n as [|n IH]; intros z; constructor; [|apply IH].
  apply Z.mod_pos_bound. lia.
Qed.

Lemma le_combine_split n z : le_combine (le_split n z) = z mod 2 ^ (8 * Z.of_nat n).
Proof.
  revert z. induction n as [|n IH]; intros z.
  - cbn. by rewrite Z.mod_1_r.
  - cbn [le_split le_combine]. rewrite IH.
    replace (2 ^ (8 * Z.of_nat (S n))) with (256 * 2 ^ (8 * Z.of_nat n)).
    + rewrite Z.rem_mul_r; [lia|lia|apply Z.pow_pos_nonneg; lia].
    + replace (8 * Z.of_nat (S n)) with (8 + 8 * Z.of_nat n) by lia.
      rewrite Z.pow_add_r by lia. lia.
Qed.

Lemma le_split_combine l : Forall_byte l → le_split (length l) (le_combine l) = l.
Proof.
  induction 1 as [|b l Hb _ IH]; [done|]. unfold is_byte in Hb.
  cbn [length le_split le_combine]. f_equal.
  - rewrite Z.mul_comm, Z_mod_plus_full, Z.mod_small; lia.
  - rewrite Z.mul_comm, Z.div_add by lia. rewrite Z.div_small by lia. apply IH.
Qed.

Lemma le_combine_range l : Forall_byte l → 0 ≤ le_combine l < 2 ^ (8 * zlen l).
Proof.
  intros Hl. rewrite <- (le_split_combine l) at 1 2 by done.
  rewrite le_combine_split. apply Z.mod_pos_bound, Z.pow_pos_nonneg; lia.
Qed.

#[export] Hint Resolve le_split_bytes str_bytes : ws.
#[export] Hint Rewrite length_le_split length_rev length_app : bytes.

(** Checking a boolean fact on a range by running it. *)
Lemma range_forall (n : Z) (P : Z → bool) :
  forallb P (seqZ 0 n) = true → ∀ z, 0 ≤ z < n → P z = true.
Proof.
  intros H z Hz. rewrite forallb_forall in H. apply H.
  apply list_elem_of_In, elem_of_seqZ. lia.
Qed.

Lemma range_forall_eq (n : Z) (f g : Z → Z) :
  forallb (λ z, f z =? g z) (seqZ 0 n) = true → ∀ z, 0 ≤ z < n → f z = g z.
Proof. intros H z Hz. apply Z.eqb_eq. by apply (range_forall n (λ z, f z =? g z)). Qed.

(** ** Lists *)

(** First position at which [pat] occurs in [l]: [std::search]; [None] when the
    search returns the end of the range. *)
Fixpoint search (pat l : bytes) : option Z :=
  if bool_decide (take (length pat) l = pat) then Some 0
  else match l with
       | [] => None
       | _ :: l => Z.add 1 <$> search pat l
       end.

(** Position of the first [c]: [std::find]; the length when there is none. *)
Fixpoint find_char (c : Z) (l : bytes) : Z :=
  match l with
  | [] => 0
  | x :: l => if x =? c then 0 else 1 + find_char c l
  end.

Definition ztake (n : Z) (l : bytes) : bytes := take (Z.to_nat n) l.
Definition zdrop (n : Z) (l : bytes) : bytes := drop (Z.to_nat n) l.

Lemma ztake_zdrop n l : ztake n l ++ zdrop n l = l.
Proof. apply take_drop. Qed.

Lemma ztake_app n l1 l2 : n = zlen l1 → ztake n (l1 ++ l2) = l1.
Proof. intros ->. unfold ztake. rewrite Nat2Z.id. apply take_app_length. Qed.

Lemma zdrop_app n l1 l2 : n = zlen l1 → zdrop n (l1 ++ l2) = l2.
Proof. intros ->. unfold zdrop. rewrite Nat2Z.id. apply drop_app_length. Qed.

(** A prefix that fits into the first part of a split sequence. *)
Lemma app_prefix (a c v fut : bytes) :
  v ++ fut = a ++ c → zlen a ≤ zlen v → ∃ tail, v = a ++ tail ∧ tail ++ fut = c.
Proof.
  intros Heq Hl. exists (drop (length a) v).
  assert (take (length a) v = a) as Ht.
  { apply (f_equal (take (length a))) in Heq.
    by rewrite take_app_le, take_app_length in Heq by lia. }
  split; [by rewrite <- Ht at 1; rewrite take_drop|].
  apply (f_equal (drop (length a))) in Heq.
  by rewrite drop_app_le, drop_app_length in Heq by lia.
Qed.

Lemma length_ztake n l : 0 ≤ n ≤ zlen l → zlen (ztake n l) = n.
Proof. intros. unfold ztake. rewrite length_take. lia. Qed.

Lemma length_zdrop n l : 0 ≤ n ≤ zlen l → zlen (zdrop n l) = zlen l - n.
Proof. intros. unfold zdrop. rewrite length_drop. lia. Qed.

Lemma ztake_all n l : zlen l ≤ n → ztake n l = l.
Proof. intros. apply take_ge. lia. Qed.

Lemma zdrop_all n l : zlen l ≤ n → zdrop n l = [].
Proof. intros. apply drop_ge. lia. Qed.

Lemma Forall_ztake P n l : Forall P l → Forall P (ztake n l).
Proof. apply Forall_take. Qed.

Lemma Forall_zdrop P n l : Forall P l → Forall P (zdrop n l).
Proof. apply Forall_drop. Qed.

#[export] Hint Resolve Forall_ztake Forall_zdrop : ws.

(** [search] finds the leftmost occurrence. *)
Lemma search_Some pat l i :
  search pat l = Some i →
  0 ≤ i ∧ i + zlen pat ≤ zlen l ∧ ztake (zlen pat) (zdrop i l) = pat.
Proof.
  revert i. induction l as [|x l IH]; intros i; cbn [search];
    case_bool_decide as Hp; intros H; simplify_eq.
  - assert (length pat = 0%nat) as Hl.
    { apply (f_equal length) in Hp. rewrite length_take in Hp. cbn in Hp. lia. }
    unfold ztake, zdrop. rewrite Hl, Nat2Z.id in *. cbn in *. split_and!; [lia..|done].
  - assert (length pat ≤ length (x :: l))%nat as Hl.
    { apply (f_equal length) in Hp. rewrite length_take in Hp. lia. }
    unfold ztake, zdrop. rewrite Nat2Z.id. split_and!; [lia..|done].
  - apply fmap_Some in H as (j & Hj & ->).
    destruct (IH j Hj) as (? & ? & Ht). unfold ztake, zdrop in *.
    rewrite Nat2Z.id in *. replace (Z.to_nat (1 + j)) with (S (Z.to_nat j)) by lia.
    cbn [drop length]. split_and!; [lia..|done].
Qed.

Lemma search_None_app pat l1 l2 :
  search pat (l1 ++ pat ++ l2) ≠ None.
Proof.
  induction l1 as [|x l1 IH]; cbn [app].
  - destruct (pat ++ l2) as [|y l] eqn:E; cbn [search]; rewrite bool_decide_true; try done;
      rewrite <- E; apply take_app_length.
  - cbn [search]. case_bool_decide; [done|]. by destruct (search _ _).
Qed.

Lemma find_char_range c l : 0 ≤ find_char c l ≤ zlen l.
Proof. induction l as [|x l IH]; cbn; [lia|]. destruct (x =? c); lia. Qed.

Lemma find_char_app c l1 l2 : c ∉ l1 → find_char c (l1 ++ c :: l2) = zlen l1.
Proof.
  intros Hc. induction l1 as [|x l1 IH]; cbn [find_char app].
  - by rewrite Z.eqb_refl.
  - rewrite not_elem_of_cons in Hc. destruct Hc as [Hx Hl].
    rewrite (proj2 (Z.eqb_neq x c)) by done. rewrite IH by done. cbn [length]. lia.
Qed.

Lemma find_char_none c l : c ∉ l → find_char c l = zlen l.
Proof.
  intros Hc. induction l as [|x l IH]; cbn [find_char]; [done|].
  rewrite not_elem_of_cons in Hc. destruct Hc as [Hx Hl].
  rewrite (proj2 (Z.eqb_neq x c)) by done. rewrite IH by done. cbn [length]. lia.
Qed.

(** A line without a CR ends at the CRLF that follows it. *)
Lemma search_line cr lf l rest : cr ∉ l → search [cr; lf] (l ++ cr :: lf :: rest) = Some (zlen l).
Proof.
  intros Hc. induction l as [|x l IH]; cbn [app].
  - cbn. by rewrite bool_decide_true.
  - rewrite not_elem_of_cons in Hc. destruct Hc as [Hx Hl]. cbn [search].
    rewrite bool_decide_false; [|cbn; by intros [= Heq _]].
    rewrite IH by done. cbn. f_equal. lia.
Qed.

Lemma zlen_app_neqb {A} (l : list A) x r : (zlen l =? zlen (l ++ x :: r)) = false.
Proof. apply Z.eqb_neq. rewrite length_app. cbn [length]. lia. Qed.

(** [search] finds nothing later than an occurrence. *)
Lemma search_first pat a x i : search pat (a ++ pat ++ x) = Some i → i ≤ zlen a.
Proof.
  revert i. induction a as [|c a IH]; intros i; cbn [app].
  - assert (search pat (pat ++ x) = Some 0) as ->; [|by intros [= <-]].
    destruct (pat ++ x) as [|y l] eqn:E; cbn [search]; rewrite <- ?E, take_app_length;
      by rewrite bool_decide_true.
  - cbn [search]. case_bool_decide; [intros [= <-]; lia|].
    intros (j & Hj & ->)%fmap_Some. apply IH in Hj. cbn [length]. lia.
Qed.
