(* ===== verification/Endian.v ===== *)
(** * Endian: byte order conversions (src/libwebsocket/private/Endian.h)

    The host is little-endian: the wire image of an integer is its memory image
    read backwards.  [hostToNetwork*] and [networkToHost*] are glibc's
    [htobe*]/[be*toh] on such a host, i.e. byte reversals of the operand, which
    is first converted to the parameter's width.  The hand-written readers
    [be*BigEndian]/[be*LittleEndian] index a byte array and shift operands that
    C++ promotes to [int]. *)

From S2P Require Import Prelude.

Module Endian.

(** Byte reversal of an [n]-byte integer. *)
Definition bswap (n : nat) (z : Z) : Z := le_combine (rev (le_split n z)).

Definition hostToNetwork64 (host64 : Z) : Z := bswap 8 (u64 host64).
Definition hostToNetwork32 (host32 : Z) : Z := bswap 4 (u32 host32).
Definition hostToNetwork16 (host16 : Z) : Z := bswap 2 (u16 host16).
Definition networkToHost64 (net64 : Z) : Z := bswap 8 (u64 net64).
Definition networkToHost32 (net32 : Z) : Z := bswap 4 (u32 net32).
Definition networkToHost16 (net16 : Z) : Z := bswap 2 (u16 net16).

(** The [n] bytes of [z] in network order, as RFC 6455 lays them out. *)
Definition be_bytes (n : nat) (z : Z) : bytes := rev (le_split n z).

(** [ch[i]] and the shift of a promoted [uint8_t]: the operand has type [int],
    so a count of 32 or more has no defined result. *)
Definition byte_at (ch : bytes) (i : nat) : outcome Z :=
  match ch !! i with
  | Some c => Ret c
  | None => Abort OutOfBounds
  end.

Definition shl_int (c n : Z) : outcome Z :=
  if n <? 32 then Ret (s32 (Z.shiftl c n)) else Abort UndefinedShift.

Definition be16BigEndian (ch : bytes) : outcome Z :=
  c0 ← byte_at ch 0; c1 ← byte_at ch 1; c2 ← byte_at ch 2; c3 ← byte_at ch 3;
  x0 ← shl_int c0 8;
  Ret (u16 (Z.lor x0 c1)).

Definition be16LittleEndian (ch : bytes) : outcome Z :=
  c0 ← byte_at ch 0; c1 ← byte_at ch 1;
  x1 ← shl_int c1 8;
  Ret (u16 (Z.lor x1 c0)).

Definition be32BigEndian (ch : bytes) : outcome Z :=
  c0 ← byte_at ch 0; c1 ← byte_at ch 1; c2 ← byte_at ch 2; c3 ← byte_at ch 3;
  x0 ← shl_int c0 24; x1 ← shl_int c1 16; x2 ← shl_int c2 8;
  Ret (u32 (Z.lor (Z.lor (Z.lor x0 x1) x2) c3)).

Definition be32LittleEndian (ch : bytes) : outcome Z :=
  c0 ← byte_at ch 0; c1 ← byte_at ch 1; c2 ← byte_at ch 2; c3 ← byte_at ch 3;
  x3 ← shl_int c3 24; x2 ← shl_int c2 16; x1 ← shl_int c1 8;
  Ret (u32 (Z.lor (Z.lor (Z.lor x3 x2) x1) c0)).

Definition be64BigEndian (ch : bytes) : outcome Z :=
  c0 ← byte_at ch 0; c1 ← byte_at ch 1; c2 ← byte_at ch 2; c3 ← byte_at ch 3;
  c4 ← byte_at ch 4; c5 ← byte_at ch 5; c6 ← byte_at ch 6; c7 ← byte_at ch 7;
  x0 ← shl_int c0 56; x1 ← shl_int c1 48; x2 ← shl_int c2 40; x3 ← shl_int c3 32;
  x4 ← shl_int c4 24; x5 ← shl_int c5 16; x6 ← shl_int c6 8;
  Ret (u64 (Z.lor (Z.lor (Z.lor (Z.lor (Z.lor (Z.lor (Z.lor x0 x1) x2) x3) x4) x5) x6) c7)).

Definition be64LittleEndian (ch : bytes) : outcome Z :=
  c0 ← byte_at ch 0; c1 ← byte_at ch 1; c2 ← byte_at ch 2; c3 ← byte_at ch 3;
  c4 ← byte_at ch 4; c5 ← byte_at ch 5; c6 ← byte_at ch 6; c7 ← byte_at ch 7;
  x7 ← shl_int c7 56; x6 ← shl_int c6 48; x5 ← shl_int c5 40; x4 ← shl_int c4 32;
  x3 ← shl_int c3 24; x2 ← shl_int c2 16; x1 ← shl_int c1 8;
  Ret (u64 (Z.lor (Z.lor (Z.lor (Z.lor (Z.lor (Z.lor (Z.lor x7 x6) x5) x4) x3) x2) x1) c0)).

(** ** Byte reversal *)

Lemma bswap_range n z : 0 ≤ bswap n z < 2 ^ (8 * Z.of_nat n).
Proof.
  unfold bswap. pose proof (le_combine_range (rev (le_split n z))) as H.
  rewrite length_rev, length_le_split in H. apply H, Forall_rev, le_split_bytes.
Qed.

Lemma le_split_bswap n z : le_split n (bswap n z) = rev (le_split n z).
Proof.
  unfold bswap. rewrite <- (le_split_combine (rev (le_split n z))) at 2.
  - by rewrite length_rev, length_le_split.
  - apply Forall_rev, le_split_bytes.
Qed.

Lemma bswap_involutive n z : bswap n (bswap n z) = z mod 2 ^ (8 * Z.of_nat n).
Proof.
  unfold bswap at 1. rewrite le_split_bswap, rev_involutive. apply le_combine_split.
Qed.

Lemma bswap_combine l : Forall_byte l → bswap (length l) (le_combine l) = le_combine (rev l).
Proof. intros. unfold bswap. by rewrite le_split_combine. Qed.

(** The value [networkToHost16] recovers from two wire bytes read as a
    little-endian [int16_t]. *)
Lemma networkToHost16_be_bytes n :
  0 ≤ n < 2 ^ 16 → networkToHost16 (s16 (le_combine (be_bytes 2 n))) = n.
Proof.
  intros Hn. unfold networkToHost16, be_bytes. rewrite u16_s16, u16_small.
  - change (le_combine (rev (le_split 2 n))) with (bswap 2 n).
    rewrite bswap_involutive. by apply Z.mod_small.
  - apply (bswap_range 2 n).
Qed.

Lemma networkToHost64_be_bytes n :
  0 ≤ n < 2 ^ 64 → networkToHost64 (s64 (le_combine (be_bytes 8 n))) = n.
Proof.
  intros Hn. unfold networkToHost64, be_bytes. rewrite u64_s64, u64_small.
  - change (le_combine (rev (le_split 8 n))) with (bswap 8 n).
    rewrite bswap_involutive. by apply Z.mod_small.
  - apply (bswap_range 8 n).
Qed.

Lemma length_be_bytes n z : length (be_bytes n z) = n.
Proof. unfold be_bytes. by rewrite length_rev, length_le_split. Qed.

Lemma be_bytes_bytes n z : Forall_byte (be_bytes n z).
Proof. apply Forall_rev, le_split_bytes. Qed.

#[export] Hint Rewrite length_be_bytes : bytes.
#[export] Hint Resolve be_bytes_bytes : ws.

(** The conversions are inverse to each other on every width. *)
Theorem network_host_roundtrip z :
  (0 ≤ z < 2 ^ 16 → networkToHost16 (hostToNetwork16 z) = z) ∧
  (0 ≤ z < 2 ^ 32 → networkToHost32 (hostToNetwork32 z) = z) ∧
  (0 ≤ z < 2 ^ 64 → networkToHost64 (hostToNetwork64 z) = z).
Proof.
  unfold networkToHost16, networkToHost32, networkToHost64,
    hostToNetwork16, hostToNetwork32, hostToNetwork64, u16, u32, u64.
  split_and!; intros Hz.
  - rewrite (Z.mod_small (bswap 2 _)) by apply (bswap_range 2).
    rewrite bswap_involutive. change (8 * Z.of_nat 2) with 16.
    by rewrite Zmod_mod, Z.mod_small.
  - rewrite (Z.mod_small (bswap 4 _)) by apply (bswap_range 4).
    rewrite bswap_involutive. change (8 * Z.of_nat 4) with 32.
    by rewrite Zmod_mod, Z.mod_small.
  - rewrite (Z.mod_small (bswap 8 _)) by apply (bswap_range 8).
    rewrite bswap_involutive. change (8 * Z.of_nat 8) with 64.
    by rewrite Zmod_mod, Z.mod_small.
Qed.

(** ** The hand-written readers *)

Lemma shl_int_ok c n : n < 32 → shl_int c n = Ret (s32 (Z.shiftl c n)).
Proof. intros. unfold shl_int. rewrite (proj2 (Z.ltb_lt n 32)) by done. done. Qed.

(** On a 4-byte array [be32BigEndian] is the network-order value. *)
Theorem be32BigEndian_correct c0 c1 c2 c3 :
  Forall_byte [c0; c1; c2; c3] →
  be32BigEndian [c0; c1; c2; c3] = Ret (le_combine (rev [c0; c1; c2; c3])).
Proof.
  rewrite !Forall_cons. unfold is_byte. intros (? & ? & ? & ? & _).
  unfold be32BigEndian. cbn [byte_at lookup list_lookup]. orun.
  rewrite !shl_int_ok by lia. orun. f_equal. cbn [rev app le_combine].
  rewrite !u32_lor, !u32_s32, !Z.shiftl_mul_pow2 by lia.
  unfold u32. rewrite !Z.mod_small by lia.
  rewrite <- (Z.shiftl_mul_pow2 c0 24), <- (Z.shiftl_mul_pow2 c1 16),
    <- (Z.shiftl_mul_pow2 c2 8) by lia.
  rewrite <- !Z.lor_assoc.
  rewrite (lor_shiftl_add c2 c3 8) by lia.
  rewrite (lor_shiftl_add c1 _ 16) by lia.
  rewrite (lor_shiftl_add c0 _ 24) by lia. lia.
Qed.

Lemma be32BigEndian_correct_witness :
  be32BigEndian [0x37; 0xFA; 0x21; 0x3D] = Ret (le_combine (rev [0x37; 0xFA; 0x21; 0x3D])).
Proof. apply be32BigEndian_correct. by apply (bool_decide_unpack _). Defined.

(** Reading 64 bits shifts an [int] by 56: no input gives a defined result. *)
Theorem be64BigEndian_undefined ch :
  be64BigEndian ch = Abort UndefinedShift ∨ be64BigEndian ch = Abort OutOfBounds.
Proof.
  do 8 (destruct ch as [|? ch]; [right; reflexivity|]).
  left. reflexivity.
Qed.

(** Reading a 16-bit value from a 2-byte array runs past its end. *)
Theorem be16BigEndian_overrun c0 c1 : be16BigEndian [c0; c1] = Abort OutOfBounds.
Proof. reflexivity. Qed.

End Endian.
