(* ===== verification/BytesBuffer.v ===== *)
(** * BytesBuffer: the byte buffer interface (src/libwebsocket/IBytesBuffer.h)

    The protocol code never names a buffer class: it works on the abstract
    [IBytesBuffer].  [IBytesBuffer] is the class of the operations it calls, and
    [BytesBufferLaws] is what it relies on: a buffer denotes the sequence of its
    readable bytes ([view]), operations act on that sequence, and an append
    succeeds while the buffer has [room].  A [char const*] into the readable
    bytes is an offset from [peek()]; reading or writing through it outside the
    readable bytes is the fault [OutOfBounds]. *)

From S2P Require Import Prelude.

Definition kCRLF : bytes := [13; 10].
Definition kCRLFCRLF : bytes := [13; 10; 13; 10].

Class IBytesBuffer (B : Type) : Type := {
  b_readableBytes : B → Z;
  (** [memcpy(dst, buf->peek(), n)] *)
  b_peekBytes : B → Z → outcome bytes;
  (** [*(buf->peek() + i) = v] *)
  b_pokeByte : B → Z → Z → outcome B;
  b_findCRLFCRLF : B → option Z;
  b_findCRLF : B → option Z;
  b_retrieve : B → Z → outcome B;
  b_retrieveUntil : B → Z → outcome B;
  b_retrieveAll : B → B;
  b_append : B → bytes → outcome B;
  b_readInt64 : B → outcome (Z * B);
  b_readInt16 : B → outcome (Z * B);
}.

(** [b'] has the readable bytes [v] and room for [r] more. *)
Record buf_has {B} (inv : B → Prop) (view : B → bytes) (room : B → Z)
    (b' : B) (v : bytes) (r : Z) : Prop := BufHas {
  bh_inv : inv b';
  bh_view : view b' = v;
  bh_room : r ≤ room b';
}.

Class BytesBufferLaws (B : Type) `{!IBytesBuffer B} : Type := {
  buf_inv : B → Prop;
  view : B → bytes;
  room : B → Z;
  max_room : Z;
  view_bytes b : buf_inv b → Forall_byte (view b);
  view_fits b : buf_inv b → zlen (view b) < 2 ^ 63;
  readableBytes_view b : buf_inv b → b_readableBytes b = zlen (view b);
  peekBytes_view b n : buf_inv b → 0 ≤ n ≤ zlen (view b) →
    b_peekBytes b n = Ret (ztake n (view b));
  pokeByte_view b i v : buf_inv b → 0 ≤ i < zlen (view b) → is_byte v →
    ∃ b', b_pokeByte b i v = Ret b' ∧
      buf_has buf_inv view room b' (<[Z.to_nat i := v]> (view b)) (room b);
  findCRLFCRLF_view b : buf_inv b → b_findCRLFCRLF b = search kCRLFCRLF (view b);
  findCRLF_view b : buf_inv b → b_findCRLF b = search kCRLF (view b);
  retrieve_view b n : buf_inv b → 0 ≤ n ≤ zlen (view b) →
    ∃ b', b_retrieve b n = Ret b' ∧ buf_has buf_inv view room b' (zdrop n (view b)) (room b);
  retrieveUntil_view b n : buf_inv b → 0 ≤ n ≤ zlen (view b) →
    ∃ b', b_retrieveUntil b n = Ret b' ∧
      buf_has buf_inv view room b' (zdrop n (view b)) (room b);
  retrieveAll_view b : buf_inv b → buf_has buf_inv view room (b_retrieveAll b) [] max_room;
  append_view b d : buf_inv b → Forall_byte d → zlen d ≤ room b →
    ∃ b', b_append b d = Ret b' ∧
      buf_has buf_inv view room b' (view b ++ d) (room b - zlen d);
  readInt64_view b : buf_inv b → 8 ≤ zlen (view b) →
    ∃ b', b_readInt64 b = Ret (s64 (le_combine (ztake 8 (view b))), b') ∧
      buf_has buf_inv view room b' (zdrop 8 (view b)) (room b);
  readInt16_view b : buf_inv b → 2 ≤ zlen (view b) →
    ∃ b', b_readInt16 b = Ret (s16 (le_combine (ztake 2 (view b))), b') ∧
      buf_has buf_inv view room b' (zdrop 2 (view b)) (room b);
}.

Notation buf_is b v r := (buf_has buf_inv view room b v r).

(** What a step leaves in a buffer, when only the readable bytes matter. *)
Lemma buf_is_weaken `{BytesBufferLaws B} b v r r' : r' ≤ r → buf_is b v r → buf_is b v r'.
Proof. intros ? []. split; [done..|lia]. Qed.

Lemma buf_is_readable `{BytesBufferLaws B} b v r :
  buf_is b v r → b_readableBytes b = zlen v.
Proof. intros [Hi <- _]. by apply readableBytes_view. Qed.

(** The same buffer with [k] bytes of its room set aside. *)
Lemma reserve_has {B} (inv : B → Prop) vw (rm : B → Z) k b v r : buf_has inv vw rm b v (r + k) →
  buf_has inv vw (λ b, rm b - k) b v r.
Proof. intros []. split; [done..|lia]. Qed.

Lemma reserve_run {B} (inv : B → Prop) vw (rm : B → Z) k (m : B → Prop) v r r' : r' + k ≤ r →
  (∃ b, m b ∧ buf_has inv vw rm b v r) → ∃ b, m b ∧ buf_has inv vw (λ b, rm b - k) b v r'.
Proof. intros Hr (b & Hm & []). exists b. split; [done|]. apply reserve_has. split; [done..|lia]. Qed.

Definition reserve_laws {B} `{!IBytesBuffer B} (L : BytesBufferLaws B) (k : Z) (Hk : 0 ≤ k) : BytesBufferLaws B.
Proof.
  refine {| buf_inv := buf_inv; view := view; room b := room b - k; max_room := max_room - k |}.
  - apply view_bytes.
  - apply view_fits.
  - apply readableBytes_view.
  - apply peekBytes_view.
  - intros b i v ? ? ?. eapply (reserve_run _ _ _ _ (λ b', _ = Ret b')); [|by apply pokeByte_view]. lia.
  - apply findCRLFCRLF_view.
  - apply findCRLF_view.
  - intros b n ? ?. eapply (reserve_run _ _ _ _ (λ b', _ = Ret b')); [|by apply retrieve_view]. lia.
  - intros b n ? ?. eapply (reserve_run _ _ _ _ (λ b', _ = Ret b')); [|by apply retrieveUntil_view]. lia.
  - intros b ?. apply reserve_has. replace (max_room - k + k) with max_room by lia. by apply retrieveAll_view.
  - intros b d ? ? ?. eapply (reserve_run _ _ _ _ (λ b', _ = Ret b')); [|apply append_view; [done..|lia]]. lia.
  - intros b ? ?. eapply (reserve_run _ _ _ _ (λ b', _ = Ret (_, b'))); [|by apply readInt64_view]. lia.
  - intros b ? ?. eapply (reserve_run _ _ _ _ (λ b', _ = Ret (_, b'))); [|by apply readInt16_view]. lia.
Defined.

#[export] Hint Resolve view_bytes : ws.
