(* ===== verification/Buffer.v ===== *)
(** * Buffer: muduo's growable byte buffer
    (src/muduo-vip/muduo/net/Buffer.h and Buffer.cc)

    The storage is a [std::vector<char>] (a list of bytes) with two indices of
    type [size_t]; all index arithmetic is written modulo 2^64.  Growing the
    vector past [max_size()] throws [std::length_error].  Every operation is
    shown to keep [0 <= readerIndex_ <= writerIndex_ <= size], to act on the
    readable bytes as its name says, and never to fail one of the class's own
    assertions when it is called within its documented contract; the module
    ends with the instance that makes [Buffer] an implementation of
    [IBytesBuffer]. *)

From S2P Require Import Prelude BytesBuffer.

Module Buffer.

Definition kCheapPrepend : Z := 8.
Definition kInitialSize : Z := 1024.

(** [std::vector<char>::max_size()]. *)
Definition kMaxSize : Z := 2 ^ 63 - 1.

Record Buffer : Type := mkBuffer {
  buffer_ : bytes;
  readerIndex_ : Z;
  writerIndex_ : Z;
}.

#[global] Instance Buffer_eq_dec : EqDecision Buffer.
Proof. solve_decision. Defined.

(** ** The vector *)

Definition vector_resize (v : bytes) (n : Z) : outcome bytes :=
  if n <=? kMaxSize
  then Ret (ztake n v ++ replicate (Z.to_nat (n - zlen v)) 0)
  else Abort LengthError.

(** The bytes of [v] from index [i] up to index [j]. *)
Definition slice (v : bytes) (i j : Z) : bytes := ztake (j - i) (zdrop i v).

(** [std::copy] of [d] to [begin() + i]. *)
Definition write_at (v : bytes) (i : Z) (d : bytes) : outcome bytes :=
  in_bounds ((0 <=? i) && (i + zlen d <=? zlen v)) ;;
  Ret (ztake i v ++ d ++ zdrop (i + zlen d) v).

(** ** Observers *)

Definition readableBytes (b : Buffer) : Z := u64 (writerIndex_ b - readerIndex_ b).
Definition writableBytes (b : Buffer) : Z := u64 (zlen (buffer_ b) - writerIndex_ b).
Definition prependableBytes (b : Buffer) : Z := readerIndex_ b.

(** The bytes between [peek()] and [beginWrite()]. *)
Definition readable (b : Buffer) : bytes :=
  slice (buffer_ b) (readerIndex_ b) (writerIndex_ b).

Definition Buffer_ctor (initialSize : Z) : outcome Buffer :=
  v ← vector_resize [] (u64 (kCheapPrepend + initialSize));
  let b := mkBuffer v kCheapPrepend kCheapPrepend in
  assert (readableBytes b =? 0) ;;
  assert (writableBytes b =? initialSize) ;;
  assert (prependableBytes b =? kCheapPrepend) ;;
  Ret b.

Definition swap (b rhs : Buffer) : Buffer * Buffer := (rhs, b).

(** Reading [n] bytes at [peek()]: within the readable bytes. *)
Definition peekBytes (b : Buffer) (n : Z) : outcome bytes :=
  in_bounds ((0 <=? n) && (n <=? readableBytes b)) ;;
  Ret (ztake n (readable b)).

(** Writing one byte at [peek() + i]: within the readable bytes. *)
Definition pokeByte (b : Buffer) (i v : Z) : outcome Buffer :=
  in_bounds ((0 <=? i) && (i <? readableBytes b)) ;;
  l ← write_at (buffer_ b) (readerIndex_ b + i) [v];
  Ret (mkBuffer l (readerIndex_ b) (writerIndex_ b)).

(** The searches return an offset from [peek()]; [NULL] is [None]. *)
Definition findCRLFCRLF (b : Buffer) : option Z := search kCRLFCRLF (readable b).
Definition findCRLF (b : Buffer) : option Z := search kCRLF (readable b).

Definition findCRLF_from (b : Buffer) (start : Z) : outcome (option Z) :=
  assert (0 <=? start) ;;
  assert (start <=? readableBytes b) ;;
  Ret (Z.add start <$> search kCRLF (zdrop start (readable b))).

Definition memchr (c : Z) (l : bytes) : option Z :=
  if find_char c l =? zlen l then None else Some (find_char c l).

Definition findEOL (b : Buffer) : option Z := memchr 10 (readable b).

Definition findEOL_from (b : Buffer) (start : Z) : outcome (option Z) :=
  assert (0 <=? start) ;;
  assert (start <=? readableBytes b) ;;
  Ret (Z.add start <$> memchr 10 (zdrop start (readable b))).

(** ** Taking bytes out *)

Definition retrieveAll (b : Buffer) : Buffer :=
  mkBuffer (buffer_ b) kCheapPrepend kCheapPrepend.

Definition retrieve (b : Buffer) (len : Z) : outcome Buffer :=
  assert (len <=? readableBytes b) ;;
  if len <? readableBytes b
  then Ret (mkBuffer (buffer_ b) (u64 (readerIndex_ b + len)) (writerIndex_ b))
  else Ret (retrieveAll b).

Definition retrieveUntil (b : Buffer) (end_ : Z) : outcome Buffer :=
  assert (0 <=? end_) ;;
  assert (end_ <=? readableBytes b) ;;
  retrieve b end_.

Definition retrieveInt64 (b : Buffer) : outcome Buffer := retrieve b 8.
Definition retrieveInt32 (b : Buffer) : outcome Buffer := retrieve b 4.
Definition retrieveInt16 (b : Buffer) : outcome Buffer := retrieve b 2.
Definition retrieveInt8 (b : Buffer) : outcome Buffer := retrieve b 1.

Definition retrieveAsString (b : Buffer) (len : Z) : outcome (bytes * Buffer) :=
  assert (len <=? readableBytes b) ;;
  result ← peekBytes b len;
  b' ← retrieve b len;
  Ret (result, b').

Definition retrieveAllAsString (b : Buffer) : outcome (bytes * Buffer) :=
  retrieveAsString b (readableBytes b).

(** ** Putting bytes in *)

Definition makeSpace (b : Buffer) (len : Z) : outcome Buffer :=
  if u64 (writableBytes b + prependableBytes b) <? u64 (len + kCheapPrepend) then
    v ← vector_resize (buffer_ b) (u64 (writerIndex_ b + len));
    Ret (mkBuffer v (readerIndex_ b) (writerIndex_ b))
  else
    assert (kCheapPrepend <? readerIndex_ b) ;;
    let readable_ := readableBytes b in
    v ← write_at (buffer_ b) kCheapPrepend (readable b);
    let b' := mkBuffer v kCheapPrepend (u64 (kCheapPrepend + readable_)) in
    assert (readable_ =? readableBytes b') ;;
    Ret b'.

Definition ensureWritableBytes (b : Buffer) (len : Z) : outcome Buffer :=
  b' ← (if writableBytes b <? len then makeSpace b len else Ret b);
  assert (len <=? writableBytes b') ;;
  Ret b'.

Definition hasWritten (b : Buffer) (len : Z) : outcome Buffer :=
  assert (len <=? writableBytes b) ;;
  Ret (mkBuffer (buffer_ b) (readerIndex_ b) (u64 (writerIndex_ b + len))).

Definition unwrite (b : Buffer) (len : Z) : outcome Buffer :=
  assert (len <=? readableBytes b) ;;
  Ret (mkBuffer (buffer_ b) (readerIndex_ b) (u64 (writerIndex_ b - len))).

Definition append (b : Buffer) (data : bytes) : outcome Buffer :=
  b1 ← ensureWritableBytes b (zlen data);
  v ← write_at (buffer_ b1) (writerIndex_ b1) data;
  hasWritten (mkBuffer v (readerIndex_ b1) (writerIndex_ b1)) (zlen data).

Definition prepend (b : Buffer) (data : bytes) : outcome Buffer :=
  assert (zlen data <=? prependableBytes b) ;;
  let r := u64 (readerIndex_ b - zlen data) in
  v ← write_at (buffer_ b) r data;
  Ret (mkBuffer v r (writerIndex_ b)).

(** Integers are stored as they lie in memory ([_MUDUO_HOSTTONET_TRANSFORM_]
    is not defined). *)
Definition appendInt64 (b : Buffer) (x : Z) : outcome Buffer := append b (le_split 8 x).
Definition appendInt32 (b : Buffer) (x : Z) : outcome Buffer := append b (le_split 4 x).
Definition appendInt16 (b : Buffer) (x : Z) : outcome Buffer := append b (le_split 2 x).
Definition appendInt8 (b : Buffer) (x : Z) : outcome Buffer := append b (le_split 1 x).

Definition prependInt64 (b : Buffer) (x : Z) : outcome Buffer := prepend b (le_split 8 x).
Definition prependInt32 (b : Buffer) (x : Z) : outcome Buffer := prepend b (le_split 4 x).
Definition prependInt16 (b : Buffer) (x : Z) : outcome Buffer := prepend b (le_split 2 x).
Definition prependInt8 (b : Buffer) (x : Z) : outcome Buffer := prepend b (le_split 1 x).

Definition peekInt64 (b : Buffer) : outcome Z :=
  assert (8 <=? readableBytes b) ;; l ← peekBytes b 8; Ret (s64 (le_combine l)).
Definition peekInt32 (b : Buffer) : outcome Z :=
  assert (4 <=? readableBytes b) ;; l ← peekBytes b 4; Ret (s32 (le_combine l)).
Definition peekInt16 (b : Buffer) : outcome Z :=
  assert (2 <=? readableBytes b) ;; l ← peekBytes b 2; Ret (s16 (le_combine l)).
Definition peekInt8 (b : Buffer) : outcome Z :=
  assert (1 <=? readableBytes b) ;; l ← peekBytes b 1; Ret (s8 (le_combine l)).

Definition readInt64 (b : Buffer) : outcome (Z * Buffer) :=
  result ← peekInt64 b; b' ← retrieveInt64 b; Ret (result, b').
Definition readInt32 (b : Buffer) : outcome (Z * Buffer) :=
  result ← peekInt32 b; b' ← retrieveInt32 b; Ret (result, b').
Definition readInt16 (b : Buffer) : outcome (Z * Buffer) :=
  result ← peekInt16 b; b' ← retrieveInt16 b; Ret (result, b').
Definition readInt8 (b : Buffer) : outcome (Z * Buffer) :=
  result ← peekInt8 b; b' ← retrieveInt8 b; Ret (result, b').

(** [toStringPiece] narrows the length to [int]; [append(StringPiece)] widens
    it back to [size_t]. *)
Definition toStringPiece (b : Buffer) : outcome bytes :=
  peekBytes b (u64 (s32 (readableBytes b))).

Definition shrink (b : Buffer) (reserve : Z) : outcome Buffer :=
  other ← Buffer_ctor kInitialSize;
  other ← ensureWritableBytes other (u64 (readableBytes b + reserve));
  piece ← toStringPiece b;
  other ← append other piece;
  Ret (fst (swap b other)).

(** [readFd]: [received] is what [readv] delivered into the two regions,
    [None] an error. *)
Definition kExtraBuf : Z := 65536.

Definition readFd (b : Buffer) (received : option bytes) : outcome (option Z * Buffer) :=
  let writable := writableBytes b in
  match received with
  | None => Ret (None, b)
  | Some data =>
      let n := zlen data in
      if n <=? writable then
        v ← write_at (buffer_ b) (writerIndex_ b) data;
        Ret (Some n, mkBuffer v (readerIndex_ b) (u64 (writerIndex_ b + n)))
      else
        v ← write_at (buffer_ b) (writerIndex_ b) (ztake writable data);
        b' ← append (mkBuffer v (readerIndex_ b) (zlen v)) (zdrop writable data);
        Ret (Some n, b')
  end.

(** ** The representation invariant *)

Record wf (b : Buffer) : Prop := Wf {
  wf_reader : 0 ≤ readerIndex_ b ≤ writerIndex_ b;
  wf_writer : writerIndex_ b ≤ zlen (buffer_ b);
  wf_size : kCheapPrepend ≤ zlen (buffer_ b) ≤ kMaxSize;
  wf_bytes : Forall_byte (buffer_ b);
}.

#[global] Instance wf_dec b : Decision (wf b).
Proof.
  refine (cast_if (decide (0 ≤ readerIndex_ b ∧ readerIndex_ b ≤ writerIndex_ b ∧
    writerIndex_ b ≤ zlen (buffer_ b) ∧ kCheapPrepend ≤ zlen (buffer_ b) ∧
    zlen (buffer_ b) ≤ kMaxSize ∧ Forall_byte (buffer_ b)))).
  - abstract (destruct_and!; by split).
  - abstract (intros []; tauto).
Defined.

(** How much can be appended before the vector would exceed [max_size()]. *)
Definition room_of (b : Buffer) : Z := kMaxSize - (writerIndex_ b `max` kCheapPrepend).

Section wf.
Context (b : Buffer) (Hwf : wf b).

Lemma u64_index z : 0 ≤ z ≤ 2 * kMaxSize → u64 z = z.
Proof using Type. intros. apply u64_small. unfold kMaxSize in *. lia. Qed.

Lemma readableBytes_eq : readableBytes b = writerIndex_ b - readerIndex_ b.
Proof using Hwf. destruct Hwf. apply u64_index. lia. Qed.

Lemma writableBytes_eq : writableBytes b = zlen (buffer_ b) - writerIndex_ b.
Proof using Hwf. destruct Hwf. apply u64_index. lia. Qed.

Lemma length_readable : zlen (readable b) = readableBytes b.
Proof using Hwf.
  rewrite readableBytes_eq. destruct Hwf. unfold readable, slice.
  rewrite length_ztake; rewrite ?length_zdrop; lia.
Qed.

Lemma readable_bytes : Forall_byte (readable b).
Proof using Hwf. destruct Hwf. unfold readable, slice. auto with ws. Qed.
End wf.
Arguments readableBytes_eq {b}.
Arguments writableBytes_eq {b}.
Arguments length_readable {b}.
#[local] Hint Resolve readable_bytes : ws.

(** ** Slices of the storage *)

Lemma write_at_ok v i d :
  0 ≤ i → i + zlen d ≤ zlen v →
  write_at v i d = Ret (ztake i v ++ d ++ zdrop (i + zlen d) v).
Proof. intros. unfold write_at. by orun. Qed.

Lemma length_write v i d :
  0 ≤ i → i + zlen d ≤ zlen v → zlen (ztake i v ++ d ++ zdrop (i + zlen d) v) = zlen v.
Proof.
  intros. rewrite !length_app, !Nat2Z.inj_add.
  rewrite length_ztake, length_zdrop by lia. lia.
Qed.

Lemma write_bytes v i d :
  Forall_byte v → Forall_byte d → Forall_byte (ztake i v ++ d ++ zdrop (i + zlen d) v).
Proof. intros. rewrite !Forall_app. auto with ws. Qed.

(** A slice ending where [d] is written, extended over [d]. *)
Lemma slice_write v r i d :
  0 ≤ r ≤ i → i + zlen d ≤ zlen v →
  slice (ztake i v ++ d ++ zdrop (i + zlen d) v) r (i + zlen d) = slice v r i ++ d.
Proof.
  intros. unfold slice, ztake, zdrop.
  rewrite drop_app_le by (rewrite length_take; lia).
  rewrite take_app_ge by (rewrite length_drop, length_take; lia).
  rewrite length_drop, length_take. f_equal.
  - rewrite skipn_firstn_comm. f_equal. lia.
  - rewrite take_app_le by lia. apply take_ge. lia.
Qed.

(** What lies before the written bytes is unchanged. *)
Lemma slice_write_before v r w i d :
  0 ≤ r ≤ w → w ≤ i → i + zlen d ≤ zlen v →
  slice (ztake i v ++ d ++ zdrop (i + zlen d) v) r w = slice v r w.
Proof.
  intros. unfold slice, ztake, zdrop.
  rewrite drop_app_le by (rewrite length_take; lia).
  rewrite take_app_le by (rewrite length_drop, length_take; lia).
  rewrite skipn_firstn_comm, take_take. f_equal. lia.
Qed.

Lemma slice_resize v n r w l :
  0 ≤ r ≤ w → w ≤ zlen v ≤ n → slice (ztake n v ++ l) r w = slice v r w.
Proof.
  intros. rewrite ztake_all by lia. unfold slice, ztake, zdrop.
  rewrite drop_app_le by lia. rewrite take_app_le; [done|]. rewrite length_drop. lia.
Qed.

Lemma zdrop_slice v r w n :
  0 ≤ n → n ≤ w - r → 0 ≤ r → zdrop n (slice v r w) = slice v (r + n) w.
Proof.
  intros. unfold slice, ztake, zdrop. rewrite skipn_firstn_comm, drop_drop.
  f_equal; [lia|]. f_equal. lia.
Qed.

(** ** What each operation does to the readable bytes *)

Notation has b' v r := (buf_has wf readable room_of b' v r).

Lemma slice_nil v i : slice v i i = [].
Proof. unfold slice, ztake. by rewrite Z.sub_diag. Qed.

Lemma Buffer_ctor_ok initialSize :
  0 ≤ initialSize ≤ kMaxSize - kCheapPrepend →
  ∃ b, Buffer_ctor initialSize = Ret b ∧ has b [] (kMaxSize - kCheapPrepend) ∧
    writableBytes b = initialSize.
Proof.
  unfold kCheapPrepend. intros H. unfold Buffer_ctor, vector_resize, kCheapPrepend.
  rewrite (u64_index (8 + initialSize)) by lia.
  rewrite (proj2 (Z.leb_le _ _)) by lia. cbn [length Z.of_nat]. orun.
  replace (ztake _ []) with (@nil Z) by (unfold ztake; by rewrite take_nil).
  set (b := mkBuffer _ _ _).
  assert (zlen (buffer_ b) = 8 + initialSize) as Hl.
  { cbn. rewrite length_replicate. lia. }
  assert (wf b) as Hb.
  { split; rewrite ?Hl; cbn; unfold kCheapPrepend; try lia. apply Forall_replicate. done. }
  assert (writableBytes b = initialSize) as Hw.
  { rewrite writableBytes_eq, Hl by done. cbn. lia. }
  rewrite readableBytes_eq, Hw by done. orun. exists b. split_and!; [done| |done].
  split; [done| |]; [|unfold room_of, kCheapPrepend; cbn; lia]. apply slice_nil.
Qed.

Lemma retrieveAll_has b : wf b → has (retrieveAll b) [] (kMaxSize - kCheapPrepend).
Proof.
  intros []. split; [|apply slice_nil|done].
  split; cbn; unfold kCheapPrepend in *; (done || lia).
Qed.

Lemma retrieve_has b n :
  wf b → 0 ≤ n ≤ zlen (readable b) →
  ∃ b', retrieve b n = Ret b' ∧ has b' (zdrop n (readable b)) (room_of b).
Proof.
  intros Hb Hn. rewrite length_readable in Hn by done. unfold retrieve. orun.
  destruct (Z.ltb_spec n (readableBytes b)) as [Hlt|Hge]; eexists; (split; [done|]).
  - rewrite readableBytes_eq in Hlt by done. destruct Hb as [Hr Hw Hs Hy].
    rewrite u64_index by lia. split; [split; cbn; (done || lia)| |done].
    unfold readable; cbn. rewrite zdrop_slice by lia. done.
  - destruct (retrieveAll_has b Hb) as [H1 H2 H3]. split; [done| |].
    + rewrite H2. symmetry. apply zdrop_all. rewrite length_readable by done. lia.
    + destruct Hb. unfold room_of, retrieveAll, kCheapPrepend in *. cbn in *.
      rewrite readableBytes_eq in * by done. lia.
Qed.

Lemma makeSpace_has b len :
  wf b → 0 ≤ len ≤ room_of b → writableBytes b < len →
  ∃ b', makeSpace b len = Ret b' ∧ has b' (readable b) (room_of b) ∧
    len ≤ writableBytes b'.
Proof.
  intros Hb Hlen Hlt. pose proof (readableBytes_eq Hb) as Hr.
  pose proof (writableBytes_eq Hb) as Hw. pose proof (length_readable Hb) as Hlr.
  pose proof Hb as [Hri Hwi Hsz Hby].
  unfold makeSpace, prependableBytes, room_of, kCheapPrepend in *.
  rewrite !(u64_index _) by (unfold kMaxSize in *; lia).
  destruct (Z.ltb_spec (writableBytes b + readerIndex_ b) (len + 8)).
  - unfold vector_resize. rewrite (proj2 (Z.leb_le _ _)) by lia. orun.
    eexists. split; [done|].
    set (b' := mkBuffer _ _ _).
    assert (zlen (buffer_ b') = writerIndex_ b + len) as Hl.
    { cbn. rewrite length_app, length_replicate, Nat2Z.inj_add, ztake_all by lia. lia. }
    assert (wf b') as Hb'.
    { split; rewrite ?Hl; cbn; unfold kCheapPrepend; try lia.
      apply Forall_app; split; [auto with ws|]. by apply Forall_replicate. }
    rewrite writableBytes_eq, Hl by done. split; [|cbn; lia]. split; [done| |done].
    unfold readable; cbn. apply slice_resize; lia.
  - orun. rewrite write_at_ok by lia. orun.
    set (b' := mkBuffer _ _ _).
    assert (zlen (buffer_ b') = zlen (buffer_ b)) as Hl.
    { unfold b'; cbn [buffer_]. apply length_write; lia. }
    assert (writerIndex_ b' = 8 + readableBytes b) as Hwb by done.
    assert (wf b') as Hb'.
    { split; rewrite ?Hl, ?Hwb; unfold kCheapPrepend; try (cbn; lia).
      unfold b'; cbn [buffer_]. apply write_bytes; auto with ws. }
    pose proof (readableBytes_eq Hb') as Hr'. rewrite Hwb in Hr'. cbn in Hr'.
    rewrite Hr'. orun. exists b'. rewrite writableBytes_eq, Hl, Hwb by done.
    split_and!; [done| |lia]. split; [done| |rewrite Hwb; lia].
    unfold readable at 1. rewrite Hwb. unfold b'; cbn [buffer_ readerIndex_].
    rewrite <- Hlr, slice_write by lia. by rewrite slice_nil.
Qed.

Lemma ensureWritableBytes_has b len :
  wf b → 0 ≤ len ≤ room_of b →
  ∃ b', ensureWritableBytes b len = Ret b' ∧ has b' (readable b) (room_of b) ∧
    len ≤ writableBytes b'.
Proof.
  intros Hb Hlen. unfold ensureWritableBytes.
  destruct (Z.ltb_spec (writableBytes b) len).
  - destruct (makeSpace_has b len) as (b' & -> & Hh & Hw); try done.
    orun. by exists b'.
  - orun. by exists b.
Qed.

Lemma fill_has b data :
  wf b → Forall_byte data → zlen data ≤ writableBytes b →
  write_at (buffer_ b) (writerIndex_ b) data =
    Ret (ztake (writerIndex_ b) (buffer_ b) ++ data ++
         zdrop (writerIndex_ b + zlen data) (buffer_ b)) ∧
  has (mkBuffer (ztake (writerIndex_ b) (buffer_ b) ++ data ++
                 zdrop (writerIndex_ b + zlen data) (buffer_ b))
         (readerIndex_ b) (u64 (writerIndex_ b + zlen data)))
    (readable b ++ data) (room_of b - zlen data).
Proof.
  intros Hb Hd Hlen. rewrite writableBytes_eq in Hlen by done.
  pose proof Hb as [Hri Hwi Hsz Hby]. split; [apply write_at_ok; lia|].
  rewrite u64_index by lia. split.
  - split; cbn [buffer_ readerIndex_ writerIndex_]; rewrite ?length_write by lia; try lia.
    by apply write_bytes.
  - unfold readable; cbn. apply slice_write; lia.
  - unfold room_of; cbn. lia.
Qed.

Lemma append_has b data :
  wf b → Forall_byte data → zlen data ≤ room_of b →
  ∃ b', append b data = Ret b' ∧ has b' (readable b ++ data) (room_of b - zlen data).
Proof.
  intros Hb Hd Hlen. unfold append.
  destruct (ensureWritableBytes_has b (zlen data)) as (b1 & -> & [Hb1 Hv Hr] & Hw);
    [done|lia|]. orun.
  destruct (fill_has b1 data) as [-> [H1 H2 H3]]; [done..|]. orun. unfold hasWritten.
  set (b2 := mkBuffer _ (readerIndex_ b1) (writerIndex_ b1)).
  assert (writableBytes b2 = writableBytes b1) as Hw2.
  { rewrite writableBytes_eq in Hw by done. pose proof Hb1 as []. unfold writableBytes, b2.
    cbn [buffer_ writerIndex_]. rewrite length_write by lia. done. }
  rewrite Hw2. orun. eexists. split; [done|].
  subst b2. cbn [buffer_ readerIndex_ writerIndex_].
  split; [done|by rewrite <- Hv|lia].
Qed.

Lemma prepend_has b data :
  wf b → Forall_byte data → zlen data ≤ prependableBytes b →
  ∃ b', prepend b data = Ret b' ∧ has b' (data ++ readable b) (room_of b).
Proof.
  intros Hb Hd Hlen. pose proof Hb as [Hri Hwi Hsz Hby].
  unfold prepend, prependableBytes in *. orun. rewrite u64_index by lia.
  rewrite write_at_ok by lia. orun. eexists. split; [done|]. split.
  - split; cbn [buffer_ readerIndex_ writerIndex_]; rewrite ?length_write by lia; try lia.
    by apply write_bytes.
  - unfold readable, slice, ztake, zdrop; cbn [buffer_ readerIndex_ writerIndex_].
    rewrite drop_app_ge by (rewrite length_take; lia). rewrite length_take.
    match goal with |- context [drop ?k (data ++ _)] => replace k with 0%nat by lia end.
    rewrite drop_0.
    rewrite take_app_ge by lia. f_equal. f_equal; [lia|]. f_equal. lia.
  - unfold room_of; cbn. lia.
Qed.

Lemma unwrite_has b len :
  wf b → 0 ≤ len ≤ readableBytes b →
  ∃ b', unwrite b len = Ret b' ∧
    has b' (ztake (readableBytes b - len) (readable b)) (room_of b).
Proof.
  intros Hb Hlen. pose proof Hb as [Hri Hwi Hsz Hby].
  unfold unwrite. orun. rewrite readableBytes_eq in * by done.
  rewrite u64_index by lia. eexists. split; [done|]. split.
  - split; cbn; (done || lia).
  - unfold readable, slice, ztake; cbn. rewrite take_take. f_equal. lia.
  - unfold room_of; cbn. lia.
Qed.

Lemma peekBytes_eq b n :
  wf b → 0 ≤ n ≤ zlen (readable b) → peekBytes b n = Ret (ztake n (readable b)).
Proof. intros Hb Hn. rewrite length_readable in Hn by done. unfold peekBytes. by orun. Qed.

Lemma pokeByte_has b i v :
  wf b → 0 ≤ i < zlen (readable b) → is_byte v →
  ∃ b', pokeByte b i v = Ret b' ∧
    has b' (<[Z.to_nat i := v]> (readable b)) (room_of b).
Proof.
  intros Hb Hi Hv. rewrite length_readable in Hi by done.
  pose proof (readableBytes_eq Hb) as Hr. pose proof Hb as [Hri Hwi Hsz Hby].
  unfold pokeByte. orun. rewrite write_at_ok by (cbn; lia). orun. eexists.
  split; [done|]. split; [| |done].
  - split; cbn [buffer_ readerIndex_ writerIndex_]; rewrite ?length_write by (cbn; lia);
      try lia. apply write_bytes; [done|by apply Forall_singleton].
  - unfold readable, slice, ztake, zdrop. cbn [buffer_ readerIndex_ writerIndex_ length].
    replace (Z.to_nat (readerIndex_ b + i + Z.of_nat 1))
      with (S (Z.to_nat (readerIndex_ b + i))) by lia.
    assert (Z.to_nat (readerIndex_ b + i) < length (buffer_ b))%nat as Hlt by lia.
    change ([v] ++ ?l) with (v :: l).
    rewrite <- insert_take_drop by done.
    rewrite drop_insert_ge by lia. rewrite take_insert_lt by lia.
    f_equal. lia.
Qed.

Lemma retrieveUntil_has b n :
  wf b → 0 ≤ n ≤ zlen (readable b) →
  ∃ b', retrieveUntil b n = Ret b' ∧ has b' (zdrop n (readable b)) (room_of b).
Proof.
  intros Hb Hn. destruct (retrieve_has b n Hb Hn) as (b' & Hr & Hh).
  unfold retrieveUntil. rewrite length_readable in Hn by done. orun. by exists b'.
Qed.

Lemma retrieveAsString_has b n :
  wf b → 0 ≤ n ≤ zlen (readable b) →
  ∃ b', retrieveAsString b n = Ret (ztake n (readable b), b') ∧
    has b' (zdrop n (readable b)) (room_of b).
Proof.
  intros Hb Hn. destruct (retrieve_has b n Hb Hn) as (b' & Hr & Hh).
  unfold retrieveAsString. rewrite peekBytes_eq by done.
  rewrite length_readable in Hn by done. orun. rewrite Hr. orun. by exists b'.
Qed.

(** Reading a fixed-width integer. *)
Lemma readInt_has b (n : Z) (f : Z → Z) :
  wf b → 0 ≤ n ≤ zlen (readable b) →
  ∃ b', (result ← (assert (n <=? readableBytes b) ;;
                   l ← peekBytes b n; Ret (f (le_combine l)));
         b' ← retrieve b n; Ret (result, b')) =
        Ret (f (le_combine (ztake n (readable b))), b') ∧
    has b' (zdrop n (readable b)) (room_of b).
Proof.
  intros Hb Hn. destruct (retrieve_has b n Hb Hn) as (b' & Hr & Hh).
  rewrite peekBytes_eq by done. rewrite length_readable in Hn by done.
  orun. rewrite Hr. orun. by exists b'.
Qed.

Lemma toStringPiece_eq b :
  wf b → readableBytes b < 2 ^ 31 → toStringPiece b = Ret (readable b).
Proof.
  intros Hb Hlt. pose proof (length_readable Hb) as Hl. unfold toStringPiece, s32.
  rewrite sint_small by lia. rewrite u64_small by lia.
  rewrite peekBytes_eq by (done || lia). by rewrite ztake_all by lia.
Qed.

Lemma readFd_has b data :
  wf b → Forall_byte data → zlen data ≤ room_of b →
  ∃ b', readFd b (Some data) = Ret (Some (zlen data), b') ∧
    has b' (readable b ++ data) (room_of b - zlen data).
Proof.
  intros Hb Hd Hlen. unfold readFd.
  destruct (Z.leb_spec (zlen data) (writableBytes b)) as [Hle|Hgt].
  - destruct (fill_has b data) as [-> Hh]; [done..|]. orun. eexists. by split.
  - pose proof (u64_range (zlen (buffer_ b) - writerIndex_ b)) as Hrange.
    fold (writableBytes b) in Hrange.
    assert (zlen (ztake (writableBytes b) data) = writableBytes b) as Hlt
      by (apply length_ztake; lia).
    destruct (fill_has b (ztake (writableBytes b) data)) as [-> [H1 H2 H3]];
      [done|auto with ws|lia|]. orun.
    pose proof (writableBytes_eq Hb) as Hw.
    assert (u64 (writerIndex_ b + zlen (ztake (writableBytes b) data)) =
      zlen (buffer_ b)) as Hend.
    { rewrite Hlt, Hw, u64_index; destruct Hb; lia. }
    pose proof (length_write (buffer_ b) (writerIndex_ b) (ztake (writableBytes b) data))
      as Hv. rewrite Hlt in Hv at 1. specialize (Hv ltac:(destruct Hb; lia) ltac:(lia)).
    rewrite Hv. rewrite Hend in *. rewrite Hlt in *.
    set (b1 := mkBuffer _ _ _) in *.
    destruct (append_has b1 (zdrop (writableBytes b) data)) as (b2 & -> & [H4 H5 H6]);
      [done|auto with ws|rewrite length_zdrop; lia|]. orun.
    eexists. split; [done|]. rewrite length_zdrop in H6 by lia. split; [done| |lia].
    rewrite H5, H2, <- app_assoc. by rewrite ztake_zdrop.
Qed.

Lemma shrink_has b reserve :
  wf b → readableBytes b < 2 ^ 31 → 0 ≤ reserve < 2 ^ 62 →
  ∃ b', shrink b reserve = Ret b' ∧ wf b' ∧ readable b' = readable b ∧
    reserve ≤ writableBytes b'.
Proof.
  intros Hb Hlt Hres. pose proof (length_readable Hb) as Hl. unfold shrink.
  destruct (Buffer_ctor_ok kInitialSize) as (o & -> & [Ho1 Ho2 Ho3] & Ho4);
    [unfold kInitialSize, kMaxSize, kCheapPrepend; lia|]. orun.
  assert (u64 (readableBytes b + reserve) = readableBytes b + reserve) as ->
    by (apply u64_small; lia).
  destruct (ensureWritableBytes_has o (readableBytes b + reserve))
    as (o1 & -> & [H1 H2 H3] & H4); [done|unfold kMaxSize, kCheapPrepend in *; lia|].
  orun. rewrite toStringPiece_eq by done. orun. unfold append.
  unfold ensureWritableBytes. rewrite (proj2 (Z.ltb_ge _ _)) by lia. orun.
  destruct (fill_has o1 (readable b)) as [-> [H5 H6 H7]]; [done|by apply readable_bytes|lia|].
  orun. unfold hasWritten.
  pose proof (length_write (buffer_ o1) (writerIndex_ o1) (readable b)) as Hlw.
  pose proof (writableBytes_eq H1) as Hw1. pose proof H1 as [? ? ? ?].
  specialize (Hlw ltac:(lia) ltac:(lia)).
  rewrite assert_true.
  2:{ apply Z.leb_le. unfold writableBytes. cbn [buffer_ writerIndex_]. rewrite Hlw.
      fold (writableBytes o1). lia. }
  orun. cbn [fst swap buffer_ readerIndex_ writerIndex_]. eexists. split; [done|].
  split_and!; [done|by rewrite H6, H2, Ho2|].
  rewrite writableBytes_eq by done. cbn [buffer_ writerIndex_].
  rewrite Hlw, u64_index by lia. lia.
Qed.

(** ** [Buffer] implements [IBytesBuffer] *)

#[global] Instance Buffer_IBytesBuffer : IBytesBuffer Buffer := {|
  b_readableBytes := readableBytes;
  b_peekBytes := peekBytes;
  b_pokeByte := pokeByte;
  b_findCRLFCRLF := findCRLFCRLF;
  b_findCRLF := findCRLF;
  b_retrieve := retrieve;
  b_retrieveUntil := retrieveUntil;
  b_retrieveAll := retrieveAll;
  b_append := append;
  b_readInt64 := readInt64;
  b_readInt16 := readInt16;
|}.

#[global] Program Instance Buffer_laws : BytesBufferLaws Buffer := {|
  buf_inv := wf;
  view := readable;
  room := room_of;
  max_room := kMaxSize - kCheapPrepend;
|}.
Next Obligation. apply readable_bytes. Qed.
Next Obligation.
  intros b Hb. rewrite length_readable, readableBytes_eq by done. destruct Hb.
  unfold kMaxSize in *. lia.
Qed.
Next Obligation. intros b Hb. symmetry. by apply length_readable. Qed.
Next Obligation. apply peekBytes_eq. Qed.
Next Obligation. apply pokeByte_has. Qed.
Next Obligation. done. Qed.
Next Obligation. done. Qed.
Next Obligation. apply retrieve_has. Qed.
Next Obligation. apply retrieveUntil_has. Qed.
Next Obligation. apply retrieveAll_has. Qed.
Next Obligation. apply append_has. Qed.
Next Obligation. intros b Hb H. by apply (readInt_has b 8 s64). Qed.
Next Obligation. intros b Hb H. by apply (readInt_has b 2 s16). Qed.

(** ** Refinement: a buffer is a queue of bytes

    A client program over a buffer is a list of calls.  [spec_op] says what a
    call returns and leaves when the buffer is just a sequence of bytes;
    [None] is a call outside its contract. *)

Inductive op : Type :=
  | OpAppend (data : bytes)
  | OpReadFd (data : bytes)
  | OpEnsureWritable (len : Z)
  | OpRetrieve (len : Z)
  | OpRetrieveAll
  | OpRetrieveAsString (len : Z)
  | OpUnwrite (len : Z)
  | OpReadInt16
  | OpReadInt32
  | OpReadInt64.

Inductive res : Type :=
  | RUnit
  | RInt (z : Z)
  | RBytes (l : bytes).

Definition run_op (b : Buffer) (o : op) : outcome (res * Buffer) :=
  match o with
  | OpAppend d => b ← append b d; Ret (RUnit, b)
  | OpReadFd d => '(_, b) ← readFd b (Some d); Ret (RUnit, b)
  | OpEnsureWritable n => b ← ensureWritableBytes b n; Ret (RUnit, b)
  | OpRetrieve n => b ← retrieve b n; Ret (RUnit, b)
  | OpRetrieveAll => Ret (RUnit, retrieveAll b)
  | OpRetrieveAsString n => '(l, b) ← retrieveAsString b n; Ret (RBytes l, b)
  | OpUnwrite n => b ← unwrite b n; Ret (RUnit, b)
  | OpReadInt16 => '(z, b) ← readInt16 b; Ret (RInt z, b)
  | OpReadInt32 => '(z, b) ← readInt32 b; Ret (RInt z, b)
  | OpReadInt64 => '(z, b) ← readInt64 b; Ret (RInt z, b)
  end.

Definition spec_op (v : bytes) (o : op) : option (res * bytes) :=
  match o with
  | OpAppend d | OpReadFd d => if decide (Forall_byte d) then Some (RUnit, v ++ d) else None
  | OpEnsureWritable n => if 0 <=? n then Some (RUnit, v) else None
  | OpRetrieve n =>
      if (0 <=? n) && (n <=? zlen v) then Some (RUnit, zdrop n v) else None
  | OpRetrieveAll => Some (RUnit, [])
  | OpRetrieveAsString n =>
      if (0 <=? n) && (n <=? zlen v) then Some (RBytes (ztake n v), zdrop n v) else None
  | OpUnwrite n =>
      if (0 <=? n) && (n <=? zlen v) then Some (RUnit, ztake (zlen v - n) v) else None
  | OpReadInt16 =>
      if 2 <=? zlen v then Some (RInt (s16 (le_combine (ztake 2 v))), zdrop 2 v) else None
  | OpReadInt32 =>
      if 4 <=? zlen v then Some (RInt (s32 (le_combine (ztake 4 v))), zdrop 4 v) else None
  | OpReadInt64 =>
      if 8 <=? zlen v then Some (RInt (s64 (le_combine (ztake 8 v))), zdrop 8 v) else None
  end.

(** Bytes an operation may ask the vector to make place for. *)
Definition op_cost (o : op) : Z :=
  match o with
  | OpAppend d | OpReadFd d => zlen d
  | OpEnsureWritable n => n `max` 0
  | _ => 0
  end.

Fixpoint run_ops (b : Buffer) (os : list op) : outcome (list res * Buffer) :=
  match os with
  | [] => Ret ([], b)
  | o :: os =>
      '(r, b) ← run_op b o; '(rs, b) ← run_ops b os; Ret (r :: rs, b)
  end.

Fixpoint spec_ops (v : bytes) (os : list op) : option (list res * bytes) :=
  match os with
  | [] => Some ([], v)
  | o :: os =>
      '(r, v) ← spec_op v o; '(rs, v) ← spec_ops v os; Some (r :: rs, v)
  end.

Definition ops_cost (os : list op) : Z := foldr (λ o c, op_cost o + c) 0 os.

Lemma op_cost_nonneg o : 0 ≤ op_cost o.
Proof. destruct o; cbn; lia. Qed.

Lemma ops_cost_nonneg os : 0 ≤ ops_cost os.
Proof.
  induction os as [|o os IH]; [done|]. pose proof (op_cost_nonneg o).
  change (0 ≤ op_cost o + ops_cost os). lia.
Qed.

Lemma run_op_refines b o r v :
  wf b → op_cost o ≤ room_of b → spec_op (readable b) o = Some (r, v) →
  ∃ b', run_op b o = Ret (r, b') ∧ has b' v (room_of b - op_cost o).
Proof.
  intros Hb Hc Hs.
  destruct o as [d|d|n|n| |n|n| | |]; cbn in Hc, Hs; repeat case_decide; repeat case_match;
    simplify_eq; cbn [run_op op_cost];
    rewrite ?andb_true_iff, ?Z.leb_le in *; rewrite ?Z.sub_0_r.
  - destruct (append_has b d) as (b' & -> & ?); [done..|]. by exists b'.
  - destruct (readFd_has b d) as (b' & -> & ?); [done..|]. by exists b'.
  - destruct (ensureWritableBytes_has b n) as (b' & -> & [] & ?); [done|lia|].
    exists b'. split; [done|]. split; [done..|lia].
  - destruct (retrieve_has b n) as (b' & -> & ?); [done..|]. by exists b'.
  - exists (retrieveAll b). split; [done|].
    destruct (retrieveAll_has b Hb). split; [done..|]. unfold room_of in *. lia.
  - destruct (retrieveAsString_has b n) as (b' & -> & ?); [done..|]. by exists b'.
  - rewrite length_readable in * by done.
    destruct (unwrite_has b n) as (b' & -> & ?); [done..|]. by exists b'.
  - destruct (readInt_has b 2 s16) as (b' & Hr & ?); [done|lia|].
    unfold readInt16, peekInt16, retrieveInt16. rewrite Hr. by exists b'.
  - destruct (readInt_has b 4 s32) as (b' & Hr & ?); [done|lia|].
    unfold readInt32, peekInt32, retrieveInt32. rewrite Hr. by exists b'.
  - destruct (readInt_has b 8 s64) as (b' & Hr & ?); [done|lia|].
    unfold readInt64, peekInt64, retrieveInt64. rewrite Hr. by exists b'.
Qed.

(** C8: Every sequence of calls that respects the contracts runs without a failed
    assertion, an access out of range or an index that wraps around, returns
    what a plain byte queue would return, and keeps the invariant. *)
Theorem buffer_refines_queue b os rs v :
  wf b → ops_cost os ≤ room_of b → spec_ops (readable b) os = Some (rs, v) →
  ∃ b', run_ops b os = Ret (rs, b') ∧ wf b' ∧ readable b' = v.
Proof.
  revert b rs v. induction os as [|o os IH]; intros b rs v Hb Hc Hs; cbn in Hs.
  { simplify_eq. by exists b. }
  change (op_cost o + ops_cost os ≤ room_of b) in Hc. pose proof (ops_cost_nonneg os).
  destruct (spec_op (readable b) o) as [[r v1]|] eqn:Ho; [|done]. cbn in Hs.
  destruct (run_op_refines b o r v1) as (b1 & Hrun & [Hb1 Hv1 Hr1]); [done|lia|done|].
  subst v1. destruct (spec_ops (readable b1) os) as [[rs1 v1]|] eqn:Hos; [|done].
  cbn in Hs. simplify_eq.
  destruct (IH b1 rs1 v) as (b2 & Hrun2 & ? & ?); [done|lia|done|].
  exists b2. cbn. rewrite Hrun. orun. rewrite Hrun2. by orun.
Qed.

Definition kWitnessOps : list op :=
  [OpAppend (str "hello"); OpRetrieve 2; OpReadFd (le_split 2 513); OpEnsureWritable 2000;
   OpRetrieveAsString 3; OpReadInt16].

Definition kWitnessBuffer : Buffer := mkBuffer (replicate 1032 0) 8 8.

Lemma buffer_refines_queue_witness :
  ∃ b', run_ops kWitnessBuffer kWitnessOps =
    Ret ([RUnit; RUnit; RUnit; RUnit; RBytes (str "llo"); RInt 513], b') ∧
    wf b' ∧ readable b' = [].
Proof.
  apply (buffer_refines_queue kWitnessBuffer kWitnessOps);
    [by apply (bool_decide_unpack _); vm_compute|by vm_compute|by vm_compute].
Defined.

End Buffer.
