(* ===== verification/Base64.v ===== *)
(** * Base64: the Base64 codec (src/libwebsocket/private/base64.cc)

    [Encode] turns the handshake digest into the [Sec-WebSocket-Accept] value.
    The loops are modelled with their working arrays: [char_array_3] is the
    pending input of [Encode], [char_array_4] the pending input of [Decode].
    Text is a list of character codes. *)

From S2P Require Import Prelude.

Module Base64.

Definition base64_chars : bytes :=
  str "ABCDEFGHIJKLMNOPQRSTUVWXYZabcdefghijklmnopqrstuvwxyz0123456789+/".

Definition kPad : Z := 61.

Definition isalnum (c : Z) : bool :=
  ((48 <=? c) && (c <=? 57)) || ((65 <=? c) && (c <=? 90)) || ((97 <=? c) && (c <=? 122)).

Definition is_base64 (c : Z) : bool := isalnum c || (c =? 43) || (c =? 47).

(** [base64_chars[k]]: the terminating zero at index 64, out of range beyond. *)
Definition char_of (k : Z) : Z := default 0 (base64_chars !! Z.to_nat k).

(** [base64_chars.find(c)] stored in an [unsigned char]: [npos] becomes 255. *)
Definition index_of (c : Z) : Z :=
  if find_char c base64_chars =? zlen base64_chars then 255 else find_char c base64_chars.

(** ** Encode *)

(** [char_array_4] computed from [char_array_3]. *)
Definition pack3 (a b c : Z) : bytes :=
  [ Z.shiftr (Z.land a 252) 2;
    u8 (Z.shiftl (Z.land a 3) 4 + Z.shiftr (Z.land b 240) 4);
    u8 (Z.shiftl (Z.land b 15) 2 + Z.shiftr (Z.land c 192) 6);
    Z.land c 63 ].

(** After the loop: [char_array_3] padded with zeros, [i + 1] characters, then
    the padding. *)
Definition encode_tail (char_array_3 : bytes) : bytes :=
  match char_array_3 with
  | [] => []
  | [a] => take 2 (char_of <$> pack3 a 0 0) ++ [kPad; kPad]
  | a :: b :: _ => take 3 (char_of <$> pack3 a b 0) ++ [kPad]
  end.

Fixpoint encode_loop (input char_array_3 ret : bytes) : bytes :=
  match input with
  | [] => ret ++ encode_tail char_array_3
  | x :: input =>
      match char_array_3 with
      | [a; b] => encode_loop input [] (ret ++ (char_of <$> pack3 a b x))
      | _ => encode_loop input (char_array_3 ++ [x]) ret
      end
  end.

Definition Encode (bytes_to_encode : bytes) : bytes := encode_loop bytes_to_encode [] [].

(** ** Decode *)

(** [char_array_3] computed from the four indices. *)
Definition unpack4 (p q r s : Z) : bytes :=
  [ u8 (Z.shiftl p 2 + Z.shiftr (Z.land q 48) 4);
    u8 (Z.shiftl (Z.land q 15) 4 + Z.shiftr (Z.land r 60) 2);
    u8 (Z.shiftl (Z.land r 3) 6 + s) ].

(** After the loop, with [i] characters pending: the missing ones are zero
    characters, and [i - 1] bytes are kept. *)
Definition decode_tail (char_array_4 : bytes) : bytes :=
  match char_array_4 with
  | [] => []
  | _ =>
      let c j := index_of (default 0 (char_array_4 !! j)) in
      take (length char_array_4 - 1) (unpack4 (c 0%nat) (c 1%nat) (c 2%nat) (c 3%nat))
  end.

Fixpoint decode_loop (input char_array_4 ret : bytes) : bytes :=
  match input with
  | [] => ret ++ decode_tail char_array_4
  | x :: input =>
      if negb (x =? kPad) && is_base64 x then
        match char_array_4 with
        | [p; q; r] =>
            decode_loop input []
              (ret ++ unpack4 (index_of p) (index_of q) (index_of r) (index_of x))
        | _ => decode_loop input (char_array_4 ++ [x]) ret
        end
      else ret ++ decode_tail char_array_4
  end.

Definition Decode (encoded_string : bytes) : bytes := decode_loop encoded_string [] [].

(** ** The alphabet *)

Lemma index_char k : 0 ≤ k < 64 → index_of (char_of k) = k.
Proof. apply (range_forall_eq 64 (λ k, index_of (char_of k)) id). by vm_compute. Qed.

Lemma index_nul : index_of 0 = 255.
Proof. by vm_compute. Qed.

Lemma char_is_base64 k :
  0 ≤ k < 64 → negb (char_of k =? kPad) && is_base64 (char_of k) = true.
Proof.
  apply (range_forall 64 (λ k, negb (char_of k =? kPad) && is_base64 (char_of k))).
  by vm_compute.
Qed.

(** ** Three bytes are four sextets *)

Definition sextets (a b c : Z) : bytes :=
  [a / 4; a mod 4 * 16 + b / 16; b mod 16 * 4 + c / 64; c mod 64].

Ltac by_range n f g :=
  rewrite (range_forall_eq n f g) by (first [by vm_compute|lia]); cbv beta.

Lemma pack3_sextets a b c :
  is_byte a → is_byte b → is_byte c → pack3 a b c = sextets a b c.
Proof.
  unfold is_byte, pack3, sextets, u8. intros Ha Hb Hc.
  by_range 256 (λ a, Z.shiftr (Z.land a 252) 2) (λ a, a / 4).
  by_range 256 (λ a, Z.shiftl (Z.land a 3) 4) (λ a, a mod 4 * 16).
  by_range 256 (λ b, Z.shiftr (Z.land b 240) 4) (λ b, b / 16).
  by_range 256 (λ b, Z.shiftl (Z.land b 15) 2) (λ b, b mod 16 * 4).
  by_range 256 (λ c, Z.shiftr (Z.land c 192) 6) (λ c, c / 64).
  by_range 256 (λ c, Z.land c 63) (λ c, c mod 64).
  by rewrite !(Z.mod_small _ (2 ^ 8)) by dlia.
Qed.

Lemma sextets_range a b c :
  is_byte a → is_byte b → is_byte c → Forall (λ k, 0 ≤ k < 64) (sextets a b c).
Proof. unfold is_byte, sextets. intros. rewrite !Forall_cons. split_and!; try dlia. done. Qed.

Lemma unpack4_arith p q r s :
  0 ≤ p < 64 → 0 ≤ q < 64 → 0 ≤ r < 256 → 0 ≤ s < 256 →
  take 2 (unpack4 p q r s) = [p * 4 + q / 16; q mod 16 * 16 + r mod 64 / 4] ∧
  (r < 64 → s < 64 → unpack4 p q r s =
    [p * 4 + q / 16; q mod 16 * 16 + r / 4; r mod 4 * 64 + s]).
Proof.
  unfold unpack4, u8. intros Hp Hq Hr Hs.
  by_range 64 (λ p, Z.shiftl p 2) (λ p, p * 4).
  by_range 64 (λ q, Z.shiftr (Z.land q 48) 4) (λ q, q / 16).
  by_range 64 (λ q, Z.shiftl (Z.land q 15) 4) (λ q, q mod 16 * 16).
  by_range 256 (λ r, Z.shiftr (Z.land r 60) 2) (λ r, r mod 64 / 4).
  by_range 256 (λ r, Z.shiftl (Z.land r 3) 6) (λ r, r mod 4 * 64).
  rewrite !(Z.mod_small _ (2 ^ 8)) by dlia. split; [done|]. intros.
  rewrite (Z.mod_small r 64), (Z.mod_small _ (2 ^ 8)) by dlia. done.
Qed.
(** ** Round trip *)

Lemma decode_loop_step p q r s input ret :
  0 ≤ p < 64 → 0 ≤ q < 64 → 0 ≤ r < 64 → 0 ≤ s < 64 →
  decode_loop ((char_of <$> [p; q; r; s]) ++ input) [] ret =
  decode_loop input [] (ret ++ unpack4 p q r s).
Proof.
  intros. cbn [fmap list_fmap app decode_loop].
  rewrite !char_is_base64 by done. cbn [app]. by rewrite !index_char.
Qed.

(** Four characters decode to the three bytes they encode. *)
Lemma decode_group a b c input ret :
  is_byte a → is_byte b → is_byte c →
  decode_loop ((char_of <$> pack3 a b c) ++ input) [] ret =
  decode_loop input [] (ret ++ [a; b; c]).
Proof.
  intros Ha Hb Hc. rewrite pack3_sextets by done.
  pose proof (sextets_range a b c Ha Hb Hc) as Hs. unfold sextets in *.
  rewrite !Forall_cons in Hs. destruct Hs as (? & ? & ? & ? & _).
  rewrite decode_loop_step by done. unfold is_byte in *.
  destruct (unpack4_arith (a / 4) (a mod 4 * 16 + b / 16) (b mod 16 * 4 + c / 64) (c mod 64))
    as [_ ->]; try lia. do 2 f_equal. repeat (f_equal; [dlia|]). f_equal. dlia.
Qed.

(** What is left of an unfinished group of characters. *)
Lemma decode_short_2 p q :
  0 ≤ p < 64 → 0 ≤ q < 64 →
  decode_loop (take 2 (char_of <$> [p; q; 0; 0]) ++ [kPad; kPad]) [] [] =
  take 1 (unpack4 p q 255 255).
Proof.
  intros. cbn [fmap list_fmap take app decode_loop]. rewrite !char_is_base64 by done.
  change (negb (kPad =? kPad) && is_base64 kPad) with false. cbv iota.
  change (decode_tail [char_of p; char_of q]) with
    (take 1 (unpack4 (index_of (char_of p)) (index_of (char_of q)) (index_of 0) (index_of 0))).
  rewrite !index_char by done. by rewrite index_nul.
Qed.

Lemma decode_short_3 p q r :
  0 ≤ p < 64 → 0 ≤ q < 64 → 0 ≤ r < 64 →
  decode_loop (take 3 (char_of <$> [p; q; r; 0]) ++ [kPad]) [] [] =
  take 2 (unpack4 p q r 255).
Proof.
  intros. cbn [fmap list_fmap take app decode_loop]. rewrite !char_is_base64 by done.
  change (negb (kPad =? kPad) && is_base64 kPad) with false. cbv iota.
  change (decode_tail [char_of p; char_of q; char_of r]) with
    (take 2 (unpack4 (index_of (char_of p)) (index_of (char_of q)) (index_of (char_of r))
               (index_of 0))).
  rewrite !index_char by done. by rewrite index_nul.
Qed.

Lemma decode_tail_1 a : is_byte a → decode_loop (encode_tail [a]) [] [] = [a].
Proof.
  unfold is_byte. intros Ha. unfold encode_tail.
  rewrite pack3_sextets by (unfold is_byte; lia). unfold sextets.
  change (take 2 (char_of <$> [?p; ?q; _; _])) with (take 2 (char_of <$> [p; q; 0; 0])).
  rewrite decode_short_2 by dlia.
  destruct (unpack4_arith (a / 4) (a mod 4 * 16 + 0 / 16) 255 255) as [H _]; [dlia..|].
  apply (f_equal (take 1)) in H. rewrite take_take in H. cbn [Nat.min] in H.
  rewrite H. cbn [take]. f_equal. dlia.
Qed.

Lemma decode_tail_2 a b :
  is_byte a → is_byte b → decode_loop (encode_tail [a; b]) [] [] = [a; b].
Proof.
  unfold is_byte. intros Ha Hb. unfold encode_tail.
  rewrite pack3_sextets by (unfold is_byte; lia). unfold sextets.
  change (take 3 (char_of <$> [?p; ?q; ?r; _])) with (take 3 (char_of <$> [p; q; r; 0])).
  rewrite decode_short_3 by dlia.
  destruct (unpack4_arith (a / 4) (a mod 4 * 16 + b / 16) (b mod 16 * 4 + 0 / 64) 255)
    as [-> _]; [dlia..|]. f_equal; [dlia|]. f_equal. dlia.
Qed.

Lemma decode_loop_ret input ret : decode_loop input [] ret = ret ++ decode_loop input [] [].
Proof.
  assert (∀ pend r1 r2, decode_loop input pend (r1 ++ r2) = r1 ++ decode_loop input pend r2)
    as H.
  { induction input as [|x input IH]; intros pend r1 r2; cbn [decode_loop];
      [by rewrite app_assoc|].
    destruct (negb (x =? kPad) && is_base64 x); [|by rewrite app_assoc].
    destruct pend as [|p [|q [|r [|? ?]]]]; rewrite ?IH; try done.
    by rewrite app_assoc. }
  rewrite <- (app_nil_r ret) at 1. apply H.
Qed.

Lemma encode_loop_ret input pend ret :
  encode_loop input pend ret = ret ++ encode_loop input pend [].
Proof.
  revert pend ret. induction input as [|x input IH]; intros pend ret; cbn [encode_loop];
    [done|].
  destruct pend as [|a [|b [|? ?]]]; try apply IH.
  rewrite IH, (IH [] ([] ++ _)). by rewrite <- app_assoc.
Qed.

Lemma Encode_group a b c l :
  Encode (a :: b :: c :: l) = (char_of <$> pack3 a b c) ++ Encode l.
Proof. unfold Encode. cbn [encode_loop app]. apply encode_loop_ret. Qed.

Lemma Decode_Encode l : Forall_byte l → Decode (Encode l) = l.
Proof.
  induction l as [l IH] using (induction_ltof1 _ length); unfold ltof in IH.
  unfold Decode in *. intros Hl.
  destruct l as [|a [|b [|c l]]]; rewrite ?Forall_cons in Hl; destruct_and?.
  - done.
  - by apply decode_tail_1.
  - by apply decode_tail_2.
  - rewrite Encode_group, decode_group by done. rewrite decode_loop_ret.
    rewrite IH by (cbn; (done || lia)). done.
Qed.

(** Decoding inverts encoding on every byte sequence. *)
Theorem decode_encode l : Forall_byte l → Decode (Encode l) = l.
Proof. apply Decode_Encode. Qed.

Lemma decode_encode_witness : Decode (Encode (str "websocket")) = str "websocket".
Proof. apply decode_encode. apply str_bytes. Defined.

Lemma char_of_byte k : is_byte (char_of k).
Proof.
  unfold char_of. destruct (base64_chars !! Z.to_nat k) as [c|] eqn:E; [|done].
  by eapply Forall_lookup_1; [apply (str_bytes "ABCDEFGHIJKLMNOPQRSTUVWXYZabcdefghijklmnopqrstuvwxyz0123456789+/")|].
Qed.

Lemma encode_loop_bytes input c3 ret : Forall_byte ret → Forall_byte (encode_loop input c3 ret).
Proof.
  assert (∀ l, Forall_byte (char_of <$> l)) as Hc.
  { intros l. apply Forall_fmap, Forall_true. intros k. apply char_of_byte. }
  revert c3 ret. induction input as [|x input IH]; intros c3 ret Hr; cbn [encode_loop].
  - apply Forall_app. split; [done|]. unfold encode_tail.
    destruct c3 as [|a [|b l]]; [constructor|apply Forall_app; split; [apply Forall_take, Hc|by repeat constructor]..].
  - destruct c3 as [|a [|b [|]]]; apply IH; try done. apply Forall_app. by split.
Qed.

Lemma Encode_bytes l : Forall_byte (Encode l).
Proof. by apply encode_loop_bytes. Qed.

(** The encoded text has four characters for every three bytes begun. *)
Theorem encode_length l : zlen (Encode l) = 4 * ((zlen l + 2) / 3).
Proof.
  induction l as [l IH] using (induction_ltof1 _ length); unfold ltof in IH.
  destruct l as [|a [|b [|c l]]]; [done..|].
  rewrite Encode_group, length_app, length_fmap, Nat2Z.inj_add, IH by (cbn; lia).
  cbn [length pack3]. rewrite !Nat2Z.inj_succ.
  replace (Z.succ (Z.succ (Z.succ (zlen l))) + 2) with (zlen l + 2 + 1 * 3) by dlia.
  rewrite Z.div_add by dlia. dlia.
Qed.

End Base64.
