(* ===== verification/Frame.v ===== *)
(** * Frame: frame headers, message headers and messages
    (src/libwebsocket/private/websocket.cc, lines 264-1135 and 1201-1500)

    The enumerations, the bit-field [header_t], the extended header with its
    union of length fields, the per-frame records kept for diagnostics, the
    message under reassembly with its in-place unmasking, and the connection
    context [Context_].  A buffer or HTTP context held through a
    [std::unique_ptr] is an [option]; an [assert] on a null one fails. *)

From S2P Require Import Prelude Endian BytesBuffer.

(** ** Enumerations *)

Inductive HandShakeE : Type :=
  | WS_ERROR_WANT_MORE
  | WS_ERROR_PARSE
  | WS_ERROR_PACKSZ
  | WS_ERROR_CRLFCRLF
  | WS_ERROR_CONTEXT.

Definition HandShakeE_val (e : HandShakeE) : Z :=
  match e with
  | WS_ERROR_WANT_MORE => 0x66
  | WS_ERROR_PARSE => 0x77
  | WS_ERROR_PACKSZ => 0x88
  | WS_ERROR_CRLFCRLF => 0x99
  | WS_ERROR_CONTEXT => 0x55
  end.

Inductive StateE : Type := kConnected | kClosed.
#[global] Instance StateE_eq_dec : EqDecision StateE.
Proof. solve_decision. Defined.

Inductive EndianModeE : Type := LittleEndian | BigEndian.

Inductive StepE : Type :=
  | ReadFrameHeader
  | ReadExtendedPayloadlenU16
  | ReadExtendedPayloadlenI64
  | ReadMaskingkey
  | ReadPayloadData
  | ReadExtendedPayloadDataU16
  | ReadExtendedPayloadDataI64.
#[global] Instance StepE_eq_dec : EqDecision StepE.
Proof. solve_decision. Defined.

Inductive FinE : Type := FrameContinue | FrameFinished.
#[global] Instance FinE_eq_dec : EqDecision FinE.
Proof. solve_decision. Defined.

Inductive OpcodeE : Type :=
  | SegmentMessage | TextMessage | BinaryMessage
  | Reserved1 | Reserved2 | Reserved3 | Reserved4 | Reserved5
  | CloseMessage | PingMessage | PongMessage
  | Reserved6 | Reserved7 | Reserved8 | Reserved9 | Reserved10.
#[global] Instance OpcodeE_eq_dec : EqDecision OpcodeE.
Proof. solve_decision. Defined.
Notation MessageE := OpcodeE.

Definition OpcodeE_val (o : OpcodeE) : Z :=
  match o with
  | SegmentMessage => 0x0 | TextMessage => 0x1 | BinaryMessage => 0x2
  | Reserved1 => 0x3 | Reserved2 => 0x4 | Reserved3 => 0x5 | Reserved4 => 0x6
  | Reserved5 => 0x7
  | CloseMessage => 0x8 | PingMessage => 0x9 | PongMessage => 0xA
  | Reserved6 => 0xB | Reserved7 => 0xC | Reserved8 => 0xD | Reserved9 => 0xE
  | Reserved10 => 0xF
  end.

Inductive FrameControlE : Type := FrameInvalid | ControlFrame | UnControlFrame.
#[global] Instance FrameControlE_eq_dec : EqDecision FrameControlE.
Proof. solve_decision. Defined.

Inductive MessageFrameE : Type :=
  UnknownFrame | HeadFrame | MiddleFrame | TailFrame | HeadTailFrame.
#[global] Instance MessageFrameE_eq_dec : EqDecision MessageFrameE.
Proof. solve_decision. Defined.

(** A [switch] over the bit fields reads them back as enumerators. *)
Definition opcode_of (z : Z) : OpcodeE :=
  match z with
  | 0 => SegmentMessage | 1 => TextMessage | 2 => BinaryMessage
  | 3 => Reserved1 | 4 => Reserved2 | 5 => Reserved3 | 6 => Reserved4 | 7 => Reserved5
  | 8 => CloseMessage | 9 => PingMessage | 10 => PongMessage
  | 11 => Reserved6 | 12 => Reserved7 | 13 => Reserved8 | 14 => Reserved9
  | _ => Reserved10
  end.

Definition fin_of (z : Z) : FinE := if z =? 0 then FrameContinue else FrameFinished.

Definition FinE_val (f : FinE) : Z :=
  match f with FrameContinue => 0 | FrameFinished => 1 end.

Lemma opcode_of_val o : opcode_of (OpcodeE_val o) = o.
Proof. by destruct o. Qed.

Lemma fin_of_val f : fin_of (FinE_val f) = f.
Proof. by destruct f. Qed.

Lemma OpcodeE_val_range o : 0 ≤ OpcodeE_val o < 16.
Proof. destruct o; cbn; lia. Qed.

Lemma FinE_val_range f : 0 ≤ FinE_val f < 2.
Proof. destruct f; cbn; lia. Qed.

(** ** header_t: the two bytes every frame starts with *)

Record header_t : Type := mkHeader {
  opcode : Z;
  RSV3 : Z;
  RSV2 : Z;
  RSV1 : Z;
  FIN : Z;
  Payloadlen : Z;
  MASK : Z;
}.

#[global] Instance header_t_eq_dec : EqDecision header_t.
Proof. solve_decision. Defined.

Definition header_zero : header_t := mkHeader 0 0 0 0 0 0 0.

Definition kHeaderLen : Z := 2.
Definition kMaskingkeyLen : Z := 4.
Definition kExtendedPayloadlenU16 : Z := 2.
Definition kExtendedPayloadlenI64 : Z := 8.

(** Little-endian bit-field layout: fields are allocated from the low bits of
    the 16-bit unit, whose low byte comes first in memory. *)
Definition header_of_bytes (b0 b1 : Z) : header_t := {|
  opcode := Z.land b0 0x0F;
  RSV3 := Z.land (Z.shiftr b0 4) 1;
  RSV2 := Z.land (Z.shiftr b0 5) 1;
  RSV1 := Z.land (Z.shiftr b0 6) 1;
  FIN := Z.land (Z.shiftr b0 7) 1;
  Payloadlen := Z.land b1 0x7F;
  MASK := Z.land (Z.shiftr b1 7) 1;
|}.

Definition header_to_bytes (h : header_t) : bytes :=
  [ Z.lor (Z.shiftl (FIN h) 7) (Z.lor (Z.shiftl (RSV1 h) 6)
      (Z.lor (Z.shiftl (RSV2 h) 5) (Z.lor (Z.shiftl (RSV3 h) 4) (opcode h))));
    Z.lor (Z.shiftl (MASK h) 7) (Payloadlen h) ].

(** Every field holds a value of its width. *)
Record header_wf (h : header_t) : Prop := HeaderWf {
  hw_opcode : 0 ≤ opcode h < 16;
  hw_RSV3 : 0 ≤ RSV3 h < 2;
  hw_RSV2 : 0 ≤ RSV2 h < 2;
  hw_RSV1 : 0 ≤ RSV1 h < 2;
  hw_FIN : 0 ≤ FIN h < 2;
  hw_Payloadlen : 0 ≤ Payloadlen h < 128;
  hw_MASK : 0 ≤ MASK h < 2;
}.

(** ** extended_header_t *)

(** The union of [uint16_t u16] and [int64_t i64] is its 64-bit content: [u16]
    is the low 16 bits. *)
Record extended_header_t : Type := mkExtendedHeader {
  header : header_t;
  Masking_key : bytes;
  ExtendedPayloadlen : Z;
}.

#[global] Instance extended_header_t_eq_dec : EqDecision extended_header_t.
Proof. solve_decision. Defined.

Definition extended_header_zero : extended_header_t :=
  mkExtendedHeader header_zero (replicate 4 0) 0.

Definition union_u16 (raw : Z) : Z := raw mod 2 ^ 16.
Definition union_i64 (raw : Z) : Z := s64 raw.
Definition union_set_u16 (raw x : Z) : Z := raw - raw mod 2 ^ 16 + u16 x.
Definition union_set_i64 (x : Z) : Z := u64 x.

Definition set_header (e : extended_header_t) (h : header_t) : extended_header_t :=
  mkExtendedHeader h (Masking_key e) (ExtendedPayloadlen e).

Definition setExtendedPayloadlen_u16 (e : extended_header_t) (x : Z) : extended_header_t :=
  mkExtendedHeader (header e) (Masking_key e) (union_set_u16 (ExtendedPayloadlen e) x).

Definition setExtendedPayloadlen_i64 (e : extended_header_t) (x : Z) : extended_header_t :=
  mkExtendedHeader (header e) (Masking_key e) (union_set_i64 x).

Definition getPayloadlen (e : extended_header_t) : Z := Payloadlen (header e).

Definition getExtendedPayloadlenU16 (e : extended_header_t) : Z :=
  if Payloadlen (header e) =? 126 then union_u16 (ExtendedPayloadlen e)
  else if Payloadlen (header e) =? 127 then u16 (union_i64 (ExtendedPayloadlen e))
  else 0.

Definition getExtendedPayloadlenI64 (e : extended_header_t) : Z :=
  if Payloadlen (header e) =? 126 then union_u16 (ExtendedPayloadlen e)
  else if Payloadlen (header e) =? 127 then union_i64 (ExtendedPayloadlen e)
  else 0.

(** Returns [size_t]. *)
Definition getExtendedPayloadlen (e : extended_header_t) : Z :=
  if Payloadlen (header e) =? 126 then union_u16 (ExtendedPayloadlen e)
  else if Payloadlen (header e) =? 127 then u64 (union_i64 (ExtendedPayloadlen e))
  else 0.

Definition existExtendedPayloadlen (e : extended_header_t) : bool :=
  if Payloadlen (header e) =? 126 then true
  else if Payloadlen (header e) =? 127 then true
  else false.

Definition getRealDatalen (e : extended_header_t) : Z :=
  if Payloadlen (header e) =? 126 then union_u16 (ExtendedPayloadlen e)
  else if Payloadlen (header e) =? 127 then u64 (union_i64 (ExtendedPayloadlen e))
  else Payloadlen (header e).

Definition setMaskingkey (e : extended_header_t) (key : bytes) (size : Z)
    : outcome extended_header_t :=
  assert (size =? kMaskingkeyLen) ;;
  Ret (mkExtendedHeader (header e) (ztake kMaskingkeyLen key) (ExtendedPayloadlen e)).

Definition existMaskingkey (e : extended_header_t) : outcome bool :=
  if MASK (header e) =? 1 then Ret true
  else if MASK (header e) =? 0 then
    assert (default 0 (head (Masking_key e)) =? 0) ;; Ret false
  else Abort AssertFailed.

(** ** frame_header_t *)

Record frame_header_t : Type := mkFrameHeader {
  fh_header : extended_header_t;
  frameControlType : FrameControlE;
  messageFrameType : MessageFrameE;
}.

#[global] Instance frame_header_t_eq_dec : EqDecision frame_header_t.
Proof. solve_decision. Defined.

(** The constructor from an extended header: the length goes through the
    [int64_t] getter and setter. *)
Definition frame_header_ctor (fc : FrameControlE) (mf : MessageFrameE)
    (ref : extended_header_t) : outcome frame_header_t :=
  let h := set_header extended_header_zero (header ref) in
  let h := setExtendedPayloadlen_i64 h (getExtendedPayloadlenI64 ref) in
  h ← setMaskingkey h (Masking_key ref) kMaskingkeyLen;
  Ret (mkFrameHeader h fc mf).

(** The copy constructor and assignment. *)
Definition frame_header_copy (ref : frame_header_t) : outcome frame_header_t :=
  frame_header_ctor (frameControlType ref) (messageFrameType ref) (fh_header ref).

(** Validity of a frame header against its computed classification. *)
Definition testValidate (f : frame_header_t) : outcome unit :=
  let h := header (fh_header f) in
  let is_type t := bool_decide (messageFrameType f = t) in
  let is_control c := bool_decide (frameControlType f = c) in
  match opcode_of (opcode h) with
  | SegmentMessage =>
      match fin_of (FIN h) with
      | FrameContinue => assert (is_type MiddleFrame)
      | FrameFinished => assert (is_type TailFrame)
      end ;;
      assert (is_control UnControlFrame)
  | TextMessage | BinaryMessage =>
      match fin_of (FIN h) with
      | FrameContinue => assert (is_type HeadFrame)
      | FrameFinished => assert (is_type HeadTailFrame)
      end ;;
      assert (is_control UnControlFrame)
  | CloseMessage =>
      match fin_of (FIN h) with
      | FrameContinue =>
          assert (bool_decide (fin_of (FIN h) = FrameFinished)) ;;
          assert (is_type HeadTailFrame)
      | FrameFinished => Ret tt
      end ;;
      assert (is_control ControlFrame)
  | PingMessage | PongMessage =>
      match fin_of (FIN h) with
      | FrameContinue =>
          assert (bool_decide (fin_of (FIN h) = FrameFinished)) ;;
          assert (is_type HeadTailFrame)
      | FrameFinished => assert (is_type HeadTailFrame)
      end ;;
      assert (is_control ControlFrame)
  | _ => Abort AssertFailed
  end.

(** ** message_header_t *)

Record message_header_t : Type := mkMessageHeader {
  messageType_ : MessageE;
  frameHeaders_ : list frame_header_t;
}.

Definition message_header_reset (m : message_header_t) : message_header_t :=
  mkMessageHeader (messageType_ m) [].

Definition getFrameHeaderSize (m : message_header_t) : Z := zlen (frameHeaders_ m).

(** The [i]-th frame header, the last one when [i] is too large. *)
Definition getFrameHeader (m : message_header_t) (i : Z) : option frame_header_t :=
  let size := zlen (frameHeaders_ m) in
  if 0 <? size then
    if i <? size then frameHeaders_ m !! Z.to_nat i
    else frameHeaders_ m !! Z.to_nat (size - 1)
  else None.

Definition getFirstFrameHeader (m : message_header_t) : option frame_header_t :=
  if 0 <? zlen (frameHeaders_ m) then frameHeaders_ m !! 0%nat else None.

Definition getLastFrameHeader (m : message_header_t) : option frame_header_t :=
  let size := zlen (frameHeaders_ m) in
  if 0 <? size then frameHeaders_ m !! Z.to_nat (size - 1) else None.

(** The classification [addFrameHeader] computes, with its checks of the
    message type. *)
Definition classify (messageType : MessageE) (h : header_t)
    : outcome (FrameControlE * MessageFrameE) :=
  let is_msg t := bool_decide (messageType = t) in
  match opcode_of (opcode h) with
  | SegmentMessage =>
      let mf := match fin_of (FIN h) with
                | FrameContinue => MiddleFrame
                | FrameFinished => TailFrame
                end in
      assert (is_msg TextMessage || is_msg BinaryMessage) ;;
      Ret (UnControlFrame, mf)
  | TextMessage =>
      let mf := match fin_of (FIN h) with
                | FrameContinue => HeadFrame
                | FrameFinished => HeadTailFrame
                end in
      assert (is_msg TextMessage) ;;
      Ret (UnControlFrame, mf)
  | BinaryMessage =>
      let mf := match fin_of (FIN h) with
                | FrameContinue => HeadFrame
                | FrameFinished => HeadTailFrame
                end in
      assert (is_msg BinaryMessage) ;;
      Ret (UnControlFrame, mf)
  | (CloseMessage | PingMessage | PongMessage) as o =>
      mf ← match fin_of (FIN h) with
           | FrameContinue =>
               assert (bool_decide (fin_of (FIN h) = FrameFinished)) ;; Ret UnknownFrame
           | FrameFinished => Ret HeadTailFrame
           end;
      assert (is_msg o) ;;
      Ret (ControlFrame, mf)
  | _ => Abort AssertFailed
  end.

Definition addFrameHeader (m : message_header_t) (h : extended_header_t)
    : outcome (MessageFrameE * message_header_t) :=
  '(fc, mf) ← classify (messageType_ m) (header h);
  assert (forallb (λ f, bool_decide (frameControlType f = UnControlFrame))
            (frameHeaders_ m)) ;;
  frameHeader ← frame_header_ctor fc mf h;
  testValidate frameHeader ;;
  stored ← frame_header_copy frameHeader;
  Ret (mf, mkMessageHeader (messageType_ m) (frameHeaders_ m ++ [stored])).
