(* ===== verification/Context.v ===== *)
(** * Context: messages under reassembly and the connection context
    (src/libwebsocket/private/websocket.cc, lines 858-1200 and 3895-3925)

    [Message] accumulates the payload of a message in a buffer and unmasks it in
    place; [Context_] is the per-connection state of the protocol.  [B] is the
    buffer class and [H] the HTTP context class the connection was created
    with. *)

From S2P Require Import Prelude Endian BytesBuffer Frame.

Section message.
Context {B : Type} `{!IBytesBuffer B}.

Record Message : Type := mkMessage {
  messageHeader_ : message_header_t;
  messageBuffer_ : option B;
  segmentOffset_ : Z;
}.

Definition Message_ctor (messageType : MessageE) : Message :=
  mkMessage (mkMessageHeader messageType []) None 0.

Definition setMessageBuffer (m : Message) (buf : option B) : outcome Message :=
  assert (bool_decide (messageBuffer_ m = None)) ;;
  assert (bool_decide (is_Some buf)) ;;
  Ret (mkMessage (messageHeader_ m) buf (segmentOffset_ m)).

Definition getMessageBuffer (m : Message) : outcome B :=
  match messageBuffer_ m with
  | Some b => Ret b
  | None => Abort AssertFailed
  end.

(** Storing through the reference [getMessageBuffer] returns. *)
Definition update_buffer (m : Message) (b : B) : Message :=
  mkMessage (messageHeader_ m) (Some b) (segmentOffset_ m).

Definition update_offset (m : Message) (o : Z) : Message :=
  mkMessage (messageHeader_ m) (messageBuffer_ m) o.

Definition setMessageType (m : Message) (t : MessageE) : Message :=
  mkMessage (mkMessageHeader t (frameHeaders_ (messageHeader_ m)))
    (messageBuffer_ m) (segmentOffset_ m).

Definition getMessageType (m : Message) : MessageE := messageType_ (messageHeader_ m).

Definition Message_addFrameHeader (m : Message) (h : extended_header_t)
    : outcome (MessageFrameE * Message) :=
  '(mf, mh) ← addFrameHeader (messageHeader_ m) h;
  Ret (mf, mkMessage mh (messageBuffer_ m) (segmentOffset_ m)).

Definition resetMessage (m : Message) : Message :=
  let mh := message_header_reset (messageHeader_ m) in
  match messageBuffer_ m with
  | Some b => mkMessage mh (Some (b_retrieveAll b)) 0
  | None => mkMessage mh None (segmentOffset_ m)
  end.

(** [for (i = segmentOffset_; i < buf->readableBytes(); ++i)
      *((uint8_t* )buf->peek() + i) ^= Masking_key[i % 4]], [n] iterations. *)
Fixpoint unmask_loop (n : nat) (i : Z) (key : bytes) (b : B) : outcome B :=
  match n with
  | O => Ret b
  | S n =>
      l ← b_peekBytes b (i + 1);
      c ← Endian.byte_at l (Z.to_nat i);
      k ← Endian.byte_at key (Z.to_nat (i mod kMaskingkeyLen));
      b ← b_pokeByte b i (Z.lxor c k);
      unmask_loop n (i + 1) key b
  end.

Definition unMaskPayloadData (m : Message) (unMask : bool) (buf : B) (key : bytes)
    : outcome (bool * Message) :=
  let n := b_readableBytes buf in
  if unMask && (0 <? n) && (segmentOffset_ m <? n) then
    buf ← unmask_loop (Z.to_nat (n - segmentOffset_ m)) (segmentOffset_ m) key buf;
    Ret (true, update_offset (update_buffer m buf) (b_readableBytes buf))
  else Ret (false, update_buffer m buf).

End message.
Arguments Message : clear implicits.

(** ** Context_ *)

Record Context_ (B H : Type) : Type := mkContext {
  step_ : StepE;
  state_ : StateE;
  endian_ : EndianModeE;
  header_ : extended_header_t;
  dataMessage_ : Message B;
  controlMessage_ : Message B;
  httpContext_ : option H;
  handler_ : bool;
}.
Arguments mkContext {_ _} _ _ _ _ _ _ _ _.
Arguments step_ {_ _} _.
Arguments state_ {_ _} _.
Arguments endian_ {_ _} _.
Arguments header_ {_ _} _.
Arguments dataMessage_ {_ _} _.
Arguments controlMessage_ {_ _} _.
Arguments httpContext_ {_ _} _.
Arguments handler_ {_ _} _.

Section context.
Context {B H : Type} `{!IBytesBuffer B}.
Implicit Types c : Context_ B H.

Definition setWebsocketStep c (s : StepE) : Context_ B H :=
  mkContext s (state_ c) (endian_ c) (header_ c) (dataMessage_ c) (controlMessage_ c)
    (httpContext_ c) (handler_ c).

Definition setWebsocketState c (s : StateE) : Context_ B H :=
  mkContext (step_ c) s (endian_ c) (header_ c) (dataMessage_ c) (controlMessage_ c)
    (httpContext_ c) (handler_ c).

(** Storing through [getExtendedHeader], [getDataMessage], [getControlMessage]. *)
Definition set_extended_header c (h : extended_header_t) : Context_ B H :=
  mkContext (step_ c) (state_ c) (endian_ c) h (dataMessage_ c) (controlMessage_ c)
    (httpContext_ c) (handler_ c).

Definition set_data c (m : Message B) : Context_ B H :=
  mkContext (step_ c) (state_ c) (endian_ c) (header_ c) m (controlMessage_ c)
    (httpContext_ c) (handler_ c).

Definition set_control c (m : Message B) : Context_ B H :=
  mkContext (step_ c) (state_ c) (endian_ c) (header_ c) (dataMessage_ c) m
    (httpContext_ c) (handler_ c).

Definition set_http c (h : option H) : Context_ B H :=
  mkContext (step_ c) (state_ c) (endian_ c) (header_ c) (dataMessage_ c)
    (controlMessage_ c) h (handler_ c).

Definition set_handler c (h : bool) : Context_ B H :=
  mkContext (step_ c) (state_ c) (endian_ c) (header_ c) (dataMessage_ c)
    (controlMessage_ c) (httpContext_ c) h.

Definition resetExtendedHeader c : Context_ B H := set_extended_header c extended_header_zero.
Definition resetDataMessage c : Context_ B H := set_data c (resetMessage (dataMessage_ c)).
Definition resetControlMessage c : Context_ B H :=
  set_control c (resetMessage (controlMessage_ c)).

Definition resetAll c : Context_ B H :=
  let c := resetExtendedHeader c in
  let c := resetDataMessage c in
  let c := resetControlMessage c in
  let c := setWebsocketStep c ReadFrameHeader in
  let c := setWebsocketState c kClosed in
  set_handler c false.

Definition setHttpContext c (h : option H) : outcome (Context_ B H) :=
  assert (bool_decide (is_Some h)) ;; Ret (set_http c h).

Definition getHttpContext c : outcome H :=
  match httpContext_ c with
  | Some h => Ret h
  | None => Abort AssertFailed
  end.

Definition resetHttpContext c : Context_ B H :=
  match httpContext_ c with
  | Some _ => set_http c None
  | None => c
  end.

Definition setDataBuffer c (b : option B) : outcome (Context_ B H) :=
  m ← setMessageBuffer (dataMessage_ c) b; Ret (set_data c m).

Definition setControlBuffer c (b : option B) : outcome (Context_ B H) :=
  m ← setMessageBuffer (controlMessage_ c) b; Ret (set_control c m).

Definition setCallbackHandler c (handler : bool) : outcome (Context_ B H) :=
  assert handler ;; Ret (set_handler c handler).

Definition getCallbackHandler c : outcome bool :=
  assert (handler_ c) ;; Ret (handler_ c).

Definition Context_init c (handler : bool) (context : option H) (dataBuffer controlBuffer : option B)
    : outcome (Context_ B H) :=
  c ← setHttpContext c context;
  c ← setDataBuffer c dataBuffer;
  c ← setControlBuffer c controlBuffer;
  setCallbackHandler c handler.

Definition Context_ctor (handler : bool) (context : option H)
    (dataBuffer controlBuffer : option B) : outcome (Context_ B H) :=
  let c := mkContext ReadFrameHeader kClosed LittleEndian extended_header_zero
             (Message_ctor TextMessage) (Message_ctor CloseMessage) None false in
  Context_init c handler context dataBuffer controlBuffer.

End context.

(** ** Observable effects

    What the protocol does to its [ICallback] handler. *)
Inductive event : Type :=
  | EvSend (data : bytes)
  | EvConnected (ipaddr : bytes)
  | EvMessage (payload : bytes) (msgType : Z) (receiveTime : Z)
  | EvClosed (payload : bytes) (receiveTime : Z)
  | EvForceClose
  | EvShutdown.

(** A handler is handed the message buffer itself and may read from it or
    modify it; that is all of the connection it can reach. *)
Record ICallback (B : Type) : Type := mkCallback {
  cb_peerIpAddrToString : bytes;
  cb_onMessage : B → Z → Z → B;
  cb_onClosed : B → Z → B;
}.
Arguments cb_peerIpAddrToString {_} _.
Arguments cb_onMessage {_} _ _ _ _.
Arguments cb_onClosed {_} _ _ _.

(** A connection as the protocol code sees it: its context, the input buffer
    and the effects so far, oldest first. *)
Record World (B H : Type) : Type := mkWorld {
  w_ctx : Context_ B H;
  w_buf : B;
  w_log : list event;
}.
Arguments mkWorld {_ _} _ _ _.
Arguments w_ctx {_ _} _.
Arguments w_buf {_ _} _.
Arguments w_log {_ _} _.

Section world.
Context {B H : Type}.

Definition with_ctx (w : World B H) (c : Context_ B H) : World B H :=
  mkWorld c (w_buf w) (w_log w).
Definition with_buf (w : World B H) (b : B) : World B H :=
  mkWorld (w_ctx w) b (w_log w).
Definition emit (w : World B H) (e : event) : World B H :=
  mkWorld (w_ctx w) (w_buf w) (w_log w ++ [e]).
End world.
