(* ===== verification/Parser.v ===== *)
(** * Parser: the incremental frame parser
    (src/libwebsocket/private/websocket.cc, lines 1520-1553, 1701-1835,
    2170-3580)

    One definition per function of the source, with its assertions, its early
    exits and its calls in source order.  The parser consumes the input buffer
    step by step ([StepE]); what does not suffice for the current step stays in
    the buffer until more bytes arrive.  [debug] is the macro
    [LIBWEBSOCKET_DEBUG]: it adds the frame header records and their checks
    (the printing itself is not modelled).  [handler] effects are appended to
    the log of the [World]. *)

From S2P Require Import Prelude Endian BytesBuffer Frame Context.

Section parser.
Context {B H : Type} `{!IBytesBuffer B}.
Context (debug : bool) (cb : ICallback B) (receiveTime : Z).
Implicit Types w : World B H.

(** ** Classification of a frame *)

Definition get_frame_control_message_type (h : header_t)
    : outcome (FrameControlE * MessageFrameE) :=
  match opcode_of (opcode h) with
  | SegmentMessage =>
      Ret (UnControlFrame, match fin_of (FIN h) with
                           | FrameContinue => MiddleFrame
                           | FrameFinished => TailFrame
                           end)
  | TextMessage | BinaryMessage =>
      Ret (UnControlFrame, match fin_of (FIN h) with
                           | FrameContinue => HeadFrame
                           | FrameFinished => HeadTailFrame
                           end)
  | CloseMessage | PingMessage | PongMessage =>
      mf ← match fin_of (FIN h) with
           | FrameContinue =>
               assert (bool_decide (fin_of (FIN h) = FrameFinished)) ;; Ret UnknownFrame
           | FrameFinished => Ret HeadTailFrame
           end;
      Ret (ControlFrame, mf)
  | _ => Abort AssertFailed
  end.

(** The fields shown by the debug dump: it evaluates [existMaskingkey] (which
    asserts) and the big-endian value of the key. *)
Definition dump_extended_header_info (e : extended_header_t) : outcome unit :=
  masked ← existMaskingkey e;
  match masked with
  | true => _ ← Endian.be32BigEndian (Masking_key e); Ret tt
  | false => Ret tt
  end.

(** ** The header of a frame *)

Definition parse_frame_header w : outcome (World B H) :=
  l ← b_peekBytes (w_buf w) kHeaderLen;
  b0 ← Endian.byte_at l 0;
  b1 ← Endian.byte_at l 1;
  b ← b_retrieve (w_buf w) kHeaderLen;
  let c := w_ctx w in
  Ret (with_ctx (with_buf w b)
         (set_extended_header c (set_header (header_ c) (header_of_bytes b0 b1)))).

(** A message starts with an empty buffer. *)
Definition begin_message (m : Message B) (t : MessageE) : outcome (Message B) :=
  b ← getMessageBuffer m;
  assert (b_readableBytes b =? 0) ;;
  Ret (setMessageType m t).

Definition validate_message_frame w : outcome (World B H) :=
  let c := w_ctx w in
  let data := dataMessage_ c in
  let control := controlMessage_ c in
  match opcode_of (opcode (header (header_ c))) with
  | SegmentMessage =>
      assert (negb debug || (getFrameHeaderSize (messageHeader_ control) =? 0)) ;;
      assert (negb debug || (0 <? getFrameHeaderSize (messageHeader_ data))) ;;
      assert (bool_decide (getMessageType data = TextMessage) ||
              bool_decide (getMessageType data = BinaryMessage)) ;;
      Ret w
  | (TextMessage | BinaryMessage) as t =>
      m ← begin_message data t;
      Ret (with_ctx w (set_data c m))
  | (CloseMessage | PingMessage | PongMessage) as t =>
      m ← begin_message control t;
      Ret (with_ctx w (set_control c m))
  | _ => Ret w
  end.

(** ** Callbacks *)

(** [handler->onMessageCallback(buf, type, receiveTime)] on a message. *)
Definition onMessageCallback w (m : Message B) : outcome (World B H * Message B) :=
  buf ← getMessageBuffer m;
  payload ← b_peekBytes buf (b_readableBytes buf);
  let t := OpcodeE_val (getMessageType m) in
  Ret (emit w (EvMessage payload t receiveTime),
       update_buffer m (cb_onMessage cb buf t receiveTime)).

Definition onClosedCallback w (m : Message B) : outcome (World B H * Message B) :=
  buf ← getMessageBuffer m;
  payload ← b_peekBytes buf (b_readableBytes buf);
  Ret (emit w (EvClosed payload receiveTime),
       update_buffer m (cb_onClosed cb buf receiveTime)).

(** ** The payload *)

(** Moves [len] payload bytes from the input buffer into the message and
    unmasks them. *)
Definition take_payload w (m : Message B) (len : Z) : outcome (World B H * Message B) :=
  let e := header_ (w_ctx w) in
  m ← (if debug then
         '(_, m) ← Message_addFrameHeader m e;
         dump_extended_header_info e ;;
         Ret m
       else Ret m);
  dst ← getMessageBuffer m;
  l ← b_peekBytes (w_buf w) len;
  dst ← b_append dst l;
  b ← b_retrieve (w_buf w) len;
  '(_, m) ← unMaskPayloadData (update_buffer m dst) (negb (MASK (header e) =? 0)) dst
              (Masking_key e);
  Ret (with_buf w b, m).

(** Start over with the header of the next frame. *)
Definition next_frame w : World B H :=
  with_ctx w (setWebsocketStep (resetExtendedHeader (w_ctx w)) ReadFrameHeader).

(** Reset of a message after its callback, with the check that follows. *)
Definition finish_data w : outcome (World B H) :=
  let c := resetDataMessage (w_ctx w) in
  b ← getMessageBuffer (dataMessage_ c);
  assert (b_readableBytes b =? 0) ;;
  Ret (with_ctx w c).

Definition finish_control w : outcome (World B H) :=
  let c := resetControlMessage (w_ctx w) in
  b ← getMessageBuffer (controlMessage_ c);
  assert (b_readableBytes b =? 0) ;;
  Ret (with_ctx w c).

(** A data frame whose [len] payload bytes are all in the input buffer. *)
Definition uncontrol_payload w (len : Z) : outcome (World B H) :=
  let h := header (header_ (w_ctx w)) in
  '(w, m) ← take_payload w (dataMessage_ (w_ctx w)) len;
  let w := with_ctx w (set_data (w_ctx w) m) in
  w ← match fin_of (FIN h) with
      | FrameContinue => Ret w
      | FrameFinished =>
          match opcode_of (opcode h) with
          | SegmentMessage | TextMessage | BinaryMessage => Ret tt
          | _ => Abort AssertFailed
          end ;;
          '(w, m) ← onMessageCallback w (dataMessage_ (w_ctx w));
          finish_data (with_ctx w (set_data (w_ctx w) m))
      end;
  Ret (next_frame w).

(** A control frame whose [len] payload bytes are all in the input buffer. *)
Definition control_payload w (len : Z) : outcome (World B H) :=
  let h := header (header_ (w_ctx w)) in
  '(w, m) ← take_payload w (controlMessage_ (w_ctx w)) len;
  let w := with_ctx w (set_control (w_ctx w) m) in
  w ← match fin_of (FIN h) with
      | FrameContinue => Ret w
      | FrameFinished =>
          w ← match opcode_of (opcode h) with
              | CloseMessage =>
                  '(w, m) ← onClosedCallback w (controlMessage_ (w_ctx w));
                  let w := emit (with_ctx w (set_control (w_ctx w) m)) EvForceClose in
                  w ← finish_data w;
                  Ret (with_ctx w (setWebsocketState (w_ctx w) kClosed))
              | PingMessage | PongMessage =>
                  '(w, m) ← onMessageCallback w (controlMessage_ (w_ctx w));
                  Ret (with_ctx w (set_control (w_ctx w) m))
              | _ => Abort AssertFailed
              end;
          finish_control w
      end;
  Ret (next_frame w).

(** [assert(context.getWebsocketStep() == s)]. *)
Definition assert_step w (s : StepE) : outcome unit :=
  assert (bool_decide (step_ (w_ctx w) = s)).

Definition parse_uncontrol_frame_ReadPayloadData w : outcome (bool * World B H) :=
  let h := header (header_ (w_ctx w)) in
  _ ← getCallbackHandler (w_ctx w);
  assert (Payloadlen h <? 126) ;;
  assert_step w ReadPayloadData ;;
  if b_readableBytes (w_buf w) <? Payloadlen h then Ret (false, w)
  else w ← uncontrol_payload w (Payloadlen h); Ret (true, w).

Definition parse_uncontrol_frame_ReadExtendedPayloadDataU16 w : outcome (bool * World B H) :=
  let e := header_ (w_ctx w) in
  _ ← getCallbackHandler (w_ctx w);
  assert (Payloadlen (header e) =? 126) ;;
  assert_step w ReadExtendedPayloadDataU16 ;;
  if b_readableBytes (w_buf w) <? getExtendedPayloadlenU16 e then Ret (false, w)
  else w ← uncontrol_payload w (getExtendedPayloadlenU16 e); Ret (true, w).

(** The comparison converts the [int64_t] length to [size_t]. *)
Definition parse_uncontrol_frame_ReadExtendedPayloadDataI64 w : outcome (bool * World B H) :=
  let e := header_ (w_ctx w) in
  _ ← getCallbackHandler (w_ctx w);
  assert (Payloadlen (header e) =? 127) ;;
  assert_step w ReadExtendedPayloadDataI64 ;;
  if b_readableBytes (w_buf w) <? u64 (getExtendedPayloadlenI64 e) then Ret (false, w)
  else w ← uncontrol_payload w (u64 (getExtendedPayloadlenI64 e)); Ret (true, w).

Definition parse_control_frame_ReadPayloadData w : outcome (bool * World B H) :=
  let h := header (header_ (w_ctx w)) in
  _ ← getCallbackHandler (w_ctx w);
  assert (Payloadlen h <? 126) ;;
  assert_step w ReadPayloadData ;;
  if b_readableBytes (w_buf w) <? Payloadlen h then Ret (false, w)
  else w ← control_payload w (Payloadlen h); Ret (true, w).

(** The step asserted here is [ReadPayloadData], not the
    [ReadExtendedPayloadDataU16] its callers have set. *)
Definition parse_control_frame_ReadExtendedPayloadDataU16 w : outcome (bool * World B H) :=
  let e := header_ (w_ctx w) in
  _ ← getCallbackHandler (w_ctx w);
  assert (Payloadlen (header e) =? 126) ;;
  assert_step w ReadPayloadData ;;
  if b_readableBytes (w_buf w) <? getExtendedPayloadlenU16 e then Ret (false, w)
  else w ← control_payload w (getExtendedPayloadlenU16 e); Ret (true, w).

Definition parse_control_frame_ReadExtendedPayloadDataI64 w : outcome (bool * World B H) :=
  let e := header_ (w_ctx w) in
  _ ← getCallbackHandler (w_ctx w);
  assert (Payloadlen (header e) =? 127) ;;
  assert_step w ReadExtendedPayloadDataI64 ;;
  if b_readableBytes (w_buf w) <? u64 (getExtendedPayloadlenI64 e) then Ret (false, w)
  else w ← control_payload w (u64 (getExtendedPayloadlenI64 e)); Ret (true, w).

(** ** Lengths and masking key *)

Definition parse_frame_ReadMaskingkey w : outcome (bool * World B H) :=
  let c := w_ctx w in
  let h := header (header_ c) in
  assert (MASK h =? 1) ;;
  assert_step w ReadMaskingkey ;;
  if b_readableBytes (w_buf w) <? kMaskingkeyLen then Ret (false, w)
  else
    key ← b_peekBytes (w_buf w) kMaskingkeyLen;
    e ← setMaskingkey (header_ c) key kMaskingkeyLen;
    b ← b_retrieve (w_buf w) kMaskingkeyLen;
    let c := set_extended_header c e in
    let w := with_buf w b in
    if Payloadlen h =? 126 then
      let w := with_ctx w (setWebsocketStep c ReadExtendedPayloadDataU16) in
      ty ← get_frame_control_message_type h;
      assert (negb (bool_decide (fst ty = FrameInvalid))) ;;
      if bool_decide (fst ty = UnControlFrame)
      then parse_uncontrol_frame_ReadExtendedPayloadDataU16 w
      else parse_control_frame_ReadExtendedPayloadDataU16 w
    else if Payloadlen h =? 127 then
      let w := with_ctx w (setWebsocketStep c ReadExtendedPayloadDataI64) in
      ty ← get_frame_control_message_type h;
      assert (negb (bool_decide (fst ty = FrameInvalid))) ;;
      if bool_decide (fst ty = UnControlFrame)
      then parse_uncontrol_frame_ReadExtendedPayloadDataI64 w
      else parse_control_frame_ReadExtendedPayloadDataI64 w
    else
      assert (Payloadlen h <? 126) ;;
      let w := with_ctx w (setWebsocketStep c ReadPayloadData) in
      ty ← get_frame_control_message_type h;
      assert (negb (bool_decide (fst ty = FrameInvalid))) ;;
      if bool_decide (fst ty = UnControlFrame)
      then parse_uncontrol_frame_ReadPayloadData w
      else parse_control_frame_ReadPayloadData w.

Definition parse_frame_ReadExtendedPayloadlenU16 w : outcome (bool * World B H) :=
  let c := w_ctx w in
  let h := header (header_ c) in
  assert (Payloadlen h =? 126) ;;
  assert_step w ReadExtendedPayloadlenU16 ;;
  if b_readableBytes (w_buf w) <? kExtendedPayloadlenU16 then Ret (false, w)
  else
    '(n, b) ← b_readInt16 (w_buf w);
    let c := set_extended_header c
               (setExtendedPayloadlen_u16 (header_ c) (Endian.networkToHost16 n)) in
    let s := if MASK h =? 1 then ReadMaskingkey else ReadExtendedPayloadDataU16 in
    Ret (true, with_ctx (with_buf w b) (setWebsocketStep c s)).

Definition parse_frame_ReadExtendedPayloadlenI64 w : outcome (bool * World B H) :=
  let c := w_ctx w in
  let h := header (header_ c) in
  assert (Payloadlen h =? 127) ;;
  assert_step w ReadExtendedPayloadlenI64 ;;
  if b_readableBytes (w_buf w) <? kExtendedPayloadlenI64 then Ret (false, w)
  else
    '(n, b) ← b_readInt64 (w_buf w);
    let c := set_extended_header c
               (setExtendedPayloadlen_i64 (header_ c) (s64 (Endian.networkToHost64 n))) in
    let s := if MASK h =? 1 then ReadMaskingkey else ReadExtendedPayloadDataI64 in
    Ret (true, with_ctx (with_buf w b) (setWebsocketStep c s)).

(** Chooses the step after the two header bytes and runs it once; its result
    is dropped. *)
Definition update_frame_body_parse_step w : outcome (World B H) :=
  let c := w_ctx w in
  let h := header (header_ c) in
  assert_step w ReadFrameHeader ;;
  if Payloadlen h =? 126 then
    '(_, w) ← parse_frame_ReadExtendedPayloadlenU16
                (with_ctx w (setWebsocketStep c ReadExtendedPayloadlenU16));
    Ret w
  else if Payloadlen h =? 127 then
    '(_, w) ← parse_frame_ReadExtendedPayloadlenI64
                (with_ctx w (setWebsocketStep c ReadExtendedPayloadlenI64));
    Ret w
  else
    assert (Payloadlen h <? 126) ;;
    if MASK h =? 1 then
      '(_, w) ← parse_frame_ReadMaskingkey (with_ctx w (setWebsocketStep c ReadMaskingkey));
      Ret w
    else
      '(_, w) ← parse_control_frame_ReadPayloadData
                  (with_ctx w (setWebsocketStep c ReadPayloadData));
      Ret w.

Definition parse_frame_ReadFrameHeader w : outcome (bool * World B H) :=
  assert_step w ReadFrameHeader ;;
  if b_readableBytes (w_buf w) <? kHeaderLen then Ret (false, w)
  else
    w ← parse_frame_header w;
    w ← validate_message_frame w;
    w ← update_frame_body_parse_step w;
    Ret (true, w).

(** ** The loop *)

(** One iteration; [ty] is the classification computed before the loop. *)
Definition parse_frame_step (ty : FrameControlE * MessageFrameE) w : outcome (bool * World B H) :=
  match step_ (w_ctx w) with
  | ReadFrameHeader => parse_frame_ReadFrameHeader w
  | ReadExtendedPayloadlenU16 => parse_frame_ReadExtendedPayloadlenU16 w
  | ReadExtendedPayloadlenI64 => parse_frame_ReadExtendedPayloadlenI64 w
  | ReadMaskingkey => parse_frame_ReadMaskingkey w
  | ReadPayloadData =>
      assert (negb (bool_decide (fst ty = FrameInvalid))) ;;
      if bool_decide (fst ty = UnControlFrame)
      then parse_uncontrol_frame_ReadPayloadData w
      else parse_control_frame_ReadPayloadData w
  | ReadExtendedPayloadDataU16 =>
      assert (negb (bool_decide (fst ty = FrameInvalid))) ;;
      if bool_decide (fst ty = UnControlFrame)
      then parse_uncontrol_frame_ReadExtendedPayloadDataU16 w
      else parse_control_frame_ReadExtendedPayloadDataU16 w
  | ReadExtendedPayloadDataI64 =>
      assert (negb (bool_decide (fst ty = FrameInvalid))) ;;
      if bool_decide (fst ty = UnControlFrame)
      then parse_uncontrol_frame_ReadExtendedPayloadDataI64 w
      else parse_control_frame_ReadExtendedPayloadDataI64 w
  end.

(** [while (enough && buf->readableBytes() > 0)]. *)
Fixpoint parse_frame_loop (fuel : nat) (ty : FrameControlE * MessageFrameE) (enough : bool) w
    : outcome (World B H) :=
  if enough && (0 <? b_readableBytes (w_buf w)) then
    match fuel with
    | O => Abort OutOfFuel
    | S fuel =>
        '(enough, w) ← parse_frame_step ty w;
        parse_frame_loop fuel ty enough w
    end
  else Ret w.

(** Two iterations per byte, and one more, are enough: see
    [parse_frame_terminates]. *)
Definition parse_fuel w : nat := Z.to_nat (2 * b_readableBytes (w_buf w) + 2).

Definition parse_frame w : outcome (World B H) :=
  let c := w_ctx w in
  _ ← getCallbackHandler c;
  _ ← getMessageBuffer (dataMessage_ c);
  _ ← getMessageBuffer (controlMessage_ c);
  ty ← get_frame_control_message_type (header (header_ c));
  parse_frame_loop (parse_fuel w) ty true w.

End parser.
