(* ===== verification/ParserSafety.v ===== *)
(** * ParserSafety: what holds for every input

    Whatever bytes a peer sends, and whatever the callback does to the buffer it
    is handed, the parser never reads or writes outside a buffer, never asks a
    vector for more than it can hold, never uses a null pointer, and its loop
    terminates: a call returns, or stops at one of the source's own assertions.
    The rules below compute such facts by running a definition against a
    postcondition. *)

From S2P Require Import Prelude Endian BytesBuffer Buffer Frame Context Parser.

(** [m] returns a value that satisfies [Q], or stops at an [assert]. *)
Definition safe {A} (m : outcome A) (Q : A → Prop) : Prop :=
  match m with
  | Ret a => Q a
  | Abort AssertFailed => True
  | Abort _ => False
  end.

Lemma safe_ret {A} (a : A) (Q : A → Prop) : Q a → safe (Ret a) Q.
Proof. done. Qed.

Lemma safe_bind {A C} (m : outcome A) (k : A → outcome C) (P : A → Prop) (Q : C → Prop) :
  safe m P → (∀ a, P a → safe (k a) Q) → safe (m ≫= k) Q.
Proof. intros Hm Hk. destruct m as [a|[]]; try done. by apply Hk. Qed.

Lemma safe_mono {A} (m : outcome A) (P Q : A → Prop) :
  safe m P → (∀ a, P a → Q a) → safe m Q.
Proof. intros Hm HPQ. destruct m as [a|[]]; try done. by apply HPQ. Qed.

Lemma safe_assert b : safe (assert b) (λ _, b = true).
Proof. by destruct b. Qed.

Lemma safe_conj {A} (m : outcome A) (P Q : A → Prop) :
  safe m P → safe m Q → safe m (λ a, P a ∧ Q a).
Proof. by destruct m as [a|[]]. Qed.

(** Continue under a bind with the postcondition of the first part. *)
Ltac safe_step H := eapply safe_bind; [apply H|]; cbn beta.
Ltac safe_assert_as H := eapply safe_bind; [apply safe_assert|]; cbn beta; intros [] H.

Section safety.
Context {B H : Type} `{!IBytesBuffer B} `{!BytesBufferLaws B}.
Context (debug : bool) (cb : ICallback B) (receiveTime : Z).
Implicit Types w : World B H.

(** The callback leaves a valid buffer behind. *)
Record callback_ok : Prop := CallbackOk {
  cb_message_ok b t r : buf_inv b → buf_inv (cb_onMessage cb b t r);
  cb_closed_ok b r : buf_inv b → buf_inv (cb_onClosed cb b r);
}.

(** A message whose buffer, if any, is valid and can take [R] more bytes. *)
Record msg_ok (R : Z) (m : Message B) : Prop := MsgOk {
  mo_buf b : messageBuffer_ m = Some b → buf_inv b ∧ R ≤ room b;
  mo_offset : 0 ≤ segmentOffset_ m;
}.

Record ext_ok (e : extended_header_t) : Prop := ExtOk {
  eo_key : length (Masking_key e) = 4%nat;
  eo_key_bytes : Forall_byte (Masking_key e);
  eo_header : header_wf (header e);
}.

(** The memory-safety invariant of a connection: [L] bounds every buffer. *)
Record world_ok (L : Z) w : Prop := WorldOk {
  wo_buf : buf_inv (w_buf w);
  wo_len : zlen (view (w_buf w)) ≤ L;
  wo_data : msg_ok (zlen (view (w_buf w))) (dataMessage_ (w_ctx w));
  wo_control : msg_ok (zlen (view (w_buf w))) (controlMessage_ (w_ctx w));
  wo_ext : ext_ok (header_ (w_ctx w));
}.

Context (Hcb : callback_ok) (L : Z) (HL : L ≤ max_room).

Lemma msg_ok_weaken R R' m : R' ≤ R → msg_ok R m → msg_ok R' m.
Proof. intros ? [Hb Ho]. split; [|done]. intros b Hm. destruct (Hb b Hm). split; [done|lia]. Qed.

Lemma header_of_bytes_wf b0 b1 : header_wf (header_of_bytes b0 b1).
Proof.
  assert (∀ z n, 0 ≤ n → 0 ≤ Z.land z (Z.ones n) < 2 ^ n) as Hland.
  { intros z n Hn. rewrite Z.land_ones by done. apply Z.mod_pos_bound, Z.pow_pos_nonneg; lia. }
  split; cbn.
  - apply (Hland _ 4). lia.
  - apply (Hland _ 1). lia.
  - apply (Hland _ 1). lia.
  - apply (Hland _ 1). lia.
  - apply (Hland _ 1). lia.
  - apply (Hland _ 7). lia.
  - apply (Hland _ 1). lia.
Qed.

Lemma ext_zero_ok : ext_ok extended_header_zero.
Proof.
  split; [done|by apply (bool_decide_unpack _)|]. split; cbn; lia.
Qed.

(** ** Unmasking *)

Lemma byte_at_safe l i : (i < length l)%nat → ∃ x, Endian.byte_at l i = Ret x ∧ l !! i = Some x.
Proof.
  intros Hi. unfold Endian.byte_at. destruct (lookup_lt_is_Some_2 l i Hi) as [x Hx].
  rewrite Hx. by exists x.
Qed.

Lemma unmask_loop_safe n i key b :
  buf_inv b → length key = 4%nat → Forall_byte key →
  0 ≤ i → i + Z.of_nat n ≤ zlen (view b) →
  ∃ b', unmask_loop n i key b = Ret b' ∧ buf_inv b' ∧ room b ≤ room b' ∧
    length (view b') = length (view b).
Proof.
  revert i b. induction n as [|n IH]; intros i b Hb Hk Hkb Hi Hn; cbn [unmask_loop].
  { by exists b. }
  rewrite peekBytes_view by (done || lia). orun.
  assert (zlen (ztake (i + 1) (view b)) = i + 1) as Hl by (apply length_ztake; lia).
  destruct (byte_at_safe (ztake (i + 1) (view b)) (Z.to_nat i)) as (x & -> & Hx); [lia|].
  orun. pose proof (Z.mod_pos_bound i 4 ltac:(lia)) as Hmod. unfold kMaskingkeyLen.
  destruct (byte_at_safe key (Z.to_nat (i mod 4))) as (k & -> & Hkk); [lia|]. orun.
  assert (is_byte (Z.lxor x k)) as Hxk.
  { apply is_byte_lxor.
    - eapply (Forall_lookup_1 is_byte (ztake (i + 1) (view b))); [|done]. auto with ws.
    - by eapply (Forall_lookup_1 is_byte key). }
  destruct (pokeByte_view b i (Z.lxor x k)) as (b1 & -> & [Hb1 Hv1 Hr1]); [done|lia|done|].
  orun. assert (length (view b1) = length (view b)) as Hlen
    by (rewrite Hv1; apply length_insert).
  destruct (IH (i + 1) b1) as (b2 & -> & ? & ? & ?); [done..|lia|lia|].
  exists b2. split_and!; [done..|lia|congruence].
Qed.

Lemma unMaskPayloadData_safe m unMask buf key R :
  msg_ok R (update_buffer m buf) → length key = 4%nat → Forall_byte key →
  safe (unMaskPayloadData m unMask buf key) (λ r, msg_ok R (snd r)).
Proof.
  intros [Hm Ho] Hk Hkb. unfold unMaskPayloadData.
  destruct (Hm buf eq_refl) as [Hb Hr]. cbn in Ho. rewrite readableBytes_view by done.
  destruct (unMask && _ && _) eqn:Hc; [|done].
  rewrite !andb_true_iff, !Z.ltb_lt in Hc. destruct Hc as [_ Hlt].
  destruct (unmask_loop_safe (Z.to_nat (zlen (view buf) - segmentOffset_ m))
    (segmentOffset_ m) key buf) as (b' & -> & Hb' & Hr' & Hl'); [done..|lia|].
  orun. cbn. rewrite readableBytes_view by done. split; cbn; [|lia].
  intros b [= <-]. split; [done|lia].
Qed.
(** ** Frame header records and the debug dump *)

Lemma classify_safe t h : safe (classify t h) (λ _, True).
Proof.
  unfold classify. destruct (opcode_of (opcode h)), (fin_of (FIN h)); cbn;
    repeat (try done; case_bool_decide; cbn).
Qed.

Lemma frame_header_ctor_safe fc mf e : safe (frame_header_ctor fc mf e) (λ _, True).
Proof. done. Qed.

Lemma testValidate_safe f : safe (testValidate f) (λ _, True).
Proof.
  unfold testValidate.
  destruct (opcode_of (opcode (header (fh_header f)))),
    (fin_of (FIN (header (fh_header f)))); cbn; repeat (try done; case_bool_decide; cbn).
Qed.

Lemma Message_addFrameHeader_safe (m : Message B) e :
  safe (Message_addFrameHeader m e)
    (λ r, messageBuffer_ (snd r) = messageBuffer_ m ∧
          segmentOffset_ (snd r) = segmentOffset_ m).
Proof.
  unfold Message_addFrameHeader, addFrameHeader. rewrite bind_assoc.
  safe_step classify_safe. intros [fc mf] _. rewrite bind_assoc.
  safe_assert_as Hall. rewrite bind_assoc.
  safe_step frame_header_ctor_safe. intros f _. rewrite bind_assoc.
  safe_step testValidate_safe. intros _ _. rewrite bind_assoc.
  safe_step frame_header_ctor_safe. done.
Qed.

Lemma dump_extended_header_info_safe e :
  ext_ok e → safe (dump_extended_header_info e) (λ _, True).
Proof.
  intros [Hk _ _]. unfold dump_extended_header_info.
  eapply (safe_bind _ _ (λ _, True)).
  { unfold existMaskingkey. repeat case_match; try done. by safe_assert_as Hx. }
  intros [] _; [|done].
  destruct (Masking_key e) as [|k0 [|k1 [|k2 [|k3 [|? ?]]]]]; try discriminate Hk.
  done.
Qed.

(** ** Payload *)

Lemma getMessageBuffer_safe (m : Message B) :
  safe (getMessageBuffer m) (λ b, messageBuffer_ m = Some b).
Proof. unfold getMessageBuffer. by destruct (messageBuffer_ m). Qed.

Lemma debug_header_safe w (m : Message B) :
  ext_ok (header_ (w_ctx w)) →
  safe (if debug then
          '(_, m) ← Message_addFrameHeader m (header_ (w_ctx w));
          dump_extended_header_info (header_ (w_ctx w)) ;; Ret m
        else Ret m)
    (λ m', messageBuffer_ m' = messageBuffer_ m ∧ segmentOffset_ m' = segmentOffset_ m).
Proof.
  intros He. destruct debug; [|done].
  safe_step Message_addFrameHeader_safe. intros [mf m'] Hm.
  eapply safe_bind; [by apply dump_extended_header_info_safe|]. done.
Qed.

(** [m] is one of the two messages of the connection. *)
Lemma take_payload_safe w m len :
  buf_inv (w_buf w) → ext_ok (header_ (w_ctx w)) →
  msg_ok (zlen (view (w_buf w))) m → 0 ≤ len ≤ zlen (view (w_buf w)) →
  safe (take_payload debug w m len) (λ r,
    ∃ b', fst r = with_buf w b' ∧ buf_inv b' ∧ view b' = zdrop len (view (w_buf w)) ∧
      msg_ok (zlen (view b')) (snd r)).
Proof.
  intros Hb He [Hm Ho] Hlen. unfold take_payload.
  eapply safe_bind; [by apply debug_header_safe|]. cbn beta. intros m1 [Hm1 Ho1].
  safe_step getMessageBuffer_safe. intros dst Hdst.
  rewrite Hm1 in Hdst. destruct (Hm dst Hdst) as [Hd Hr].
  rewrite peekBytes_view by done. orun.
  assert (zlen (ztake len (view (w_buf w))) = len) as Hl by (by apply length_ztake).
  destruct (append_view dst (ztake len (view (w_buf w)))) as (dst' & -> & [Hd' Hv' Hr']);
    [done|auto with ws|lia|]. orun.
  destruct (retrieve_view (w_buf w) len) as (b' & -> & [Hb' Hvb' Hrb']); [done..|]. orun.
  assert (zlen (view b') = zlen (view (w_buf w)) - len) as Hvl
    by (rewrite Hvb'; by apply length_zdrop).
  eapply safe_bind.
  { apply (unMaskPayloadData_safe _ _ _ _ (zlen (view b'))); [|by destruct He..].
    split; [|by cbn; rewrite Ho1]. intros b [= <-]. split; [done|lia]. }
  intros [u m2] Hm2. apply safe_ret. by exists b'.
Qed.

(** ** Completing a frame *)

Lemma onMessageCallback_safe w (m : Message B) R :
  msg_ok R m →
  safe (onMessageCallback cb receiveTime w m) (λ r,
    (∃ e, fst r = emit w e) ∧ (∀ b, messageBuffer_ (snd r) = Some b → buf_inv b) ∧
    0 ≤ segmentOffset_ (snd r)).
Proof using Hcb.
  intros [Hm Ho]. unfold onMessageCallback. safe_step getMessageBuffer_safe.
  intros buf Hbuf. destruct (Hm buf Hbuf) as [Hb _].
  rewrite readableBytes_view, peekBytes_view by (done || lia). orun. cbn.
  split_and!; [by eexists| |done]. intros b [= <-]. by apply Hcb.
Qed.

Lemma onClosedCallback_safe w (m : Message B) R :
  msg_ok R m →
  safe (onClosedCallback cb receiveTime w m) (λ r,
    (∃ e, fst r = emit w e) ∧ (∀ b, messageBuffer_ (snd r) = Some b → buf_inv b) ∧
    0 ≤ segmentOffset_ (snd r)).
Proof using Hcb.
  intros [Hm Ho]. unfold onClosedCallback. safe_step getMessageBuffer_safe.
  intros buf Hbuf. destruct (Hm buf Hbuf) as [Hb _].
  rewrite readableBytes_view, peekBytes_view by (done || lia). orun. cbn.
  split_and!; [by eexists| |done]. intros b [= <-]. by apply Hcb.
Qed.

(** A reset message is empty and has all its room again. *)
Lemma resetMessage_ok (m : Message B) :
  (∀ b, messageBuffer_ m = Some b → buf_inv b) → 0 ≤ segmentOffset_ m →
  msg_ok max_room (resetMessage m).
Proof.
  intros Hm Ho. unfold resetMessage. destruct (messageBuffer_ m) as [b|]; split; cbn; try done.
  intros b' [= <-]. by destruct (retrieveAll_view b (Hm b eq_refl)).
Qed.

Lemma finish_data_safe w :
  (∀ b, messageBuffer_ (dataMessage_ (w_ctx w)) = Some b → buf_inv b) →
  0 ≤ segmentOffset_ (dataMessage_ (w_ctx w)) →
  safe (finish_data w) (λ w',
    w' = with_ctx w (resetDataMessage (w_ctx w)) ∧
    msg_ok max_room (dataMessage_ (w_ctx w'))).
Proof.
  intros Hm Ho. unfold finish_data. safe_step getMessageBuffer_safe. intros b Hb.
  safe_assert_as Hz. apply safe_ret. split; [done|]. by apply resetMessage_ok.
Qed.

Lemma finish_control_safe w :
  (∀ b, messageBuffer_ (controlMessage_ (w_ctx w)) = Some b → buf_inv b) →
  0 ≤ segmentOffset_ (controlMessage_ (w_ctx w)) →
  safe (finish_control w) (λ w',
    w' = with_ctx w (resetControlMessage (w_ctx w)) ∧
    msg_ok max_room (controlMessage_ (w_ctx w'))).
Proof.
  intros Hm Ho. unfold finish_control. safe_step getMessageBuffer_safe. intros b Hb.
  safe_assert_as Hz. apply safe_ret. split; [done|]. by apply resetMessage_ok.
Qed.

(** What a completed frame leaves: the invariant, [len] bytes fewer in the
    input buffer, and the parser at the next header. *)
Definition frame_done (w : World B H) (len : Z) (w' : World B H) : Prop :=
  world_ok L w' ∧ zlen (view (w_buf w')) = zlen (view (w_buf w)) - len ∧
  step_ (w_ctx w') = ReadFrameHeader.

Lemma uncontrol_payload_safe w len :
  world_ok L w → 0 ≤ len ≤ zlen (view (w_buf w)) →
  safe (uncontrol_payload debug cb receiveTime w len) (frame_done w len).
Proof using Hcb HL.
  intros [Hb Hl Hd Hc He] Hlen. unfold uncontrol_payload.
  eapply safe_bind; [by apply take_payload_safe|]. cbn beta.
  intros [w1 m1] (b' & Hw1 & Hb' & Hv' & Hm1). cbn [fst snd] in *. subst w1.
  assert (zlen (view b') = zlen (view (w_buf w)) - len) as Hvl
    by (rewrite Hv'; by apply length_zdrop).
  assert (msg_ok (zlen (view b')) (controlMessage_ (w_ctx w))) as Hc'
    by (eapply msg_ok_weaken; [|done]; lia).
  eapply (safe_bind _ _ (λ w', world_ok L w' ∧ zlen (view (w_buf w')) = zlen (view b'))).
  - destruct (fin_of _); [by apply safe_ret; split; [split; cbn; try done; lia|]|].
    eapply (safe_bind _ _ (λ _, True)); [by destruct (opcode_of _)|]. intros _ _.
    eapply safe_bind; [by eapply onMessageCallback_safe|]. cbn beta.
    intros [w2 m2] ([e Hw2] & Hm2 & Ho2). cbn [fst snd] in *. subst w2.
    eapply safe_mono; [by apply finish_data_safe|]. cbn beta. intros w3 [-> Hm3].
    split; [|done]. cbn in Hm3. split; cbn; try done; [lia|].
    eapply msg_ok_weaken; [|done]; lia.
  - intros w2 [[] Hv2]. apply safe_ret. unfold frame_done. cbn. split_and!; [|lia|done].
    split; cbn; try done. apply ext_zero_ok.
Qed.

Lemma control_payload_safe w len :
  world_ok L w → 0 ≤ len ≤ zlen (view (w_buf w)) →
  safe (control_payload debug cb receiveTime w len) (frame_done w len).
Proof using Hcb HL.
  intros [Hb Hl Hd Hc He] Hlen. unfold control_payload.
  eapply safe_bind; [by apply take_payload_safe|]. cbn beta.
  intros [w1 m1] (b' & Hw1 & Hb' & Hv' & Hm1). cbn [fst snd] in *. subst w1.
  assert (zlen (view b') = zlen (view (w_buf w)) - len) as Hvl
    by (rewrite Hv'; by apply length_zdrop).
  assert (msg_ok (zlen (view b')) (dataMessage_ (w_ctx w))) as Hd'
    by (eapply msg_ok_weaken; [|done]; lia).
  eapply (safe_bind _ _ (λ w', world_ok L w' ∧ zlen (view (w_buf w')) = zlen (view b'))).
  - destruct (fin_of _); [by apply safe_ret; split; [split; cbn; try done; lia|]|].
    eapply (safe_bind _ _ (λ w', w_buf w' = b' ∧ header_ (w_ctx w') = header_ (w_ctx w) ∧
      msg_ok (zlen (view b')) (dataMessage_ (w_ctx w')) ∧
      (∀ b, messageBuffer_ (controlMessage_ (w_ctx w')) = Some b → buf_inv b) ∧
      0 ≤ segmentOffset_ (controlMessage_ (w_ctx w')))).
    + destruct (opcode_of _); try done.
      * eapply safe_bind; [by eapply onClosedCallback_safe|]. cbn beta.
        intros [w2 m2] ([e Hw2] & Hm2 & Ho2). cbn [fst snd] in *. subst w2.
        eapply safe_bind; [apply finish_data_safe; cbn; [|by destruct Hd']|].
        { intros b Hbd. by destruct Hd' as [Hd' _], (Hd' b Hbd). }
        cbn beta. intros w3 [-> Hm3]. apply safe_ret. cbn in *. split_and!; try done.
        eapply msg_ok_weaken; [|done]; lia.
      * eapply safe_bind; [by eapply onMessageCallback_safe|]. cbn beta.
        intros [w2 m2] ([e Hw2] & Hm2 & Ho2). cbn [fst snd] in *. by subst w2.
      * eapply safe_bind; [by eapply onMessageCallback_safe|]. cbn beta.
        intros [w2 m2] ([e Hw2] & Hm2 & Ho2). cbn [fst snd] in *. by subst w2.
    + intros w2 (Hw2 & He2 & Hd2 & Hm2 & Ho2).
      eapply safe_mono; [by apply finish_control_safe|]. cbn beta. intros w3 [-> Hm3].
      cbn in *. subst b'. split; [|done]. split; cbn; try done; [lia| |by rewrite He2].
      eapply msg_ok_weaken; [|done]; lia.
  - intros w2 [[] Hv2]. apply safe_ret. unfold frame_done. cbn. split_and!; [|lia|done].
    split; cbn; try done. apply ext_zero_ok.
Qed.

(** ** Steps *)

(** Twice the unread bytes, plus one inside a frame. *)
Definition meas w : Z :=
  2 * zlen (view (w_buf w)) +
  (if bool_decide (step_ (w_ctx w) = ReadFrameHeader) then 0 else 1).

(** A step keeps the invariant, and makes progress when it reports that it had
    enough bytes. *)
Definition step_post (w : World B H) (r : bool * World B H) : Prop :=
  world_ok L (snd r) ∧ zlen (view (w_buf (snd r))) ≤ zlen (view (w_buf w)) ∧
  (fst r = true → meas (snd r) < meas w).

Lemma step_post_wait w : world_ok L w → step_post w (false, w).
Proof. intros. by split_and!; cbn. Qed.

Lemma safe_assert_step w s (k : unit → outcome (bool * World B H)) Q :
  (step_ (w_ctx w) = s → safe (k tt) Q) → safe (assert_step w s ≫= k) Q.
Proof.
  intros Hk. unfold assert_step. safe_assert_as Hs.
  apply Hk. by apply bool_decide_eq_true in Hs.
Qed.

Lemma safe_handler w (k : bool → outcome (bool * World B H)) Q :
  safe (k true) Q → safe (getCallbackHandler (w_ctx w) ≫= k) Q.
Proof. intros Hk. unfold getCallbackHandler. by destruct (handler_ (w_ctx w)). Qed.

(** The common shape of the six payload readers. *)
Lemma read_payload_safe w len (pay : World B H → Z → outcome (World B H)) :
  world_ok L w → 0 ≤ len → step_ (w_ctx w) ≠ ReadFrameHeader →
  (0 ≤ len ≤ zlen (view (w_buf w)) → safe (pay w len) (frame_done w len)) →
  safe (if b_readableBytes (w_buf w) <? len then Ret (false, w)
        else w ← pay w len; Ret (true, w)) (step_post w).
Proof.
  intros Hw Hlen Hstep Hpay. rewrite readableBytes_view by apply Hw.
  destruct (Z.ltb_spec (zlen (view (w_buf w))) len) as [|Hge]; [by apply step_post_wait|].
  eapply safe_bind; [by apply Hpay|]. intros w' (Hw' & Hv' & Hs').
  split_and!; [done|cbn; lia|]. intros _. unfold meas; cbn.
  rewrite Hs', bool_decide_true, bool_decide_false by done. lia.
Qed.

Lemma union_u16_range z : 0 ≤ union_u16 z < 2 ^ 16.
Proof. by apply Z.mod_pos_bound. Qed.

Lemma getExtendedPayloadlenU16_range e : 0 ≤ getExtendedPayloadlenU16 e < 2 ^ 16.
Proof.
  unfold getExtendedPayloadlenU16.
  repeat case_match; try lia; apply union_u16_range || (by apply Z.mod_pos_bound).
Qed.

Ltac payload_reader :=
  let Hlen := fresh "Hlen" in let Hs := fresh "Hs" in
  apply safe_handler; safe_assert_as Hlen; apply safe_assert_step; intros Hs;
  apply read_payload_safe; [done| |by rewrite Hs|].

Lemma parse_uncontrol_frame_ReadPayloadData_safe w :
  world_ok L w → safe (parse_uncontrol_frame_ReadPayloadData debug cb receiveTime w) (step_post w).
Proof using Hcb HL.
  intros Hw. unfold parse_uncontrol_frame_ReadPayloadData. payload_reader.
  - apply Hw.
  - by apply uncontrol_payload_safe.
Qed.

Lemma parse_uncontrol_frame_ReadExtendedPayloadDataU16_safe w :
  world_ok L w →
  safe (parse_uncontrol_frame_ReadExtendedPayloadDataU16 debug cb receiveTime w) (step_post w).
Proof using Hcb HL.
  intros Hw. unfold parse_uncontrol_frame_ReadExtendedPayloadDataU16. payload_reader.
  - apply getExtendedPayloadlenU16_range.
  - by apply uncontrol_payload_safe.
Qed.

Lemma parse_uncontrol_frame_ReadExtendedPayloadDataI64_safe w :
  world_ok L w →
  safe (parse_uncontrol_frame_ReadExtendedPayloadDataI64 debug cb receiveTime w) (step_post w).
Proof using Hcb HL.
  intros Hw. unfold parse_uncontrol_frame_ReadExtendedPayloadDataI64. payload_reader.
  - apply u64_range.
  - by apply uncontrol_payload_safe.
Qed.

Lemma parse_control_frame_ReadPayloadData_safe w :
  world_ok L w → safe (parse_control_frame_ReadPayloadData debug cb receiveTime w) (step_post w).
Proof using Hcb HL.
  intros Hw. unfold parse_control_frame_ReadPayloadData. payload_reader.
  - apply Hw.
  - by apply control_payload_safe.
Qed.

Lemma parse_control_frame_ReadExtendedPayloadDataU16_safe w :
  world_ok L w →
  safe (parse_control_frame_ReadExtendedPayloadDataU16 debug cb receiveTime w) (step_post w).
Proof using Hcb HL.
  intros Hw. unfold parse_control_frame_ReadExtendedPayloadDataU16. payload_reader.
  - apply getExtendedPayloadlenU16_range.
  - by apply control_payload_safe.
Qed.

Lemma parse_control_frame_ReadExtendedPayloadDataI64_safe w :
  world_ok L w →
  safe (parse_control_frame_ReadExtendedPayloadDataI64 debug cb receiveTime w) (step_post w).
Proof using Hcb HL.
  intros Hw. unfold parse_control_frame_ReadExtendedPayloadDataI64. payload_reader.
  - apply u64_range.
  - by apply control_payload_safe.
Qed.

Lemma get_type_safe h : safe (get_frame_control_message_type h) (λ _, True).
Proof.
  unfold get_frame_control_message_type.
  destruct (opcode_of (opcode h)), (fin_of (FIN h)); done.
Qed.

(** Changing the step and the header inside a frame keeps the invariant. *)
Lemma world_ok_move w b e s :
  world_ok L w → buf_inv b → zlen (view b) ≤ zlen (view (w_buf w)) → ext_ok e →
  world_ok L (with_ctx (with_buf w b) (setWebsocketStep (set_extended_header (w_ctx w) e) s)).
Proof.
  intros [Hb Hl Hd Hc He] Hb' Hv He'. split; cbn; try done; [lia| |];
    (eapply msg_ok_weaken; [|done]; lia).
Qed.

Lemma world_ok_step w s : world_ok L w → world_ok L (with_ctx w (setWebsocketStep (w_ctx w) s)).
Proof. by intros []. Qed.

Lemma meas_less w w' :
  zlen (view (w_buf w')) < zlen (view (w_buf w)) → meas w' < meas w.
Proof. intros. unfold meas. repeat case_bool_decide; lia. Qed.

(** A step that runs another one after consuming bytes. *)
Lemma safe_chain w w1 (m : outcome (bool * World B H)) :
  zlen (view (w_buf w1)) < zlen (view (w_buf w)) → safe m (step_post w1) → safe m (step_post w).
Proof.
  intros Hv Hm. eapply safe_mono; [done|]. intros [e w'] (Hw' & Hv' & Hp). cbn in *.
  split_and!; cbn; [done|lia|]. intros _. unfold meas. repeat case_bool_decide; lia.
Qed.
Lemma dispatch_safe w h (u c : World B H → outcome (bool * World B H)) :
  safe (u w) (step_post w) → safe (c w) (step_post w) →
  safe (ty ← get_frame_control_message_type h;
        assert (negb (bool_decide (fst ty = FrameInvalid))) ;;
        if bool_decide (fst ty = UnControlFrame) then u w else c w) (step_post w).
Proof.
  intros Hu Hc. safe_step get_type_safe. intros ty _. safe_assert_as Hty.
  by destruct (bool_decide (fst ty = UnControlFrame)).
Qed.

Lemma parse_frame_ReadMaskingkey_safe w :
  world_ok L w → safe (parse_frame_ReadMaskingkey debug cb receiveTime w) (step_post w).
Proof using Hcb HL.
  intros Hw. pose proof Hw as [Hb Hl Hd Hc [Hk Hkb Hh]].
  unfold parse_frame_ReadMaskingkey. safe_assert_as Hmask. apply safe_assert_step. intros Hs.
  rewrite readableBytes_view by done. unfold kMaskingkeyLen.
  destruct (Z.ltb_spec (zlen (view (w_buf w))) 4) as [|Hge]; [by apply step_post_wait|].
  rewrite peekBytes_view by (done || lia). orun. unfold setMaskingkey, kMaskingkeyLen. orun.
  destruct (retrieve_view (w_buf w) 4) as (b' & -> & [Hb' Hv' Hr']); [done|lia|]. orun.
  assert (zlen (view b') = zlen (view (w_buf w)) - 4) as Hvl
    by (rewrite Hv'; apply length_zdrop; lia).
  set (e := mkExtendedHeader _ _ _).
  assert (ext_ok e) as He.
  { assert (zlen (ztake 4 (view (w_buf w))) = 4) by (apply length_ztake; lia).
    split; [|cbn; auto with ws|done]. cbn. rewrite ztake_all by lia. lia. }
  assert (∀ s, world_ok L (with_ctx (with_buf w b')
    (setWebsocketStep (set_extended_header (w_ctx w) e) s))) as Hmove.
  { intros s. apply world_ok_move; try done. lia. }
  assert (∀ s, zlen (view (w_buf (with_ctx (with_buf w b')
    (setWebsocketStep (set_extended_header (w_ctx w) e) s)))) < zlen (view (w_buf w)))
    as Hless by (intros; cbn; lia).
  assert (safe (assert (Payloadlen (header (header_ (w_ctx w))) <? 126) ;;
      ty ← get_frame_control_message_type (header (header_ (w_ctx w)));
      assert (negb (bool_decide (fst ty = FrameInvalid))) ;;
      if bool_decide (fst ty = UnControlFrame)
      then parse_uncontrol_frame_ReadPayloadData debug cb receiveTime (with_ctx (with_buf w b')
             (setWebsocketStep (set_extended_header (w_ctx w) e) ReadPayloadData))
      else parse_control_frame_ReadPayloadData debug cb receiveTime (with_ctx (with_buf w b')
             (setWebsocketStep (set_extended_header (w_ctx w) e) ReadPayloadData)))
      (step_post w)) as Hshort.
  { safe_assert_as Hlt. eapply safe_chain; [apply (Hless ReadPayloadData)|].
    apply (dispatch_safe _ _ (parse_uncontrol_frame_ReadPayloadData debug cb receiveTime)
      (parse_control_frame_ReadPayloadData debug cb receiveTime));
      [apply parse_uncontrol_frame_ReadPayloadData_safe|
       apply parse_control_frame_ReadPayloadData_safe]; apply Hmove. }
  destruct (Payloadlen _ =? 126); [|destruct (Payloadlen _ =? 127); [|exact Hshort]].
  - eapply safe_chain; [apply (Hless ReadExtendedPayloadDataU16)|].
    apply (dispatch_safe _ _ (parse_uncontrol_frame_ReadExtendedPayloadDataU16 debug cb receiveTime)
      (parse_control_frame_ReadExtendedPayloadDataU16 debug cb receiveTime));
      [apply parse_uncontrol_frame_ReadExtendedPayloadDataU16_safe|
       apply parse_control_frame_ReadExtendedPayloadDataU16_safe]; apply Hmove.
  - eapply safe_chain; [apply (Hless ReadExtendedPayloadDataI64)|].
    apply (dispatch_safe _ _ (parse_uncontrol_frame_ReadExtendedPayloadDataI64 debug cb receiveTime)
      (parse_control_frame_ReadExtendedPayloadDataI64 debug cb receiveTime));
      [apply parse_uncontrol_frame_ReadExtendedPayloadDataI64_safe|
       apply parse_control_frame_ReadExtendedPayloadDataI64_safe]; apply Hmove.
Qed.
Lemma parse_frame_ReadExtendedPayloadlenU16_safe w :
  world_ok L w → safe (parse_frame_ReadExtendedPayloadlenU16 w) (step_post w).
Proof.
  intros Hw. pose proof Hw as [Hb Hl Hd Hc [Hk Hkb Hh]].
  unfold parse_frame_ReadExtendedPayloadlenU16, kExtendedPayloadlenU16.
  safe_assert_as Hlen. apply safe_assert_step. intros Hs.
  rewrite readableBytes_view by done.
  destruct (Z.ltb_spec (zlen (view (w_buf w))) 2) as [|Hge]; [by apply step_post_wait|].
  destruct (readInt16_view (w_buf w)) as (b' & -> & [Hb' Hv' Hr']); [done..|]. orun.
  assert (zlen (view b') = zlen (view (w_buf w)) - 2) as Hvl
    by (rewrite Hv'; apply length_zdrop; lia).
  apply safe_ret. unfold step_post. cbn [fst snd].
  split_and!; [apply (world_ok_move w b'); try done; lia|cbn; lia|].
  intros _. apply meas_less. cbn. lia.
Qed.

Lemma parse_frame_ReadExtendedPayloadlenI64_safe w :
  world_ok L w → safe (parse_frame_ReadExtendedPayloadlenI64 w) (step_post w).
Proof.
  intros Hw. pose proof Hw as [Hb Hl Hd Hc [Hk Hkb Hh]].
  unfold parse_frame_ReadExtendedPayloadlenI64, kExtendedPayloadlenI64.
  safe_assert_as Hlen. apply safe_assert_step. intros Hs.
  rewrite readableBytes_view by done.
  destruct (Z.ltb_spec (zlen (view (w_buf w))) 8) as [|Hge]; [by apply step_post_wait|].
  destruct (readInt64_view (w_buf w)) as (b' & -> & [Hb' Hv' Hr']); [done..|]. orun.
  assert (zlen (view b') = zlen (view (w_buf w)) - 8) as Hvl
    by (rewrite Hv'; apply length_zdrop; lia).
  apply safe_ret. unfold step_post. cbn [fst snd].
  split_and!; [apply (world_ok_move w b'); try done; lia|cbn; lia|].
  intros _. apply meas_less. cbn. lia.
Qed.

(** Running a step and dropping whether it had enough bytes. *)
Lemma safe_drop w w1 (m : outcome (bool * World B H)) :
  safe m (step_post w1) → w_buf w1 = w_buf w →
  safe ('(_, w') ← m; Ret w')
    (λ w', world_ok L w' ∧ zlen (view (w_buf w')) ≤ zlen (view (w_buf w))).
Proof. intros Hm <-. eapply safe_bind; [done|]. by intros [e w'] (? & ? & ?). Qed.

Lemma update_frame_body_parse_step_safe w :
  world_ok L w →
  safe (update_frame_body_parse_step debug cb receiveTime w)
    (λ w', world_ok L w' ∧ zlen (view (w_buf w')) ≤ zlen (view (w_buf w))).
Proof using Hcb HL.
  intros Hw. unfold update_frame_body_parse_step, assert_step. safe_assert_as Hs.
  destruct (_ =? 126); [|destruct (_ =? 127); [|safe_assert_as Hlt; destruct (_ =? 1)]].
  - eapply safe_drop; [by apply parse_frame_ReadExtendedPayloadlenU16_safe, world_ok_step|done].
  - eapply safe_drop; [by apply parse_frame_ReadExtendedPayloadlenI64_safe, world_ok_step|done].
  - eapply safe_drop; [by apply parse_frame_ReadMaskingkey_safe, world_ok_step|done].
  - eapply safe_drop; [by apply parse_control_frame_ReadPayloadData_safe, world_ok_step|done].
Qed.

Lemma begin_message_safe (m : Message B) t R :
  msg_ok R m → safe (begin_message m t) (msg_ok R).
Proof.
  intros [Hm Ho]. unfold begin_message. safe_step getMessageBuffer_safe. intros b Hb.
  by safe_assert_as Hz.
Qed.

Lemma validate_message_frame_safe w :
  world_ok L w →
  safe (validate_message_frame debug w) (λ w', world_ok L w' ∧ w_buf w' = w_buf w).
Proof.
  intros [Hb Hl Hd Hc He]. unfold validate_message_frame.
  destruct (opcode_of _); try done.
  - by safe_assert_as H1; safe_assert_as H2; safe_assert_as H3.
  - eapply safe_bind; [by apply begin_message_safe|]. by intros m Hm.
  - eapply safe_bind; [by apply begin_message_safe|]. by intros m Hm.
  - eapply safe_bind; [by apply begin_message_safe|]. by intros m Hm.
  - eapply safe_bind; [by apply begin_message_safe|]. by intros m Hm.
  - eapply safe_bind; [by apply begin_message_safe|]. by intros m Hm.
Qed.

Lemma parse_frame_header_safe w :
  world_ok L w → 2 ≤ zlen (view (w_buf w)) →
  safe (parse_frame_header w)
    (λ w', world_ok L w' ∧ zlen (view (w_buf w')) = zlen (view (w_buf w)) - 2).
Proof.
  intros [Hb Hl Hd Hc He] Hge. unfold parse_frame_header, kHeaderLen.
  rewrite peekBytes_view by (done || lia). orun.
  assert (zlen (ztake 2 (view (w_buf w))) = 2) as Hlt by (apply length_ztake; lia).
  destruct (byte_at_safe (ztake 2 (view (w_buf w))) 0) as (b0 & -> & _); [lia|]. orun.
  destruct (byte_at_safe (ztake 2 (view (w_buf w))) 1) as (b1 & -> & _); [lia|]. orun.
  destruct (retrieve_view (w_buf w) 2) as (b' & -> & [Hb' Hv' Hr']); [done|lia|]. orun.
  assert (zlen (view b') = zlen (view (w_buf w)) - 2) as Hvl
    by (rewrite Hv'; apply length_zdrop; lia).
  apply safe_ret. split; [|done]. split; cbn; try done; [lia| | |].
  - eapply msg_ok_weaken; [|done]; lia.
  - eapply msg_ok_weaken; [|done]; lia.
  - destruct He. split; cbn; try done. apply header_of_bytes_wf.
Qed.

Lemma parse_frame_ReadFrameHeader_safe w :
  world_ok L w → safe (parse_frame_ReadFrameHeader debug cb receiveTime w) (step_post w).
Proof using Hcb HL.
  intros Hw. unfold parse_frame_ReadFrameHeader, kHeaderLen.
  apply safe_assert_step. intros Hs. rewrite readableBytes_view by apply Hw.
  destruct (Z.ltb_spec (zlen (view (w_buf w))) 2) as [|Hge]; [by apply step_post_wait|].
  eapply safe_bind; [by apply parse_frame_header_safe|]. intros w1 [Hw1 Hv1].
  eapply safe_bind; [by apply validate_message_frame_safe|]. intros w2 [Hw2 Hb2].
  eapply safe_bind; [by apply update_frame_body_parse_step_safe|]. intros w3 [Hw3 Hv3].
  rewrite Hb2 in Hv3. apply safe_ret. split_and!; cbn; [done|lia|].
  intros _. unfold meas. repeat case_bool_decide; lia.
Qed.

Lemma parse_frame_step_safe ty w :
  world_ok L w → safe (parse_frame_step debug cb receiveTime ty w) (step_post w).
Proof using Hcb HL.
  intros Hw. unfold parse_frame_step. destruct (step_ (w_ctx w)).
  - by apply parse_frame_ReadFrameHeader_safe.
  - by apply parse_frame_ReadExtendedPayloadlenU16_safe.
  - by apply parse_frame_ReadExtendedPayloadlenI64_safe.
  - by apply parse_frame_ReadMaskingkey_safe.
  - safe_assert_as Hty. destruct (bool_decide (fst ty = UnControlFrame)); [by apply parse_uncontrol_frame_ReadPayloadData_safe|
      by apply parse_control_frame_ReadPayloadData_safe].
  - safe_assert_as Hty.
    destruct (bool_decide (fst ty = UnControlFrame)); [by apply parse_uncontrol_frame_ReadExtendedPayloadDataU16_safe|
      by apply parse_control_frame_ReadExtendedPayloadDataU16_safe].
  - safe_assert_as Hty.
    destruct (bool_decide (fst ty = UnControlFrame)); [by apply parse_uncontrol_frame_ReadExtendedPayloadDataI64_safe|
      by apply parse_control_frame_ReadExtendedPayloadDataI64_safe].
Qed.

Lemma parse_frame_loop_safe fuel ty enough w :
  world_ok L w → meas w < Z.of_nat fuel →
  safe (parse_frame_loop debug cb receiveTime fuel ty enough w) (λ w',
    world_ok L w' ∧ zlen (view (w_buf w')) ≤ zlen (view (w_buf w))).
Proof using Hcb HL.
  revert enough w. induction fuel as [|fuel IH]; intros enough w Hw Hm.
  { unfold meas in Hm. case_bool_decide; lia. }
  cbn [parse_frame_loop]. case_match; [|by apply safe_ret].
  eapply safe_bind; [by apply parse_frame_step_safe|].
  intros [e w1] (Hw1 & Hv1 & Hp). cbn in *.
  destruct e.
  - specialize (Hp eq_refl). eapply safe_mono; [apply IH; [done|lia]|].
    intros w2 [? ?]. split; [done|lia].
  - destruct fuel; cbn [parse_frame_loop andb]; by apply safe_ret.
Qed.

Lemma parse_frame_runs_safe w :
  world_ok L w →
  safe (parse_frame debug cb receiveTime w) (λ w',
    world_ok L w' ∧ zlen (view (w_buf w')) ≤ zlen (view (w_buf w))).
Proof using Hcb HL.
  intros Hw. unfold parse_frame, getCallbackHandler. rewrite bind_assoc.
  safe_assert_as Hh. orun.
  safe_step getMessageBuffer_safe. intros _ _.
  safe_step getMessageBuffer_safe. intros _ _.
  safe_step get_type_safe. intros ty _. apply parse_frame_loop_safe; [done|].
  unfold parse_fuel, meas. rewrite readableBytes_view by apply Hw.
  case_bool_decide; lia.
Qed.
End safety.

Arguments callback_ok {B _ _} cb.
Arguments world_ok {B H _ _} L w.

(** C5: For every connection state in range, every input and every well-behaved
    callback, [parse_frame] returns with the invariant kept and no more unread
    bytes than before, or stops at an assertion of the source: there is no
    access outside a buffer, no failed allocation request, and the loop
    terminates. *)
Theorem parse_frame_safe {B H} `{!IBytesBuffer B, !BytesBufferLaws B}
    debug (cb : ICallback B) receiveTime (w : World B H) L :
  callback_ok cb → L ≤ max_room → world_ok L w →
  (∃ w', parse_frame debug cb receiveTime w = Ret w' ∧ world_ok L w' ∧
     zlen (view (w_buf w')) ≤ zlen (view (w_buf w))) ∨
  parse_frame debug cb receiveTime w = Abort AssertFailed.
Proof.
  intros Hcb HL Hw.
  pose proof (parse_frame_runs_safe debug cb receiveTime Hcb L HL w Hw) as Hs.
  destruct (parse_frame debug cb receiveTime w) as [w'|[]]; cbn in Hs; try done; eauto.
Qed.

(** ** A concrete connection *)

Module Sample.
(** A callback that consumes the message it is given. *)
Definition callback : ICallback Buffer.Buffer := {|
  cb_peerIpAddrToString := str "127.0.0.1";
  cb_onMessage := λ b _ _, Buffer.retrieveAll b;
  cb_onClosed := λ b _, b;
|}.

Definition empty_buffer : Buffer.Buffer := Buffer.mkBuffer (replicate 1032 0) 8 8.

Definition context {H} (st : StateE) (http : option H) : Context_ Buffer.Buffer H :=
  mkContext ReadFrameHeader st LittleEndian extended_header_zero
    (mkMessage (mkMessageHeader TextMessage []) (Some empty_buffer) 0)
    (mkMessage (mkMessageHeader CloseMessage []) (Some empty_buffer) 0) http true.

(** A connection past its handshake with [l] received. *)
Definition connected (l : bytes) : World Buffer.Buffer unit :=
  mkWorld (context kConnected None)
    (match Buffer.append empty_buffer l with Ret b => b | Abort _ => empty_buffer end) [].

Lemma callback_is_ok : callback_ok callback.
Proof. split; [|done]. intros b t r Hb. by apply Buffer.retrieveAll_has. Qed.

Lemma empty_buffer_wf : Buffer.wf empty_buffer.
Proof. apply (bool_decide_unpack _). by vm_compute. Qed.

Lemma connected_ok l : Forall_byte l → zlen l ≤ 2 ^ 20 → world_ok (2 ^ 20) (connected l).
Proof.
  intros Hl Hlen. unfold connected.
  destruct (Buffer.append_has empty_buffer l) as (b & -> & [Hb Hv Hr]).
  { apply empty_buffer_wf. }
  { done. }
  { etrans; [done|]. by vm_compute. }
  assert (view b = l) as Hvl by (by rewrite <- (app_nil_l l)).
  assert (∀ t, msg_ok (zlen l) (mkMessage t (Some empty_buffer) 0)) as Hm.
  { intros t. split; [|done]. intros b' [= <-]. split; [apply empty_buffer_wf|].
    etrans; [done|]. by vm_compute. }
  split; cbn [w_buf w_ctx context dataMessage_ controlMessage_ header_]; rewrite ?Hvl;
    try done. apply ext_zero_ok.
Qed.
End Sample.

Lemma parse_frame_safe_witness :
  (∃ w', parse_frame true Sample.callback 7 (Sample.connected [0x81; 0xFF; 1; 2]) = Ret w' ∧
     world_ok (2 ^ 20) w' ∧
     zlen (view (w_buf w')) ≤ zlen (view (w_buf (Sample.connected [0x81; 0xFF; 1; 2])))) ∨
  parse_frame true Sample.callback 7 (Sample.connected [0x81; 0xFF; 1; 2]) = Abort AssertFailed.
Proof.
  apply parse_frame_safe.
  - apply Sample.callback_is_ok.
  - by vm_compute.
  - apply Sample.connected_ok; [|by vm_compute].
    apply (bool_decide_unpack _). by vm_compute.
Defined.
