(* ===== verification/Receiver.v ===== *)
(** * Receiver: the wire format of RFC 6455 and what a receiver delivers

    The reference the parser is compared with.  [encode] is the byte image of a
    frame a client sends (masked, length in the shortest form); [rx_run] is what
    an endpoint delivers for a sequence of frames, fragments joined and control
    frames interleaved.  [rx_run] takes the function that recovers the payload of
    a fragment, so that the code's own recovery and the RFC's can be compared. *)

From S2P Require Import Prelude Endian BytesBuffer Frame Context.

(** ** Masking *)

(** Exclusive-or with the key octet of index [i mod 4], from index [i] on. *)
Fixpoint mask_from (i : Z) (key p : bytes) : bytes :=
  match p with
  | [] => []
  | x :: p => Z.lxor x (nth (Z.to_nat (i mod 4)) key 0) :: mask_from (i + 1) key p
  end.

Lemma length_mask_from i key p : length (mask_from i key p) = length p.
Proof. revert i. induction p as [|x p IH]; intros i; cbn; [done|]. by rewrite IH. Qed.

Lemma mask_from_involutive i key p : mask_from i key (mask_from i key p) = p.
Proof.
  revert i. induction p as [|x p IH]; intros i; cbn; [done|].
  by rewrite IH, Z.lxor_assoc, Z.lxor_nilpotent, Z.lxor_0_r.
Qed.

Lemma mask_from_mod i j key p : i mod 4 = j mod 4 → mask_from i key p = mask_from j key p.
Proof.
  revert i j. induction p as [|x p IH]; intros i j Hij; cbn; [done|].
  rewrite Hij. f_equal. apply IH. dlia.
Qed.

Lemma mask_from_bytes i key p :
  Forall_byte key → Forall_byte p → Forall_byte (mask_from i key p).
Proof.
  intros Hk Hp. revert i. induction Hp as [|x p Hx _ IH]; intros i; cbn; constructor; [|done].
  apply is_byte_lxor; [done|].
  destruct (nth_in_or_default (Z.to_nat (i mod 4)) key 0) as [Hin| ->]; [|done].
  rewrite Forall_forall in Hk. apply Hk. by apply list_elem_of_In.
Qed.

#[export] Hint Rewrite length_mask_from : bytes.
#[export] Hint Resolve mask_from_bytes : ws.

(** ** Frames on the wire *)

Record cframe : Type := mkFrame {
  cf_fin : FinE;
  cf_op : OpcodeE;
  cf_key : bytes;
  cf_payload : bytes;
}.

Definition is_control_op (o : OpcodeE) : bool :=
  match o with CloseMessage | PingMessage | PongMessage => true | _ => false end.

Definition is_head_op (o : OpcodeE) : bool :=
  match o with TextMessage | BinaryMessage => true | _ => false end.

(** The 7-bit length field and the extended length that follows the header. *)
Definition len7 (n : Z) : Z := if n <? 126 then n else if n <? 2 ^ 16 then 126 else 127.

Definition len_ext (n : Z) : bytes :=
  if n <? 126 then [] else if n <? 2 ^ 16 then Endian.be_bytes 2 n else Endian.be_bytes 8 n.

Definition hdr (f : cframe) : header_t :=
  mkHeader (OpcodeE_val (cf_op f)) 0 0 0 (FinE_val (cf_fin f)) (len7 (zlen (cf_payload f))) 1.

Definition masked_payload (f : cframe) : bytes := mask_from 0 (cf_key f) (cf_payload f).

Definition encode (f : cframe) : bytes :=
  header_to_bytes (hdr f) ++ len_ext (zlen (cf_payload f)) ++ cf_key f ++ masked_payload f.

(** A frame section 5 of the RFC allows a client to send, reserved opcodes
    apart. *)
Record cframe_ok (f : cframe) : Prop := CframeOk {
  co_key : length (cf_key f) = 4%nat;
  co_key_bytes : Forall_byte (cf_key f);
  co_payload : Forall_byte (cf_payload f);
  co_len : zlen (cf_payload f) < 2 ^ 63;
  co_op : is_control_op (cf_op f) || is_head_op (cf_op f)
            || bool_decide (cf_op f = SegmentMessage) = true;
  co_control : is_control_op (cf_op f) = true →
    cf_fin f = FrameFinished ∧ zlen (cf_payload f) < 126;
}.

(** ** Delivery *)

(** The message under reassembly: its type and what has been received of it. *)
Definition rx_state : Type := option (OpcodeE * bytes).

(** The events of a frame, without the time of reception (given as 0). *)
Definition deliver (st : rx_state) (f : cframe) (t : OpcodeE) (acc : bytes)
    : rx_state * list event :=
  match cf_fin f with
  | FrameFinished => (None, [EvMessage acc (OpcodeE_val t) 0])
  | FrameContinue => (Some (t, acc), [])
  end.

Section rx.
(** [unmask o f]: the payload of [f] as the receiver sees it when [o] bytes of
    the message precede it. *)
Context (unmask : Z → cframe → bytes).

(** [None] when the RFC forbids the frame here: a continuation of nothing, or
    a new message before the end of the current one. *)
Definition rx_step (st : rx_state) (f : cframe) : option (rx_state * list event) :=
  match cf_op f, st with
  | (TextMessage | BinaryMessage) as t, None => Some (deliver st f t (unmask 0 f))
  | SegmentMessage, Some (t, acc) =>
      Some (deliver st f t (acc ++ unmask (zlen acc) f))
  | (PingMessage | PongMessage) as t, _ =>
      Some (st, [EvMessage (unmask 0 f) (OpcodeE_val t) 0])
  | CloseMessage, _ => Some (None, [EvClosed (unmask 0 f) 0; EvForceClose])
  | _, _ => None
  end.

Fixpoint rx_run (st : rx_state) (fs : list cframe) : option (rx_state * list event) :=
  match fs with
  | [] => Some (st, [])
  | f :: fs =>
      '(st, evs) ← rx_step st f;
      '(st, evs') ← rx_run st fs;
      Some (st, evs ++ evs')
  end.
End rx.

(** What the RFC prescribes: the payload that was sent. *)
Definition rfc_unmask (o : Z) (f : cframe) : bytes := cf_payload f.

(** What the code does: it exclusive-ors with the key octet of the index in the
    message, not in the frame. *)
Definition code_unmask (o : Z) (f : cframe) : bytes :=
  mask_from o (cf_key f) (masked_payload f).

Lemma code_unmask_aligned o f : o mod 4 = 0 → code_unmask o f = rfc_unmask o f.
Proof.
  intros Ho. unfold code_unmask, masked_payload, rfc_unmask.
  rewrite (mask_from_mod o 0) by done. apply mask_from_involutive.
Qed.

(** Every fragment that another one follows fills its last group of four. *)
Definition aligned (f : cframe) : Prop :=
  cf_fin f = FrameContinue → zlen (cf_payload f) mod 4 = 0.

Definition st_aligned (st : rx_state) : Prop :=
  match st with Some (_, acc) => zlen acc mod 4 = 0 | None => True end.

Lemma deliver_aligned st f t acc st' evs :
  (cf_fin f = FrameContinue → zlen acc mod 4 = 0) → deliver st f t acc = (st', evs) →
  st_aligned st'.
Proof. unfold deliver. destruct (cf_fin f); intros Ha [= <- <-]; cbn; auto. Qed.

Lemma rx_step_aligned st f :
  st_aligned st → aligned f →
  rx_step code_unmask st f = rx_step rfc_unmask st f ∧
  ∀ r, rx_step rfc_unmask st f = Some r → st_aligned (fst r).
Proof.
  intros Hs Hf. unfold rx_step.
  destruct (cf_op f), st as [[t acc]|]; cbn in Hs; rewrite ?code_unmask_aligned by done;
    (split; [done|]); intros [st' evs] [= Hr]; try done.
  all: try (by subst). all: eapply deliver_aligned; [|done]; intros Hc.
  all: specialize (Hf Hc); unfold rfc_unmask; rewrite ?length_app; dlia.
Qed.

Lemma rx_run_aligned st fs :
  st_aligned st → Forall aligned fs → rx_run code_unmask st fs = rx_run rfc_unmask st fs.
Proof.
  intros Hs Hfs. revert st Hs. induction Hfs as [|f fs Hf _ IH]; intros st Hs; cbn; [done|].
  destruct (rx_step_aligned st f Hs Hf) as [-> Hst].
  destruct (rx_step rfc_unmask st f) as [[st' evs]|]; cbn; [|done].
  by rewrite IH by apply (Hst _ eq_refl).
Qed.

(** ** The header on the wire *)

Lemma header_of_to_bytes h :
  header_wf h →
  ∃ b0 b1, header_to_bytes h = [b0; b1] ∧ is_byte b0 ∧ is_byte b1 ∧ header_of_bytes b0 b1 = h.
Proof.
  intros [? ? ? ? ? ? ?]. destruct h as [o r3 r2 r1 fi pl m]. cbn in *.
  eexists _, _. split; [reflexivity|]. cbn [opcode RSV3 RSV2 RSV1 FIN Payloadlen MASK].
  rewrite (lor_shiftl_add r3 o 4), (lor_shiftl_add r2 _ 5), (lor_shiftl_add r1 _ 6),
    (lor_shiftl_add fi _ 7), (lor_shiftl_add m pl 7) by lia.
  unfold is_byte. split_and!; [lia..|].
  unfold header_of_bytes. change 0x0F with (Z.ones 4). change 0x7F with (Z.ones 7).
  change 1 with (Z.ones 1). rewrite !Z.land_ones, !Z.shiftr_div_pow2 by lia.
  f_equal; dlia.
Qed.

Lemma len7_range n : 0 ≤ n → 0 ≤ len7 n < 128.
Proof. unfold len7. repeat case_match; lia. Qed.

Lemma hdr_wf f : header_wf (hdr f).
Proof.
  pose proof (OpcodeE_val_range (cf_op f)). pose proof (FinE_val_range (cf_fin f)).
  pose proof (len7_range (zlen (cf_payload f))). split; cbn; lia.
Qed.

Lemma len_ext_bytes n : Forall_byte (len_ext n).
Proof. unfold len_ext. repeat case_match; [constructor|apply Endian.be_bytes_bytes..]. Qed.

#[export] Hint Resolve len_ext_bytes : ws.
