(* ===== verification/Stream.v ===== *)
(** * Stream: the parser delivers what the peer sent

    A connection that has finished its handshake is fed the encoding of a
    sequence of frames in pieces of any size.  The invariant [stream_at] says
    where in the current frame the parser is ([pos]), which bytes it still
    expects, what is in the two messages, and that what has been delivered so far
    followed by what the specification delivers for the rest is the
    specification's answer for the whole.  Every reader preserves it; none of
    their assertions fails. *)

From S2P Require Import Prelude Endian BytesBuffer Buffer Frame Context Parser.
From S2P Require Import ParserSafety Receiver.

(** ** Classification of a frame that was sent *)

Definition kind (f : cframe) : FrameControlE :=
  if is_control_op (cf_op f) then ControlFrame else UnControlFrame.

Definition mframe (f : cframe) : MessageFrameE :=
  match cf_op f, cf_fin f with
  | SegmentMessage, FrameContinue => MiddleFrame
  | SegmentMessage, FrameFinished => TailFrame
  | _, FrameContinue => HeadFrame
  | _, FrameFinished => HeadTailFrame
  end.

(** The message type under which a frame is recorded. *)
Definition type_fits (t : MessageE) (f : cframe) : bool :=
  if bool_decide (cf_op f = SegmentMessage) then is_head_op t
  else bool_decide (t = cf_op f).

Lemma get_type_hdr f :
  cframe_ok f → get_frame_control_message_type (hdr f) = Ret (kind f, mframe f).
Proof.
  intros [_ _ _ _ Hop Hc]. unfold get_frame_control_message_type, kind, mframe. cbn.
  rewrite opcode_of_val, fin_of_val.
  destruct (cf_op f); cbn in *; try discriminate Hop; destruct (cf_fin f); try done.
  all: by destruct (Hc eq_refl).
Qed.

Lemma classify_hdr f t :
  cframe_ok f → type_fits t f = true → classify t (hdr f) = Ret (kind f, mframe f).
Proof.
  intros [_ _ _ _ Hop Hc] Ht. unfold type_fits in Ht.
  unfold classify, kind, mframe. cbn. rewrite opcode_of_val, fin_of_val.
  destruct (cf_op f); cbn in *; try discriminate Hop; try (apply bool_decide_eq_true in Ht; subst t).
  all: destruct (cf_fin f); try done. all: try by destruct (Hc eq_refl).
  all: by destruct t.
Qed.

Lemma testValidate_hdr f e fh :
  cframe_ok f → header e = hdr f → frame_header_ctor (kind f) (mframe f) e = Ret fh →
  testValidate fh = Ret tt.
Proof.
  intros [_ _ _ _ Hop Hc] He [= <-]. unfold testValidate. cbn. rewrite He. cbn.
  rewrite opcode_of_val, fin_of_val. unfold kind, mframe.
  destruct (cf_op f); cbn in *; try discriminate Hop; destruct (cf_fin f); try done.
  all: by destruct (Hc eq_refl).
Qed.

(** Recording the header of a frame succeeds and adds one record of its kind. *)
Lemma addFrameHeader_hdr f e mh :
  cframe_ok f → header e = hdr f → type_fits (messageType_ mh) f = true →
  forallb (λ g, bool_decide (frameControlType g = UnControlFrame)) (frameHeaders_ mh) = true →
  ∃ g, addFrameHeader mh e =
         Ret (mframe f, mkMessageHeader (messageType_ mh) (frameHeaders_ mh ++ [g])) ∧
       frameControlType g = kind f.
Proof.
  intros Hf He Ht Hall. unfold addFrameHeader. rewrite He, classify_hdr by done. orun.
  destruct (frame_header_ctor (kind f) (mframe f) e) as [fh|] eqn:Hfh; [|done]. orun.
  erewrite testValidate_hdr by done. orun. injection Hfh as <-. eexists. split; [reflexivity|done].
Qed.

(** ** Positions *)

Inductive place : Type := PLen | PKey | PPayload.

(** Before the header of a frame, or inside the frame [f]. *)
Inductive pos : Type := AtHeader | At (q : place) (f : cframe).

Definition cur (p : pos) : list cframe :=
  match p with AtHeader => [] | At _ f => [f] end.

Definition flen (f : cframe) : Z := zlen (cf_payload f).

(** The bytes of the current frame that have not been read. *)
Definition rest (p : pos) : bytes :=
  match p with
  | AtHeader => []
  | At PLen f => len_ext (flen f) ++ cf_key f ++ masked_payload f
  | At PKey f => cf_key f ++ masked_payload f
  | At PPayload f => masked_payload f
  end.

(** How many bytes the current step waits for. *)
Definition need (p : pos) : Z :=
  match p with
  | AtHeader => 2
  | At PLen f => zlen (len_ext (flen f))
  | At PKey f => 4
  | At PPayload f => flen f
  end.

Definition step_of (p : pos) : StepE :=
  match p with
  | AtHeader => ReadFrameHeader
  | At PLen f =>
      if flen f <? 2 ^ 16 then ReadExtendedPayloadlenU16 else ReadExtendedPayloadlenI64
  | At PKey f => ReadMaskingkey
  | At PPayload f =>
      if flen f <? 126 then ReadPayloadData
      else if flen f <? 2 ^ 16 then ReadExtendedPayloadDataU16
      else ReadExtendedPayloadDataI64
  end.

(** The extended header as read so far. *)
Definition ext_len (f : cframe) : Z := if flen f <? 126 then 0 else flen f.

Definition ext_at (p : pos) : extended_header_t :=
  match p with
  | AtHeader => extended_header_zero
  | At PLen f => mkExtendedHeader (hdr f) (replicate 4 0) 0
  | At PKey f => mkExtendedHeader (hdr f) (replicate 4 0) (ext_len f)
  | At PPayload f => mkExtendedHeader (hdr f) (cf_key f) (ext_len f)
  end.

(** The parser stops only where bytes are missing. *)
Definition pos_ok (p : pos) : Prop :=
  match p with
  | AtHeader | At PKey _ => True
  | At PLen f => 126 ≤ flen f
  | At PPayload f => 0 < flen f
  end.

Lemma need_pos p : pos_ok p → 0 < need p.
Proof.
  destruct p as [|[] f]; cbn; try lia. unfold len_ext. intros Hf.
  repeat case_match; rewrite ?Endian.length_be_bytes; lia.
Qed.

Lemma need_rest p : (∀ f, f ∈ cur p → cframe_ok f) → p ≠ AtHeader → need p ≤ zlen (rest p).
Proof.
  destruct p as [|[] f]; cbn; intros Hf Hp; [done|..].
  all: unfold masked_payload; rewrite ?length_app, ?length_mask_from; fold (flen f).
  all: try (assert (length (cf_key f) = 4%nat) by (apply Hf; set_solver)).
  all: unfold flen; lia.
Qed.

Lemma length_encode f : 2 ≤ zlen (encode f).
Proof. unfold encode. rewrite length_app. cbn. lia. Qed.

(** ** The readers' view of the lengths *)

Lemma len_short f : flen f < 126 → Payloadlen (hdr f) = flen f.
Proof. intros Hf. cbn. unfold len7. fold (flen f). by rewrite (proj2 (Z.ltb_lt _ 126)). Qed.

Lemma len_U16 f :
  126 ≤ flen f < 2 ^ 16 →
  Payloadlen (hdr f) = 126 ∧ getExtendedPayloadlenU16 (ext_at (At PPayload f)) = flen f.
Proof.
  intros Hf. assert (Payloadlen (hdr f) = 126) as Hp.
  { cbn. unfold len7. fold (flen f). repeat case_match; lia. }
  split; [done|]. unfold getExtendedPayloadlenU16. cbn [ext_at header ExtendedPayloadlen].
  rewrite Hp. cbn. unfold union_u16, ext_len. case_match; [lia|]. apply Z.mod_small. lia.
Qed.

Lemma len_I64 f :
  2 ^ 16 ≤ flen f < 2 ^ 63 →
  Payloadlen (hdr f) = 127 ∧ u64 (getExtendedPayloadlenI64 (ext_at (At PPayload f))) = flen f.
Proof.
  intros Hf. assert (Payloadlen (hdr f) = 127) as Hp.
  { cbn. unfold len7. fold (flen f). repeat case_match; lia. }
  split; [done|]. unfold getExtendedPayloadlenI64. cbn [ext_at header ExtendedPayloadlen].
  rewrite Hp. cbn. unfold union_i64, ext_len. case_match; [lia|].
  rewrite u64_s64. apply u64_small. lia.
Qed.

(** ** The specification's step, seen from the code *)

Definition rx_acc (st : rx_state) : bytes :=
  match st with Some (_, acc) => acc | None => [] end.

(** The type under which the payload of a data frame is collected. *)
Definition data_type (st : rx_state) (f : cframe) : OpcodeE :=
  match st with Some (t, _) => t | None => cf_op f end.

Definition untimed (e : event) : event :=
  match e with
  | EvMessage p t _ => EvMessage p t 0
  | EvClosed p _ => EvClosed p 0
  | e => e
  end.

Lemma rx_run_cons st f fs r :
  rx_run code_unmask st (f :: fs) = Some r →
  ∃ st' evs1, rx_step code_unmask st f = Some (st', evs1) ∧
    is_Some (rx_run code_unmask st' fs).
Proof.
  cbn. destruct (rx_step code_unmask st f) as [[st' evs1]|]; cbn; [|done].
  destruct (rx_run code_unmask st' fs) as [[fin' evs2]|] eqn:Hr; cbn; [|done].
  intros _. exists st', evs1. by rewrite Hr.
Qed.

Lemma rx_run_snoc unmask st fs f st1 evs1 st2 evs2 :
  rx_run unmask st fs = Some (st1, evs1) → rx_step unmask st1 f = Some (st2, evs2) →
  rx_run unmask st (fs ++ [f]) = Some (st2, evs1 ++ evs2).
Proof.
  revert st evs1. induction fs as [|g fs IH]; intros st evs1 H1 H2; cbn in *.
  - injection H1 as -> <-. rewrite H2. cbn. by rewrite app_nil_r.
  - destruct (rx_step unmask st g) as [[st' e]|]; cbn in *; [|done].
    destruct (rx_run unmask st' fs) as [[st'' e']|] eqn:Hr; cbn in *; [|done].
    injection H1 as -> <-. erewrite IH by done. cbn. by rewrite app_assoc.
Qed.

(** What a connection has to do: the frames it will be sent from the message
    state [pl_st] on, when [pl_log] has been delivered before. *)
Record plan : Type := mkPlan {
  pl_st : rx_state;
  pl_frames : list cframe;
  pl_log : list event;
}.

(** The frames [rem] remain; the specification's events for the others have
    been delivered. *)
Definition owed (P : plan) (st : rx_state) (rem : list cframe) (log : list event) : Prop :=
  ∃ done evs, pl_frames P = done ++ rem ∧
    rx_run code_unmask (pl_st P) done = Some (st, evs) ∧
    log = pl_log P ++ evs ∧ is_Some (rx_run code_unmask st rem).

Lemma owed_step P st f rem log :
  owed P st (f :: rem) log →
  ∃ st' evs, rx_step code_unmask st f = Some (st', evs) ∧ owed P st' rem (log ++ evs).
Proof.
  intros (dn & evs & Hall & Hrun & -> & [r Hr]).
  destruct (rx_run_cons _ _ _ _ Hr) as (st' & evs' & Hst & Hrem).
  exists st', evs'. split; [done|]. exists (dn ++ [f]), (evs ++ evs').
  split_and!; [by rewrite <- app_assoc|by eapply rx_run_snoc|by rewrite app_assoc|done].
Qed.

Lemma rx_step_data st f r :
  is_control_op (cf_op f) = false → rx_step code_unmask st f = Some r →
  r = deliver st f (data_type st f) (rx_acc st ++ code_unmask (zlen (rx_acc st)) f) ∧
  (is_head_op (cf_op f) = true → st = None) ∧
  (is_head_op (cf_op f) = false → cf_op f = SegmentMessage ∧ is_Some st).
Proof.
  unfold rx_step. intros Hc Hr.
  destruct (cf_op f) eqn:Ho, st as [[t acc]|]; cbn in *; simplify_eq; rewrite ?Ho;
    split_and!; try done; eauto.
Qed.

Section stream.
Context {B H : Type} `{!IBytesBuffer B} `{!BytesBufferLaws B}.
Context (debug : bool) (cb : ICallback B).
Implicit Types w : World B H.

(** ** Unmasking *)

Lemma byte_at_nth l i : (i < length l)%nat → Endian.byte_at l i = Ret (nth i l 0).
Proof.
  intros Hi. destruct (byte_at_safe l i Hi) as (x & -> & Hx).
  rewrite nth_lookup, Hx. done.
Qed.

Lemma unmask_loop_correct key suf pre b :
  buf_inv b → length key = 4%nat → Forall_byte key → view b = pre ++ suf →
  runs (unmask_loop (length suf) (zlen pre) key b) (λ b',
    buf_is b' (pre ++ mask_from (zlen pre) key suf) (room b)).
Proof.
  revert pre b. induction suf as [|x suf IH]; intros pre b Hb Hk Hkb Hv.
  { cbn. apply runs_ret. by split. }
  assert (zlen (view b) = zlen pre + 1 + zlen suf) as Hl
    by (rewrite Hv, length_app; cbn; lia).
  assert (Forall_byte (view b)) as Hvb by auto with ws.
  cbn [unmask_loop length mask_from].
  rewrite peekBytes_view by (done || lia). orun.
  assert (ztake (zlen pre + 1) (view b) = pre ++ [x]) as ->.
  { rewrite Hv, (cons_middle x), app_assoc. apply ztake_app. rewrite length_app. cbn. lia. }
  rewrite (byte_at_nth (pre ++ [x])) by (rewrite length_app; cbn; lia). orun.
  pose proof (Z.mod_pos_bound (zlen pre) 4 ltac:(lia)) as Hmod. unfold kMaskingkeyLen.
  rewrite (byte_at_nth key) by lia. orun.
  rewrite Nat2Z.id, app_nth2, Nat.sub_diag by lia. cbn [nth].
  rewrite Hv, Forall_app, Forall_cons in Hvb. destruct Hvb as (Hpre & Hx & Hsuf).
  assert (is_byte (Z.lxor x (nth (Z.to_nat (zlen pre mod 4)) key 0))) as Hxk.
  { apply is_byte_lxor; [done|].
    destruct (lookup_lt_is_Some_2 key (Z.to_nat (zlen pre mod 4))) as [k Hkk]; [lia|].
    rewrite nth_lookup, Hkk. by eapply (Forall_lookup_1 is_byte key). }
  destruct (pokeByte_view b (zlen pre) _ Hb ltac:(lia) Hxk) as (b1 & -> & [Hb1 Hv1 Hr1]).
  orun. rewrite Nat2Z.id, Hv, insert_app_r_alt, Nat.sub_diag in Hv1 by lia.
  cbn in Hv1. rewrite cons_middle, app_assoc in Hv1.
  replace (zlen pre + 1) with (zlen (pre ++ [Z.lxor x (nth (Z.to_nat (zlen pre mod 4)) key 0)]))
    by (rewrite length_app; cbn; lia).
  eapply runs_mono; [by apply IH|]. intros b2 [Hb2 Hv2 Hr2].
  split; [done| |lia]. by rewrite Hv2, <- app_assoc.
Qed.

(** ** The messages *)

Record data_ok (st : rx_state) (R : Z) (m : Message B) : Prop := DataOk {
  do_buf : ∃ b, messageBuffer_ m = Some b ∧ buf_is b (rx_acc st) R;
  do_off : segmentOffset_ m = zlen (rx_acc st);
  do_heads : forallb (λ g, bool_decide (frameControlType g = UnControlFrame))
    (frameHeaders_ (messageHeader_ m)) = true;
  do_type t acc : st = Some (t, acc) → is_head_op t = true ∧ getMessageType m = t;
  do_debug : debug = true → is_Some st → 0 < getFrameHeaderSize (messageHeader_ m);
}.

Record control_ok (R : Z) (m : Message B) : Prop := ControlOk {
  ko_buf : ∃ b, messageBuffer_ m = Some b ∧ buf_is b [] R;
  ko_off : segmentOffset_ m = 0;
  ko_heads : frameHeaders_ (messageHeader_ m) = [];
}.

(** The frame being read has announced its type. *)
Definition type_ok (p : pos) (data control : Message B) : Prop :=
  match p with
  | AtHeader => True
  | At _ f =>
      (is_head_op (cf_op f) = true → getMessageType data = cf_op f) ∧
      (is_control_op (cf_op f) = true → getMessageType control = cf_op f)
  end.

Lemma data_ok_weaken st R R' m : R' ≤ R → data_ok st R m → data_ok st R' m.
Proof.
  intros HR [(b & Hb & Hv) ? ? ? ?]. split; try done.
  exists b. split; [done|]. by eapply buf_is_weaken.
Qed.

Lemma control_ok_weaken R R' m : R' ≤ R → control_ok R m → control_ok R' m.
Proof.
  intros HR [(b & Hb & Hv) ? ?]. split; try done.
  exists b. split; [done|]. by eapply buf_is_weaken.
Qed.

(** ** Moving a payload into its message *)

Lemma debug_header_runs f e (m : Message B) :
  cframe_ok f → e = ext_at (At PPayload f) → type_fits (getMessageType m) f = true →
  forallb (λ g, bool_decide (frameControlType g = UnControlFrame))
    (frameHeaders_ (messageHeader_ m)) = true →
  runs (if debug then '(_, m) ← Message_addFrameHeader m e;
          dump_extended_header_info e ;; Ret m
        else Ret m) (λ m',
    messageBuffer_ m' = messageBuffer_ m ∧ segmentOffset_ m' = segmentOffset_ m ∧
    getMessageType m' = getMessageType m ∧
    (debug = true → 0 < getFrameHeaderSize (messageHeader_ m')) ∧
    (kind f = UnControlFrame →
     forallb (λ g, bool_decide (frameControlType g = UnControlFrame))
       (frameHeaders_ (messageHeader_ m')) = true)).
Proof.
  intros Hf -> Ht Hall. destruct debug; [|by apply runs_ret].
  unfold Message_addFrameHeader.
  destruct (addFrameHeader_hdr f (ext_at (At PPayload f)) (messageHeader_ m))
    as (g & -> & Hg); [done..|]. orun.
  assert (dump_extended_header_info (ext_at (At PPayload f)) = Ret tt) as ->.
  { unfold dump_extended_header_info, existMaskingkey. cbn.
    pose proof (co_key f Hf) as Hk.
    destruct (cf_key f) as [|k0 [|k1 [|k2 [|k3 [|? ?]]]]]; try discriminate Hk. done. }
  orun. apply runs_ret. cbn. split_and!; [done..| |].
  - intros _. unfold getFrameHeaderSize. cbn. rewrite length_app. cbn. lia.
  - intros Hk. rewrite forallb_app. cbn. rewrite Hall, Hg, Hk. done.
Qed.

Lemma unMaskPayloadData_runs f (m : Message B) buf acc R :
  cframe_ok f → segmentOffset_ m = zlen acc → buf_is buf (acc ++ masked_payload f) R →
  runs (unMaskPayloadData m true buf (cf_key f)) (λ r,
    ∃ b', snd r = update_offset (update_buffer m b')
                    (zlen (acc ++ code_unmask (zlen acc) f)) ∧
      buf_is b' (acc ++ code_unmask (zlen acc) f) R).
Proof.
  intros Hf Ho [Hb Hv Hr]. unfold unMaskPayloadData. rewrite readableBytes_view by done.
  cbn [andb]. rewrite Ho, Hv, length_app. unfold code_unmask.
  destruct (masked_payload f) as [|x l] eqn:Hp.
  { cbn. replace (_ && _) with false by (symmetry; rewrite andb_false_iff, !Z.ltb_ge; lia).
    apply runs_ret. exists buf. cbn. rewrite app_nil_r in *.
    split; [|by split]. unfold update_offset, update_buffer. cbn. by rewrite Ho. }
  rewrite <- Hp in *. replace (_ && _) with true
    by (symmetry; rewrite andb_true_iff, !Z.ltb_lt, Hp; cbn; lia).
  replace (Z.to_nat _) with (length (masked_payload f)) by lia.
  eapply runs_bind; [apply (unmask_loop_correct (cf_key f) _ acc buf); try done; apply Hf|].
  intros b' [Hb' Hv' Hr']. apply runs_ret. exists b'. cbn.
  rewrite readableBytes_view, Hv' by done. split; [done|]. split; [done..|lia].
Qed.

Lemma take_payload_runs f w (m : Message B) dst acc R tail :
  cframe_ok f → header_ (w_ctx w) = ext_at (At PPayload f) →
  type_fits (getMessageType m) f = true →
  forallb (λ g, bool_decide (frameControlType g = UnControlFrame))
    (frameHeaders_ (messageHeader_ m)) = true →
  messageBuffer_ m = Some dst → buf_is dst acc R → flen f ≤ R →
  segmentOffset_ m = zlen acc →
  buf_inv (w_buf w) → view (w_buf w) = masked_payload f ++ tail →
  runs (take_payload debug w m (flen f)) (λ r, ∃ b',
    fst r = with_buf w b' ∧ buf_is b' tail (room (w_buf w)) ∧
    (∃ d, messageBuffer_ (snd r) = Some d ∧
       buf_is d (acc ++ code_unmask (zlen acc) f) (R - flen f)) ∧
    segmentOffset_ (snd r) = zlen (acc ++ code_unmask (zlen acc) f) ∧
    getMessageType (snd r) = getMessageType m ∧
    (debug = true → 0 < getFrameHeaderSize (messageHeader_ (snd r))) ∧
    (kind f = UnControlFrame →
     forallb (λ g, bool_decide (frameControlType g = UnControlFrame))
       (frameHeaders_ (messageHeader_ (snd r))) = true)).
Proof.
  intros Hf He Ht Hall Hm [Hd Hdv Hdr] HR Ho Hb Hv. unfold take_payload. rewrite He.
  eapply runs_bind; [by apply (debug_header_runs f)|].
  intros m1 (Hm1 & Ho1 & Ht1 & Hs1 & Ha1). unfold getMessageBuffer. rewrite Hm1, Hm. orun.
  assert (zlen (masked_payload f) = flen f) as Hl
    by (unfold masked_payload; by rewrite length_mask_from).
  rewrite peekBytes_view by (rewrite ?Hv, ?length_app; done || lia). orun.
  rewrite Hv, ztake_app by done.
  destruct (append_view dst (masked_payload f)) as (d' & -> & [Hd' Hdv' Hdr']);
    [done|apply mask_from_bytes; apply Hf|lia|]. orun.
  destruct (retrieve_view (w_buf w) (flen f)) as (b' & -> & [Hb' Hbv' Hbr']);
    [done|rewrite Hv, length_app; lia|]. orun.
  rewrite Hv, zdrop_app in Hbv' by done.
  change (negb (MASK (header (ext_at (At PPayload f))) =? 0)) with true.
  change (Masking_key (ext_at (At PPayload f))) with (cf_key f).
  eapply runs_bind.
  { apply (unMaskPayloadData_runs f (update_buffer m1 d') d' acc (R - flen f)); [done| |].
    - cbn. by rewrite Ho1.
    - split; [done|by rewrite Hdv', Hdv|lia]. }
  intros [u m2] (b2 & Hm2 & Hb2). cbn [snd] in Hm2. subst m2. apply runs_ret.
  exists b'. cbn. split_and!; try done. eauto.
Qed.

(** ** The connection *)

(** A connection at position [p], with the message state [st], that will still
    receive [fut]. *)
Record conn (p : pos) (st : rx_state) (fut : bytes) w : Prop := Conn {
  cn_handler : handler_ (w_ctx w) = true;
  cn_step : step_ (w_ctx w) = step_of p;
  cn_ext : header_ (w_ctx w) = ext_at p;
  cn_buf : buf_inv (w_buf w);
  cn_room : zlen fut ≤ room (w_buf w);
  cn_max : zlen (view (w_buf w)) + zlen fut ≤ max_room;
  cn_data : data_ok st (zlen (view (w_buf w)) + zlen fut) (dataMessage_ (w_ctx w));
  cn_control : control_ok (zlen (view (w_buf w)) + zlen fut) (controlMessage_ (w_ctx w));
  cn_type : type_ok p (dataMessage_ (w_ctx w)) (controlMessage_ (w_ctx w));
  cn_open : EvForceClose ∉ w_log w → state_ (w_ctx w) = kConnected;
}.

(** What reading a frame to its end leaves. *)
Definition completes w st' fut tail evs w' : Prop :=
  conn AtHeader st' fut w' ∧ view (w_buf w') = tail ∧
  untimed <$> w_log w' = (untimed <$> w_log w) ++ evs.

Context (Hcb : callback_ok cb) (receiveTime : Z).

Lemma resetMessage_data_ok (m : Message B) b :
  messageBuffer_ m = Some b → buf_inv b → data_ok None max_room (resetMessage m).
Proof.
  intros Hm Hb. unfold resetMessage. rewrite Hm. split; cbn; try done.
  eexists. split; [done|]. by apply retrieveAll_view.
Qed.

Lemma resetMessage_control_ok (m : Message B) b :
  messageBuffer_ m = Some b → buf_inv b → control_ok max_room (resetMessage m).
Proof.
  intros Hm Hb. unfold resetMessage. rewrite Hm. split; cbn; try done.
  eexists. split; [done|]. by apply retrieveAll_view.
Qed.

Lemma finish_data_runs w b :
  messageBuffer_ (dataMessage_ (w_ctx w)) = Some b → buf_inv b →
  finish_data w = Ret (with_ctx w (resetDataMessage (w_ctx w))).
Proof.
  intros Hm Hb. unfold finish_data, getMessageBuffer. cbn. unfold resetMessage. rewrite Hm.
  cbn. destruct (retrieveAll_view b Hb) as [Hi Hv _].
  rewrite readableBytes_view, Hv by done. done.
Qed.

Lemma finish_control_runs w b :
  messageBuffer_ (controlMessage_ (w_ctx w)) = Some b → buf_inv b →
  finish_control w = Ret (with_ctx w (resetControlMessage (w_ctx w))).
Proof.
  intros Hm Hb. unfold finish_control, getMessageBuffer. cbn. unfold resetMessage. rewrite Hm.
  cbn. destruct (retrieveAll_view b Hb) as [Hi Hv _].
  rewrite readableBytes_view, Hv by done. done.
Qed.

Lemma onMessageCallback_runs w (m : Message B) b :
  messageBuffer_ m = Some b → buf_inv b →
  onMessageCallback cb receiveTime w m =
    Ret (emit w (EvMessage (view b) (OpcodeE_val (getMessageType m)) receiveTime),
         update_buffer m (cb_onMessage cb b (OpcodeE_val (getMessageType m)) receiveTime)).
Proof.
  intros Hm Hb. unfold onMessageCallback, getMessageBuffer. rewrite Hm. orun.
  rewrite readableBytes_view, peekBytes_view by (done || lia). orun.
  by rewrite ztake_all.
Qed.

Lemma onClosedCallback_runs w (m : Message B) b :
  messageBuffer_ m = Some b → buf_inv b →
  onClosedCallback cb receiveTime w m =
    Ret (emit w (EvClosed (view b) receiveTime),
         update_buffer m (cb_onClosed cb b receiveTime)).
Proof.
  intros Hm Hb. unfold onClosedCallback, getMessageBuffer. rewrite Hm. orun.
  rewrite readableBytes_view, peekBytes_view by (done || lia). orun.
  by rewrite ztake_all.
Qed.

Lemma data_type_fits st f (w : World B H) fut :
  cframe_ok f → kind f = UnControlFrame → conn (At PPayload f) st fut w →
  is_Some (rx_step code_unmask st f) →
  getMessageType (dataMessage_ (w_ctx w)) = data_type st f ∧
  is_head_op (data_type st f) = true ∧
  type_fits (getMessageType (dataMessage_ (w_ctx w))) f = true.
Proof.
  intros Hf Hk Hc [r Hr]. unfold kind in Hk.
  destruct (is_control_op (cf_op f)) eqn:Hop; [done|].
  destruct (rx_step_data st f r Hop Hr) as (_ & Hhead & Hseg).
  pose proof (do_type _ _ _ (cn_data _ _ _ _ Hc)) as Hty.
  destruct (cn_type _ _ _ _ Hc) as [Hth _]. unfold type_fits, data_type.
  destruct (is_head_op (cf_op f)) eqn:Hh.
  - rewrite (Hhead eq_refl), (Hth eq_refl). split_and!; [done..|].
    rewrite bool_decide_false by (intros Heq; by rewrite Heq in Hh). by case_bool_decide.
  - destruct (Hseg eq_refl) as [-> [[t acc] ->]]. destruct (Hty t acc eq_refl) as [? ->]. done.
Qed.

Lemma length_masked f : zlen (masked_payload f) = flen f.
Proof. unfold masked_payload. by rewrite length_mask_from. Qed.

Lemma uncontrol_payload_runs f st st' evs fut tail w :
  cframe_ok f → kind f = UnControlFrame → conn (At PPayload f) st fut w →
  rx_step code_unmask st f = Some (st', evs) →
  view (w_buf w) = masked_payload f ++ tail →
  runs (uncontrol_payload debug cb receiveTime w (flen f)) (completes w st' fut tail evs).
Proof using Hcb.
  intros Hf Hk Hc Hr Hv.
  destruct (data_type_fits st f w fut Hf Hk Hc (mk_is_Some _ _ Hr)) as (Hty & Hhd & Hfit).
  destruct Hc as [Hh Hs He Hb Hrm Hmx [(dst & Hdst & Hd) Ho Hall Hst Hdbg] Hct _ Hopen].
  assert (zlen (view (w_buf w)) = flen f + zlen tail) as Hvl
    by (rewrite Hv, length_app, Nat2Z.inj_add, length_masked; done).
  unfold uncontrol_payload. rewrite He. cbn [ext_at header].
  eapply runs_bind; [eapply (take_payload_runs f); try done; lia|].
  intros [w1 m1] (b1 & Hw1 & Hb1 & (d1 & Hd1 & Hdv1) & Ho1 & Ht1 & Hs1 & Ha1).
  cbn [fst snd] in *. subst w1. destruct Hb1 as [Hb1 Hbv1 Hbr1].
  assert (is_control_op (cf_op f) = false) as Hop by (unfold kind in Hk; by case_match).
  destruct (rx_step_data st f _ Hop Hr) as (Hdel & _ & _). cbn [hdr FIN opcode].
  rewrite fin_of_val, opcode_of_val. unfold deliver in Hdel.
  assert (0 ≤ flen f) as Hfl by (unfold flen; lia).
  destruct (cf_fin f); injection Hdel as -> ->.
  - (* more fragments follow *)
    orun. apply runs_ret. split_and!; cbn; [|done|by rewrite app_nil_r].
    split; cbn; rewrite ?Hbv1; try done; [lia|lia| |].
    + split; [| |by apply Ha1| |by intros; apply Hs1]; cbn.
      * exists d1. split; [done|]. eapply buf_is_weaken; [|done]. lia.
      * done.
      * intros t acc [= <- <-]. by rewrite Ht1.
    + eapply control_ok_weaken; [|done]. lia.
  - (* the message is complete *)
    assert (match cf_op f with SegmentMessage | TextMessage | BinaryMessage => Ret tt
                          | _ => Abort AssertFailed end = Ret tt) as ->.
    { pose proof (co_op f Hf) as Hcop. rewrite Hop in Hcop.
      by destruct (cf_op f). }
    orun. cbn [w_ctx with_ctx set_data dataMessage_].
    destruct Hdv1 as [Hdi1 Hdv1 _].
    erewrite onMessageCallback_runs by done. orun.
    erewrite finish_data_runs; [|done|by apply Hcb]. orun. apply runs_ret.
    split_and!; cbn; [|done|by rewrite fmap_app, Hdv1, Ht1, Hty].
    split; cbn; rewrite ?Hbv1; try done;
      [lia|lia| | |by intros [Hn _]%not_elem_of_app; apply Hopen].
    + eapply (data_ok_weaken _ max_room); [lia|].
      by apply (resetMessage_data_ok (update_buffer m1 _) _ eq_refl), Hcb.
    + eapply control_ok_weaken; [|done]. lia.
Qed.

Lemma rx_step_control st f r :
  is_control_op (cf_op f) = true → rx_step code_unmask st f = Some r →
  (cf_op f = CloseMessage ∧ r = (None, [EvClosed (code_unmask 0 f) 0; EvForceClose])) ∨
  ((cf_op f = PingMessage ∨ cf_op f = PongMessage) ∧
   r = (st, [EvMessage (code_unmask 0 f) (OpcodeE_val (cf_op f)) 0])).
Proof.
  unfold rx_step. intros Hc Hr.
  destruct (cf_op f) eqn:Ho; try discriminate Hc; destruct st as [[t acc]|]; simplify_eq; eauto.
Qed.

Lemma control_payload_runs f st st' evs fut tail w :
  cframe_ok f → kind f = ControlFrame → conn (At PPayload f) st fut w →
  rx_step code_unmask st f = Some (st', evs) →
  view (w_buf w) = masked_payload f ++ tail →
  runs (control_payload debug cb receiveTime w (flen f)) (completes w st' fut tail evs).
Proof using Hcb.
  intros Hf Hk Hc Hr Hv.
  assert (is_control_op (cf_op f) = true) as Hop by (unfold kind in Hk; by case_match).
  destruct Hc as [Hh Hs He Hb Hrm Hmx Hdata [(dst & Hdst & Hd) Ho Hnil] [_ Hty] Hopen].
  specialize (Hty Hop).
  assert (type_fits (getMessageType (controlMessage_ (w_ctx w))) f = true) as Hfit.
  { unfold type_fits. rewrite Hty, bool_decide_false by (intros Heq; by rewrite Heq in Hop).
    by case_bool_decide. }
  assert (0 ≤ flen f) as Hfl by (unfold flen; lia).
  assert (zlen (view (w_buf w)) = flen f + zlen tail) as Hvl
    by (rewrite Hv, length_app, Nat2Z.inj_add, length_masked; done).
  unfold control_payload. rewrite He. cbn [ext_at header].
  eapply runs_bind; [eapply (take_payload_runs f _ _ dst []); try done; [by rewrite Hnil|lia]|].
  intros [w1 m1] (b1 & Hw1 & [Hb1 Hbv1 Hbr1] & (d1 & Hd1 & [Hdi1 Hdv1 _]) & _ & Ht1 & _ & _).
  cbn [fst snd] in *. subst w1. cbn [hdr FIN opcode]. rewrite fin_of_val, opcode_of_val.
  destruct (co_control f Hf Hop) as [-> _].
  destruct Hdata as [(db & Hdb & [Hdbi Hdbv Hdbr]) Hdo Hdh Hdt Hdd].
  destruct (rx_step_control st f _ Hop Hr) as [[Hcl [= -> ->]]|[Hpp [= -> ->]]].
  - rewrite Hcl. erewrite onClosedCallback_runs by done. orun.
    erewrite finish_data_runs by done. orun.
    erewrite finish_control_runs; [|done|by apply Hcb]. orun. apply runs_ret.
    split_and!; cbn; [|done|by rewrite !fmap_app, <- app_assoc, Hdv1].
    split; cbn; rewrite ?Hbv1; try done; [lia|lia| | |].
    3: { intros [_ Hn]%not_elem_of_app. by rewrite list_elem_of_singleton in Hn. }
    + eapply (data_ok_weaken _ max_room); [lia|].
      by apply (resetMessage_data_ok (dataMessage_ (w_ctx w)) db).
    + eapply (control_ok_weaken max_room); [lia|].
      by apply (resetMessage_control_ok (update_buffer m1 _) _ eq_refl), Hcb.
  - assert (∀ (a b c : outcome (World B H)), match cf_op f with CloseMessage => a
      | PingMessage | PongMessage => b | _ => c end = b) as Hsel
      by (intros; by destruct Hpp as [-> | ->]).
    rewrite Hsel. cbn [w_ctx with_ctx set_control controlMessage_].
    erewrite onMessageCallback_runs by done. orun.
    erewrite finish_control_runs; [|done|by apply Hcb]. orun. apply runs_ret.
    split_and!; cbn; [|done|by rewrite fmap_app, Hdv1, Ht1, Hty].
    split; cbn; rewrite ?Hbv1; try done;
      [lia|lia| | |by intros [Hn _]%not_elem_of_app; apply Hopen].
    + split; try done. exists db. split; [done|]. split; [done..|lia].
    + eapply (control_ok_weaken max_room); [lia|].
      by apply (resetMessage_control_ok (update_buffer m1 _) _ eq_refl), Hcb.
Qed.

(** ** The stream invariant *)

(** [E]: what the whole stream asks for; [fs]: the frames after the current
    one; [fut]: the bytes that have not arrived. *)
Record stream_at (E : plan) (p : pos) (st : rx_state) (fs : list cframe)
    (fut : bytes) w : Prop := StreamAt {
  sa_conn : conn p st fut w;
  sa_frames : Forall cframe_ok (cur p ++ fs);
  sa_bytes : view (w_buf w) ++ fut = rest p ++ concat (encode <$> fs);
  sa_events : owed E st (cur p ++ fs) (untimed <$> w_log w);
}.

(** [n] bytes were read and the parser is at [p]. *)
Definition reads (E : plan) fs fut w (n : Z) (p : pos) w' : Prop :=
  ∃ st, stream_at E p st fs fut w' ∧
    zlen (view (w_buf w')) = zlen (view (w_buf w)) - n.

Lemma stream_frame_done E f st fs fut w (run : outcome (World B H)) :
  stream_at E (At PPayload f) st fs fut w → flen f ≤ zlen (view (w_buf w)) →
  (∀ st' evs tail, rx_step code_unmask st f = Some (st', evs) →
     view (w_buf w) = masked_payload f ++ tail →
     runs run (completes w st' fut tail evs)) →
  runs run (reads E fs fut w (flen f) AtHeader).
Proof.
  intros [Hc Hf Hb HE] Hl Hrun.
  destruct (owed_step _ _ _ _ _ HE) as (st' & evs & Hr1 & HE').
  destruct (app_prefix _ _ _ _ Hb) as (tail & Hv & Ht); [cbn; by rewrite length_masked|].
  cbn [rest] in Hv. eapply runs_mono; [by apply Hrun|]. intros w' (Hc' & Hv' & Hlog').
  exists st'. split; [split|].
  - done.
  - by inversion Hf.
  - by rewrite Hv'.
  - by rewrite Hlog'.
  - rewrite Hv', Hv, length_app, Nat2Z.inj_add, length_masked. lia.
Qed.

Lemma getCallbackHandler_runs p st fut w :
  conn p st fut w → getCallbackHandler (w_ctx w) = Ret true.
Proof. intros [Hh _ _ _ _ _ _ _ _ _]. unfold getCallbackHandler. rewrite Hh. done. Qed.

Lemma assert_step_runs p st fut w s :
  conn p st fut w → s = step_of p → assert_step w s = Ret tt.
Proof. intros Hc ->. unfold assert_step. rewrite (cn_step _ _ _ _ Hc). by rewrite bool_decide_true. Qed.

(** Reading the payload, dispatched on the kind of the frame. *)
Definition payload_result E f fs fut w (r : bool * World B H) : Prop :=
  if zlen (view (w_buf w)) <? flen f then r = (false, w)
  else fst r = true ∧ reads E fs fut w (flen f) AtHeader (snd r).

Lemma payload_result_of E f fs fut w (run : outcome (World B H)) :
  buf_inv (w_buf w) →
  (flen f ≤ zlen (view (w_buf w)) → runs run (reads E fs fut w (flen f) AtHeader)) →
  runs (if b_readableBytes (w_buf w) <? flen f then Ret (false, w)
        else w ← run; Ret (true, w)) (payload_result E f fs fut w).
Proof.
  intros Hb Hrun. rewrite readableBytes_view by done. unfold payload_result.
  destruct (Z.ltb_spec (zlen (view (w_buf w))) (flen f)); [by apply runs_ret|].
  eapply runs_bind; [by apply Hrun|]. intros w' Hw'. by apply runs_ret.
Qed.

Lemma uncontrol_payload_reads E f st fs fut w :
  stream_at E (At PPayload f) st fs fut w → cframe_ok f → kind f = UnControlFrame →
  flen f ≤ zlen (view (w_buf w)) →
  runs (uncontrol_payload debug cb receiveTime w (flen f)) (reads E fs fut w (flen f) AtHeader).
Proof using Hcb.
  intros Hs Hf Hk Hl. eapply stream_frame_done; [done..|]. intros st' evs tail ? ?.
  eapply uncontrol_payload_runs; try done. apply Hs.
Qed.

Lemma control_payload_reads E f st fs fut w :
  stream_at E (At PPayload f) st fs fut w → cframe_ok f → kind f = ControlFrame →
  flen f ≤ zlen (view (w_buf w)) →
  runs (control_payload debug cb receiveTime w (flen f)) (reads E fs fut w (flen f) AtHeader).
Proof using Hcb.
  intros Hs Hf Hk Hl. eapply stream_frame_done; [done..|]. intros st' evs tail ? ?.
  eapply control_payload_runs; try done. apply Hs.
Qed.

Lemma stream_frame_ok E q f st fs fut w : stream_at E (At q f) st fs fut w → cframe_ok f.
Proof. intros Hs. pose proof (sa_frames _ _ _ _ _ _ Hs) as Hf. by inversion Hf. Qed.

Lemma kind_cases f : kind f = UnControlFrame ∨ kind f = ControlFrame.
Proof. unfold kind. destruct (is_control_op _); auto. Qed.

Lemma kind_long f : cframe_ok f → 126 ≤ flen f → kind f = UnControlFrame.
Proof.
  intros Hf Hl. unfold kind. destruct (is_control_op (cf_op f)) eqn:Hop; [|done].
  destruct (co_control f Hf Hop). unfold flen in *. lia.
Qed.

Lemma step_payload_short E f st fs fut w ty :
  stream_at E (At PPayload f) st fs fut w → flen f < 126 → fst ty = kind f →
  runs (parse_frame_step debug cb receiveTime ty w) (payload_result E f fs fut w).
Proof using Hcb.
  intros Hs Hlen Hty. pose proof (sa_conn _ _ _ _ _ _ Hs) as Hc.
  pose proof (stream_frame_ok _ _ _ _ _ _ _ Hs) as Hf.
  assert (step_of (At PPayload f) = ReadPayloadData) as Hst
    by (cbn; by rewrite (proj2 (Z.ltb_lt _ _) Hlen)).
  unfold parse_frame_step, parse_uncontrol_frame_ReadPayloadData,
    parse_control_frame_ReadPayloadData.
  erewrite getCallbackHandler_runs, assert_step_runs by done.
  rewrite (cn_step _ _ _ _ Hc), Hst, Hty, (cn_ext _ _ _ _ Hc). cbn [ext_at header].
  rewrite len_short, (proj2 (Z.ltb_lt _ _) Hlen) by done.
  destruct (kind_cases f) as [Hk|Hk]; rewrite Hk; orun; cbn [bool_decide decide fst];
    (apply payload_result_of; [by destruct Hc|]); intros Hle.
  - by eapply uncontrol_payload_reads.
  - by eapply control_payload_reads.
Qed.

Lemma step_payload E f st fs fut w ty :
  stream_at E (At PPayload f) st fs fut w → fst ty = kind f →
  runs (parse_frame_step debug cb receiveTime ty w) (payload_result E f fs fut w).
Proof using Hcb.
  intros Hs Hty. destruct (Z.lt_ge_cases (flen f) 126) as [|Hl7]; [by eapply step_payload_short|].
  pose proof (sa_conn _ _ _ _ _ _ Hs) as Hc.
  pose proof (stream_frame_ok _ _ _ _ _ _ _ Hs) as Hf.
  pose proof (co_len f Hf) as Hlt. fold (flen f) in Hlt.
  pose proof (kind_long f Hf Hl7) as Hk. rewrite Hk in Hty.
  unfold parse_frame_step, parse_uncontrol_frame_ReadExtendedPayloadDataU16,
    parse_uncontrol_frame_ReadExtendedPayloadDataI64.
  erewrite getCallbackHandler_runs by done.
  rewrite (cn_step _ _ _ _ Hc), Hty, (cn_ext _ _ _ _ Hc). cbn [step_of].
  rewrite (proj2 (Z.ltb_ge (flen f) 126)) by done.
  destruct (Z.ltb_spec (flen f) (2 ^ 16)).
  - destruct (len_U16 f) as [Hp Hlen]; [done|]. rewrite Hlen. cbn [ext_at header].
    rewrite Hp. orun. cbn [bool_decide decide].
    erewrite assert_step_runs; [|done|cbn; repeat case_match; try lia; done].
    orun. apply payload_result_of; [by destruct Hc|]. intros.
    by eapply uncontrol_payload_reads.
  - destruct (len_I64 f) as [Hp Hlen]; [done|]. rewrite Hlen. cbn [ext_at header].
    rewrite Hp. orun. cbn [bool_decide decide].
    erewrite assert_step_runs; [|done|cbn; repeat case_match; try lia; done].
    orun. apply payload_result_of; [by destruct Hc|]. intros.
    by eapply uncontrol_payload_reads.
Qed.

(** ** Key and extended length *)

(** The next [a] bytes of the current frame are read and change the context
    to [c]. *)
Lemma stream_advance E q q' f a st fs fut w b c :
  stream_at E (At q f) st fs fut w → rest (At q f) = a ++ rest (At q' f) →
  zlen a ≤ zlen (view (w_buf w)) →
  buf_is b (zdrop (zlen a) (view (w_buf w))) (room (w_buf w)) →
  c = setWebsocketStep (set_extended_header (w_ctx w) (ext_at (At q' f))) (step_of (At q' f)) →
  stream_at E (At q' f) st fs fut (with_ctx (with_buf w b) c) ∧
  zlen (view b) = zlen (view (w_buf w)) - zlen a.
Proof.
  intros [[Hh Hst He Hb Hr Hm Hd Hct Hty Hop] Hf Hbs HE] Ha Hl [Hb' Hv' Hr'] ->.
  rewrite Ha, <- app_assoc in Hbs. destruct (app_prefix _ _ _ _ Hbs Hl) as (tail & Hv & Ht).
  rewrite Hv, zdrop_app in Hv' by done.
  assert (zlen (view (w_buf w)) = zlen a + zlen tail) as Hvl by (rewrite Hv, length_app; lia).
  split; [|rewrite Hv', Hvl; lia]. split; cbn; rewrite ?Hv'; try done.
  split; cbn; rewrite ?Hv'; try done; [lia|lia| |].
  - eapply data_ok_weaken; [|done]. lia.
  - eapply control_ok_weaken; [|done]. lia.
Qed.

Lemma key_prefix E f st fs fut w :
  stream_at E (At PKey f) st fs fut w → 4 ≤ zlen (view (w_buf w)) →
  ztake 4 (view (w_buf w)) = cf_key f.
Proof.
  intros Hs Hl. pose proof (stream_frame_ok _ _ _ _ _ _ _ Hs) as Hf.
  pose proof (co_key f Hf) as Hk. destruct Hs as [_ _ Hb _]. cbn [rest] in Hb.
  rewrite <- app_assoc in Hb. destruct (app_prefix _ _ _ _ Hb) as (tail & -> & _); [lia|].
  apply ztake_app. lia.
Qed.

Lemma step_key E f st fs fut w :
  stream_at E (At PKey f) st fs fut w → 4 ≤ zlen (view (w_buf w)) →
  ∃ w1, parse_frame_ReadMaskingkey debug cb receiveTime w =
          parse_frame_step debug cb receiveTime (kind f, mframe f) w1 ∧
    stream_at E (At PPayload f) st fs fut w1 ∧
    zlen (view (w_buf w1)) = zlen (view (w_buf w)) - 4.
Proof.
  intros Hs Hl. pose proof (sa_conn _ _ _ _ _ _ Hs) as Hc.
  pose proof (stream_frame_ok _ _ _ _ _ _ _ Hs) as Hf. pose proof (cn_buf _ _ _ _ Hc) as Hb.
  pose proof (co_key f Hf) as Hk. assert (zlen (cf_key f) = 4) as Hk' by lia.
  unfold parse_frame_ReadMaskingkey, kMaskingkeyLen.
  rewrite (cn_ext _ _ _ _ Hc). erewrite assert_step_runs by done. cbn [ext_at header hdr MASK].
  fold (hdr f). orun. rewrite readableBytes_view, (proj2 (Z.ltb_ge _ 4)) by done.
  rewrite peekBytes_view, (key_prefix _ _ _ _ _ _ Hs Hl) by (done || lia). orun.
  unfold setMaskingkey, kMaskingkeyLen. orun. rewrite ztake_all by lia.
  destruct (retrieve_view (w_buf w) 4) as (b' & -> & Hb'); [done..|]. orun.
  rewrite <- Hk' in Hb'. rewrite get_type_hdr by done.
  assert (∀ s, s = step_of (At PPayload f) → let w1 := with_ctx (with_buf w b') (setWebsocketStep
      (set_extended_header (w_ctx w) (ext_at (At PPayload f))) s) in
    stream_at E (At PPayload f) st fs fut w1 ∧
    zlen (view (w_buf w1)) = zlen (view (w_buf w)) - 4) as Hw1.
  { intros s -> w1. rewrite <- Hk'.
    by eapply (stream_advance E PKey PPayload f (cf_key f)); try done; lia. }
  assert (bool_decide (kind f = FrameInvalid) = false) as Hinv
    by (destruct (kind_cases f) as [-> | ->]; done).
  assert (Payloadlen (hdr f) = len7 (flen f)) as -> by done.
  unfold len7. cbn [step_of] in Hw1.
  destruct (Z.ltb_spec (flen f) 126); [|destruct (Z.ltb_spec (flen f) (2 ^ 16))].
  - rewrite (proj2 (Z.eqb_neq (flen f) 126)), (proj2 (Z.eqb_neq (flen f) 127)) by lia. orun.
    eexists. split; [|by apply Hw1].
    unfold parse_frame_step. cbn [with_ctx w_ctx setWebsocketStep step_ fst]. by rewrite Hinv.
  - cbn [Z.eqb Pos.eqb]. orun. eexists. split; [|by apply Hw1].
    unfold parse_frame_step. cbn [with_ctx w_ctx setWebsocketStep step_ fst]. by rewrite Hinv.
  - cbn [Z.eqb Pos.eqb]. orun. eexists. split; [|by apply Hw1].
    unfold parse_frame_step. cbn [with_ctx w_ctx setWebsocketStep step_ fst]. by rewrite Hinv.
Qed.

Lemma step_key_wait E f st fs fut w :
  stream_at E (At PKey f) st fs fut w → zlen (view (w_buf w)) < 4 →
  parse_frame_ReadMaskingkey debug cb receiveTime w = Ret (false, w).
Proof.
  intros Hs Hl. pose proof (sa_conn _ _ _ _ _ _ Hs) as Hc.
  unfold parse_frame_ReadMaskingkey, kMaskingkeyLen.
  rewrite (cn_ext _ _ _ _ Hc). erewrite assert_step_runs by done. cbn [ext_at header hdr MASK].
  orun. rewrite readableBytes_view, (proj2 (Z.ltb_lt _ 4)) by (done || apply Hc). done.
Qed.

(** What one iteration of the loop leaves.  It may stop in front of a short
    payload that is not complete yet without saying so. *)
Definition stalled (p : pos) w : Prop :=
  match p with
  | At PPayload f => flen f < 126 ∧ zlen (view (w_buf w)) < flen f
  | _ => True
  end.

Definition progress E fut p0 w (r : bool * World B H) : Prop :=
  ∃ p st fs, stream_at E p st fs fut (snd r) ∧ pos_ok p ∧
    zlen (view (w_buf (snd r))) ≤ zlen (view (w_buf w)) ∧
    if fst r then zlen (view (w_buf (snd r))) < zlen (view (w_buf w)) ∧ stalled p (snd r)
    else zlen (view (w_buf (snd r))) < need p ∧
      ∀ f, p = At PPayload f → p0 = At PKey f.

Lemma reader_key E f st fs fut w :
  stream_at E (At PKey f) st fs fut w →
  runs (parse_frame_ReadMaskingkey debug cb receiveTime w) (progress E fut (At PKey f) w).
Proof using Hcb.
  intros Hs. destruct (Z.lt_ge_cases (zlen (view (w_buf w))) 4) as [Hlt|Hge].
  { erewrite step_key_wait by done. apply runs_ret. exists (At PKey f), st, fs.
    cbn. split_and!; done || lia. }
  destruct (step_key _ _ _ _ _ _ Hs Hge) as (w1 & -> & Hs1 & Hv1).
  eapply runs_mono; [by eapply step_payload|]. intros [e w2]. unfold payload_result.
  destruct (Z.ltb_spec (zlen (view (w_buf w1))) (flen f)).
  - intros [= -> ->]. exists (At PPayload f), st, fs. cbn. split_and!; [done|lia..|by intros ? [= <-]].
  - cbn. intros (-> & st' & Hs2 & Hv2). exists AtHeader, st', fs.
    assert (0 ≤ flen f) by (unfold flen; lia). cbn. split_and!; [done..|lia|lia|done].
Qed.

Lemma len_ext_U16 f : 126 ≤ flen f < 2 ^ 16 → len_ext (flen f) = Endian.be_bytes 2 (flen f).
Proof. intros. unfold len_ext. repeat case_match; try lia; done. Qed.

Lemma len_ext_I64 f : 2 ^ 16 ≤ flen f → len_ext (flen f) = Endian.be_bytes 8 (flen f).
Proof. intros. unfold len_ext. repeat case_match; try lia; done. Qed.

Lemma len_prefix E f st fs fut w :
  stream_at E (At PLen f) st fs fut w →
  zlen (len_ext (flen f)) ≤ zlen (view (w_buf w)) →
  ztake (zlen (len_ext (flen f))) (view (w_buf w)) = len_ext (flen f).
Proof.
  intros [_ _ Hb _] Hl. cbn [rest] in Hb.
  rewrite <- app_assoc in Hb. destruct (app_prefix _ _ _ _ Hb Hl) as (tail & -> & _).
  by apply ztake_app.
Qed.

(** After an extended length the parser is in front of the key. *)
Lemma len_read E f st fs fut w b c :
  stream_at E (At PLen f) st fs fut w → pos_ok (At PLen f) →
  zlen (len_ext (flen f)) ≤ zlen (view (w_buf w)) →
  buf_is b (zdrop (zlen (len_ext (flen f))) (view (w_buf w))) (room (w_buf w)) →
  c = setWebsocketStep (set_extended_header (w_ctx w) (ext_at (At PKey f))) ReadMaskingkey →
  progress E fut (At PLen f) w (true, with_ctx (with_buf w b) c).
Proof.
  intros Hs Hp Hl Hb Hc. pose proof (need_pos _ Hp) as Hn. cbn [need] in Hn.
  edestruct (stream_advance E PLen PKey f (len_ext (flen f))) as [Hs' Hv']; try done.
  exists (At PKey f), st, fs. cbn in *. split_and!; [done..|lia|lia|done].
Qed.

Lemma reader_len_U16 E f st fs fut w :
  stream_at E (At PLen f) st fs fut w → 126 ≤ flen f < 2 ^ 16 →
  runs (parse_frame_ReadExtendedPayloadlenU16 w) (progress E fut (At PLen f) w).
Proof.
  intros Hs Hf. pose proof (sa_conn _ _ _ _ _ _ Hs) as Hc. pose proof (cn_buf _ _ _ _ Hc) as Hb.
  pose proof (len_prefix _ _ _ _ _ _ Hs) as Hpre.
  pose proof (λ b c, len_read _ _ _ _ _ _ b c Hs) as Hread.
  destruct (len_U16 f Hf) as [Hp _].
  assert (zlen (len_ext (flen f)) = 2) as Hl2
    by (rewrite len_ext_U16, Endian.length_be_bytes by done; done).
  rewrite Hl2 in *. unfold parse_frame_ReadExtendedPayloadlenU16, kExtendedPayloadlenU16.
  rewrite (cn_ext _ _ _ _ Hc). erewrite assert_step_runs;
    [|done|cbn [step_of]; by rewrite (proj2 (Z.ltb_lt (flen f) (2 ^ 16)) ltac:(lia))]. cbn [ext_at header].
  rewrite Hp. orun. rewrite readableBytes_view by done.
  destruct (Z.ltb_spec (zlen (view (w_buf w))) 2) as [Hlt|Hge].
  { apply runs_ret. exists (At PLen f), st, fs. cbn [fst snd need pos_ok]. split_and!; [done|lia..|done]. }
  destruct (readInt16_view (w_buf w)) as (b' & -> & Hb'); [done..|]. orun. apply runs_ret.
  rewrite Hpre, len_ext_U16, Endian.networkToHost16_be_bytes by lia.
  apply Hread; try done; [cbn; lia|]. cbn [hdr MASK Z.eqb Pos.eqb ext_at]. do 2 f_equal.
  unfold setExtendedPayloadlen_u16, union_set_u16, ext_len. cbn.
  rewrite u16_small, (proj2 (Z.ltb_ge (flen f) 126)) by lia. done.
Qed.

Lemma reader_len_I64 E f st fs fut w :
  stream_at E (At PLen f) st fs fut w → 2 ^ 16 ≤ flen f →
  runs (parse_frame_ReadExtendedPayloadlenI64 w) (progress E fut (At PLen f) w).
Proof.
  intros Hs Hf. pose proof (sa_conn _ _ _ _ _ _ Hs) as Hc. pose proof (cn_buf _ _ _ _ Hc) as Hb.
  pose proof (co_len f (stream_frame_ok _ _ _ _ _ _ _ Hs)) as Hlt63. fold (flen f) in Hlt63.
  pose proof (len_prefix _ _ _ _ _ _ Hs) as Hpre.
  pose proof (λ b c, len_read _ _ _ _ _ _ b c Hs) as Hread.
  destruct (len_I64 f) as [Hp _]; [done|].
  assert (zlen (len_ext (flen f)) = 8) as Hl8
    by (rewrite len_ext_I64, Endian.length_be_bytes by done; done).
  rewrite Hl8 in *. unfold parse_frame_ReadExtendedPayloadlenI64, kExtendedPayloadlenI64.
  rewrite (cn_ext _ _ _ _ Hc). erewrite assert_step_runs;
    [|done|cbn [step_of]; by rewrite (proj2 (Z.ltb_ge (flen f) (2 ^ 16)))]. cbn [ext_at header].
  rewrite Hp. orun. rewrite readableBytes_view by done.
  destruct (Z.ltb_spec (zlen (view (w_buf w))) 8) as [Hlt|Hge].
  { apply runs_ret. exists (At PLen f), st, fs. cbn [fst snd need pos_ok]. split_and!; [done|lia..|done]. }
  destruct (readInt64_view (w_buf w)) as (b' & -> & Hb'); [done..|]. orun. apply runs_ret.
  rewrite Hpre, len_ext_I64, Endian.networkToHost64_be_bytes by lia.
  apply Hread; try done; [cbn; lia|]. cbn [hdr MASK Z.eqb Pos.eqb ext_at]. do 2 f_equal.
  unfold setExtendedPayloadlen_i64, union_set_i64, ext_len. cbn.
  rewrite u64_s64, u64_small, (proj2 (Z.ltb_ge (flen f) 126)) by lia. done.
Qed.

(** ** The header *)

(** Where the parser goes after the two header bytes. *)
Definition after_header (f : cframe) : pos :=
  if flen f <? 126 then At PKey f else At PLen f.

Lemma parse_frame_header_runs f w tail :
  buf_inv (w_buf w) → header_ (w_ctx w) = extended_header_zero →
  view (w_buf w) = header_to_bytes (hdr f) ++ tail →
  ∃ b, parse_frame_header w =
         Ret (with_ctx (with_buf w b) (set_extended_header (w_ctx w) (ext_at (At PLen f)))) ∧
       buf_is b tail (room (w_buf w)).
Proof.
  intros Hb He Hv. unfold parse_frame_header, kHeaderLen.
  destruct (header_of_to_bytes (hdr f) (hdr_wf f)) as (b0 & b1 & Hh & _ & _ & Hhd).
  rewrite Hh in Hv. rewrite peekBytes_view by (rewrite ?Hv; done || cbn; lia). orun.
  destruct (retrieve_view (w_buf w) 2) as (b & Hr & Hb'); [done|rewrite Hv; cbn; lia|].
  rewrite Hv in *. rewrite ztake_app by done. cbn. rewrite Hr. orun. rewrite Hhd, He.
  exists b. split; [done|]. by rewrite zdrop_app in Hb' by done.
Qed.

Lemma begin_data_runs R0 m t :
  data_ok None R0 m →
  runs (begin_message m t) (λ m', getMessageType m' = t ∧
    ∀ R, data_ok None R m → data_ok None R m').
Proof.
  intros [(b & Hb & [Hi Hv _]) _ _ _ _]. unfold begin_message, getMessageBuffer. rewrite Hb. orun.
  rewrite readableBytes_view, Hv by done. cbn. apply runs_ret.
  split; [done|]. intros R []. by split.
Qed.

Lemma begin_control_runs R0 m t :
  control_ok R0 m →
  runs (begin_message m t) (λ m', getMessageType m' = t ∧
    ∀ R, control_ok R m → control_ok R m').
Proof.
  intros [(b & Hb & [Hi Hv _]) _ _]. unfold begin_message, getMessageBuffer. rewrite Hb. orun.
  rewrite readableBytes_view, Hv by done. cbn. apply runs_ret.
  split; [done|]. intros R []. by split.
Qed.

Lemma type_ok_after f data control :
  type_ok (At PKey f) data control → type_ok (after_header f) data control.
Proof. unfold after_header. by case_match. Qed.

(** A frame the specification accepts passes the checks, which record its
    type in the message it belongs to. *)
Lemma validate_message_frame_runs f st R0 w :
  cframe_ok f → is_Some (rx_step code_unmask st f) →
  data_ok st R0 (dataMessage_ (w_ctx w)) → control_ok R0 (controlMessage_ (w_ctx w)) →
  header (header_ (w_ctx w)) = hdr f →
  runs (validate_message_frame debug w) (λ w', ∃ data control,
    w' = with_ctx w (set_control (set_data (w_ctx w) data) control) ∧
    (∀ R, data_ok st R (dataMessage_ (w_ctx w)) → data_ok st R data) ∧
    (∀ R, control_ok R (controlMessage_ (w_ctx w)) → control_ok R control) ∧
    type_ok (after_header f) data control).
Proof.
  intros Hf [r Hr] Hdata Hcontrol Hh. unfold validate_message_frame.
  rewrite Hh. cbn [hdr opcode]. rewrite opcode_of_val.
  pose proof (co_op f Hf) as Hop. unfold rx_step in Hr.
  assert (∀ data control, (is_head_op (cf_op f) = true → getMessageType data = cf_op f) →
    (is_control_op (cf_op f) = true → getMessageType control = cf_op f) →
    type_ok (after_header f) data control) as Hto by (intros; by apply type_ok_after).
  destruct (cf_op f) eqn:Ho; try discriminate Hop.
  1: { destruct st as [[t acc]|]; [|discriminate Hr].
    destruct (do_type _ _ _ Hdata t acc eq_refl) as [Ht Hmt].
    pose proof (do_debug _ _ _ Hdata) as Hdd.
    assert (getFrameHeaderSize (messageHeader_ (controlMessage_ (w_ctx w))) = 0) as ->
      by (unfold getFrameHeaderSize; by rewrite (ko_heads _ _ Hcontrol)).
    rewrite (assert_true (negb debug || (0 =? 0))) by apply orb_true_r. orun.
    rewrite (assert_true (negb debug || _)).
    2: { destruct debug; [|done]. apply Z.ltb_lt. by apply Hdd. }
    orun. rewrite Hmt, (assert_true (_ || _)) by (by destruct t). orun. apply runs_ret.
    exists (dataMessage_ (w_ctx w)), (controlMessage_ (w_ctx w)).
    split_and!; [by destruct w as [[] ? ?]|done..|by apply Hto]. }
  1, 2: destruct st as [[t acc]|]; [discriminate Hr|];
    (eapply runs_bind; [by eapply begin_data_runs|]); intros m [Hmt Hm]; apply runs_ret;
    exists m, (controlMessage_ (w_ctx w));
    split_and!; [by destruct w as [[] ? ?]|done..|by apply Hto].
  all: (eapply runs_bind; [by eapply begin_control_runs|]); intros m [Hmt Hm]; apply runs_ret;
    exists (dataMessage_ (w_ctx w)), m;
    split_and!; [by destruct w as [[] ? ?]|done..|by apply Hto].
Qed.

Lemma stream_next_frame E st fs fut w :
  stream_at E AtHeader st fs fut w → 2 ≤ zlen (view (w_buf w)) →
  ∃ f fs' tail, fs = f :: fs' ∧ cframe_ok f ∧ is_Some (rx_step code_unmask st f) ∧
    view (w_buf w) = header_to_bytes (hdr f) ++ tail ∧
    tail ++ fut = rest (At PLen f) ++ concat (encode <$> fs').
Proof.
  intros [_ Hf Hb HE] Hl. cbn [cur rest app] in Hf, Hb, HE.
  destruct fs as [|f fs]; [|rewrite fmap_cons in Hb; cbn [concat] in Hb].
  { apply (f_equal length) in Hb. rewrite length_app in Hb. cbn in Hb. lia. }
  destruct (owed_step _ _ _ _ _ HE) as (st' & evs & Hr1 & _).
  rewrite Forall_cons in Hf. destruct Hf as [Hf _].
  change (encode f) with (header_to_bytes (hdr f) ++ rest (At PLen f)) in Hb.
  rewrite <- app_assoc in Hb. destruct (app_prefix _ _ _ _ Hb) as (tail & Hv & Ht); [done|].
  exists f, fs, tail. by rewrite Hr1.
Qed.

Lemma header_reads E st fs fut w :
  stream_at E AtHeader st fs fut w → 2 ≤ zlen (view (w_buf w)) →
  ∃ f fs' w2, (w ← parse_frame_header w; validate_message_frame debug w) = Ret w2 ∧
    step_ (w_ctx w2) = ReadFrameHeader ∧ header (header_ (w_ctx w2)) = hdr f ∧
    stream_at E (after_header f) st fs' fut
      (with_ctx w2 (setWebsocketStep (w_ctx w2) (step_of (after_header f)))) ∧
    zlen (view (w_buf w2)) = zlen (view (w_buf w)) - 2.
Proof.
  intros Hs Hl. destruct (stream_next_frame _ _ _ _ _ Hs Hl) as (f & fs' & tail & -> & Hf & Hr & Hv & Ht).
  destruct Hs as [[Hh Hst He Hb Hrm Hm Hd Hc _ Hop] Hfs _ HE].
  destruct (parse_frame_header_runs f w tail Hb He Hv) as (b & -> & [Hb' Hv' Hr']). orun.
  assert (zlen (view (w_buf w)) = 2 + zlen tail) as Hvl by (rewrite Hv, length_app; cbn; lia).
  edestruct (validate_message_frame_runs f st) as (w2 & -> & data & control & -> & Hd' & Hc' & Hty);
    [done..|]. cbn in Hd', Hc'.
  eexists f, fs', _. split_and!; [done..| |cbn; rewrite Hv'; lia].
  assert (cur (after_header f) ++ fs' = f :: fs' ∧
    rest (after_header f) = rest (At PLen f) ∧ ext_at (after_header f) = ext_at (At PLen f))
    as (Hcur & Hrest & Hext).
  { unfold after_header. destruct (Z.ltb_spec (flen f) 126) as [Hlt|]; [|done].
    apply Z.ltb_lt in Hlt. cbn. unfold ext_len, len_ext. by rewrite Hlt. }
  split; rewrite ?Hcur, ?Hrest; cbn; rewrite ?Hv'; try done.
  split; cbn; rewrite ?Hv'; try done; [lia|lia| |].
  - apply Hd'. eapply data_ok_weaken; [|done]. lia.
  - apply Hc'. eapply control_ok_weaken; [|done]. lia.
Qed.

(** The result of the step that is run after the header is dropped. *)
Lemma progress_dropped E fut f w w2 r :
  progress E fut (after_header f) w2 r →
  zlen (view (w_buf w2)) < zlen (view (w_buf w)) →
  progress E fut AtHeader w (true, snd r).
Proof.
  intros (p & st & fs & Hs & Hp & Hle & Hr) Hlt. exists p, st, fs. cbn.
  split_and!; [done..|lia|lia|]. destruct r as [[] w']; cbn in *; [apply Hr|].
  destruct Hr as [Hn Hf]. destruct p as [|[] g]; try done. cbn in *.
  specialize (Hf g eq_refl). unfold after_header in Hf.
  destruct (Z.ltb_spec (flen f) 126); [|done]. by injection Hf as ->.
Qed.

Lemma reader_header E st fs fut w :
  stream_at E AtHeader st fs fut w →
  runs (parse_frame_ReadFrameHeader debug cb receiveTime w) (progress E fut AtHeader w).
Proof using Hcb.
  intros Hs. pose proof (sa_conn _ _ _ _ _ _ Hs) as Hc.
  unfold parse_frame_ReadFrameHeader, kHeaderLen. erewrite assert_step_runs by done. orun.
  rewrite readableBytes_view by apply Hc.
  destruct (Z.ltb_spec (zlen (view (w_buf w))) 2) as [Hlt|Hge].
  { apply runs_ret. exists AtHeader, st, fs. cbn. split_and!; done || lia. }
  destruct (header_reads _ _ _ _ _ Hs Hge) as (f & fs' & w2 & Hrun & Hst & Hhd & Hs2 & Hv2).
  rewrite <- (bind_assoc (parse_frame_header w) (λ w, validate_message_frame debug w)), Hrun. orun. unfold update_frame_body_parse_step.
  unfold assert_step. rewrite Hst, bool_decide_true, Hhd by done. orun.
  assert (∀ (run : outcome (bool * World B H)),
    runs run (progress E fut (after_header f)
      (with_ctx w2 (setWebsocketStep (w_ctx w2) (step_of (after_header f))))) →
    runs (r ← run; w ← (let '(_, w) := r in Ret w); Ret (true, w))
      (progress E fut AtHeader w)) as Hdrop.
  { intros run Hr. eapply runs_bind; [done|]. intros [e w3] Hp. apply runs_ret.
    eapply (progress_dropped _ _ _ _ _ (e, w3)); [done|]. cbn. lia. }
  unfold after_header in *. change (Payloadlen (hdr f)) with (len7 (flen f)). unfold len7.
  destruct (Z.ltb_spec (flen f) 126).
  - rewrite (proj2 (Z.eqb_neq (flen f) 126)), (proj2 (Z.eqb_neq (flen f) 127)) by lia. orun.
    cbn [hdr MASK Z.eqb Pos.eqb]. rewrite bind_assoc. apply Hdrop. by eapply reader_key.
  - destruct (Z.ltb_spec (flen f) (2 ^ 16)); cbn [Z.eqb Pos.eqb]; rewrite bind_assoc;
      apply Hdrop; cbn [step_of] in *.
    + rewrite (proj2 (Z.ltb_lt (flen f) (2 ^ 16))) in * by done. by eapply reader_len_U16.
    + rewrite (proj2 (Z.ltb_ge (flen f) (2 ^ 16))) in * by done. by eapply reader_len_I64.
Qed.

(** ** The loop *)

(** The classification made before the loop is the one of the frame in
    progress, unless the payload is short and incomplete. *)
Definition ty_ok (ty : FrameControlE * MessageFrameE) (p : pos) w : Prop :=
  fst ty ≠ FrameInvalid ∧ ∀ f, p = At PPayload f → fst ty = kind f ∨ stalled p w.

Lemma step_payload_stalled E f st fs fut w ty :
  stream_at E (At PPayload f) st fs fut w → fst ty ≠ FrameInvalid →
  stalled (At PPayload f) w →
  parse_frame_step debug cb receiveTime ty w = Ret (false, w).
Proof.
  intros Hs Hty [Hlen Hlt]. pose proof (sa_conn _ _ _ _ _ _ Hs) as Hc.
  assert (step_of (At PPayload f) = ReadPayloadData) as Hst
    by (cbn; by rewrite (proj2 (Z.ltb_lt _ _) Hlen)).
  unfold parse_frame_step, parse_uncontrol_frame_ReadPayloadData,
    parse_control_frame_ReadPayloadData.
  erewrite getCallbackHandler_runs, assert_step_runs by done.
  rewrite (cn_step _ _ _ _ Hc), Hst, (cn_ext _ _ _ _ Hc). cbn [ext_at header].
  rewrite len_short, (proj2 (Z.ltb_lt _ _) Hlen), readableBytes_view, (proj2 (Z.ltb_lt _ _) Hlt)
    by (done || apply Hc).
  rewrite (bool_decide_false (fst ty = FrameInvalid)) by done. orun. case_bool_decide; by orun.
Qed.

Lemma step_progress E p st fs fut w ty :
  stream_at E p st fs fut w → pos_ok p → ty_ok ty p w →
  runs (parse_frame_step debug cb receiveTime ty w) (λ r, ∃ p0, progress E fut p0 w r).
Proof using Hcb.
  intros Hs Hp [Hinv Hty]. pose proof (sa_conn _ _ _ _ _ _ Hs) as Hc.
  pose proof (cn_step _ _ _ _ Hc) as Hst. destruct p as [|[] f].
  - unfold parse_frame_step. rewrite Hst. eapply runs_mono; [by eapply reader_header|]. eauto.
  - unfold parse_frame_step. rewrite Hst. cbn [step_of] in *. cbn in Hp.
    destruct (Z.ltb_spec (flen f) (2 ^ 16)).
    + eapply runs_mono; [by eapply reader_len_U16|]. eauto.
    + eapply runs_mono; [by eapply reader_len_I64|]. eauto.
  - unfold parse_frame_step. rewrite Hst. eapply runs_mono; [by eapply reader_key|]. eauto.
  - destruct (Hty f eq_refl) as [Hk|Hstall].
    + eapply runs_mono; [by eapply step_payload|]. intros [e w'] Hr. exists (At PKey f).
      unfold payload_result in Hr. cbn in Hp.
      destruct (Z.ltb_spec (zlen (view (w_buf w))) (flen f)).
      * injection Hr as -> ->. exists (At PPayload f), st, fs. cbn.
        split_and!; [done|lia..|by intros ? [= <-]].
      * destruct Hr as [He (st' & Hs' & Hv')]. cbn in He, Hs', Hv'. subst e.
        exists AtHeader, st', fs. cbn. split_and!; [done..|lia|lia|done].
    + erewrite step_payload_stalled by done. apply runs_ret. exists (At PKey f).
      exists (At PPayload f), st, fs. cbn in *. split_and!; [done|lia..|by intros ? [= <-]].
Qed.

(** The loop stops where the next step lacks bytes. *)
Lemma loop_runs E fut fuel ty enough p st fs w :
  stream_at E p st fs fut w → pos_ok p → ty_ok ty p w →
  (enough = false → zlen (view (w_buf w)) < need p) →
  zlen (view (w_buf w)) < Z.of_nat fuel →
  runs (parse_frame_loop debug cb receiveTime fuel ty enough w) (λ w',
    ∃ p' st' fs', stream_at E p' st' fs' fut w' ∧ pos_ok p' ∧
      zlen (view (w_buf w')) < need p').
Proof using Hcb.
  revert enough p st fs w.
  induction fuel as [|fuel IH]; intros enough p st fs w Hs Hp Hty He Hfuel; [lia|].
  cbn [parse_frame_loop].
  rewrite readableBytes_view by apply Hs. destruct enough; cbn [andb].
  2: { apply runs_ret. exists p, st, fs. auto. }
  destruct (Z.ltb_spec 0 (zlen (view (w_buf w)))) as [Hpos|Hz].
  2: { apply runs_ret. pose proof (need_pos p Hp). exists p, st, fs.
       split_and!; [done..|lia]. }
  eapply runs_bind; [by eapply step_progress|].
  intros [e w1] (p0 & p1 & st1 & fs1 & Hs1 & Hp1 & Hle & Hr). cbn [fst snd] in *.
  destruct e.
  - destruct Hr as [Hlt Hst]. eapply IH; [done..| |done|lia].
    split; [apply Hty|]. intros f ->. by right.
  - destruct Hr as [Hn _]. destruct fuel; cbn [parse_frame_loop andb];
      (apply runs_ret; by exists p1, st1, fs1).
Qed.

Lemma parse_frame_runs E p st fs fut w :
  stream_at E p st fs fut w → pos_ok p →
  runs (parse_frame debug cb receiveTime w) (λ w',
    ∃ p' st' fs', stream_at E p' st' fs' fut w' ∧ pos_ok p' ∧
      zlen (view (w_buf w')) < need p').
Proof using Hcb.
  intros Hs Hp. pose proof (sa_conn _ _ _ _ _ _ Hs) as Hc. unfold parse_frame.
  erewrite getCallbackHandler_runs by done. orun. unfold getMessageBuffer.
  destruct (do_buf _ _ _ (cn_data _ _ _ _ Hc)) as (db & -> & _).
  destruct (ko_buf _ _ (cn_control _ _ _ _ Hc)) as (kb & -> & _). orun.
  rewrite (cn_ext _ _ _ _ Hc).
  assert (∃ ty, get_frame_control_message_type (header (ext_at p)) = Ret ty ∧ ty_ok ty p w)
    as (ty & -> & Hty).
  { destruct p as [|q f]; [eexists; split; [reflexivity|]; done|].
    exists (kind f, mframe f). replace (header (ext_at (At q f))) with (hdr f) by (by destruct q).
    split; [apply get_type_hdr; by eapply stream_frame_ok|]. split.
    - cbn. by destruct (kind_cases f) as [-> | ->].
    - intros g [= -> ->]. by left. }
  orun. eapply loop_runs; try done.
  unfold parse_fuel. rewrite readableBytes_view by apply Hc. lia.
Qed.
End stream.
