(* ===== verification/Delivery.v ===== *)
(** * Delivery: end-to-end correctness of reception

    A connection past its handshake receives, in pieces cut anywhere, a prefix of
    the encoding of a sequence of frames the RFC allows.  [feeds] is what the
    server does for each piece: the bytes are appended to the input buffer and
    [parse_frame] runs.  The theorems say that no assertion fails, that exactly
    the frames that have arrived completely are delivered, in order and with the
    right payload, and where the code departs from the RFC. *)

From S2P Require Import Prelude Endian BytesBuffer Buffer Frame Context Parser.
From S2P Require Import ParserSafety Receiver Stream.

(** The frames of [fs] whose encodings fit into the first [n] bytes. *)
Fixpoint complete (n : Z) (fs : list cframe) : list cframe :=
  match fs with
  | [] => []
  | f :: fs =>
      if zlen (encode f) <=? n then f :: complete (n - zlen (encode f)) fs else []
  end.

Definition wire (fs : list cframe) : bytes := concat (encode <$> fs).

Lemma wire_app fs gs : wire (fs ++ gs) = wire fs ++ wire gs.
Proof. unfold wire. by rewrite fmap_app, concat_app. Qed.

Lemma wire_cons f fs : wire (f :: fs) = encode f ++ wire fs.
Proof. done. Qed.

Lemma complete_all fs : complete (zlen (wire fs)) fs = fs.
Proof.
  induction fs as [|f fs IH]; cbn [complete]; [done|].
  rewrite wire_cons, length_app, Nat2Z.inj_add.
  rewrite (proj2 (Z.leb_le _ _)) by lia. f_equal. by rewrite Z.add_simpl_l.
Qed.

Lemma complete_partial dn f fs n :
  zlen (wire dn) ≤ n < zlen (wire dn) + zlen (encode f) → complete n (dn ++ f :: fs) = dn.
Proof.
  revert n. induction dn as [|g dn IH]; intros n Hn; cbn [app complete].
  - change (zlen (wire [])) with 0 in Hn. by rewrite (proj2 (Z.leb_gt _ _)) by lia.
  - rewrite wire_cons, length_app in Hn. rewrite (proj2 (Z.leb_le _ _)) by lia.
    f_equal. apply IH. lia.
Qed.

Section delivery.
Context {B H : Type} `{!IBytesBuffer B} `{!BytesBufferLaws B}.
Context (debug : bool) (cb : ICallback B).
Implicit Types w : World B H.

(** One read from the socket: [(time, bytes)]. *)
Definition feed w (c : Z * bytes) : outcome (World B H) :=
  b ← b_append (w_buf w) (snd c);
  parse_frame debug cb (fst c) (with_buf w b).

Fixpoint feeds w (cs : list (Z * bytes)) : outcome (World B H) :=
  match cs with
  | [] => Ret w
  | c :: cs => w ← feed w c; feeds w cs
  end.

Definition received (cs : list (Z * bytes)) : bytes := concat (snd <$> cs).

(** Between messages with nothing read ahead, and room for [n] bytes. *)
Record ready (n : Z) w : Prop := Ready {
  rd_state : state_ (w_ctx w) = kConnected;
  rd_handler : handler_ (w_ctx w) = true;
  rd_step : step_ (w_ctx w) = ReadFrameHeader;
  rd_header : header_ (w_ctx w) = extended_header_zero;
  rd_buf : buf_is (w_buf w) [] n;
  rd_max : n ≤ max_room;
  rd_data : ∃ b, messageBuffer_ (dataMessage_ (w_ctx w)) = Some b ∧ buf_is b [] n;
  rd_data_offset : segmentOffset_ (dataMessage_ (w_ctx w)) = 0;
  rd_data_heads : frameHeaders_ (messageHeader_ (dataMessage_ (w_ctx w))) = [];
  rd_control : ∃ b, messageBuffer_ (controlMessage_ (w_ctx w)) = Some b ∧ buf_is b [] n;
  rd_control_offset : segmentOffset_ (controlMessage_ (w_ctx w)) = 0;
  rd_control_heads : frameHeaders_ (messageHeader_ (controlMessage_ (w_ctx w))) = [];
}.

Lemma ready_stream fs w :
  ready (zlen (wire fs)) w → Forall cframe_ok fs → is_Some (rx_run code_unmask None fs) →
  stream_at debug (mkPlan None fs (untimed <$> w_log w)) AtHeader None fs (wire fs) w.
Proof.
  intros [Hst Hh Hs He [Hb Hv Hr] Hm Hd Hdo Hdh Hc Hco Hch] Hf Hrun. split; cbn; try done.
  - split; cbn; rewrite ?Hv; try done. split; try done. by rewrite Hdh.
  - by rewrite Hv.
  - exists [], []. split_and!; [done..|by rewrite app_nil_r|done].
Qed.

Lemma wire_bytes fs : Forall cframe_ok fs → Forall_byte (wire fs).
Proof.
  induction 1 as [|f fs Hf _ IH]; [constructor|]. rewrite wire_cons, Forall_app. split; [|done].
  unfold encode. rewrite !Forall_app. split_and!; [|apply len_ext_bytes|apply Hf|].
  - destruct (header_of_to_bytes (hdr f) (hdr_wf f)) as (b0 & b1 & -> & ? & ? & _).
    constructor; [done|]. by constructor.
  - apply mask_from_bytes; apply Hf.
Qed.

(** The bytes of a piece move from the future to the input buffer. *)
Lemma stream_arrive P p st fs d fut w b :
  stream_at debug P p st fs (d ++ fut) w → buf_is b (view (w_buf w) ++ d) (room (w_buf w) - zlen d) →
  stream_at debug P p st fs fut (with_buf w b).
Proof.
  intros [[Hh Hs He Hb Hr Hm Hd Hc Ht Hop] Hf Hbs HE] [Hb' Hv' Hr'].
  rewrite length_app in Hr. rewrite length_app in Hm.
  assert (zlen (view b) + zlen fut = zlen (view (w_buf w)) + zlen (d ++ fut)) as Hl
    by (rewrite Hv', !length_app; lia).
  split; cbn; rewrite ?Hv'; [|done|by rewrite <- app_assoc|done].
  split; cbn; rewrite ?Hl; try done; [lia|]. rewrite length_app. lia.
Qed.

Lemma stream_append P p st fs d fut w :
  stream_at debug P p st fs (d ++ fut) w → Forall_byte d →
  ∃ b, b_append (w_buf w) d = Ret b ∧ stream_at debug P p st fs fut (with_buf w b).
Proof.
  intros Hs Hby. pose proof (sa_conn _ _ _ _ _ _ _ Hs) as Hc.
  pose proof (cn_room _ _ _ _ _ Hc) as Hr. rewrite length_app in Hr.
  destruct (append_view (w_buf w) d) as (b & -> & Hb); [apply Hc|done|lia|].
  exists b. split; [done|]. by eapply stream_arrive.
Qed.

Lemma length_rest p f : cur p = [f] → zlen (rest p) ≤ zlen (encode f).
Proof.
  destruct p as [|[] g]; intros [= ->]; unfold encode; cbn [rest];
    fold (flen f); rewrite !length_app; lia.
Qed.

(** Where a stalled parser has got to. *)
Lemma stalled_complete P p st fs fut w n :
  stream_at debug P p st fs fut w → pos_ok p → zlen (view (w_buf w)) < need p →
  n + zlen fut = zlen (wire (pl_frames P)) →
  ∃ evs, rx_run code_unmask (pl_st P) (complete n (pl_frames P)) = Some (st, evs) ∧
    untimed <$> w_log w = pl_log P ++ evs.
Proof.
  intros [Hc Hf Hb (dn & evs & Hall & Hrun & Hlog & _)] Hp Hn Hlen.
  exists evs. split; [|done]. rewrite <- Hrun. f_equal.
  apply (f_equal (λ l, zlen l)) in Hb. rewrite !length_app in Hb. fold (wire fs) in Hb.
  rewrite Hall in *. rewrite !wire_app, !length_app in Hlen.
  destruct p as [|q f].
  - cbn in Hb, Hn, Hlen. rewrite app_nil_l. destruct fs as [|f fs].
    + rewrite app_nil_r. cbn in Hb, Hlen. replace n with (zlen (wire dn)) by lia. apply complete_all.
    + apply complete_partial. rewrite wire_cons, length_app in *.
      pose proof (length_encode f). lia.
  - apply complete_partial. pose proof (length_rest (At q f) f eq_refl).
    assert (need (At q f) ≤ zlen (rest (At q f))) as Hneed.
    { apply need_rest; [|done]. intros g Hg. rewrite Forall_forall in Hf. apply Hf. set_solver. }
    change (wire (cur (At q f))) with (encode f ++ []) in Hlen. rewrite app_nil_r in Hlen. lia.
Qed.

Context (Hcb : callback_ok cb).

Lemma feeds_stream P p st fs cs fut w :
  stream_at debug P p st fs (received cs ++ fut) w → pos_ok p →
  zlen (view (w_buf w)) < need p → Forall_byte (received cs) →
  runs (feeds w cs) (λ w', ∃ p' st' fs', stream_at debug P p' st' fs' fut w' ∧ pos_ok p' ∧
    zlen (view (w_buf w')) < need p').
Proof using Hcb.
  revert p st fs w. induction cs as [|[t d] cs IH]; intros p st fs w Hs Hp Hn Hby; cbn [feeds].
  { apply runs_ret. by exists p, st, fs. }
  change (received ((t, d) :: cs)) with (d ++ received cs) in *.
  rewrite Forall_app in Hby. rewrite <- app_assoc in Hs. destruct Hby as [Hd Hcs].
  destruct (stream_append _ _ _ _ _ _ _ Hs Hd) as (b & Hb & Hs').
  unfold feed. cbn [fst snd]. rewrite Hb. orun.
  eapply runs_bind; [by eapply parse_frame_runs|].
  intros w1 (p1 & st1 & fs1 & Hs1 & Hp1 & Hn1). by eapply IH.
Qed.

Lemma feeds_run fs cs fut w :
  Forall cframe_ok fs → is_Some (rx_run code_unmask None fs) →
  received cs ++ fut = wire fs → ready (zlen (wire fs)) w →
  ∃ w' st evs, feeds w cs = Ret w' ∧
    rx_run code_unmask None (complete (zlen (received cs)) fs) = Some (st, evs) ∧
    untimed <$> w_log w' = (untimed <$> w_log w) ++ evs.
Proof using Hcb.
  intros Hf Hrun Hbs Hw. pose proof (ready_stream fs w Hw Hf Hrun) as Hs.
  pose proof (wire_bytes fs Hf) as Hby. rewrite <- Hbs, Forall_app in Hby.
  rewrite <- Hbs in Hs. destruct (feeds_stream _ _ _ _ _ _ _ Hs) as (w' & Hw' & p & st & fs' & Hs' & Hp & Hn).
  { done. } { destruct (rd_buf _ _ Hw) as [_ Hv _]. by rewrite Hv. } { apply Hby. }
  destruct (stalled_complete _ _ _ _ _ _ (zlen (received cs)) Hs' Hp Hn) as (evs & Hr & Hl).
  { cbn [pl_frames]. rewrite <- Hbs, length_app. lia. }
  by exists w', st, evs.
Qed.
End delivery.

Arguments ready {B H _ _} n w.

Lemma complete_prefix n fs : complete n fs `prefix_of` fs.
Proof.
  revert n. induction fs as [|f fs IH]; intros n; cbn; [done|].
  case_match; [|apply prefix_nil]. by apply prefix_cons.
Qed.

Lemma Forall_prefix {A} (P : A → Prop) l1 l2 : l1 `prefix_of` l2 → Forall P l2 → Forall P l1.
Proof. intros [k ->]. rewrite Forall_app. by intros [? _]. Qed.

(** C3: Feed a valid stream of frames, cut into pieces anywhere and perhaps not yet
    complete, to a connection past its handshake.  No assertion fails and no
    access is out of range; what has been delivered is what RFC 6455 prescribes
    for exactly the frames whose last byte has arrived: complete messages with
    their fragments joined and unmasked, interleaved control frames at once, in
    order.  The one proviso is that fragments that another one follows have a
    length divisible by 4. *)
Theorem reception_correct {B H} `{!IBytesBuffer B, !BytesBufferLaws B}
    debug (cb : ICallback B) fs cs (w : World B H) r :
  callback_ok cb →
  Forall cframe_ok fs → Forall aligned fs → rx_run rfc_unmask None fs = Some r →
  received cs `prefix_of` wire fs → ready (zlen (wire fs)) w →
  ∃ w' st evs, feeds debug cb w cs = Ret w' ∧
    rx_run rfc_unmask None (complete (zlen (received cs)) fs) = Some (st, evs) ∧
    untimed <$> w_log w' = (untimed <$> w_log w) ++ evs.
Proof.
  intros Hcb Hf Ha Hr [fut Hbs] Hw.
  destruct (feeds_run debug cb Hcb fs cs fut w) as (w' & st & evs & Hw' & Hrun & Hlog); try done.
  { by rewrite rx_run_aligned, Hr. }
  exists w', st, evs. split_and!; [done| |done].
  rewrite rx_run_aligned in Hrun; [done..|].
  eapply Forall_prefix; [apply complete_prefix|done].
Qed.

(** ** The key index runs over the message *)

(** C39: A text message in two fragments is delivered with its second part
    exclusive-ored with its key from the index at which the part starts in the
    message.  That is the text that was sent when the first part has a length
    divisible by 4, and a different one in general. *)
Theorem second_fragment_key_offset {B H} `{!IBytesBuffer B, !BytesBufferLaws B}
    debug (cb : ICallback B) k1 p1 k2 p2 t (w : World B H) :
  let f1 := mkFrame FrameContinue TextMessage k1 p1 in
  let f2 := mkFrame FrameFinished SegmentMessage k2 p2 in
  callback_ok cb → cframe_ok f1 → cframe_ok f2 → ready (zlen (wire [f1; f2])) w →
  ∃ w', feed debug cb w (t, encode f1 ++ encode f2) = Ret w' ∧
    untimed <$> w_log w' = (untimed <$> w_log w) ++
      [EvMessage (p1 ++ mask_from (zlen p1) k2 (mask_from 0 k2 p2)) 1 0].
Proof.
  intros f1 f2 Hcb H1 H2 Hw.
  assert (received [(t, encode f1 ++ encode f2)] ++ [] = wire [f1; f2]) as Hbs
    by (unfold received, wire; cbn [fmap list_fmap snd concat]; by rewrite !app_nil_r).
  destruct (feeds_run debug cb Hcb [f1; f2] [(t, encode f1 ++ encode f2)] [] w)
    as (w' & st & evs & Hw' & Hrun & Hlog); [by rewrite Forall_cons, Forall_singleton|done..|].
  rewrite <- (app_nil_r (received _)), Hbs, complete_all in Hrun.
  exists w'. split.
  - cbn [feeds] in Hw'. apply bind_ret_inv in Hw' as (w1 & -> & [= ->]). done.
  - rewrite Hlog. f_equal. injection Hrun as <- <-. cbn. unfold code_unmask, masked_payload. cbn.
    do 2 f_equal. unfold f1, masked_payload. cbn.
    by rewrite mask_from_involutive.
Qed.

(** ** Witnesses *)

Module SampleStream.
Definition key : bytes := [0x37; 0xFA; 0x21; 0x3D].

(** "Hell" + "o", with a ping in between. *)
Definition frames : list cframe :=
  [mkFrame FrameContinue TextMessage key (str "Hell");
   mkFrame FrameFinished PingMessage key (str "?");
   mkFrame FrameFinished SegmentMessage key (str "o")].

(** The first 13 bytes, cut inside the first payload, then all but one. *)
Definition chunks : list (Z * bytes) :=
  [(1, take 8 (wire frames)); (2, take 5 (drop 8 (wire frames)))].

(** "abc" + "de": the second part starts at index 3. *)
Definition first : cframe := mkFrame FrameContinue TextMessage key (str "abc").
Definition second : cframe := mkFrame FrameFinished SegmentMessage key (str "de").

Lemma frame_ok fin op k p :
  bool_decide (length k = 4%nat) && bool_decide (Forall_byte k) && bool_decide (Forall_byte p) &&
    (zlen p <? 126) && (is_control_op op || is_head_op op || bool_decide (op = SegmentMessage)) &&
    (negb (is_control_op op) || bool_decide (fin = FrameFinished)) = true →
  cframe_ok (mkFrame fin op k p).
Proof.
  rewrite !andb_true_iff, Z.ltb_lt.
  intros (((((Hk & Hkb) & Hp) & Hl) & Hop) & Hfin). split; cbn;
    try (by eapply bool_decide_eq_true); [lia|done|].
  intros Hc. rewrite Hc in Hfin. split; [|done]. by apply bool_decide_eq_true in Hfin.
Qed.

Lemma frames_ok : Forall cframe_ok frames.
Proof. unfold frames. rewrite !Forall_cons. split_and!; try (by apply frame_ok). by apply Forall_nil. Qed.

Lemma frames_aligned : Forall aligned frames.
Proof. unfold frames. rewrite !Forall_cons. split_and!; done. Qed.

Lemma connected_ready n :
  n ≤ 2 ^ 20 → ready n (Sample.connected []).
Proof.
  intros Hn.
  assert (∀ b, b = Sample.empty_buffer → buf_is b [] n) as Hb.
  { intros b ->. split; [apply Sample.empty_buffer_wf|done|]. etrans; [done|by vm_compute]. }
  assert (∀ b, b = Sample.empty_buffer → ∃ c, Some b = Some c ∧ buf_is c [] n) as Hs
    by (intros b Hbe; exists b; auto).
  split; try done; [by apply Hb|etrans; [done|by vm_compute]|by apply Hs..].
Qed.
End SampleStream.

Lemma reception_correct_witness :
  ∃ w' st evs,
    feeds true Sample.callback (Sample.connected []) SampleStream.chunks = Ret w' ∧
    rx_run rfc_unmask None
      (complete (zlen (received SampleStream.chunks)) SampleStream.frames) = Some (st, evs) ∧
    untimed <$> w_log w' = (untimed <$> w_log (Sample.connected [])) ++ evs.
Proof.
  eapply (reception_correct true Sample.callback SampleStream.frames).
  - apply Sample.callback_is_ok.
  - apply SampleStream.frames_ok.
  - apply SampleStream.frames_aligned.
  - vm_compute. reflexivity.
  - exists (drop 13 (wire SampleStream.frames)). by vm_compute.
  - apply SampleStream.connected_ready. by vm_compute.
Defined.

Lemma second_fragment_key_offset_witness :
  ∃ w', feed true Sample.callback (Sample.connected [])
      (3, encode SampleStream.first ++ encode SampleStream.second) = Ret w' ∧
    untimed <$> w_log w' = (untimed <$> w_log (Sample.connected [])) ++
      [EvMessage (str "abc" ++ mask_from 3 SampleStream.key
         (mask_from 0 SampleStream.key (str "de"))) 1 0].
Proof.
  apply (second_fragment_key_offset true Sample.callback).
  - apply Sample.callback_is_ok.
  - by apply SampleStream.frame_ok.
  - by apply SampleStream.frame_ok.
  - apply SampleStream.connected_ready. by vm_compute.
Defined.

(** The peer sent "abcde" and the application receives something else. *)
Example second_fragment_garbled :
  str "abc" ++ mask_from 3 SampleStream.key (mask_from 0 SampleStream.key (str "de"))
    ≠ str "abcde".
Proof. by vm_compute. Qed.
