(* ===== verification/Violations.v ===== *)
(** * Violations: what a peer that breaks the protocol causes

    RFC 6455 asks an endpoint to fail the connection on a frame it does not
    allow.  The code has assertions in these places: the theorems below show which
    such frames stop the process, with assertions enabled, whatever the
    rest of the connection state is. *)

From S2P Require Import Prelude Endian BytesBuffer Buffer Frame Context Parser ParserSafety.

(** [m] stops at an assertion. *)
Definition doomed {A} (m : outcome A) : Prop := safe m (λ _, False).

Lemma doomed_abort {A} (m : outcome A) : doomed m → m = Abort AssertFailed.
Proof. by destruct m as [a|[]]. Qed.

Lemma doomed_bind {A C} (m : outcome A) (k : A → outcome C) (P : A → Prop) :
  safe m P → (∀ a, P a → doomed (k a)) → doomed (m ≫= k).
Proof. apply safe_bind. Qed.

Lemma doomed_head {A C} (m : outcome A) (k : A → outcome C) : doomed m → doomed (m ≫= k).
Proof. by destruct m as [a|[]]. Qed.

(** Keeps the exact result of a computation that may stop at an assertion. *)
Lemma safe_eq {A} (m : outcome A) (P : A → Prop) : safe m P → safe m (λ a, m = Ret a ∧ P a).
Proof. by destruct m as [a|[]]. Qed.

Section violations.
Context {B H : Type} `{!IBytesBuffer B} `{!BytesBufferLaws B}.
Context (debug : bool) (cb : ICallback B) (receiveTime : Z).
Implicit Types w : World B H.

(** ** Headers *)

Lemma parse_frame_header_bytes w b0 b1 tl :
  buf_inv (w_buf w) → view (w_buf w) = b0 :: b1 :: tl →
  ∃ b, parse_frame_header w = Ret (with_ctx (with_buf w b)
         (set_extended_header (w_ctx w) (set_header (header_ (w_ctx w)) (header_of_bytes b0 b1)))) ∧
       buf_is b tl (room (w_buf w)).
Proof.
  intros Hb Hv. unfold parse_frame_header, kHeaderLen.
  rewrite peekBytes_view by (rewrite ?Hv; done || cbn; lia). orun.
  destruct (retrieve_view (w_buf w) 2) as (b & Hr & Hb'); [done|rewrite Hv; cbn; lia|].
  rewrite Hv in *. cbn. rewrite Hr. orun. by exists b.
Qed.

(** The checks change nothing but message types. *)
Lemma validate_message_frame_keeps w w' :
  validate_message_frame debug w = Ret w' →
  w_buf w' = w_buf w ∧ header_ (w_ctx w') = header_ (w_ctx w) ∧
  step_ (w_ctx w') = step_ (w_ctx w) ∧ handler_ (w_ctx w') = handler_ (w_ctx w).
Proof.
  unfold validate_message_frame. intros Hv.
  destruct (opcode_of _); simplify_eq; try done.
  1: repeat (apply bind_ret_inv in Hv as (? & _ & Hv)); by simplify_eq.
  all: apply bind_ret_inv in Hv as (m & _ & [= <-]); done.
Qed.

(** ** Frames that stop the process *)

(** The opcodes of RFC 6455, 5.2: 3 to 7 and 11 to 15 are reserved, 8 to 10 are those of
    control frames, which must not be fragmented. *)
Definition bad_opcode (h : header_t) : Prop :=
  3 ≤ opcode h ≤ 7 ∨ 11 ≤ opcode h ≤ 15 ∨ 8 ≤ opcode h ≤ 10 ∧ FIN h = 0.

Lemma bad_opcode_asserts h : bad_opcode h → get_frame_control_message_type h = Abort AssertFailed.
Proof.
  unfold bad_opcode, get_frame_control_message_type. intros [H1|[H1|[H1 ->]]].
  - assert (opcode h = 3 ∨ opcode h = 4 ∨ opcode h = 5 ∨ opcode h = 6 ∨ opcode h = 7) as Ho by lia.
    by repeat destruct Ho as [->|Ho]; [..|rewrite Ho].
  - assert (opcode h = 11 ∨ opcode h = 12 ∨ opcode h = 13 ∨ opcode h = 14 ∨ opcode h = 15) as Ho by lia.
    by repeat destruct Ho as [->|Ho]; [..|rewrite Ho].
  - assert (opcode h = 8 ∨ opcode h = 9 ∨ opcode h = 10) as Ho by lia.
    by repeat destruct Ho as [->|Ho]; [..|rewrite Ho].
Qed.

(** Frames that are stopped at whatever came before; [tl] is what has arrived behind the
    two bytes of the header. *)
Inductive bad_frame (h : header_t) (tl : bytes) : Prop :=
  (** A bad opcode in a masked frame with a short length whose key has arrived. *)
  | BadOpcode :
      bad_opcode h → MASK h = 1 → Payloadlen h < 126 → 4 ≤ zlen tl → bad_frame h tl
  (** A data frame with a short length that is the last of its message and not masked, and
      has arrived completely. *)
  | UnmaskedData :
      opcode_of (opcode h) = TextMessage ∨ opcode_of (opcode h) = BinaryMessage ∨
        opcode_of (opcode h) = SegmentMessage →
      fin_of (FIN h) = FrameFinished → MASK h = 0 →
      Payloadlen h < 126 → Payloadlen h ≤ zlen tl → bad_frame h tl.

(** The frame with the header [h], of which [tl] has arrived, breaks the
    protocol, by itself or because it starts a message inside another one. *)
Inductive violation (h : header_t) (tl : bytes) w : Prop :=
  | BadFrame : bad_frame h tl → violation h tl w
  | NestedMessage b :
      opcode_of (opcode h) = TextMessage ∨ opcode_of (opcode h) = BinaryMessage →
      messageBuffer_ (dataMessage_ (w_ctx w)) = Some b → view b ≠ [] →
      violation h tl w.

Context (Hcb : callback_ok cb) (L : Z) (HL : L ≤ max_room).

Lemma control_payload_doomed w len :
  let h := header (header_ (w_ctx w)) in
  world_ok L w → 0 ≤ len ≤ zlen (view (w_buf w)) → fin_of (FIN h) = FrameFinished →
  opcode_of (opcode h) = TextMessage ∨ opcode_of (opcode h) = BinaryMessage ∨
    opcode_of (opcode h) = SegmentMessage →
  doomed (control_payload debug cb receiveTime w len).
Proof.
  intros h [Hb Hl Hd Hc He] Hlen Hfin Hop. unfold control_payload. fold h.
  eapply doomed_bind; [by apply take_payload_safe|]. intros [w1 m1] _.
  apply doomed_head. rewrite Hfin. by destruct Hop as [-> |[-> | ->]].
Qed.

Lemma ReadMaskingkey_doomed w :
  let h := header (header_ (w_ctx w)) in
  world_ok L w → 4 ≤ zlen (view (w_buf w)) → Payloadlen h < 126 →
  get_frame_control_message_type h = Abort AssertFailed →
  doomed (parse_frame_ReadMaskingkey debug cb receiveTime w).
Proof.
  intros h Hw Hl Hp Hty. unfold parse_frame_ReadMaskingkey. fold h. unfold assert_step.
  eapply doomed_bind; [apply safe_assert|]. intros [] _.
  eapply doomed_bind; [apply safe_assert|]. intros [] _. unfold kMaskingkeyLen.
  rewrite readableBytes_view, (proj2 (Z.ltb_ge _ 4)) by (done || apply Hw).
  rewrite peekBytes_view by (apply Hw || lia). orun. unfold setMaskingkey, kMaskingkeyLen. orun.
  destruct (retrieve_view (w_buf w) 4) as (b & -> & _); [apply Hw|lia|]. orun.
  rewrite (proj2 (Z.eqb_neq (Payloadlen h) 126)), (proj2 (Z.eqb_neq (Payloadlen h) 127)) by lia.
  orun. by rewrite Hty.
Qed.

Lemma setWebsocketStep_ok w s : world_ok L w → world_ok L (with_ctx w (setWebsocketStep (w_ctx w) s)).
Proof. intros []. by split. Qed.

Lemma update_frame_body_doomed w :
  world_ok L w → bad_frame (header (header_ (w_ctx w))) (view (w_buf w)) →
  doomed (update_frame_body_parse_step debug cb receiveTime w).
Proof.
  intros Hw Hv. unfold update_frame_body_parse_step.
  eapply doomed_bind; [apply safe_assert|]. intros [] _.
  pose proof (setWebsocketStep_ok w ReadMaskingkey Hw) as Hw1.
  pose proof (setWebsocketStep_ok w ReadPayloadData Hw) as Hw2.
  destruct Hv as [Hty Hm Hp Hl|Hop Hfin Hm Hp Hl].
  all: rewrite (proj2 (Z.eqb_neq (Payloadlen _) 126)), (proj2 (Z.eqb_neq (Payloadlen _) 127)) by lia.
  all: rewrite Hm; orun; cbn [Z.eqb Pos.eqb]; apply doomed_head.
  - by apply ReadMaskingkey_doomed, bad_opcode_asserts.
  - unfold parse_control_frame_ReadPayloadData, getCallbackHandler. rewrite bind_assoc.
    eapply doomed_bind; [apply safe_assert|]. intros [] _. orun.
    cbn [with_ctx w_ctx setWebsocketStep header_ w_buf]. unfold assert_step. orun.
    rewrite readableBytes_view, (proj2 (Z.ltb_ge _ (Payloadlen _))) by (done || apply Hw).
    apply doomed_head, control_payload_doomed; try done.
    split; [apply (hw_Payloadlen _ (eo_header _ (wo_ext _ _ Hw)))|done].
Qed.

Lemma ReadFrameHeader_doomed w b0 b1 tl :
  world_ok L w → view (w_buf w) = b0 :: b1 :: tl →
  violation (header_of_bytes b0 b1) tl w →
  doomed (parse_frame_ReadFrameHeader debug cb receiveTime w).
Proof.
  intros Hw Hv Hbad. unfold parse_frame_ReadFrameHeader, assert_step, kHeaderLen.
  eapply doomed_bind; [apply safe_assert|]. intros [] _.
  rewrite readableBytes_view, (proj2 (Z.ltb_ge _ 2))
    by (apply Hw || rewrite Hv; cbn [length]; lia).
  destruct (parse_frame_header_bytes w b0 b1 tl) as (b & Hrun & [Hb Hbv Hbr]);
    [apply Hw|done|].
  pose proof (parse_frame_header_safe L w Hw) as Hsafe. rewrite Hrun in *. orun.
  destruct Hsafe as [Hw1 _]; [rewrite Hv; cbn [length]; lia|].
  destruct Hbad as [Hbad|db Hop Hdb Hne].
  - eapply doomed_bind; [by apply safe_eq, validate_message_frame_safe|].
    intros w2 [Heq [Hw2 Hb2]]. apply doomed_head.
    destruct (validate_message_frame_keeps _ _ Heq) as (_ & Hh2 & _ & _).
    apply update_frame_body_doomed; [done|]. rewrite Hh2, Hb2. cbn. by rewrite Hbv.
  - apply doomed_head. unfold validate_message_frame.
    cbn [with_ctx with_buf w_ctx set_extended_header header_ set_header header dataMessage_].
    assert (∀ t, doomed (begin_message (dataMessage_ (w_ctx w)) t)) as Hbegin.
    { intros t. unfold begin_message, getMessageBuffer. rewrite Hdb. orun. apply doomed_head.
      destruct (mo_buf _ _ (wo_data _ _ Hw) db Hdb) as [Hi _]. rewrite readableBytes_view by done.
      by destruct (view db). }
    destruct Hop as [-> | ->]; by apply doomed_head.
Qed.

Lemma parse_frame_doomed w b0 b1 tl :
  world_ok L w → step_ (w_ctx w) = ReadFrameHeader →
  view (w_buf w) = b0 :: b1 :: tl → violation (header_of_bytes b0 b1) tl w →
  doomed (parse_frame debug cb receiveTime w).
Proof.
  intros Hw Hs Hv Hbad. unfold parse_frame, getCallbackHandler. rewrite bind_assoc.
  eapply doomed_bind; [apply safe_assert|]. intros [] _. orun.
  eapply doomed_bind; [apply getMessageBuffer_safe|]. intros _ _.
  eapply doomed_bind; [apply getMessageBuffer_safe|]. intros _ _.
  eapply doomed_bind; [apply get_type_safe|]. intros ty _. unfold parse_fuel.
  rewrite readableBytes_view by apply Hw. destruct (Z.to_nat _) as [|fuel] eqn:Hf; [lia|].
  cbn [parse_frame_loop]. rewrite readableBytes_view, Hv by apply Hw. cbn [length andb].
  rewrite (proj2 (Z.ltb_lt _ _)) by lia. apply doomed_head.
  unfold parse_frame_step. rewrite Hs. by eapply ReadFrameHeader_doomed.
Qed.

(** ** Control frames with an extended length *)

(** A masked control frame that announces a 16-bit length, its length read. *)
Record long_control (h : header_t) : Prop := LongControl {
  lc_op : opcode_of (opcode h) = CloseMessage ∨ opcode_of (opcode h) = PingMessage ∨
    opcode_of (opcode h) = PongMessage;
  lc_fin : fin_of (FIN h) = FrameFinished;
  lc_len : Payloadlen h = 126;
  lc_mask : MASK h = 1;
}.

Lemma ReadMaskingkey_long_control w :
  world_ok L w → 4 ≤ zlen (view (w_buf w)) → long_control (header (header_ (w_ctx w))) →
  doomed (parse_frame_ReadMaskingkey debug cb receiveTime w).
Proof.
  intros Hw Hl [Hop Hfin Hlen Hm]. unfold parse_frame_ReadMaskingkey, assert_step.
  eapply doomed_bind; [apply safe_assert|]. intros [] _.
  eapply doomed_bind; [apply safe_assert|]. intros [] _. unfold kMaskingkeyLen.
  rewrite readableBytes_view, (proj2 (Z.ltb_ge _ 4)) by (done || apply Hw).
  rewrite peekBytes_view by (apply Hw || lia). orun. unfold setMaskingkey, kMaskingkeyLen. orun.
  destruct (retrieve_view (w_buf w) 4) as (b & -> & _); [apply Hw|lia|]. orun.
  rewrite Hlen. cbn [Z.eqb Pos.eqb]. unfold get_frame_control_message_type. rewrite Hfin.
  unfold parse_control_frame_ReadExtendedPayloadDataU16, getCallbackHandler, assert_step.
  destruct Hop as [-> |[-> | ->]]; cbn;
    repeat first [done | rewrite bind_assoc | rewrite Hlen; done
      | eapply doomed_bind; [apply safe_assert|]; intros [] _; cbn ].
Qed.

Lemma ReadFrameHeader_long_control w b0 b1 tl :
  world_ok L w → view (w_buf w) = b0 :: b1 :: tl → 6 ≤ zlen tl →
  long_control (header_of_bytes b0 b1) →
  safe (parse_frame_ReadFrameHeader debug cb receiveTime w) (λ r, fst r = true ∧
    world_ok L (snd r) ∧ step_ (w_ctx (snd r)) = ReadMaskingkey ∧
    header (header_ (w_ctx (snd r))) = header_of_bytes b0 b1 ∧
    4 ≤ zlen (view (w_buf (snd r)))).
Proof.
  intros Hw Hv Htl Hlc. unfold parse_frame_ReadFrameHeader, assert_step, kHeaderLen.
  safe_assert_as Hs. rewrite readableBytes_view, (proj2 (Z.ltb_ge _ 2))
    by (apply Hw || rewrite Hv; cbn [length]; lia).
  destruct (parse_frame_header_bytes w b0 b1 tl) as (b & Hrun & [Hb Hbv Hbr]);
    [apply Hw|done|].
  pose proof (parse_frame_header_safe L w Hw) as Hsafe. rewrite Hrun in *. orun.
  destruct Hsafe as [Hw1 _]; [rewrite Hv; cbn [length]; lia|].
  eapply safe_bind; [by apply safe_eq, validate_message_frame_safe|].
  intros w2 [Heq [Hw2 Hb2]].
  destruct (validate_message_frame_keeps _ _ Heq) as (_ & Hh2 & _ & _).
  cbn in Hb2. assert (header (header_ (w_ctx w2)) = header_of_bytes b0 b1) as Hh by (by rewrite Hh2).
  unfold update_frame_body_parse_step. rewrite !bind_assoc. safe_assert_as Hs2.
  rewrite Hh, (lc_len _ Hlc). cbn [Z.eqb Pos.eqb]. rewrite bind_assoc.
  pose proof (setWebsocketStep_ok w2 ReadExtendedPayloadlenU16 Hw2) as Hw3.
  pose proof (parse_frame_ReadExtendedPayloadlenU16_safe L _ Hw3) as Hsafe.
  set (w3 := with_ctx w2 _) in *.
  assert (∃ b' c, parse_frame_ReadExtendedPayloadlenU16 w3 = Ret (true, with_ctx (with_buf w3 b') c) ∧
    step_ c = ReadMaskingkey ∧ header (header_ c) = header_of_bytes b0 b1 ∧
    view b' = zdrop 2 tl) as (b' & c & Hread & Hstep & Hhead & Hbv').
  { unfold parse_frame_ReadExtendedPayloadlenU16, kExtendedPayloadlenU16, w3. cbn [w_buf with_ctx].
    rewrite Hb2, readableBytes_view, Hbv, (proj2 (Z.ltb_ge _ 2)) by (done || lia).
    cbn [with_ctx w_ctx setWebsocketStep header_].
    destruct (readInt16_view b) as (b' & -> & [_ Hbv' _]); [done|rewrite Hbv; lia|].
    rewrite Hh, (lc_len _ Hlc), (lc_mask _ Hlc). rewrite Hbv in Hbv'.
    eexists b', _. split; [reflexivity|]. by rewrite <- Hh. }
  rewrite Hread in *. destruct Hsafe as [Hw4 _]. cbn. split_and!; [done..|].
  rewrite Hbv', length_zdrop; lia.
Qed.

Lemma parse_frame_long_control w b0 b1 tl :
  world_ok L w → step_ (w_ctx w) = ReadFrameHeader →
  view (w_buf w) = b0 :: b1 :: tl → 6 ≤ zlen tl → long_control (header_of_bytes b0 b1) →
  doomed (parse_frame debug cb receiveTime w).
Proof.
  intros Hw Hs Hv Htl Hlc. unfold parse_frame, getCallbackHandler. rewrite bind_assoc.
  eapply doomed_bind; [apply safe_assert|]. intros [] _. orun.
  eapply doomed_bind; [apply getMessageBuffer_safe|]. intros _ _.
  eapply doomed_bind; [apply getMessageBuffer_safe|]. intros _ _.
  eapply doomed_bind; [apply get_type_safe|]. intros ty _. unfold parse_fuel.
  rewrite readableBytes_view by apply Hw.
  destruct (Z.to_nat _) as [|[|fuel]] eqn:Hf; [lia..|].
  cbn [parse_frame_loop]. rewrite readableBytes_view, Hv by apply Hw. cbn [length andb].
  rewrite (proj2 (Z.ltb_lt _ _)) by lia.
  assert (parse_frame_step debug cb receiveTime ty w =
    parse_frame_ReadFrameHeader debug cb receiveTime w) as ->
    by (unfold parse_frame_step; by rewrite Hs).
  eapply doomed_bind; [by eapply ReadFrameHeader_long_control|].
  intros [e w1] (He & Hw1 & Hs1 & Hh1 & Hl1). cbn [fst snd] in *. subst e.
  rewrite readableBytes_view, (proj2 (Z.ltb_lt 0 _)) by (apply Hw1 || lia). cbn [andb].
  apply doomed_head. unfold parse_frame_step. rewrite Hs1.
  apply ReadMaskingkey_long_control; [done..|by rewrite Hh1].
Qed.
End violations.

(** C38: With assertions enabled, a connection that is waiting for a frame header and has
    received one stops the process at an assertion, instead of failing the connection,
    whatever the state of the connection, the callback and the rest of the input are, in
    these cases: a masked frame with a payload of less than 126 bytes and its key received
    that has a reserved opcode or is a control frame without FIN; a text, binary or
    continuation frame with FIN and without a mask, with a payload of less than 126 bytes
    and received completely; a text or binary frame while bytes of an unfinished message
    are stored.  ([unmasked_frames_accepted] shows violations of the same kinds that are
    not noticed.) *)
Theorem violation_stops_the_process {B H} `{!IBytesBuffer B, !BytesBufferLaws B}
    debug (cb : ICallback B) receiveTime (w : World B H) L b0 b1 tl :
  world_ok L w → step_ (w_ctx w) = ReadFrameHeader →
  view (w_buf w) = b0 :: b1 :: tl → violation (header_of_bytes b0 b1) tl w →
  parse_frame debug cb receiveTime w = Abort AssertFailed.
Proof. intros. by eapply doomed_abort, parse_frame_doomed. Qed.

(** An unmasked text frame "hi". *)
Lemma violation_stops_the_process_witness :
  parse_frame true Sample.callback 5 (Sample.connected [0x81; 2; 104; 105]) = Abort AssertFailed.
Proof.
  eapply (violation_stops_the_process true Sample.callback 5 _ (2 ^ 20)).
  - apply Sample.connected_ok; [|by vm_compute].
    apply (bool_decide_unpack _). by vm_compute.
  - done.
  - vm_compute. reflexivity.
  - apply BadFrame, UnmaskedData; [by left|by vm_compute..].
Defined.

(** Violations that go unnoticed (without the debug dump): a text frame of 126 bytes without a mask is delivered; a
    first fragment without a mask, and a new message after an empty first fragment, are
    read. *)
Example unmasked_frames_accepted :
  (match parse_frame false Sample.callback 5 (Sample.connected ([0x81; 126; 0; 126] ++ repeat 104 126)) with
   | Ret w => map (λ e, match e with EvMessage m _ _ => zlen m | _ => 0 end) (w_log w) = [126]
   | Abort _ => False
   end) ∧
  (∃ x, parse_frame false Sample.callback 5 (Sample.connected [0x01; 2; 104; 105]) = Ret x) ∧
  (∃ x, parse_frame false Sample.callback 5 (Sample.connected [0x01; 0x80; 1; 2; 3; 4; 0x81; 0x81; 1; 2; 3; 4; 105]) = Ret x).
Proof. split_and!; [by vm_compute|eexists; vm_compute; reflexivity..]. Qed.

(** A control frame with a length of 126 to 65535, which a comment of the source
    allows up to 126, stops the process as soon as its key has arrived: the
    reader it is passed to asserts a step its caller has just left. *)
Theorem long_control_frame_stops_the_process {B H} `{!IBytesBuffer B, !BytesBufferLaws B}
    debug (cb : ICallback B) receiveTime (w : World B H) L b0 b1 tl :
  world_ok L w → step_ (w_ctx w) = ReadFrameHeader →
  view (w_buf w) = b0 :: b1 :: tl → 6 ≤ zlen tl → long_control (header_of_bytes b0 b1) →
  parse_frame debug cb receiveTime w = Abort AssertFailed.
Proof. intros. by eapply doomed_abort, parse_frame_long_control. Qed.

(** A ping of 126 bytes: header, length and key. *)
Lemma long_control_frame_stops_the_process_witness :
  parse_frame true Sample.callback 5
    (Sample.connected [0x89; 0xFE; 0; 126; 1; 2; 3; 4]) = Abort AssertFailed.
Proof.
  eapply (long_control_frame_stops_the_process true Sample.callback 5 _ (2 ^ 20)).
  - apply Sample.connected_ok; [|by vm_compute].
    apply (bool_decide_unpack _). by vm_compute.
  - done.
  - vm_compute. reflexivity.
  - done.
  - split; [by right; left|by vm_compute..].
Defined.
