(* ===== verification/Pack.v ===== *)
(** * Pack: frames the server sends
    (src/libwebsocket/private/websocket.cc, lines 1519-1533, 1555-1698 and
    1846-2020)

    The [pack_unmask_*] family writes unmasked frames to a buffer.  A pointer
    argument [char const* data] is an [option bytes]: [None] is the null pointer,
    [Some l] points at [l].  The correctness theorems compare what is written
    with a decoder for server frames that follows section 5.2 of the RFC. *)

From S2P Require Import Prelude Endian BytesBuffer Buffer Frame Context Parser.
From S2P Require Import ParserSafety Receiver.

(** ** Pointers into the data *)

(** [data + n]; arithmetic on a null pointer gives one that cannot be read. *)
Definition ptr_add (data : option bytes) (n : Z) : option bytes :=
  match data with
  | Some l => Some (zdrop n l)
  | None => if n =? 0 then None else Some []
  end.

Definition ptr_read (l : bytes) (n : Z) : outcome bytes :=
  in_bounds ((0 <=? n) && (n <=? zlen l)) ;; Ret (ztake n l).

Section pack.
Context {B : Type} `{!IBytesBuffer B}.
Context (debug : bool).

Definition validate_uncontrol_frame_header (h : header_t) : outcome unit :=
  assert ((0 <=? opcode h) && (opcode h <=? OpcodeE_val BinaryMessage)).

Definition validate_control_frame_header (h : header_t) : outcome unit :=
  assert (Payloadlen h <=? 126) ;;
  assert (FIN h =? FinE_val FrameFinished) ;;
  assert ((OpcodeE_val CloseMessage <=? opcode h) && (opcode h <=? OpcodeE_val PongMessage)).

Definition pack_unmask_uncontrol_frame_header (buf : B) (op : OpcodeE) (fin : FinE)
    (len : Z) : outcome (header_t * B) :=
  assert (len <=? 127) ;;
  let header := mkHeader (OpcodeE_val op) 0 0 0 (FinE_val fin) len 0 in
  validate_uncontrol_frame_header header ;;
  buf ← b_append buf (header_to_bytes header);
  Ret (header, buf).

Definition pack_unmask_control_frame_header (buf : B) (op : OpcodeE) (fin : FinE)
    (len : Z) : outcome (header_t * B) :=
  assert (len <=? 127) ;;
  let header := mkHeader (OpcodeE_val op) 0 0 0 (FinE_val fin) len 0 in
  validate_control_frame_header header ;;
  buf ← b_append buf (header_to_bytes header);
  Ret (header, buf).

(** The 7-bit length and the two candidates for the extended length. *)
Definition payload_lengths (len : Z) : Z * Z * Z :=
  if len <? 126 then (len, 0, 0)
  else if len <=? 65535 then (126, Endian.hostToNetwork16 len, 0)
  else (127, 0, s16 (Endian.hostToNetwork64 len)).

(** [if (header.MASK == 1)] is never taken: the key is the zero key. *)
Definition pack_key (buf : B) (h : header_t) : outcome B :=
  if MASK h =? 1 then b_append buf (replicate 4 0) else Ret buf.

(** [if (data && len > 0)]. *)
Definition pack_data (buf : B) (data : option bytes) (len : Z) : outcome B :=
  match data with
  | Some l => if 0 <? len then l ← ptr_read l len; b_append buf l else Ret buf
  | None => Ret buf
  end.

Definition pack_unmask_uncontrol_frame (buf : B) (data : option bytes) (len : Z)
    (op : OpcodeE) (fin : FinE) : outcome (header_t * B) :=
  let '(len7, lenU16, lenI64) := payload_lengths len in
  '(header, buf) ← pack_unmask_uncontrol_frame_header buf op fin len7;
  buf ← (if len7 =? 126 then b_append buf (le_split 2 lenU16)
         else if len7 =? 127 then b_append buf (le_split 8 lenI64)
         else Ret buf);
  buf ← pack_key buf header;
  buf ← pack_data buf data len;
  Ret (header, buf).

Definition pack_unmask_control_frame (buf : B) (data : option bytes) (len : Z)
    (op : OpcodeE) (fin : FinE) : outcome (header_t * B) :=
  let '(len7, lenU16, lenI64) := payload_lengths len in
  '(header, buf) ← pack_unmask_control_frame_header buf op fin len7;
  buf ← (if len7 =? 126 then b_append buf (le_split 2 lenU16)
         else if len7 =? 127 then
           assert false ;; b_append buf (le_split 8 lenI64)
         else Ret buf);
  buf ← pack_key buf header;
  buf ← pack_data buf data len;
  Ret (header, buf).

(** The debug output classifies the header it prints. *)
Definition trace_header (h : header_t) : outcome unit :=
  if debug then _ ← get_frame_control_message_type h; Ret tt else Ret tt.

(** [while (left > 0)]; at most [len] iterations, since [chunksz] is
    positive. *)
Fixpoint pack_chunk_loop (fuel : nat) (buf : B) (data : option bytes) (n left chunksz : Z)
    : outcome B :=
  if 0 <? left then
    match fuel with
    | O => Abort OutOfFuel
    | S fuel =>
        if chunksz <? left then
          '(header, buf) ← pack_unmask_uncontrol_frame buf (ptr_add data n) chunksz
                             SegmentMessage FrameContinue;
          trace_header header ;;
          pack_chunk_loop fuel buf data (n + chunksz) (left - chunksz) chunksz
        else
          '(header, buf) ← pack_unmask_uncontrol_frame buf (ptr_add data n) left
                             SegmentMessage FrameFinished;
          trace_header header ;;
          Ret buf
    end
  else Ret buf.

Definition pack_unmask_data_frame_chunk (buf : B) (data : option bytes) (len : Z)
    (messageType : MessageE) (chunksz : Z) : outcome B :=
  assert (chunksz <? len) ;;
  assert (bool_decide (messageType = TextMessage) || bool_decide (messageType = BinaryMessage)) ;;
  '(header, buf) ← pack_unmask_uncontrol_frame buf (ptr_add data 0) chunksz
                     messageType FrameContinue;
  trace_header header ;;
  pack_chunk_loop (Z.to_nat len) buf data chunksz (len - chunksz) chunksz.

Definition chunksz : Z := 1024.

Definition pack_unmask_data_frame (buf : B) (data : option bytes) (len : Z)
    (isText : bool) (chunk : bool) : outcome B :=
  let messageType := if isText then TextMessage else BinaryMessage in
  if chunk && (chunksz <? len) then
    pack_unmask_data_frame_chunk buf data len messageType chunksz
  else
    '(header, buf) ← pack_unmask_uncontrol_frame buf data len messageType FrameFinished;
    trace_header header ;;
    Ret buf.

Definition pack_control (op : OpcodeE) (buf : B) (data : option bytes) (len : Z) : outcome B :=
  '(header, buf) ← pack_unmask_control_frame buf data len op FrameFinished;
  trace_header header ;;
  Ret buf.

Definition pack_unmask_close_frame := pack_control CloseMessage.
Definition pack_unmask_ping_frame := pack_control PingMessage.
Definition pack_unmask_pong_frame := pack_control PongMessage.
End pack.

(** ** Reading server frames (RFC 6455, section 5.2) *)

Record sframe : Type := mkSframe {
  sf_fin : FinE;
  sf_op : OpcodeE;
  sf_payload : bytes;
}.

#[global] Instance sframe_eq_dec : EqDecision sframe.
Proof. solve_decision. Defined.

Definition shdr (f : sframe) : header_t :=
  mkHeader (OpcodeE_val (sf_op f)) 0 0 0 (FinE_val (sf_fin f)) (len7 (zlen (sf_payload f))) 0.

(** The frame in the shortest form. *)
Definition sencode (f : sframe) : bytes :=
  header_to_bytes (shdr f) ++ len_ext (zlen (sf_payload f)) ++ sf_payload f.

Definition swire (fs : list sframe) : bytes := concat (sencode <$> fs).

(** The first frame of [l] and the bytes after it; [None] when it is masked or
    incomplete. *)
Definition decode_frame (l : bytes) : option (sframe * bytes) :=
  match l with
  | b0 :: b1 :: l =>
      let h := header_of_bytes b0 b1 in
      if MASK h =? 1 then None
      else
        let k := if Payloadlen h =? 126 then 2 else if Payloadlen h =? 127 then 8 else 0 in
        if zlen l <? k then None
        else
          let n := if k =? 0 then Payloadlen h else le_combine (rev (ztake k l)) in
          let l := zdrop k l in
          if zlen l <? n then None
          else Some (mkSframe (fin_of (FIN h)) (opcode_of (opcode h)) (ztake n l), zdrop n l)
  | _ => None
  end.

Fixpoint decode_frames (fuel : nat) (l : bytes) : option (list sframe) :=
  match l, fuel with
  | [], _ => Some []
  | _, O => None
  | _, S fuel =>
      '(f, l) ← decode_frame l;
      fs ← decode_frames fuel l;
      Some (f :: fs)
  end.

(** The continuation frames of a message. *)
Fixpoint reassemble_rest (fs : list sframe) : option bytes :=
  match fs with
  | [] => None
  | f :: fs =>
      match sf_op f, sf_fin f, fs with
      | SegmentMessage, FrameFinished, [] => Some (sf_payload f)
      | SegmentMessage, FrameContinue, _ => l ← reassemble_rest fs; Some (sf_payload f ++ l)
      | _, _, _ => None
      end
  end.

(** One message, in one frame or in fragments (section 5.4). *)
Definition reassemble (fs : list sframe) : option (OpcodeE * bytes) :=
  match fs with
  | [] => None
  | f :: fs =>
      if is_head_op (sf_op f) then
        match sf_fin f, fs with
        | FrameFinished, [] => Some (sf_op f, sf_payload f)
        | FrameContinue, _ => l ← reassemble_rest fs; Some (sf_op f, sf_payload f ++ l)
        | _, _ => None
        end
      else None
  end.

(** What a client makes of the bytes [l]. *)
Definition client_reads (l : bytes) : option (OpcodeE * bytes) :=
  fs ← decode_frames (length l) l; reassemble fs.

Lemma shdr_wf f : header_wf (shdr f).
Proof.
  pose proof (OpcodeE_val_range (sf_op f)). pose proof (FinE_val_range (sf_fin f)).
  pose proof (len7_range (zlen (sf_payload f))). split; cbn; lia.
Qed.

Lemma be_bytes_value n z : 0 ≤ z < 2 ^ (8 * Z.of_nat n) → le_combine (rev (Endian.be_bytes n z)) = z.
Proof.
  intros Hz. unfold Endian.be_bytes. rewrite rev_involutive, le_combine_split. by apply Z.mod_small.
Qed.

(** The decoder reads a frame back, whatever follows it. *)
Lemma decode_sencode f tail :
  zlen (sf_payload f) < 2 ^ 64 → decode_frame (sencode f ++ tail) = Some (f, tail).
Proof.
  intros Hn. unfold sencode. rewrite <- !app_assoc.
  destruct (header_of_to_bytes (shdr f) (shdr_wf f)) as (b0 & b1 & -> & _ & _ & Hh).
  cbn [app]. unfold decode_frame. rewrite Hh. cbn [shdr MASK Payloadlen FIN opcode Z.eqb Pos.eqb].
  rewrite fin_of_val, opcode_of_val. set (n := zlen (sf_payload f)) in *.
  assert (0 ≤ n) as H0 by (unfold n; lia). assert (∀ k x, n = k →
    ztake k (sf_payload f ++ x) = sf_payload f ∧ zdrop k (sf_payload f ++ x) = x) as Hpay.
  { intros k x <-. split; [by apply ztake_app|by apply zdrop_app]. }
  unfold len7, len_ext.
  destruct (Z.ltb_spec n 126); [|destruct (Z.ltb_spec n (2 ^ 16))].
  - rewrite (proj2 (Z.eqb_neq n 126)), (proj2 (Z.eqb_neq n 127)) by lia. cbn [app].
    rewrite (proj2 (Z.ltb_ge _ 0)) by lia. cbn [Z.eqb]. change (zdrop 0 ?l) with l.
    rewrite length_app, (proj2 (Z.ltb_ge _ n)) by (unfold n; lia).
    destruct (Hpay n tail eq_refl) as [-> ->]. by destruct f.
  - cbn [Z.eqb Pos.eqb]. rewrite length_app, Endian.length_be_bytes, (proj2 (Z.ltb_ge _ 2)) by lia.
    rewrite ztake_app, zdrop_app by (rewrite Endian.length_be_bytes; lia).
    rewrite be_bytes_value by (cbn; lia).
    rewrite length_app, (proj2 (Z.ltb_ge _ n)) by (unfold n; lia).
    destruct (Hpay n tail eq_refl) as [-> ->]. by destruct f.
  - cbn [Z.eqb Pos.eqb]. rewrite length_app, Endian.length_be_bytes, (proj2 (Z.ltb_ge _ 8)) by lia.
    rewrite ztake_app, zdrop_app by (rewrite Endian.length_be_bytes; lia).
    rewrite be_bytes_value by (cbn; lia).
    rewrite length_app, (proj2 (Z.ltb_ge _ n)) by (unfold n; lia).
    destruct (Hpay n tail eq_refl) as [-> ->]. by destruct f.
Qed.

Lemma decode_swire fs fuel :
  Forall (λ f, zlen (sf_payload f) < 2 ^ 64) fs → (length fs ≤ fuel)%nat →
  decode_frames fuel (swire fs) = Some fs.
Proof.
  intros Hfs. revert fuel. induction Hfs as [|f fs Hf _ IH]; intros fuel Hl; [by destruct fuel|].
  destruct fuel as [|fuel]; [cbn in Hl; lia|].
  change (swire (f :: fs)) with (sencode f ++ swire fs).
  destruct (sencode f ++ swire fs) as [|x l] eqn:E.
  { apply (f_equal length) in E. unfold sencode in E. rewrite !length_app in E. cbn in E. lia. }
  cbn [decode_frames]. rewrite <- E, decode_sencode by done. cbn. rewrite IH by (cbn in Hl; lia). done.
Qed.

Lemma length_swire fs : (length fs ≤ length (swire fs))%nat.
Proof.
  induction fs as [|f fs IH]; [done|]. change (swire (f :: fs)) with (sencode f ++ swire fs).
  unfold sencode at 1. rewrite !length_app. cbn. lia.
Qed.

Lemma client_reads_swire fs :
  Forall (λ f, zlen (sf_payload f) < 2 ^ 64) fs → client_reads (swire fs) = reassemble fs.
Proof.
  intros Hfs. unfold client_reads. rewrite decode_swire by (done || apply length_swire). done.
Qed.

(** ** What the packers write *)

(** The fragments of a message after the first one, [c] bytes each. *)
Fixpoint rest_fragments (fuel : nat) (c : Z) (l : bytes) : list sframe :=
  match fuel with
  | O => []
  | S fuel =>
      if c <? zlen l
      then mkSframe FrameContinue SegmentMessage (ztake c l) :: rest_fragments fuel c (zdrop c l)
      else [mkSframe FrameFinished SegmentMessage l]
  end.

(** The frames of a message of type [t], in fragments when [chunk] is asked for
    and it is long enough. *)
Definition fragments (t : OpcodeE) (chunk : bool) (l : bytes) : list sframe :=
  if chunk && (chunksz <? zlen l) then
    mkSframe FrameContinue t (ztake chunksz l) ::
      rest_fragments (length l) chunksz (zdrop chunksz l)
  else [mkSframe FrameFinished t l].

Lemma reassemble_rest_fragments fuel c l :
  0 < c → 0 < zlen l ≤ Z.of_nat fuel → reassemble_rest (rest_fragments fuel c l) = Some l.
Proof.
  intros Hc. revert l. induction fuel as [|fuel IH]; intros l Hl; [lia|]. cbn [rest_fragments].
  destruct (Z.ltb_spec c (zlen l)); [|done]. cbn [reassemble_rest sf_op sf_fin sf_payload].
  rewrite IH by (rewrite length_zdrop; lia). cbn. by rewrite ztake_zdrop.
Qed.

Lemma reassemble_fragments t chunk l :
  is_head_op t = true → reassemble (fragments t chunk l) = Some (t, l).
Proof.
  intros Ht. unfold fragments, chunksz. destruct chunk; cbn [andb]; [|cbn; by rewrite Ht].
  destruct (Z.ltb_spec 1024 (zlen l)); cbn; rewrite Ht; [|done].
  rewrite reassemble_rest_fragments by (rewrite ?length_zdrop; lia). cbn. by rewrite ztake_zdrop.
Qed.

Lemma rest_fragments_short fuel c l :
  0 < c → Forall (λ f, zlen (sf_payload f) ≤ c) (rest_fragments fuel c l).
Proof.
  intros Hc. revert l. induction fuel as [|fuel IH]; intros l; cbn; [done|].
  destruct (Z.ltb_spec c (zlen l)); (constructor; [cbn|]); try done.
  rewrite length_ztake; lia.
Qed.

Section pack_correct.
Context {B : Type} `{!IBytesBuffer B} `{!BytesBufferLaws B}.
Context (debug : bool).

Lemma pack_data_runs buf l x :
  buf_inv buf → Forall_byte l → zlen l ≤ room buf →
  runs (pack_data buf (Some (l ++ x)) (zlen l)) (λ b, buf_is b (view buf ++ l) (room buf - zlen l)).
Proof.
  intros Hb Hl Hr. unfold pack_data, ptr_read.
  destruct (Z.ltb_spec 0 (zlen l)).
  - rewrite in_bounds_true by (rewrite length_app, andb_true_iff, !Z.leb_le; lia). orun.
    rewrite ztake_app by done. destruct (append_view buf l) as (b & -> & Hb'); [done..|].
    by apply runs_ret.
  - destruct l; [|cbn in *; lia]. apply runs_ret. rewrite app_nil_r. split; [done..|cbn; lia].
Qed.

(** Header, extended length and data are appended in turn. *)
Lemma append_runs buf l r :
  Forall_byte l → zlen l ≤ r → ∀ v, buf_is buf v r →
  runs (b_append buf l) (λ b, buf_is b (v ++ l) (r - zlen l)).
Proof.
  intros Hl Hr v [Hb Hv Hrm]. destruct (append_view buf l) as (b & -> & [Hb' Hv' Hr']);
    [done..|lia|]. apply runs_ret. split; [done|by rewrite Hv', Hv|lia].
Qed.

Lemma length_sencode f : zlen (sencode f) =
  2 + zlen (len_ext (zlen (sf_payload f))) + zlen (sf_payload f).
Proof. unfold sencode. rewrite !length_app. cbn [header_to_bytes length]. lia. Qed.

Lemma hostToNetwork16_bytes n : 0 ≤ n < 2 ^ 16 → le_split 2 (Endian.hostToNetwork16 n) = Endian.be_bytes 2 n.
Proof.
  intros Hn. unfold Endian.hostToNetwork16. rewrite Endian.le_split_bswap, u16_small by done. done.
Qed.

Lemma header_to_bytes_bytes h : header_wf h → Forall_byte (header_to_bytes h).
Proof.
  intros Hwf. destruct (header_of_to_bytes h Hwf) as (b0 & b1 & -> & ? & ? & _).
  constructor; [done|]. by constructor.
Qed.

Lemma uncontrol_header_runs buf f v r k :
  is_head_op (sf_op f) || bool_decide (sf_op f = SegmentMessage) = true →
  buf_is buf v r → 2 ≤ r → k = len7 (zlen (sf_payload f)) →
  runs (pack_unmask_uncontrol_frame_header buf (sf_op f) (sf_fin f) k) (λ p,
    fst p = shdr f ∧ buf_is (snd p) (v ++ header_to_bytes (shdr f)) (r - 2)).
Proof.
  intros Hop Hb Hr ->. unfold pack_unmask_uncontrol_frame_header, validate_uncontrol_frame_header.
  pose proof (shdr_wf f) as Hwf. fold (shdr f).
  rewrite (assert_true (_ <=? 127)) by (apply Z.leb_le; pose proof (hw_Payloadlen _ Hwf) as Hp; cbn in Hp; lia).
  rewrite assert_true by (cbn; by destruct (sf_op f)). orun.
  eapply runs_bind; [apply (append_runs _ _ r); [by apply header_to_bytes_bytes|cbn; lia|done]|].
  intros b Hb'. by apply runs_ret.
Qed.

Lemma control_header_runs buf f v r k :
  is_control_op (sf_op f) = true → sf_fin f = FrameFinished → zlen (sf_payload f) ≤ 65535 →
  buf_is buf v r → 2 ≤ r → k = len7 (zlen (sf_payload f)) →
  runs (pack_unmask_control_frame_header buf (sf_op f) (sf_fin f) k) (λ p,
    fst p = shdr f ∧ buf_is (snd p) (v ++ header_to_bytes (shdr f)) (r - 2)).
Proof.
  intros Hop Hfin Hlen Hb Hr ->.
  unfold pack_unmask_control_frame_header, validate_control_frame_header.
  pose proof (shdr_wf f) as Hwf. fold (shdr f).
  assert (len7 (zlen (sf_payload f)) ≤ 126) as H7 by (unfold len7; repeat case_match; lia).
  rewrite (assert_true (_ <=? 127)) by (apply Z.leb_le; lia).
  rewrite (assert_true (_ <=? 126)) by (by apply Z.leb_le).
  rewrite (assert_true (_ =? _)) by (cbn; by rewrite Hfin).
  rewrite assert_true by (cbn; by destruct (sf_op f)). orun.
  eapply runs_bind; [apply (append_runs _ _ r); [by apply header_to_bytes_bytes|cbn; lia|done]|].
  intros b Hb'. by apply runs_ret.
Qed.

(** What follows the header, for a length of at most 65535. *)
Lemma body_runs buf f x v r len7' lenU16 lenI64 (no64 : outcome B) :
  zlen (sf_payload f) ≤ 65535 → Forall_byte (sf_payload f) →
  payload_lengths (zlen (sf_payload f)) = (len7', lenU16, lenI64) →
  buf_is buf v r → zlen (len_ext (zlen (sf_payload f)) ++ sf_payload f) ≤ r →
  runs (buf ← (if len7' =? 126 then b_append buf (le_split 2 lenU16)
               else if len7' =? 127 then no64 else Ret buf);
        buf ← pack_key buf (shdr f);
        buf ← pack_data buf (Some (sf_payload f ++ x)) (zlen (sf_payload f));
        Ret (shdr f, buf)) (λ p,
    fst p = shdr f ∧
    buf_is (snd p) (v ++ len_ext (zlen (sf_payload f)) ++ sf_payload f)
      (r - zlen (len_ext (zlen (sf_payload f)) ++ sf_payload f))).
Proof.
  intros Hn Hby Hpl Hb Hr. rewrite length_app in Hr. set (n := zlen (sf_payload f)) in *.
  eapply (runs_bind _ _ (λ b, buf_is b (v ++ len_ext n) (r - zlen (len_ext n)))).
  - unfold payload_lengths, len_ext in *. destruct (Z.ltb_spec n 126).
    + injection Hpl as <- <- <-.
      rewrite (proj2 (Z.eqb_neq n 126)), (proj2 (Z.eqb_neq n 127)) by lia.
      apply runs_ret. rewrite app_nil_r. eapply buf_is_weaken; [|done]. cbn. lia.
    + rewrite (proj2 (Z.leb_le n 65535)) in Hpl by done. injection Hpl as <- <- <-.
      cbn [Z.eqb Pos.eqb]. rewrite (proj2 (Z.ltb_lt n (2 ^ 16))) in * by lia.
      rewrite hostToNetwork16_bytes by lia.
      apply append_runs; [apply Endian.be_bytes_bytes|lia|done].
  - intros b [Hb1 Hv1 Hr1]. unfold pack_key. cbn [shdr MASK Z.eqb]. orun.
    eapply runs_bind; [apply pack_data_runs; [done..|unfold n in *; lia]|].
    intros b2 [Hb2 Hv2 Hr2]. apply runs_ret. split; [done|]. split; [done| |].
    + cbn. by rewrite Hv2, Hv1, app_assoc.
    + cbn. rewrite length_app. unfold n in *. lia.
Qed.

(** A data frame of at most 65535 bytes. *)
Lemma pack_uncontrol_runs buf f x v r :
  zlen (sf_payload f) ≤ 65535 → Forall_byte (sf_payload f) →
  is_head_op (sf_op f) || bool_decide (sf_op f = SegmentMessage) = true →
  buf_is buf v r → zlen (sencode f) ≤ r →
  runs (pack_unmask_uncontrol_frame buf (Some (sf_payload f ++ x)) (zlen (sf_payload f))
          (sf_op f) (sf_fin f)) (λ p,
    fst p = shdr f ∧ buf_is (snd p) (v ++ sencode f) (r - zlen (sencode f))).
Proof.
  intros Hn Hby Hop Hb Hr. rewrite length_sencode in *. unfold pack_unmask_uncontrol_frame.
  destruct (payload_lengths (zlen (sf_payload f))) as [[k u] i] eqn:Hpl.
  assert (k = len7 (zlen (sf_payload f))) as Hk.
  { unfold payload_lengths, len7 in *. repeat case_match; simplify_eq; lia || done. }
  eapply runs_bind; [by apply (uncontrol_header_runs _ f v r); [| |lia|]|].
  intros [h b] [Hh Hb1]. cbn [fst snd] in *. subst h.
  eapply runs_mono; [by eapply body_runs; try done; rewrite length_app; lia|].
  intros [h b2] [Hh Hb2]. split; [done|]. unfold sencode. rewrite app_assoc.
  eapply buf_is_weaken; [|exact Hb2]. rewrite length_app. lia.
Qed.

(** The first [n] bytes of the data as a frame. *)
Lemma pack_piece_runs buf op fin l n v r :
  let f := mkSframe fin op (ztake n l) in
  0 ≤ n ≤ zlen l → n ≤ 65535 → Forall_byte l →
  is_head_op op || bool_decide (op = SegmentMessage) = true →
  buf_is buf v r → zlen (sencode f) ≤ r →
  runs (pack_unmask_uncontrol_frame buf (Some l) n op fin) (λ p,
    fst p = shdr f ∧ buf_is (snd p) (v ++ sencode f) (r - zlen (sencode f))).
Proof.
  intros f Hn Hmax Hby Hop Hb Hr.
  assert (zlen (ztake n l) = n) as Hl by (by apply length_ztake).
  pose proof (pack_uncontrol_runs buf f (zdrop n l) v r) as Hp. cbn [f sf_payload sf_op sf_fin] in Hp.
  rewrite ztake_zdrop, Hl in Hp. apply Hp; auto with ws.
Qed.

Lemma pack_control_runs buf f x v r :
  zlen (sf_payload f) ≤ 65535 → Forall_byte (sf_payload f) →
  is_control_op (sf_op f) = true → sf_fin f = FrameFinished →
  buf_is buf v r → zlen (sencode f) ≤ r →
  runs (pack_unmask_control_frame buf (Some (sf_payload f ++ x)) (zlen (sf_payload f))
          (sf_op f) (sf_fin f)) (λ p,
    fst p = shdr f ∧ buf_is (snd p) (v ++ sencode f) (r - zlen (sencode f))).
Proof.
  intros Hn Hby Hop Hfin Hb Hr. rewrite length_sencode in *. unfold pack_unmask_control_frame.
  destruct (payload_lengths (zlen (sf_payload f))) as [[k u] i] eqn:Hpl.
  assert (k = len7 (zlen (sf_payload f))) as Hk.
  { unfold payload_lengths, len7 in *. repeat case_match; simplify_eq; lia || done. }
  eapply runs_bind; [by apply (control_header_runs _ f v r); [| | | |lia|]|].
  intros [h b] [Hh Hb1]. cbn [fst snd] in *. subst h.
  eapply runs_mono; [by eapply body_runs; try done; rewrite length_app; lia|].
  intros [h b2] [Hh Hb2]. split; [done|]. unfold sencode. rewrite app_assoc.
  eapply buf_is_weaken; [|exact Hb2]. rewrite length_app. lia.
Qed.

Lemma trace_header_runs f :
  is_head_op (sf_op f) || bool_decide (sf_op f = SegmentMessage)
    || (is_control_op (sf_op f) && bool_decide (sf_fin f = FrameFinished)) = true →
  trace_header debug (shdr f) = Ret tt.
Proof.
  intros Hop. unfold trace_header. destruct debug; [|done].
  unfold get_frame_control_message_type. cbn. rewrite opcode_of_val, fin_of_val.
  by destruct (sf_op f), (sf_fin f).
Qed.

Lemma swire_cons f fs : swire (f :: fs) = sencode f ++ swire fs.
Proof. done. Qed.

(** [l] is the part of the data that has not been sent. *)
Lemma pack_chunk_loop_runs fuel buf pre l v r c :
  0 < c ≤ 65535 → 0 < zlen l ≤ Z.of_nat fuel → Forall_byte l →
  buf_is buf v r → zlen (swire (rest_fragments fuel c l)) ≤ r →
  runs (pack_chunk_loop debug fuel buf (Some (pre ++ l)) (zlen pre) (zlen l) c) (λ b,
    buf_is b (v ++ swire (rest_fragments fuel c l))
      (r - zlen (swire (rest_fragments fuel c l)))).
Proof.
  intros Hc. revert buf pre l v r.
  induction fuel as [|fuel IH]; intros buf pre l v r Hl Hby Hb Hr; [lia|].
  cbn [pack_chunk_loop rest_fragments] in *. rewrite (proj2 (Z.ltb_lt 0 _)) by lia.
  cbn [ptr_add]. rewrite zdrop_app by done.
  destruct (Z.ltb_spec c (zlen l)) as [Hlt|Hge]; rewrite swire_cons in *; rewrite length_app in *.
  - assert (zlen (ztake c l) = c) as Hcl by (apply length_ztake; lia).
    set (f := mkSframe FrameContinue SegmentMessage (ztake c l)) in *.
    eapply runs_bind; [apply (pack_piece_runs buf SegmentMessage FrameContinue l c v r);
      done || fold f; lia|].
    intros [h b] [Hh Hb']. cbn [fst snd] in *. fold f in Hh, Hb'. subst h.
    rewrite (trace_header_runs f) by done. orun.
    replace (zlen pre + c) with (zlen (pre ++ ztake c l)) by (rewrite length_app; lia).
    replace (pre ++ l) with ((pre ++ ztake c l) ++ zdrop c l)
      by (by rewrite <- app_assoc, ztake_zdrop).
    replace (zlen l - c) with (zlen (zdrop c l)) by (rewrite length_zdrop; lia).
    eapply runs_mono.
    { eapply (IH b (pre ++ ztake c l) (zdrop c l)); [rewrite length_zdrop; lia|auto with ws|done|lia]. }
    intros b2 Hb2. rewrite app_assoc. eapply buf_is_weaken; [|exact Hb2]. lia.
  - set (f := mkSframe FrameFinished SegmentMessage l) in *. change (swire []) with (@nil Z) in *.
    cbn [length] in *.
    eapply runs_bind; [apply (pack_piece_runs buf SegmentMessage FrameFinished l (zlen l) v r);
      rewrite ?(ztake_all (zlen l)) by done; done || fold f; lia|].
    rewrite ztake_all by done. intros [h b] [Hh Hb']. cbn [fst snd] in *. fold f in Hh, Hb'. subst h.
    rewrite (trace_header_runs f) by done. orun. apply runs_ret.
    rewrite app_nil_r. eapply buf_is_weaken; [|done]. lia.
Qed.

Lemma pack_unmask_data_frame_runs buf data isText chunk :
  let t := if isText : bool then TextMessage else BinaryMessage in
  buf_inv buf → Forall_byte data → chunk = true ∨ zlen data ≤ 65535 →
  zlen (swire (fragments t chunk data)) ≤ room buf →
  runs (pack_unmask_data_frame debug buf (Some data) (zlen data) isText chunk) (λ b,
    buf_is b (view buf ++ swire (fragments t chunk data))
      (room buf - zlen (swire (fragments t chunk data)))).
Proof.
  intros t Hb Hby Hlen Hr. unfold pack_unmask_data_frame, fragments in *. fold t.
  assert (is_head_op t = true) as Ht by (by destruct isText).
  assert (buf_is buf (view buf) (room buf)) as Hbuf by done.
  destruct (chunk && (chunksz <? zlen data)) eqn:Hc.
  - rewrite andb_true_iff, Z.ltb_lt in Hc. destruct Hc as [_ Hc]. unfold chunksz in *.
    unfold pack_unmask_data_frame_chunk. cbn [ptr_add]. change (zdrop 0 data) with data.
    rewrite (assert_true (_ <? _)) by (by apply Z.ltb_lt). orun.
    rewrite (assert_true (_ || _)) by (unfold t; by destruct isText). orun.
    rewrite swire_cons in *. rewrite length_app in *.
    set (f := mkSframe FrameContinue t (ztake 1024 data)) in *.
    assert (zlen (ztake 1024 data) = 1024) as Hcl by (apply length_ztake; lia).
    eapply runs_bind; [apply (pack_piece_runs buf t FrameContinue data 1024 (view buf) (room buf));
      rewrite ?Ht; done || fold f; lia|].
    intros [h b] [Hh Hb']. cbn [fst snd] in *. fold f in Hh, Hb'. subst h.
    rewrite (trace_header_runs f) by (cbn; by rewrite Ht). orun.
    replace (zlen data - 1024) with (zlen (zdrop 1024 data)) by (rewrite length_zdrop; lia).
    rewrite Nat2Z.id. eapply runs_mono.
    { pose proof (pack_chunk_loop_runs (length data) b (ztake 1024 data) (zdrop 1024 data)) as Hp.
      rewrite ztake_zdrop, Hcl in Hp. apply Hp; [lia|rewrite length_zdrop; lia|auto with ws|done|lia]. }
    intros b2 Hb2. rewrite app_assoc. eapply buf_is_weaken; [|exact Hb2]. lia.
  - set (f := mkSframe FrameFinished t data) in *. rewrite swire_cons in *.
    change (swire []) with (@nil Z) in *. rewrite app_nil_r in *.
    assert (zlen data ≤ 65535) as Hs.
    { destruct Hlen as [->|]; [|done]. cbn in Hc. apply Z.ltb_ge in Hc. unfold chunksz in Hc. lia. }
    eapply runs_bind; [apply (pack_piece_runs buf t FrameFinished data (zlen data) (view buf)
      (room buf)); rewrite ?(ztake_all (zlen data)), ?Ht by done; done || fold f; lia|].
    rewrite ztake_all by done. intros [h b] [Hh Hb']. cbn [fst snd] in *. fold f in Hh, Hb'. subst h.
    rewrite (trace_header_runs f) by (cbn; by rewrite Ht). orun. by apply runs_ret.
Qed.
End pack_correct.

Lemma fragments_payload t chunk l :
  zlen l < 2 ^ 63 → Forall (λ f, zlen (sf_payload f) < 2 ^ 64) (fragments t chunk l).
Proof.
  intros Hl. unfold fragments, chunksz. destruct (chunk && _) eqn:Hc.
  - rewrite andb_true_iff, Z.ltb_lt in Hc.
    constructor; [cbn [sf_payload]; rewrite length_ztake; lia|].
    eapply Forall_impl; [by apply (rest_fragments_short _ 1024)|]. cbn. lia.
  - constructor; [cbn [sf_payload]; lia|by constructor].
Qed.

(** C6: Sending then reading: for every text or binary message of up to 65535 bytes,
    and for every message when fragmentation is asked for,
    [pack_unmask_data_frame] appends to the buffer a sequence of frames from
    which an RFC 6455 client recovers exactly that message and its type. *)
Theorem pack_data_roundtrip {B} `{!IBytesBuffer B, !BytesBufferLaws B}
    debug (buf : B) data isText chunk :
  let t := if isText : bool then TextMessage else BinaryMessage in
  buf_inv buf → Forall_byte data → zlen data < 2 ^ 63 →
  chunk = true ∨ zlen data ≤ 65535 →
  zlen (swire (fragments t chunk data)) ≤ room buf →
  ∃ buf' out, pack_unmask_data_frame debug buf (Some data) (zlen data) isText chunk = Ret buf' ∧
    view buf' = view buf ++ out ∧ client_reads out = Some (t, data).
Proof.
  intros t Hb Hby Hl Hc Hr.
  destruct (pack_unmask_data_frame_runs debug buf data isText chunk) as (buf' & -> & [_ Hv _]);
    [done..|].
  exists buf', (swire (fragments t chunk data)). split_and!; [done..|].
  rewrite client_reads_swire by (by apply fragments_payload).
  apply reassemble_fragments. by destruct isText.
Qed.

(** ** Frames of more than 65535 bytes *)

(** The conversion to [int16_t] keeps the two high bytes of the length. *)
Lemma long_length_zero n : 0 ≤ n < 2 ^ 48 → s16 (Endian.hostToNetwork64 n) = 0.
Proof.
  intros Hn. unfold Endian.hostToNetwork64, Endian.bswap. rewrite u64_small by lia.
  assert (∀ k z, 0 ≤ z < 2 ^ (8 * Z.of_nat k) → le_split (k + 2) z = le_split k z ++ [0; 0]) as Hsp.
  { intros k. induction k as [|k IH]; intros z Hz.
    - replace z with 0 by (cbn in Hz; lia). done.
    - cbn [Nat.add le_split app]. f_equal. apply IH.
      replace (8 * Z.of_nat (S k)) with (8 + 8 * Z.of_nat k) in Hz by lia.
      rewrite Z.pow_add_r in Hz by lia. dlia. }
  change (le_split 8 n) with (le_split (6 + 2) n). rewrite (Hsp 6%nat n) by done.
  rewrite rev_app_distr. cbn [rev app le_combine]. unfold s16, sint.
  set (x := le_combine _). replace (0 + 256 * (0 + 256 * x) + 2 ^ (16 - 1)) with (2 ^ 15 + x * 2 ^ 16) by lia.
  rewrite Z_mod_plus_full. done.
Qed.

(** C40: The frame written for a message that is too long for a 16-bit length, and
    not to be fragmented, announces a length of 0: a client reads an empty
    message and takes the payload for further frames. *)
Theorem long_frame_length_lost {B} `{!IBytesBuffer B, !BytesBufferLaws B}
    debug (buf : B) data isText :
  let t := if isText : bool then TextMessage else BinaryMessage in
  buf_inv buf → Forall_byte data → 65536 ≤ zlen data < 2 ^ 48 →
  zlen data + 10 ≤ room buf →
  ∃ buf' out, pack_unmask_data_frame debug buf (Some data) (zlen data) isText false = Ret buf' ∧
    view buf' = view buf ++ out ∧
    decode_frame out = Some (mkSframe FrameFinished t [], data).
Proof.
  intros t Hb Hby Hl Hr. unfold pack_unmask_data_frame. cbn [andb]. fold t.
  unfold pack_unmask_uncontrol_frame, payload_lengths.
  rewrite (proj2 (Z.ltb_ge _ 126)), (proj2 (Z.leb_gt _ 65535)), long_length_zero by lia.
  set (h := mkHeader (OpcodeE_val t) 0 0 0 1 127 0).
  assert (header_wf h) as Hwf by (split; cbn; try lia; by destruct isText).
  unfold pack_unmask_uncontrol_frame_header, validate_uncontrol_frame_header. orun.
  cbn [FinE_val]. fold h. rewrite (assert_true (_ && _)) by (unfold h, t; by destruct isText). orun.
  destruct (append_runs buf (header_to_bytes h) (room buf)) with (v := view buf)
    as (b1 & -> & Hb1); [by apply header_to_bytes_bytes|cbn; lia|done|]. orun.
  cbn [Z.eqb Pos.eqb]. change (le_split 8 0) with (replicate 8 0).
  destruct (append_runs b1 (replicate 8 0) (room buf - zlen (header_to_bytes h)))
    with (v := view buf ++ header_to_bytes h) as (b2 & -> & Hb2); [|cbn; lia|done|].
  { apply (bool_decide_unpack _). by vm_compute. }
  orun. unfold pack_key. cbn [h MASK Z.eqb]. orun. fold h.
  destruct Hb2 as [Hb2 Hv2 Hr2]. pose proof (pack_data_runs b2 data []) as Hp.
  rewrite app_nil_r in Hp. destruct Hp as (b3 & -> & [Hb3 Hv3 _]);
    [done..|cbn in Hr2; lia|]. orun.
  assert (trace_header debug h = Ret tt) as ->.
  { unfold trace_header. destruct debug; [|done]. unfold h, t. by destruct isText. }
  orun. exists b3, (header_to_bytes h ++ replicate 8 0 ++ data).
  split_and!; [done|by rewrite Hv3, Hv2, <- !app_assoc|].
  destruct (header_of_to_bytes h Hwf) as (b0 & c & -> & _ & _ & Hh).
  cbn [app]. unfold decode_frame. rewrite Hh. cbn [h MASK Payloadlen Z.eqb Pos.eqb FIN opcode].
  rewrite opcode_of_val, (proj2 (Z.ltb_ge _ 8)) by (rewrite length_app; cbn; lia). cbn -[Z.of_nat].
  rewrite (proj2 (Z.ltb_ge _ 0)) by lia. done.
Qed.

(** ** Control frames *)

(** A close, ping or pong frame is written with its data as one final frame that
    a client reads back, up to 65535 bytes of data (the RFC's limit of 125 is not
    enforced); for more the process stops at an assertion. *)
Theorem pack_control_behaviour {B} `{!IBytesBuffer B, !BytesBufferLaws B}
    debug op (buf : B) data :
  let f := mkSframe FrameFinished op data in
  is_control_op op = true → buf_inv buf → Forall_byte data → zlen data < 2 ^ 63 →
  zlen (sencode f) ≤ room buf →
  if zlen data <=? 65535 then
    ∃ buf' out, pack_control debug op buf (Some data) (zlen data) = Ret buf' ∧
      view buf' = view buf ++ out ∧ decode_frame out = Some (f, [])
  else pack_control debug op buf (Some data) (zlen data) = Abort AssertFailed.
Proof.
  intros f Hop Hb Hby Hl Hr. unfold pack_control. destruct (Z.leb_spec (zlen data) 65535).
  - pose proof (pack_control_runs buf f [] (view buf) (room buf)) as Hp.
    cbn [f sf_payload sf_op sf_fin] in Hp. rewrite app_nil_r in Hp.
    destruct Hp as ([h b] & -> & Hh & [_ Hv _]); [done..|]. cbn in Hh, Hv. orun.
    rewrite Hh. fold f. rewrite (trace_header_runs debug f) by (cbn; rewrite Hop; apply orb_true_r).
    orun. exists b, (sencode f). split_and!; [done..|].
    rewrite <- (app_nil_r (sencode f)). apply decode_sencode. cbn. lia.
  - unfold pack_unmask_control_frame, payload_lengths.
    rewrite (proj2 (Z.ltb_ge _ 126)), (proj2 (Z.leb_gt _ 65535)) by lia.
    unfold pack_unmask_control_frame_header, validate_control_frame_header. orun. done.
Qed.

(** ** Witnesses *)

Lemma pack_data_roundtrip_witness :
  ∃ buf' out, pack_unmask_data_frame true Sample.empty_buffer (Some (replicate 3000 7)) 3000 true true
      = Ret buf' ∧
    view buf' = view Sample.empty_buffer ++ out ∧
    client_reads out = Some (TextMessage, replicate 3000 7).
Proof.
  apply (pack_data_roundtrip true Sample.empty_buffer (replicate 3000 7) true true).
  - apply Sample.empty_buffer_wf.
  - apply (bool_decide_unpack _). by vm_compute.
  - by vm_compute.
  - by left.
  - by vm_compute.
Defined.

Lemma long_frame_length_lost_witness :
  ∃ buf' out, pack_unmask_data_frame true Sample.empty_buffer (Some (replicate (Z.to_nat 65536) 7))
      (zlen (replicate (Z.to_nat 65536) 7)) true false = Ret buf' ∧
    view buf' = view Sample.empty_buffer ++ out ∧
    decode_frame out = Some (mkSframe FrameFinished TextMessage [], replicate (Z.to_nat 65536) 7).
Proof.
  apply (long_frame_length_lost true Sample.empty_buffer (replicate (Z.to_nat 65536) 7) true).
  - apply Sample.empty_buffer_wf.
  - by apply Forall_replicate.
  - rewrite length_replicate. lia.
  - rewrite length_replicate. apply (bool_decide_unpack _). by vm_compute.
Defined.

Lemma pack_control_behaviour_witness :
  ∃ buf' out, pack_control true PingMessage Sample.empty_buffer (Some (replicate 126 1)) 126 = Ret buf' ∧
    view buf' = view Sample.empty_buffer ++ out ∧
    decode_frame out = Some (mkSframe FrameFinished PingMessage (replicate 126 1), []).
Proof.
  apply (pack_control_behaviour true PingMessage Sample.empty_buffer (replicate 126 1)).
  - done.
  - apply Sample.empty_buffer_wf.
  - apply (bool_decide_unpack _). by vm_compute.
  - by vm_compute.
  - by vm_compute.
Defined.
