(* ===== verification/Http.v ===== *)
(** * Http: the incremental HTTP request parser
    (src/muduo-vip/muduo/net/http/HttpContext.{h,cc}, HttpRequest.h,
    src/libwebsocket/IHttpContext.h)

    [HttpContext] reads a request line by line from a buffer; the handshake of a
    WebSocket connection uses it through the interface [IHttpContext].  Strings
    are byte sequences, the header [std::map] is a finite map. *)

From S2P Require Import Prelude BytesBuffer Buffer.

(** ** The interface the protocol code uses (IHttpContext.h) *)

Class IHttpContext (H B : Type) : Type := {
  h_parseRequestPtr : H → B → Z → outcome (bool * H * B);
  h_gotAll : H → bool;
  h_getHeader : H → bytes → bytes;
}.

Module Http.
(** ** HttpRequest *)

Inductive Method : Type := kInvalid | kGet | kPost | kHead | kPut | kDelete.
#[export] Instance Method_eq_dec : EqDecision Method.
Proof. solve_decision. Defined.

Inductive Version : Type := kUnknown | kHttp10 | kHttp11.
#[export] Instance Version_eq_dec : EqDecision Version.
Proof. solve_decision. Defined.

Record HttpRequest : Type := mkRequest {
  method_ : Method;
  version_ : Version;
  path_ : bytes;
  query_ : bytes;
  receiveTime_ : Z;
  headers_ : gmap bytes bytes;
}.

(** A default [Timestamp] is 0. *)
Definition HttpRequest_ctor : HttpRequest := mkRequest kInvalid kUnknown [] [] 0 ∅.

Definition setVersion (r : HttpRequest) (v : Version) : HttpRequest :=
  mkRequest (method_ r) v (path_ r) (query_ r) (receiveTime_ r) (headers_ r).
Definition setPath (r : HttpRequest) (p : bytes) : HttpRequest :=
  mkRequest (method_ r) (version_ r) p (query_ r) (receiveTime_ r) (headers_ r).
Definition setQuery (r : HttpRequest) (q : bytes) : HttpRequest :=
  mkRequest (method_ r) (version_ r) (path_ r) q (receiveTime_ r) (headers_ r).
Definition setReceiveTime (r : HttpRequest) (t : Z) : HttpRequest :=
  mkRequest (method_ r) (version_ r) (path_ r) (query_ r) t (headers_ r).

Definition method_of (m : bytes) : Method :=
  if bool_decide (m = str "GET") then kGet
  else if bool_decide (m = str "POST") then kPost
  else if bool_decide (m = str "HEAD") then kHead
  else if bool_decide (m = str "PUT") then kPut
  else if bool_decide (m = str "DELETE") then kDelete
  else kInvalid.

Definition setMethod (r : HttpRequest) (m : bytes) : outcome (bool * HttpRequest) :=
  assert (bool_decide (method_ r = kInvalid)) ;;
  let meth := method_of m in
  Ret (negb (bool_decide (meth = kInvalid)),
       mkRequest meth (version_ r) (path_ r) (query_ r) (receiveTime_ r) (headers_ r)).

Definition methodString (m : Method) : bytes :=
  match m with
  | kGet => str "GET" | kPost => str "POST" | kHead => str "HEAD"
  | kPut => str "PUT" | kDelete => str "DELETE" | kInvalid => str "UNKNOWN"
  end.

(** [isspace] in the C locale. *)
Definition isspace (c : Z) : bool := (c =? 32) || ((9 <=? c) && (c <=? 13)).

(** [while (colon < end && isspace( *colon)) ++colon]. *)
Fixpoint skip_space (l : bytes) : bytes :=
  match l with
  | c :: l' => if isspace c then skip_space l' else l
  | [] => []
  end.

(** [while (!value.empty() && isspace(value[value.size()-1])) resize]. *)
Definition trim_end (l : bytes) : bytes := rev (skip_space (rev l)).

(** [line] up to the end, [colon] the offset of its first colon. *)
Definition addHeader (r : HttpRequest) (line : bytes) (colon : Z) : HttpRequest :=
  let field := ztake colon line in
  let value := trim_end (skip_space (zdrop (colon + 1) line)) in
  mkRequest (method_ r) (version_ r) (path_ r) (query_ r) (receiveTime_ r)
    (<[field := value]> (headers_ r)).

Definition getHeader (r : HttpRequest) (field : bytes) : bytes :=
  default [] (headers_ r !! field).

(** ** HttpContext *)

Inductive ParseState : Type := kExpectRequestLine | kExpectHeaders | kExpectBody | kGotAll.
#[export] Instance ParseState_eq_dec : EqDecision ParseState.
Proof. solve_decision. Defined.

Record HttpContext : Type := mkHttpContext {
  state_ : ParseState;
  request_ : HttpRequest;
}.

Definition HttpContext_ctor : HttpContext := mkHttpContext kExpectRequestLine HttpRequest_ctor.

Definition gotAll (c : HttpContext) : bool := bool_decide (state_ c = kGotAll).

Definition reset (c : HttpContext) : HttpContext :=
  mkHttpContext kExpectRequestLine HttpRequest_ctor.

(** [line] is the request line without its CRLF. *)
Definition processRequestLine (r : HttpRequest) (line : bytes) : outcome (bool * HttpRequest) :=
  let space := find_char 32 line in
  if space =? zlen line then Ret (false, r)
  else
    '(ok, r) ← setMethod r (ztake space line);
    if negb ok then Ret (false, r)
    else
      let line := zdrop (space + 1) line in
      let space := find_char 32 line in
      if space =? zlen line then Ret (false, r)
      else
        let uri := ztake space line in
        let question := find_char 63 uri in
        let r := if negb (question =? zlen uri)
                 then setQuery (setPath r (ztake question uri)) (zdrop question uri)
                 else setPath r uri in
        let version := zdrop (space + 1) line in
        if (zlen version =? 8) && bool_decide (ztake 7 version = str "HTTP/1.") then
          if bool_decide (zdrop 7 version = str "1") then Ret (true, setVersion r kHttp11)
          else if bool_decide (zdrop 7 version = str "0") then Ret (true, setVersion r kHttp10)
          else Ret (false, r)
        else Ret (false, r).

Section parse.
Context {B : Type} `{!IBytesBuffer B} (receiveTime : Z).

(** [while (hasMore)]: every iteration that does not leave consumes a line;
    in the states [kExpectBody] and [kGotAll] it does nothing at all. *)
Fixpoint parseRequest_loop (fuel : nat) (c : HttpContext) (buf : B)
    : outcome (bool * HttpContext * B) :=
  match fuel with
  | O => Abort OutOfFuel
  | S fuel =>
      match state_ c with
      | kExpectRequestLine =>
          match b_findCRLF buf with
          | Some crlf =>
              line ← b_peekBytes buf crlf;
              '(ok, r) ← processRequestLine (request_ c) line;
              if ok : bool then
                let r := setReceiveTime r receiveTime in
                buf ← b_retrieveUntil buf (crlf + 2);
                parseRequest_loop fuel (mkHttpContext kExpectHeaders r) buf
              else Ret (false, mkHttpContext (state_ c) r, buf)
          | None => Ret (true, c, buf)
          end
      | kExpectHeaders =>
          match b_findCRLF buf with
          | Some crlf =>
              line ← b_peekBytes buf crlf;
              let colon := find_char 58 line in
              if negb (colon =? crlf) then
                let r := addHeader (request_ c) line colon in
                buf ← b_retrieveUntil buf (crlf + 2);
                parseRequest_loop fuel (mkHttpContext (state_ c) r) buf
              else
                buf ← b_retrieveUntil buf (crlf + 2);
                Ret (true, mkHttpContext kGotAll (request_ c), buf)
          | None => Ret (true, c, buf)
          end
      | kExpectBody | kGotAll => parseRequest_loop fuel c buf
      end
  end.

(** A line has at least two bytes: see [parseRequest_terminates]. *)
Definition parse_fuel (buf : B) : nat := Z.to_nat (b_readableBytes buf + 1).

Definition parseRequest (c : HttpContext) (buf : B) : outcome (bool * HttpContext * B) :=
  parseRequest_loop (parse_fuel buf) c buf.
End parse.

#[global] Instance HttpContext_IHttpContext {B} `{!IBytesBuffer B} : IHttpContext HttpContext B := {
  h_parseRequestPtr c buf t := parseRequest t c buf;
  h_gotAll := gotAll;
  h_getHeader c := getHeader (request_ c);
}.

(** ** Requests as text *)

(** What a client asks for. *)
Record request : Type := mkReq {
  rq_method : Method;
  rq_path : bytes;
  rq_query : bytes;
  rq_11 : bool;
  rq_headers : list (bytes * bytes);
}.

Definition crlf : bytes := [13; 10].

Definition request_line (q : request) : bytes :=
  methodString (rq_method q) ++ [32] ++ rq_path q ++ rq_query q ++ [32] ++
  str "HTTP/1." ++ (if rq_11 q then str "1" else str "0").

Definition header_line (h : bytes * bytes) : bytes := fst h ++ [58; 32] ++ snd h.

Definition render (q : request) : bytes :=
  request_line q ++ crlf ++ concat ((λ h, header_line h ++ crlf) <$> rq_headers q) ++ crlf.

Definition header_map (hs : list (bytes * bytes)) : gmap bytes bytes :=
  foldl (λ m h, <[fst h := snd h]> m) ∅ hs.

(** Field names without colon or CR; values without CR or surrounding
    blanks. *)
Record header_ok (h : bytes * bytes) : Prop := HeaderOk {
  ho_colon : 58 ∉ fst h;
  ho_cr : 13 ∉ fst h;
  ho_value_cr : 13 ∉ snd h;
  ho_value_start : skip_space (snd h) = snd h;
  ho_value_end : trim_end (snd h) = snd h;
}.

Record request_ok (q : request) : Prop := RequestOk {
  ro_method : rq_method q ≠ kInvalid;
  ro_path : 32 ∉ rq_path q ∧ 63 ∉ rq_path q ∧ 13 ∉ rq_path q;
  ro_query : rq_query q = [] ∨ ∃ s, rq_query q = 63 :: s ∧ 32 ∉ s ∧ 13 ∉ s;
  ro_headers : Forall header_ok (rq_headers q);
}.

(** The request the parser builds. *)
Definition parsed (q : request) (t : Z) : HttpRequest :=
  mkRequest (rq_method q) (if rq_11 q then kHttp11 else kHttp10) (rq_path q) (rq_query q) t
    (header_map (rq_headers q)).

Lemma methodString_no c m : c = 13 ∨ c = 32 → c ∉ methodString m.
Proof.
  intros Hc. apply (bool_decide_unpack (c ∉ methodString m)).
  by destruct Hc as [-> | ->], m; vm_compute.
Qed.

Lemma method_of_string m : m ≠ kInvalid → method_of (methodString m) = m.
Proof. by destruct m. Qed.

Lemma query_no q c : request_ok q → c = 13 ∨ c = 32 → c ∉ rq_query q.
Proof.
  intros Hq Hc. destruct (ro_query q Hq) as [-> |(s & -> & Hs & Hs')]; [apply not_elem_of_nil|].
  rewrite not_elem_of_cons. destruct Hc as [-> | ->]; done.
Qed.

Lemma processRequestLine_correct q t :
  request_ok q →
  ∃ r, processRequestLine HttpRequest_ctor (request_line q) = Ret (true, r) ∧
    setReceiveTime r t = mkRequest (rq_method q) (if rq_11 q then kHttp11 else kHttp10)
      (rq_path q) (rq_query q) t ∅.
Proof.
  intros Hq. destruct (ro_path q Hq) as (Hp32 & Hp63 & Hp13).
  set (ver := str "HTTP/1." ++ (if rq_11 q then str "1" else str "0")).
  assert (request_line q = methodString (rq_method q) ++ 32 :: (rq_path q ++ rq_query q) ++ 32 :: ver)
    as -> by (unfold request_line; rewrite <- !app_assoc; done).
  unfold processRequestLine. rewrite find_char_app by (apply methodString_no; auto).
  rewrite zlen_app_neqb, ztake_app by done. unfold setMethod. cbn [HttpRequest_ctor method_].
  rewrite assert_true by done. orun. rewrite method_of_string by apply Hq.
  rewrite bool_decide_false by apply Hq. cbn [negb].
  assert (∀ (l : bytes) x r, zdrop (zlen l + 1) (l ++ x :: r) = r) as Hdrop.
  { intros l x r. rewrite cons_middle, app_assoc. apply zdrop_app. rewrite length_app. cbn. lia. }
  rewrite !Hdrop. rewrite find_char_app
    by (rewrite not_elem_of_app; split; [done|by apply query_no; auto]).
  rewrite zlen_app_neqb, ztake_app, Hdrop by done.
  assert (∃ v, zlen ver = 8 ∧ ztake 7 ver = str "HTTP/1." ∧ zdrop 7 ver = v ∧
    v = if rq_11 q then str "1" else str "0") as (v & -> & -> & -> & ->)
    by (unfold ver; destruct (rq_11 q); eauto).
  rewrite (bool_decide_true (str "HTTP/1." = _)) by done. cbn [Z.eqb Pos.eqb andb].
  set (r := if negb _ then _ else _).
  assert (r = mkRequest (rq_method q) kUnknown (rq_path q) (rq_query q) 0 ∅) as ->.
  { unfold r. destruct (ro_query q Hq) as [-> |(s & -> & Hs & Hs')].
    - rewrite app_nil_r, find_char_none, Z.eqb_refl by done. done.
    - rewrite find_char_app, zlen_app_neqb by done.
      cbn [negb]. by rewrite ztake_app, zdrop_app. }
  destruct (rq_11 q); (eexists; split; [reflexivity|done]).
Qed.

Section parse_correct.
Context {B : Type} `{!IBytesBuffer B} `{!BytesBufferLaws B} (receiveTime : Z).

(** The line at the front of the buffer, and its removal. *)
Lemma line_read (buf : B) v r line rest :
  buf_is buf v r → v = line ++ 13 :: 10 :: rest → 13 ∉ line →
  b_findCRLF buf = Some (zlen line) ∧ b_peekBytes buf (zlen line) = Ret line ∧
  runs (b_retrieveUntil buf (zlen line + 2)) (λ b, buf_is b rest r).
Proof.
  intros [Hb <- Hr] Hv Hcr.
  assert (zlen (view buf) = zlen line + 2 + zlen rest) as Hl
    by (rewrite Hv, length_app; cbn [length]; lia).
  rewrite findCRLF_view, Hv by done. unfold kCRLF. rewrite search_line by done.
  rewrite peekBytes_view, Hv, ztake_app by (done || lia). split_and!; [done..|].
  destruct (retrieveUntil_view buf (zlen line + 2)) as (b & Hret & [Hb' Hv' Hr']); [done|lia|].
  exists b. split; [done|]. split; [done| |lia].
  rewrite Hv', Hv, (app_assoc line [13; 10] rest : line ++ 13 :: 10 :: rest = _).
  apply zdrop_app. rewrite length_app. cbn. lia.
Qed.

Lemma header_line_read r h :
  header_ok h →
  find_char 58 (header_line h) = zlen (fst h) ∧
  addHeader r (header_line h) (zlen (fst h)) =
    mkRequest (method_ r) (version_ r) (path_ r) (query_ r) (receiveTime_ r)
      (<[fst h := snd h]> (headers_ r)).
Proof.
  intros [Hc Hcr Hvcr Hvs Hve]. unfold header_line, addHeader. cbn [app].
  rewrite find_char_app, ztake_app by done. split; [done|].
  rewrite cons_middle, app_assoc, zdrop_app by (rewrite length_app; cbn; lia).
  cbn [skip_space isspace Z.eqb Pos.eqb orb]. by rewrite Hvs, Hve.
Qed.

Lemma header_line_cr h : header_ok h → 13 ∉ header_line h.
Proof.
  intros [_ H1 H2 _ _]. unfold header_line. rewrite !not_elem_of_app. split_and!; [done| |done].
  by apply (bool_decide_unpack (13 ∉ [58; 32])).
Qed.

Lemma parse_headers hs fuel (buf : B) r rm tail :
  Forall header_ok hs →
  buf_is buf (concat ((λ h, header_line h ++ crlf) <$> hs) ++ crlf ++ tail) rm →
  (length hs < fuel)%nat →
  runs (parseRequest_loop receiveTime fuel (mkHttpContext kExpectHeaders r) buf) (λ p,
    ∃ b, p = (true, mkHttpContext kGotAll
           (mkRequest (method_ r) (version_ r) (path_ r) (query_ r) (receiveTime_ r)
              (foldl (λ m h, <[fst h := snd h]> m) (headers_ r) hs)), b) ∧
         buf_is b tail rm).
Proof.
  intros Hhs. revert fuel buf r. induction Hhs as [|h hs Hh _ IH]; intros fuel buf r Hb Hf;
    (destruct fuel as [|fuel]; [cbn in Hf; lia|]); cbn [parseRequest_loop state_].
  - destruct (line_read buf _ _ [] tail Hb) as (-> & -> & Hret);
      [done|apply not_elem_of_nil|]. orun. cbn [length find_char Z.of_nat Z.eqb negb].
    eapply runs_bind; [exact Hret|]. intros b Hb'. apply runs_ret.
    exists b. split; [|done]. by destruct r.
  - cbn [fmap list_fmap concat] in Hb. rewrite <- !app_assoc in Hb.
    destruct (line_read buf _ _ (header_line h) _ Hb eq_refl (header_line_cr h Hh))
      as (-> & -> & Hret). orun.
    cbn [request_]. destruct (header_line_read r h Hh) as [-> ->].
    assert ((zlen (fst h) =? zlen (header_line h)) = false) as -> by apply zlen_app_neqb.
    cbn [negb]. eapply runs_bind; [exact Hret|]. intros b Hb'.
    eapply runs_mono; [by apply IH; [|cbn in Hf; lia]|]. done.
Qed.

Lemma length_headers hs : (length hs ≤ length (concat ((λ h, header_line h ++ crlf) <$> hs)))%nat.
Proof.
  induction hs as [|h hs IH]; cbn [fmap list_fmap concat length]; [lia|].
  rewrite !length_app. cbn [length crlf]. lia.
Qed.

Lemma request_line_cr q : request_ok q → 13 ∉ request_line q.
Proof.
  intros Hq. unfold request_line. rewrite !not_elem_of_app.
  split_and!; [apply methodString_no; auto| |apply Hq|apply query_no; auto| | |].
  1, 2, 3: by apply (bool_decide_unpack (_ ∉ _)).
  destruct (rq_11 q); by apply (bool_decide_unpack (_ ∉ _)).
Qed.

Lemma parseRequest_render (buf : B) q rm tail :
  request_ok q → buf_is buf (render q ++ tail) rm →
  runs (parseRequest receiveTime HttpContext_ctor buf) (λ p,
    ∃ b, p = (true, mkHttpContext kGotAll (parsed q receiveTime), b) ∧ buf_is b tail rm).
Proof.
  intros Hq Hb. unfold parseRequest, parse_fuel. rewrite (buf_is_readable _ _ _ Hb).
  unfold render in *. rewrite <- !app_assoc in *.
  set (hdrs := concat _) in *.
  assert (length (rq_headers q) ≤ length hdrs)%nat as Hl by apply length_headers.
  destruct (Z.to_nat _) as [|fuel] eqn:Hfuel; [lia|].
  rewrite !length_app in Hfuel. cbn [length crlf] in Hfuel.
  cbn [parseRequest_loop HttpContext_ctor state_ request_].
  destruct (line_read buf _ _ (request_line q) _ Hb eq_refl (request_line_cr q Hq))
    as (-> & -> & Hret). orun.
  destruct (processRequestLine_correct q receiveTime Hq) as (r & -> & Hr). orun.
  rewrite Hr. eapply runs_bind; [exact Hret|]. intros b Hb'.
  eapply runs_mono; [apply (parse_headers (rq_headers q) fuel b _ rm tail); [apply Hq|done|lia]|].
  done.
Qed.

(** ** Any input *)

Lemma line_any (buf : B) i :
  buf_inv buf → b_findCRLF buf = Some i →
  ∃ line rest, view buf = line ++ 13 :: 10 :: rest ∧ i = zlen line ∧
    b_peekBytes buf i = Ret line ∧
    runs (b_retrieveUntil buf (i + 2)) (λ b, buf_is b rest (room buf)).
Proof.
  intros Hb. rewrite findCRLF_view by done. intros Hs.
  apply search_Some in Hs as (Hi & Hl & Ht). change (zlen kCRLF) with 2 in *.
  exists (ztake i (view buf)), (zdrop 2 (zdrop i (view buf))).
  assert (zlen (ztake i (view buf)) = i) as Hi' by (apply length_ztake; lia).
  assert (view buf = ztake i (view buf) ++ 13 :: 10 :: zdrop 2 (zdrop i (view buf))) as Hv.
  { rewrite <- (ztake_zdrop i (view buf)) at 1. f_equal.
    rewrite <- (ztake_zdrop 2 (zdrop i (view buf))) at 1. by rewrite Ht. }
  rewrite peekBytes_view by (done || lia). split_and!; [done..|].
  destruct (retrieveUntil_view buf (i + 2)) as (b & Hret & [Hb' Hv' Hr']); [done|lia|].
  exists b. split; [done|]. split; [done| |done]. rewrite Hv'. unfold zdrop.
  rewrite drop_drop. f_equal. lia.
Qed.

Lemma processRequestLine_runs r line :
  method_ r = kInvalid → runs (processRequestLine r line) (λ _, True).
Proof.
  intros Hm. unfold processRequestLine, setMethod. rewrite Hm.
  rewrite (assert_true (bool_decide (kInvalid = kInvalid))) by done. orun.
  repeat case_match; by apply runs_ret.
Qed.

(** Where a run may start. *)
Definition startable (c : HttpContext) : Prop :=
  match state_ c with
  | kExpectRequestLine => method_ (request_ c) = kInvalid
  | kExpectHeaders => True
  | _ => False
  end.

(** The end of the header is in sight. *)
Definition has_end (v : bytes) : Prop := ∃ a x, v = a ++ kCRLFCRLF ++ x.

Definition end_in_sight (c : HttpContext) (v : bytes) : Prop :=
  match state_ c with
  | kExpectRequestLine => has_end v
  | kExpectHeaders => has_end v ∨ ∃ x, v = kCRLF ++ x
  | _ => False
  end.

Lemma has_end_rest line rest :
  has_end (line ++ 13 :: 10 :: rest) → search kCRLF (line ++ 13 :: 10 :: rest) = Some (zlen line) →
  has_end rest ∨ ∃ x, rest = kCRLF ++ x.
Proof.
  intros (a & x & Heq) Hs. rewrite Heq in Hs.
  change (kCRLFCRLF ++ x) with (kCRLF ++ kCRLF ++ x) in Hs.
  apply search_first in Hs.
  destruct (app_prefix line (13 :: 10 :: rest) a (kCRLFCRLF ++ x)) as (a' & -> & Ha);
    [done|done|].
  destruct a' as [|c [|d a']]; cbn in Ha; simplify_eq.
  - right. by exists x.
  - left. by exists a', x.
Qed.

(** What a run leaves. *)
Record run_post (c : HttpContext) (buf : B) (p : bool * HttpContext * B) : Prop := RunPost {
  rp_inv : buf_inv (snd p);
  rp_suffix : ∃ pre, view buf = pre ++ view (snd p);
  rp_room : room buf ≤ room (snd p);
  rp_fail : fst (fst p) = false → state_ (snd (fst p)) = kExpectRequestLine;
  rp_ok : fst (fst p) = true → gotAll (snd (fst p)) = true ∨
    startable (snd (fst p)) ∧ search kCRLF (view (snd p)) = None;
  rp_end : end_in_sight c (view buf) → fst (fst p) = true → gotAll (snd (fst p)) = true;
}.

Lemma run_post_wait c (buf : B) :
  buf_inv buf → startable c → b_findCRLF buf = None → run_post c buf (true, c, buf).
Proof.
  intros Hb Hc Hn. rewrite findCRLF_view in Hn by done. split; cbn; try done.
  - by exists [].
  - by right.
  - unfold end_in_sight, has_end. intros He.
    destruct (state_ c); try done.
    + destruct He as (a & x & Hv). rewrite Hv in Hn.
      by apply (search_None_app kCRLF a (kCRLF ++ x)) in Hn.
    + destruct He as [(a & x & Hv)|(x & Hv)]; rewrite Hv in Hn.
      * by apply (search_None_app kCRLF a (kCRLF ++ x)) in Hn.
      * by apply (search_None_app kCRLF [] x) in Hn.
Qed.

Lemma run_post_line c c' (buf b : B) line rest p :
  view buf = line ++ 13 :: 10 :: rest → buf_is b rest (room buf) →
  (end_in_sight c (view buf) → end_in_sight c' rest) →
  run_post c' b p → run_post c buf p.
Proof.
  intros Hv [_ Hvb Hr] He [Hi [pre Hp] Hrm Hf Hok Hend]. split; try done.
  - exists (line ++ 13 :: 10 :: pre). rewrite Hv. rewrite Hvb in Hp. rewrite Hp.
    by rewrite <- app_assoc.
  - lia.
  - intros Hs Hok'. apply Hend; [|done]. rewrite Hvb. auto.
Qed.

Lemma loop_any fuel c (buf : B) :
  buf_inv buf → startable c → zlen (view buf) < Z.of_nat fuel →
  runs (parseRequest_loop receiveTime fuel c buf) (run_post c buf).
Proof.
  revert c buf. induction fuel as [|fuel IH]; intros c buf Hb Hc Hf; [lia|].
  cbn [parseRequest_loop]. destruct (state_ c) eqn:Hst; unfold startable in Hc; rewrite Hst in Hc;
    try done; destruct (b_findCRLF buf) as [i|] eqn:Hfind;
    try (apply runs_ret, run_post_wait; [done|unfold startable; by rewrite Hst|done]).
  all: destruct (line_any buf i Hb Hfind) as (line & rest & Hv & -> & -> & Hret); orun.
  all: rewrite findCRLF_view, Hv in Hfind by done.
  all: assert (zlen (view buf) = zlen line + 2 + zlen rest) as Hl
    by (rewrite Hv, length_app; cbn [length]; lia).
  - destruct (processRequestLine_runs (request_ c) line Hc) as ([ok r] & -> & _). orun.
    destruct ok.
    2: { apply runs_ret. split; cbn; try done. by exists []. }
    eapply runs_bind; [exact Hret|]. intros b Hb'. pose proof Hb' as [Hbi Hbv _].
    eapply runs_mono; [apply IH; [done|done|rewrite Hbv; lia]|]. intros p.
    eapply run_post_line; [done..|]. unfold end_in_sight. rewrite Hst. cbn.
    rewrite Hv. intros He. by apply (has_end_rest line).
  - destruct (Z.eqb_spec (find_char 58 line) (zlen line)) as [Hcol|Hcol]; cbn [negb].
    + eapply runs_bind; [exact Hret|]. intros b [Hbi Hbv Hbr]. apply runs_ret.
      split; cbn; try done; [|by left].
      exists (line ++ [13; 10]). by rewrite Hv, Hbv, <- app_assoc.
    + eapply runs_bind; [exact Hret|]. intros b Hb'. pose proof Hb' as [Hbi Hbv _].
      eapply runs_mono; [apply IH; [done|done|rewrite Hbv; lia]|]. intros p.
      eapply run_post_line; [done..|]. unfold end_in_sight. rewrite Hst. cbn.
      rewrite Hv. intros [He|[x Hx]]; [by apply (has_end_rest line)|].
      destruct line as [|y line]; [done|]. rewrite Hx in Hfind. by cbn in Hfind.
Qed.

Lemma parseRequest_any c (buf : B) :
  buf_inv buf → startable c → runs (parseRequest receiveTime c buf) (run_post c buf).
Proof.
  intros Hb Hc. apply loop_any; [done..|]. unfold parse_fuel.
  rewrite readableBytes_view by done. lia.
Qed.
End parse_correct.

(** C29: For every input: started on the request line or inside the headers,
    [parseRequest] returns; it has removed a prefix of the input, the rest is
    left for later; it fails only on a bad request line; if it succeeds it has
    the whole header, or needs a line that has not arrived.  When the blank
    line that ends the header is in the buffer, success means that the whole
    header was read. *)
Theorem parseRequest_total {B} `{!IBytesBuffer B, !BytesBufferLaws B} t c (buf : B) :
  buf_inv buf → startable c →
  ∃ ok c' buf' pre, parseRequest t c buf = Ret (ok, c', buf') ∧ buf_inv buf' ∧
    view buf = pre ++ view buf' ∧
    (ok = false → state_ c' = kExpectRequestLine) ∧
    (ok = true → gotAll c' = true ∨ startable c' ∧ search kCRLF (view buf') = None) ∧
    (end_in_sight c (view buf) → ok = true → gotAll c' = true).
Proof.
  intros Hb Hc. destruct (parseRequest_any t c buf) as ([[ok c'] buf'] & Hrun & Hpost); [done..|].
  destruct Hpost as [Hi [pre Hp] _ Hf Hok He]. by exists ok, c', buf', pre.
Qed.

(** Parsing inverts printing: on the text of any well-formed request, whatever
    follows it, the parser ends with exactly that request (the last of several
    headers of one name counts) and leaves what follows. *)
Theorem parseRequest_roundtrip {B} `{!IBytesBuffer B, !BytesBufferLaws B} t (buf : B) q tail :
  request_ok q → buf_inv buf → view buf = render q ++ tail →
  ∃ buf', parseRequest t HttpContext_ctor buf = Ret (true, mkHttpContext kGotAll (parsed q t), buf') ∧
    view buf' = tail.
Proof.
  intros Hq Hb Hv.
  destruct (parseRequest_render t buf q (room buf) tail) as (p & Hrun & b & -> & [_ Hbv _]);
    [done|by split|]. by exists b.
Qed.

(** Once the header is complete, a further call without [reset] never
    returns: the loop has no branch for this state. *)
Theorem parseRequest_gotAll_diverges {B} `{!IBytesBuffer B} t c (buf : B) fuel :
  state_ c = kGotAll ∨ state_ c = kExpectBody →
  parseRequest_loop t fuel c buf = Abort OutOfFuel.
Proof.
  intros Hc. induction fuel as [|fuel IH]; cbn; [done|].
  by destruct Hc as [Hs|Hs]; rewrite Hs.
Qed.
End Http.

(** ** Witnesses *)

Module HttpSample.
(** A full buffer with the readable bytes [l]. *)
Definition buffer (l : bytes) : Buffer.Buffer :=
  Buffer.mkBuffer (replicate 8 0 ++ l) 8 (8 + zlen l).

(** The opening handshake of a browser. *)
Definition upgrade : Http.request :=
  Http.mkReq Http.kGet (str "/chat") (str "?room=1") true
    [(str "Host", str "server.example.com"); (str "Upgrade", str "websocket");
     (str "Connection", str "Upgrade");
     (str "Sec-WebSocket-Key", str "dGhlIHNhbXBsZSBub25jZQ==");
     (str "Sec-WebSocket-Version", str "13")].

Lemma header_ok_dec h :
  bool_decide (58 ∉ fst h) && bool_decide (13 ∉ fst h) && bool_decide (13 ∉ snd h) &&
    bool_decide (Http.skip_space (snd h) = snd h) && bool_decide (Http.trim_end (snd h) = snd h)
    = true → Http.header_ok h.
Proof. rewrite !andb_true_iff, !bool_decide_eq_true. intros ((((? & ?) & ?) & ?) & ?). by split. Qed.

Lemma upgrade_ok : Http.request_ok upgrade.
Proof.
  split.
  - done.
  - by apply (bool_decide_unpack (_ ∧ _ ∧ _)).
  - right. exists (str "room=1"). by apply (bool_decide_unpack (_ ∧ _ ∧ _)).
  - cbn. rewrite !Forall_cons. split_and!; try (by apply header_ok_dec). by apply Forall_nil.
Qed.
End HttpSample.

Lemma parseRequest_roundtrip_witness :
  ∃ buf', Http.parseRequest 9 Http.HttpContext_ctor
      (HttpSample.buffer (Http.render HttpSample.upgrade ++ str "xyz")) =
    Ret (true, Http.mkHttpContext Http.kGotAll (Http.parsed HttpSample.upgrade 9), buf') ∧
    view buf' = str "xyz".
Proof.
  apply Http.parseRequest_roundtrip.
  - apply HttpSample.upgrade_ok.
  - apply (bool_decide_unpack (Buffer.wf _)). by vm_compute.
  - by vm_compute.
Defined.

(** A request whose header is not complete. *)
Lemma parseRequest_total_witness :
  let buf := HttpSample.buffer (str "GET / HTTP/1.1" ++ [13; 10] ++ str "Host: a") in
  ∃ ok c' buf' pre, Http.parseRequest 9 Http.HttpContext_ctor buf = Ret (ok, c', buf') ∧
    buf_inv buf' ∧ view buf = pre ++ view buf' ∧
    (ok = false → Http.state_ c' = Http.kExpectRequestLine) ∧
    (ok = true → Http.gotAll c' = true ∨ Http.startable c' ∧ search kCRLF (view buf') = None) ∧
    (Http.end_in_sight Http.HttpContext_ctor (view buf) → ok = true → Http.gotAll c' = true).
Proof.
  apply Http.parseRequest_total.
  - apply (bool_decide_unpack (Buffer.wf _)). by vm_compute.
  - done.
Defined.

Lemma parseRequest_gotAll_diverges_witness :
  Http.parseRequest_loop 9 50 (Http.mkHttpContext Http.kGotAll Http.HttpRequest_ctor)
    (HttpSample.buffer []) = Abort OutOfFuel.
Proof. apply Http.parseRequest_gotAll_diverges. by left. Defined.
