(* ===== verification/Handshake.v ===== *)
(** * Handshake: from an accepted connection to frames
    (src/libwebsocket/private/websocket.cc, lines 1495-1517 and 3676-3905)

    [do_handshake] reads the opening request with the HTTP context, answers it
    and moves the connection to [kConnected]; [parse_message_frame] is the entry
    point the server calls for every read.  Three things come from outside the
    sources and are parameters: [SHA1] of OpenSSL, the string algorithms of Boost
    ([replace_all] and [split] with [is_any_of]), and the clock. *)

From S2P Require Import Prelude BytesBuffer Buffer Base64 Frame Context Parser.
From S2P Require Import ParserSafety Http.

(** ** webtime *)

Module Webtime.
(** [gmtime_r] on the proleptic Gregorian calendar: a year of this algorithm
    starts in March. *)
Record tm : Type := mkTm {
  tm_year : Z; tm_mon : Z; tm_mday : Z; tm_hour : Z; tm_min : Z; tm_sec : Z; tm_wday : Z;
}.

Definition gmtime (t : Z) : tm :=
  let days := t / 86400 in
  let secs := t mod 86400 in
  let z := days + 719468 in
  let era := z / 146097 in
  let doe := z mod 146097 in
  let yoe := (doe - doe / 1460 + doe / 36524 - doe / 146096) / 365 in
  let doy := doe - (365 * yoe + yoe / 4 - yoe / 100) in
  let mp := (5 * doy + 2) / 153 in
  let mon := if mp <? 10 then mp + 3 else mp - 9 in
  let year := yoe + era * 400 + (if mon <=? 2 then 1 else 0) in
  mkTm year mon (doy - (153 * mp + 2) / 5 + 1) (secs / 3600) (secs / 60 mod 60) (secs mod 60)
    ((days + 4) mod 7).

Definition pick (names : list string) (i : Z) : bytes := str (nth (Z.to_nat i) names "").

Definition day_name (i : Z) : bytes :=
  pick ["Sun"; "Mon"; "Tue"; "Wed"; "Thu"; "Fri"; "Sat"]%string i.

Definition month_name (i : Z) : bytes :=
  pick ["Jan"; "Feb"; "Mar"; "Apr"; "May"; "Jun"; "Jul"; "Aug"; "Sep"; "Oct"; "Nov"; "Dec"]%string
    (i - 1).

Definition digit (n : Z) : Z := 48 + n mod 10.
Definition two (n : Z) : bytes := [digit (n / 10); digit n].
Definition four (n : Z) : bytes := two (n / 100) ++ two n.

(** [strftime] with "%a, %d %b %Y %H:%M:%S %Z"; years of four digits. *)
Definition webtime (t : Z) : bytes :=
  let v := gmtime t in
  day_name (tm_wday v) ++ str ", " ++ two (tm_mday v) ++ str " " ++ month_name (tm_mon v) ++
  str " " ++ four (tm_year v) ++ str " " ++ two (tm_hour v) ++ str ":" ++ two (tm_min v) ++
  str ":" ++ two (tm_sec v) ++ str " GMT".

Lemma two_bytes n : Forall_byte (two n).
Proof.
  assert (∀ n, is_byte (digit n)) as Hd by (intros k; unfold digit, is_byte; pose proof (Z.mod_pos_bound k 10); lia).
  constructor; [done|]. by constructor.
Qed.

Lemma webtime_bytes t : Forall_byte (webtime t).
Proof. unfold webtime, four, day_name, month_name, pick. repeat (apply Forall_app; split); apply str_bytes || apply two_bytes. Qed.

(** The sample in the source. *)
Example webtime_sample : webtime 1303320688 = str "Wed, 20 Apr 2011 17:31:28 GMT".
Proof. by vm_compute. Qed.
End Webtime.

(** The Boost string algorithms used on the X-Forwarded-For header. *)
Record boost_string : Type := mkBoost {
  replace_all : bytes → bytes → bytes → bytes;
  split_any_of : bytes → bytes → list bytes;
}.

Section handshake.
Context {B H : Type} `{!IBytesBuffer B} `{!IHttpContext H B}.
Context (SHA1 : bytes → bytes) (boost : boost_string).
Context (debug : bool) (cb : ICallback B) (receiveTime : Z) (now : Z).
Implicit Types w : World B H.

Definition guid : bytes := str "258EAFA5-E914-47DA-95CA-C5AB0DC85B11".

Definition getAcceptKey (key : bytes) : bytes := Base64.Encode (SHA1 (key ++ guid)).

Definition eol : bytes := [13; 10].

Definition create_websocket_response (req : H) : bytes :=
  str "HTTP/1.1 101 Switching Protocols" ++ eol ++
  str "Connection: Upgrade" ++ eol ++
  str "Content-Type: application/octet-stream" ++ eol ++
  str "Upgrade: websocket" ++ eol ++
  str "Sec-WebSocket-Version: 13" ++ eol ++
  str "Sec-WebSocket-Accept: " ++ getAcceptKey (h_getHeader req (str "Sec-WebSocket-Key")) ++ eol ++
  str "Server: TXQP" ++ eol ++
  str "Timing-Allow-Origin: *" ++ eol ++
  str "Date: " ++ Webtime.webtime now ++ eol ++ eol.

Lemma response_bytes req : Forall_byte (create_websocket_response req) ∧ create_websocket_response req ≠ [].
Proof.
  split; [|done]. assert (Forall_byte eol) as He by (by repeat constructor).
  unfold create_websocket_response, getAcceptKey. pose proof (Webtime.webtime_bytes now).
  repeat first [done | apply str_bytes | apply Base64.Encode_bytes | apply Forall_app; split].
Qed.

(** [strncasecmp(s, prefix, n) == 0] for a prefix without letters. *)
Definition has_prefix (prefix s : bytes) : bool :=
  bool_decide (take (length prefix) s = prefix).

Definition is_proxy (s : bytes) : bool :=
  has_prefix (str "10.") s || has_prefix (str "192.168") s || has_prefix (str "172.16.") s.

(** The first address that is not empty and not of a private network. *)
Fixpoint first_public (vec : list bytes) : bytes :=
  match vec with
  | [] => []
  | s :: vec =>
      if negb (bool_decide (s = [])) && negb (is_proxy s) then s else first_public vec
  end.

Definition client_ip (req : H) : bytes :=
  let ipaddrs := h_getHeader req (str "X-Forwarded-For") in
  if bool_decide (ipaddrs = []) then cb_peerIpAddrToString cb
  else first_public (split_any_of boost (replace_all boost ipaddrs (str " ") []) (str ",")).

(** Failure: [saveErrno], then the HTTP context is released. *)
Definition handshake_failed w (saveErrno : Z) : outcome (bool * Z * World B H) :=
  _ ← getHttpContext (w_ctx w);
  Ret (false, saveErrno, with_ctx w (set_http (w_ctx w) None)).

Definition do_handshake w : outcome (bool * Z * World B H) :=
  _ ← getCallbackHandler (w_ctx w);
  let buf := w_buf w in
  if b_readableBytes buf <=? 4 then handshake_failed w (HandShakeE_val WS_ERROR_WANT_MORE)
  else if 1024 <? b_readableBytes buf then
    handshake_failed w (HandShakeE_val WS_ERROR_PACKSZ)
  else
    match b_findCRLFCRLF buf with
    | None => handshake_failed w (HandShakeE_val WS_ERROR_CRLFCRLF)
    | Some _ =>
        h ← getHttpContext (w_ctx w);
        '(ok, h, buf) ← h_parseRequestPtr h buf receiveTime;
        let w := with_buf (with_ctx w (set_http (w_ctx w) (Some h))) buf in
        if negb ok then handshake_failed w (HandShakeE_val WS_ERROR_PARSE)
        else if h_gotAll (B := B) h then
          let rspdata := create_websocket_response h in
          let ipaddr := client_ip h in
          assert (b_readableBytes buf =? 0) ;;
          let w := with_buf w (b_retrieveAll buf) in
          let w := with_ctx w (setWebsocketState (w_ctx w) kConnected) in
          let w := emit (emit w (EvSend rspdata)) (EvConnected ipaddr) in
          _ ← getHttpContext (w_ctx w);
          Ret (true, 0, with_ctx w (set_http (w_ctx w) None))
        else handshake_failed w 0
    end.

Definition bad_request : bytes := str "HTTP/1.1 400 Bad Request" ++ eol ++ eol.

(** The [switch (saveErrno)] after a handshake attempt. *)
Definition after_handshake w (connected : bool) (saveErrno : Z) : outcome (World B H) :=
  if (saveErrno =? HandShakeE_val WS_ERROR_WANT_MORE) ||
     (saveErrno =? HandShakeE_val WS_ERROR_CRLFCRLF) then Ret w
  else if (saveErrno =? HandShakeE_val WS_ERROR_PARSE) ||
          (saveErrno =? HandShakeE_val WS_ERROR_PACKSZ) then
    _ ← getCallbackHandler (w_ctx w);
    Ret (emit (emit w (EvSend bad_request)) EvShutdown)
  else if saveErrno =? 0 then assert connected ;; Ret w
  else Ret w.

Definition parse_message_frame w : outcome (Z * World B H) :=
  if bool_decide (state_ (w_ctx w) = kClosed) then
    '(connected, saveErrno, w) ← do_handshake w;
    w ← after_handshake w connected saveErrno;
    Ret (saveErrno, w)
  else
    assert (bool_decide (state_ (w_ctx w) = kConnected)) ;;
    w ← parse_frame debug cb receiveTime w;
    Ret (0, w).

(** A null context is refused. *)
Definition parse_message_frame_ptr (w : option (World B H)) : outcome (Z * option (World B H)) :=
  match w with
  | Some w => '(e, w) ← parse_message_frame w; Ret (e, Some w)
  | None => Ret (HandShakeE_val WS_ERROR_CONTEXT, None)
  end.

Definition create (handler : bool) (context : option H) (dataBuffer controlBuffer : option B)
    : outcome (Context_ B H) := Context_ctor handler context dataBuffer controlBuffer.

(** The object is deleted after the reset. *)
Definition free (context : option (Context_ B H)) : outcome (Context_ B H) :=
  match context with
  | Some c => Ret (resetAll c)
  | None => Abort AssertFailed
  end.
End handshake.

(** ** The opening handshake *)

Section handshake_correct.
Context {B : Type} `{!IBytesBuffer B} `{!BytesBufferLaws B}.
Context (SHA1 : bytes → bytes) (boost : boost_string).
Context (debug : bool) (cb : ICallback B) (receiveTime : Z) (now : Z).
Implicit Types w : World B Http.HttpContext.

Notation handshake := (do_handshake SHA1 boost cb receiveTime now).
Notation entry := (parse_message_frame SHA1 boost debug cb receiveTime now).

(** A connection that has just been accepted. *)
Record fresh w : Prop := Fresh {
  fr_state : state_ (w_ctx w) = kClosed;
  fr_handler : handler_ (w_ctx w) = true;
  fr_http : httpContext_ (w_ctx w) = Some Http.HttpContext_ctor;
  fr_buf : buf_inv (w_buf w);
}.

(** The context after a handshake attempt. *)
Definition connected_ctx w : Context_ B Http.HttpContext :=
  setWebsocketState (set_http (w_ctx w) None) kConnected.
Definition released_ctx w : Context_ B Http.HttpContext := set_http (w_ctx w) None.

(** [h] and what is left in the buffer after reading the request. *)
Lemma do_handshake_complete w h b :
  fresh w → 4 < zlen (view (w_buf w)) ≤ 1024 →
  search kCRLFCRLF (view (w_buf w)) ≠ None →
  Http.parseRequest receiveTime Http.HttpContext_ctor (w_buf w) = Ret (true, h, b) →
  buf_inv b → Http.gotAll h = true →
  handshake w =
    (assert (zlen (view b) =? 0) ;;
     Ret (true, 0, mkWorld (connected_ctx w) (b_retrieveAll b)
            ((w_log w ++ [EvSend (create_websocket_response (B := B) SHA1 now h)])
               ++ [EvConnected (client_ip boost cb h)]))).
Proof.
  intros [Hst Hh Hhttp Hb] Hl Hend Hrun Hbi Hall. unfold do_handshake, getCallbackHandler.
  rewrite Hh. orun. rewrite readableBytes_view by done.
  rewrite (proj2 (Z.leb_gt _ 4)), (proj2 (Z.ltb_ge 1024 _)), findCRLFCRLF_view by (done || lia).
  destruct (search kCRLFCRLF (view (w_buf w))); [|done].
  unfold getHttpContext. rewrite Hhttp. orun. cbn [h_parseRequestPtr Http.HttpContext_IHttpContext].
  rewrite Hrun. orun. cbn [negb h_gotAll Http.HttpContext_IHttpContext]. rewrite Hall.
  rewrite readableBytes_view by done. destruct (_ =? 0); [|done]. orun. cbn.
  unfold connected_ctx, emit, with_ctx, with_buf. cbn. by rewrite Hst || done.
Qed.

Lemma handshake_failed_runs w e :
  httpContext_ (w_ctx w) ≠ None →
  handshake_failed w e = Ret (false, e, mkWorld (released_ctx w) (w_buf w) (w_log w)).
Proof.
  intros Hh. unfold handshake_failed, getHttpContext. by destruct (httpContext_ (w_ctx w)).
Qed.

(** Attempts that end before the request is read. *)
Lemma do_handshake_incomplete w :
  fresh w →
  (zlen (view (w_buf w)) ≤ 4 →
   handshake w = Ret (false, 0x66, mkWorld (released_ctx w) (w_buf w) (w_log w))) ∧
  (1024 < zlen (view (w_buf w)) →
   handshake w = Ret (false, 0x88, mkWorld (released_ctx w) (w_buf w) (w_log w))) ∧
  (4 < zlen (view (w_buf w)) ≤ 1024 → search kCRLFCRLF (view (w_buf w)) = None →
   handshake w = Ret (false, 0x99, mkWorld (released_ctx w) (w_buf w) (w_log w))).
Proof.
  intros [Hst Hh Hhttp Hb]. unfold do_handshake, getCallbackHandler. rewrite Hh. orun.
  rewrite readableBytes_view, findCRLFCRLF_view by done.
  assert (∀ e, handshake_failed w e = Ret (false, e, mkWorld (released_ctx w) (w_buf w) (w_log w)))
    as Hfail by (intros e; apply handshake_failed_runs; by rewrite Hhttp).
  split_and!; intros Hl.
  - by rewrite (proj2 (Z.leb_le _ 4)), Hfail.
  - by rewrite (proj2 (Z.leb_gt _ 4)), (proj2 (Z.ltb_lt 1024 _)), Hfail by lia.
  - intros ->. by rewrite (proj2 (Z.leb_gt _ 4)), (proj2 (Z.ltb_ge 1024 _)), Hfail by lia.
Qed.

Lemma do_handshake_bad w h b :
  fresh w → 4 < zlen (view (w_buf w)) ≤ 1024 →
  search kCRLFCRLF (view (w_buf w)) ≠ None →
  Http.parseRequest receiveTime Http.HttpContext_ctor (w_buf w) = Ret (false, h, b) →
  handshake w = Ret (false, 0x77, mkWorld (released_ctx w) b (w_log w)).
Proof.
  intros [Hst Hh Hhttp Hb] Hl Hend Hrun. unfold do_handshake, getCallbackHandler.
  rewrite Hh. orun. rewrite readableBytes_view by done.
  rewrite (proj2 (Z.leb_gt _ 4)), (proj2 (Z.ltb_ge 1024 _)), findCRLFCRLF_view by (done || lia).
  destruct (search kCRLFCRLF (view (w_buf w))); [|done].
  unfold getHttpContext. rewrite Hhttp. orun. cbn [h_parseRequestPtr Http.HttpContext_IHttpContext].
  rewrite Hrun. orun. cbn [negb]. by rewrite handshake_failed_runs.
Qed.

Lemma entry_closed w c e w' :
  state_ (w_ctx w) = kClosed → handshake w = Ret (c, e, w') →
  entry w = (w ← after_handshake w' c e; Ret (e, w)).
Proof. intros Hs Hr. unfold parse_message_frame. by rewrite bool_decide_true, Hr by done. Qed.

Lemma handler_released w c' b l :
  handler_ (w_ctx w) = true →
  getCallbackHandler (w_ctx (mkWorld (H := Http.HttpContext) (set_http (w_ctx w) c') b l)) = Ret true.
Proof. intros Hh. unfold getCallbackHandler. cbn. by rewrite Hh. Qed.

Lemma has_end_search v : search kCRLFCRLF v ≠ None → Http.has_end v.
Proof.
  destruct (search kCRLFCRLF v) as [i|] eqn:Hs; [intros _|done].
  apply search_Some in Hs as (Hi & Hl & Ht).
  exists (ztake i v), (zdrop 4 (zdrop i v)).
  rewrite <- (ztake_zdrop i v) at 1. f_equal. rewrite <- (ztake_zdrop 4 (zdrop i v)) at 1.
  change 4 with (zlen kCRLFCRLF). by rewrite Ht.
Qed.
End handshake_correct.

(** C7: The first call on a fresh connection, for every input.
    - Up to 4 bytes, or no blank line yet: nothing is answered, but the HTTP
      context is released.
    - More than 1024 bytes, or a bad request line: 400 and shutdown.
    - A request whose header is complete: the 101 answer and [onConnected], and
      the connection is up; unless bytes follow the header, which stops the
      process at an assertion. *)
Theorem handshake_outcomes {B} `{!IBytesBuffer B, !BytesBufferLaws B}
    SHA1 boost debug (cb : ICallback B) receiveTime now (w : World B Http.HttpContext) :
  let v := view (w_buf w) in
  let run := parse_message_frame SHA1 boost debug cb receiveTime now w in
  let refused b := mkWorld (released_ctx w) b
    ((w_log w ++ [EvSend bad_request]) ++ [EvShutdown]) in
  fresh w →
  if zlen v <=? 4 then run = Ret (0x66, mkWorld (released_ctx w) (w_buf w) (w_log w))
  else if 1024 <? zlen v then run = Ret (0x88, refused (w_buf w))
  else match search kCRLFCRLF v with
       | None => run = Ret (0x99, mkWorld (released_ctx w) (w_buf w) (w_log w))
       | Some _ =>
           ∃ ok h b, Http.parseRequest receiveTime Http.HttpContext_ctor (w_buf w) = Ret (ok, h, b) ∧
             buf_inv b ∧
             if negb ok then run = Ret (0x77, refused b)
             else if zlen (view b) =? 0 then
               run = Ret (0, mkWorld (connected_ctx w) (b_retrieveAll b)
                       ((w_log w ++ [EvSend (create_websocket_response (B := B) SHA1 now h)])
                          ++ [EvConnected (client_ip boost cb h)]))
             else run = Abort AssertFailed
       end.
Proof.
  intros v run refused Hw. pose proof Hw as [Hst Hh Hhttp Hb].
  destruct (do_handshake_incomplete SHA1 boost cb receiveTime now w Hw) as (Hshort & Hlong & Hnone).
  fold v in Hshort, Hlong, Hnone.
  assert (∀ (c : bool) e w', do_handshake SHA1 boost cb receiveTime now w = Ret (c, e, w') →
    run = (w ← after_handshake w' c e; Ret (e, w))) as Hrun by (intros; by apply entry_closed).
  destruct (Z.leb_spec (zlen v) 4); [by rewrite (Hrun _ _ _ (Hshort ltac:(done)))|].
  destruct (Z.ltb_spec 1024 (zlen v)).
  { rewrite (Hrun _ _ _ (Hlong ltac:(done))). unfold after_handshake. cbn [Z.eqb Pos.eqb orb HandShakeE_val].
    unfold released_ctx. rewrite handler_released by done. done. }
  destruct (search kCRLFCRLF v) as [i|] eqn:Hs; [|by rewrite (Hrun _ _ _ (Hnone ltac:(done) ltac:(done)))].
  destruct (Http.parseRequest_any receiveTime Http.HttpContext_ctor (w_buf w)) as ([[ok h] b] & Hp & Hpost);
    [done..|]. exists ok, h, b. pose proof (Http.rp_inv _ _ _ Hpost) as Hbi. cbn in Hbi.
  split_and!; [done..|]. assert (search kCRLFCRLF v ≠ None) as Hend by (by rewrite Hs).
  destruct ok; cbn [negb].
  - pose proof (Http.rp_end _ _ _ Hpost (has_end_search _ Hend) eq_refl) as Hall.
    unfold run, parse_message_frame. rewrite bool_decide_true by done.
    rewrite (do_handshake_complete SHA1 boost cb receiveTime now w h b) by done.
    by destruct (zlen (view b) =? 0).
  - rewrite (Hrun _ _ _ (do_handshake_bad SHA1 boost cb receiveTime now w h b Hw ltac:(done) Hend Hp)).
    unfold after_handshake. cbn [Z.eqb Pos.eqb orb HandShakeE_val].
    unfold released_ctx. rewrite handler_released by done. done.
Qed.

(** ** A second attempt *)

Lemma entry_without_http {B} `{!IBytesBuffer B, !BytesBufferLaws B}
    SHA1 boost debug (cb : ICallback B) receiveTime now (w : World B Http.HttpContext) :
  state_ (w_ctx w) = kClosed → httpContext_ (w_ctx w) = None →
  parse_message_frame SHA1 boost debug cb receiveTime now w = Abort AssertFailed.
Proof.
  intros Hs Hh. unfold parse_message_frame. rewrite bool_decide_true by done.
  unfold do_handshake, getCallbackHandler, handshake_failed, getHttpContext. rewrite Hh.
  destruct (handler_ (w_ctx w)); [|done]. orun.
  repeat case_match; done.
Qed.

(** An opening request that arrives in two pieces, the first of them without the
    blank line, is not answered after the first piece, and the second one stops
    the process, whatever it is: the HTTP context has been released. *)
Theorem split_handshake_stops_the_process {B} `{!IBytesBuffer B, !BytesBufferLaws B}
    SHA1 boost debug (cb : ICallback B) receiveTime receiveTime' now now'
    (w : World B Http.HttpContext) :
  fresh w → zlen (view (w_buf w)) ≤ 1024 → search kCRLFCRLF (view (w_buf w)) = None →
  ∃ e w1, parse_message_frame SHA1 boost debug cb receiveTime now w = Ret (e, w1) ∧
    w_log w1 = w_log w ∧ w_buf w1 = w_buf w ∧
    ∀ b, parse_message_frame SHA1 boost debug cb receiveTime' now' (with_buf w1 b)
           = Abort AssertFailed.
Proof.
  intros Hw Hl Hn. pose proof Hw as [Hst Hh Hhttp Hb].
  destruct (do_handshake_incomplete SHA1 boost cb receiveTime now w Hw) as (Hshort & _ & Hnone).
  exists (if zlen (view (w_buf w)) <=? 4 then 0x66 else 0x99),
    (mkWorld (released_ctx w) (w_buf w) (w_log w)). split_and!; [|done..|].
  - unfold parse_message_frame. rewrite bool_decide_true by done.
    destruct (Z.leb_spec (zlen (view (w_buf w))) 4); [by rewrite Hshort|by rewrite Hnone].
  - intros b. by apply entry_without_http.
Qed.

(** ** The answer *)

(** The proof of the handshake the client checks: decoding the accept key of the
    answer gives the SHA-1 digest of its key and the GUID of the RFC. *)
Theorem accept_key_correct SHA1 key :
  (∀ m, Forall_byte (SHA1 m)) → Base64.Decode (getAcceptKey SHA1 key) = SHA1 (key ++ guid).
Proof. intros HS. apply Base64.Decode_Encode, HS. Qed.

(** The address reported for a connection behind proxies is one of the
    comma-separated entries of the header, not empty and not of the private
    networks that are skipped, and the first such entry; it is empty if there is
    none. *)
Theorem first_public_correct vec :
  (first_public vec = [] ∧ Forall (λ s, s = [] ∨ is_proxy s = true) vec) ∨
  ∃ pre s post, vec = pre ++ s :: post ∧ first_public vec = s ∧ s ≠ [] ∧ is_proxy s = false ∧
    Forall (λ s, s = [] ∨ is_proxy s = true) pre.
Proof.
  induction vec as [|s vec IH]; [by left|]. cbn [first_public].
  destruct (negb (bool_decide (s = [])) && negb (is_proxy s)) eqn:Hc.
  - rewrite andb_true_iff, !negb_true_iff, bool_decide_eq_false in Hc. right.
    exists [], s, vec. split_and!; [done|done|apply Hc|apply Hc|done].
  - assert (s = [] ∨ is_proxy s = true) as Hs.
    { rewrite andb_false_iff, !negb_false_iff, bool_decide_eq_true in Hc. done. }
    destruct IH as [[-> Hall]|(pre & x & post & -> & -> & Hx & Hp & Hall)].
    + left. split; [done|]. by constructor.
    + right. exists (s :: pre), x, post. split_and!; try done. by constructor.
Qed.

(** ** Witnesses *)

Module HandshakeSample.
(** Splitting at commas and erasing blanks, for the one use of the header. *)
Fixpoint split_commas (cur l : bytes) : list bytes :=
  match l with
  | [] => [cur]
  | c :: l => if c =? 44 then cur :: split_commas [] l else split_commas (cur ++ [c]) l
  end.

Definition boost : boost_string :=
  mkBoost (λ s _ _, filter (λ c, c ≠ 32) s) (λ s _, split_commas [] s).

Definition digest (m : bytes) : bytes := le_split 20 (le_combine m).

Definition accepted (l : bytes) : World Buffer.Buffer Http.HttpContext :=
  mkWorld (Sample.context kClosed (Some Http.HttpContext_ctor)) (HttpSample.buffer l) [].

Lemma accepted_fresh l :
  bool_decide (Buffer.wf (HttpSample.buffer l)) = true → fresh (accepted l).
Proof.
  intros Hw%bool_decide_eq_true. split; [reflexivity|reflexivity|reflexivity|exact Hw].
Qed.
End HandshakeSample.

Lemma handshake_outcomes_witness :
  let w := HandshakeSample.accepted (Http.render HttpSample.upgrade) in
  ∃ ok h b, Http.parseRequest 3 Http.HttpContext_ctor (w_buf w) = Ret (ok, h, b) ∧
    buf_inv b ∧
    if negb ok then
      parse_message_frame HandshakeSample.digest HandshakeSample.boost true Sample.callback 3 0 w =
      Ret (0x77, mkWorld (released_ctx w) b [EvSend bad_request; EvShutdown])
    else if zlen (view b) =? 0 then
      parse_message_frame HandshakeSample.digest HandshakeSample.boost true Sample.callback 3 0 w =
      Ret (0, mkWorld (connected_ctx w) (b_retrieveAll b)
        [EvSend (create_websocket_response (B := Buffer.Buffer) HandshakeSample.digest 0 h);
         EvConnected (client_ip HandshakeSample.boost Sample.callback h)])
    else
      parse_message_frame HandshakeSample.digest HandshakeSample.boost true Sample.callback 3 0 w =
      Abort AssertFailed.
Proof.
  intros w.
  assert (fresh w) as Hw by (apply HandshakeSample.accepted_fresh; by vm_compute).
  pose proof (handshake_outcomes HandshakeSample.digest HandshakeSample.boost true
    Sample.callback 3 0 w Hw) as Hout.
  cbn zeta in Hout.
  assert ((zlen (view (w_buf w)) <=? 4) = false) as E1 by (by vm_compute).
  assert ((1024 <? zlen (view (w_buf w))) = false) as E2 by (by vm_compute).
  destruct (search kCRLFCRLF (view (w_buf w))) as [i|] eqn:E3; [|by vm_compute in E3].
  rewrite E1, E2 in Hout. exact Hout.
Defined.

(** "GET / HTTP/1.1" without its line end. *)
Lemma split_handshake_stops_the_process_witness :
  let w := HandshakeSample.accepted (str "GET / HTTP/1.1") in
  ∃ e w1, parse_message_frame HandshakeSample.digest HandshakeSample.boost true
      Sample.callback 3 0 w = Ret (e, w1) ∧
    w_log w1 = w_log w ∧ w_buf w1 = w_buf w ∧
    ∀ b, parse_message_frame HandshakeSample.digest HandshakeSample.boost true
           Sample.callback 4 1 (with_buf w1 b) = Abort AssertFailed.
Proof.
  apply (split_handshake_stops_the_process HandshakeSample.digest HandshakeSample.boost true
    Sample.callback 3 4 0 1).
  - apply HandshakeSample.accepted_fresh. by vm_compute.
  - by vm_compute.
  - by vm_compute.
Defined.

Lemma accept_key_correct_witness :
  Base64.Decode (getAcceptKey HandshakeSample.digest (str "dGhlIHNhbXBsZSBub25jZQ==")) =
  HandshakeSample.digest (str "dGhlIHNhbXBsZSBub25jZQ==" ++ guid).
Proof. apply accept_key_correct. intros m. apply le_split_bytes. Defined.
