(* ===== verification/Lifecycle.v ===== *)
(** * Lifecycle: a connection from its creation to its messages

    The composition of the parts: [create] builds the context of an accepted
    connection, the opening request brings it up, and from then on every read is
    parsed for frames, all through the entry point [parse_message_frame] the
    server calls. *)

From S2P Require Import Prelude BytesBuffer Buffer Base64 Frame Context Parser.
From S2P Require Import ParserSafety Receiver Stream Delivery Http Handshake.

Lemma untimed_close (l : list event) : EvForceClose ∈ untimed <$> l ↔ EvForceClose ∈ l.
Proof.
  rewrite list_elem_of_fmap. split.
  - intros (e & He & Hin). by destruct e.
  - intros Hin. by exists EvForceClose.
Qed.

Lemma rx_run_open unmask st fs st' evs :
  Forall (λ f, cf_op f ≠ CloseMessage) fs → rx_run unmask st fs = Some (st', evs) →
  EvForceClose ∉ evs.
Proof.
  intros Hfs. revert st evs. induction Hfs as [|f fs Hf _ IH]; intros st evs; cbn.
  { intros [= <- <-]. apply not_elem_of_nil. }
  destruct (rx_step unmask st f) as [[st1 e1]|] eqn:Hs; cbn; [|done].
  destruct (rx_run unmask st1 fs) as [[st2 e2]|] eqn:Hr; cbn; [|done].
  intros [= -> <-]. rewrite not_elem_of_app. split; [|by eapply IH].
  unfold rx_step, deliver in Hs. intros Hin.
  destruct (cf_op f), st as [[t acc]|], (cf_fin f); simplify_eq;
    apply list_elem_of_In in Hin; cbn in Hin; naive_solver.
Qed.

Section lifecycle.
Context {B : Type} `{!IBytesBuffer B} `{!BytesBufferLaws B}.
Context (SHA1 : bytes → bytes) (boost : boost_string).
Context (debug : bool) (cb : ICallback B) (now : Z).
Implicit Types w : World B Http.HttpContext.

(** One read from the socket and the call it leads to. *)
Definition receive w (c : Z * bytes) : outcome (World B Http.HttpContext) :=
  b ← b_append (w_buf w) (snd c);
  '(_, w) ← parse_message_frame SHA1 boost debug cb (fst c) now (with_buf w b);
  Ret w.

Fixpoint receives w (cs : list (Z * bytes)) : outcome (World B Http.HttpContext) :=
  match cs with
  | [] => Ret w
  | c :: cs => w ← receive w c; receives w cs
  end.

(** ** Creation *)

(** [create] succeeds exactly on non-null arguments; the new connection is
    closed, has taken over its buffers and is between frames. *)
Lemma create_runs handler http data control c :
  create (B := B) (H := Http.HttpContext) handler http data control = Ret c →
  handler = true ∧ is_Some http ∧ is_Some data ∧ is_Some control ∧
  c = mkContext ReadFrameHeader kClosed LittleEndian extended_header_zero
        (mkMessage (mkMessageHeader TextMessage []) data 0)
        (mkMessage (mkMessageHeader CloseMessage []) control 0) http true.
Proof.
  unfold create, Context_ctor, Context_init, setHttpContext, setDataBuffer, setControlBuffer,
    setMessageBuffer, setCallbackHandler. cbn.
  destruct http, data, control, handler; cbn; intros [= <-]; done.
Qed.

(** ** Frames through the entry point *)

Lemma receive_open w c :
  state_ (w_ctx w) = kConnected → receive w c = feed debug cb w c.
Proof.
  intros Hs. unfold receive, feed. destruct (b_append (w_buf w) (snd c)); [|done]. cbn.
  unfold parse_message_frame. cbn [with_buf w_ctx]. rewrite Hs. cbn.
  by destruct (parse_frame debug cb (fst c) _).
Qed.

(** While no close frame is among the frames, the connection stays up. *)
Lemma stream_open P p st fs fut w :
  stream_at debug P p st fs fut w → EvForceClose ∉ pl_log P →
  Forall (λ f, cf_op f ≠ CloseMessage) (pl_frames P) →
  state_ (w_ctx w) = kConnected.
Proof.
  intros [Hc _ _ (dn & evs & Hall & Hrun & Hlog & _)] Hl Hf.
  apply (cn_open _ _ _ _ _ Hc). intros Hin%untimed_close. rewrite Hlog in Hin.
  rewrite Hall, Forall_app in Hf. destruct Hf as [Hf _].
  apply elem_of_app in Hin as [?|?]; [done|]. by eapply rx_run_open.
Qed.

Context (Hcb : callback_ok cb).

Lemma receives_stream P p st fs cs fut w :
  stream_at debug P p st fs (received cs ++ fut) w → pos_ok p →
  Forall_byte (received cs) → EvForceClose ∉ pl_log P →
  Forall (λ f, cf_op f ≠ CloseMessage) (pl_frames P) →
  receives w cs = feeds debug cb w cs.
Proof using Hcb.
  intros Hs Hp Hby Hlog Hf. revert p st fs w Hs Hp.
  induction cs as [|[t d] cs IH]; intros p st fs w Hs Hp; cbn [receives feeds]; [done|].
  rewrite receive_open by (by eapply stream_open).
  change (received ((t, d) :: cs)) with (d ++ received cs) in *.
  rewrite Forall_app in Hby. destruct Hby as [Hd Hcs]. rewrite <- app_assoc in Hs.
  destruct (stream_append _ _ _ _ _ _ _ _ Hs Hd) as (b & Hb & Hs').
  unfold feed. cbn [fst snd]. rewrite Hb. orun.
  destruct (parse_frame_runs debug cb Hcb t _ _ _ _ _ _ Hs' Hp)
    as (w1 & -> & p1 & st1 & fs1 & Hs1 & Hp1 & _). orun. by eapply IH.
Qed.

(** ** The opening request *)

Lemma render_end q : Http.has_end (Http.render q).
Proof.
  unfold Http.has_end, Http.render. destruct (Http.rq_headers q) as [|h hs _] using rev_ind.
  - exists (Http.request_line q), []. done.
  - exists (Http.request_line q ++ Http.crlf ++
      concat ((λ h, Http.header_line h ++ Http.crlf) <$> hs) ++ Http.header_line h), [].
    rewrite fmap_app, concat_app. cbn [fmap list_fmap concat]. rewrite !app_nil_r, <- !app_assoc. done.
Qed.

Lemma entry_handshake w q t :
  fresh w → Http.request_ok q → view (w_buf w) = Http.render q → zlen (Http.render q) ≤ 1024 →
  let h := Http.mkHttpContext Http.kGotAll (Http.parsed q t) in
  ∃ b, buf_is b [] max_room ∧
    parse_message_frame SHA1 boost debug cb t now w = Ret (0, mkWorld (connected_ctx w) b
      ((w_log w ++ [EvSend (create_websocket_response (B := B) SHA1 now h)])
         ++ [EvConnected (client_ip boost cb h)])).
Proof.
  intros Hf Hq Hv' Hmax h. pose proof Hf as [Hst Hh Hhttp Hb].
  destruct (Http.parseRequest_render t (w_buf w) q (room (w_buf w)) []) as (p & Hrun & b2 & -> & [Hb2 Hv2 Hr2]);
    [done|split; [done|by rewrite app_nil_r|done]|].
  exists (b_retrieveAll b2). split; [by apply retrieveAll_view|].
  unfold parse_message_frame. rewrite bool_decide_true by done.
  assert (4 < zlen (Http.render q)) as Hmin.
  { unfold Http.render, Http.request_line. rewrite !length_app. cbn. lia. }
  rewrite (do_handshake_complete SHA1 boost cb t now _ h b2 Hf); try done.
  - rewrite Hv2. done.
  - cbn. rewrite Hv'. lia.
  - cbn. rewrite Hv'.
    destruct (render_end q) as (a & x & ->). apply search_None_app.
Qed.

Lemma receive_handshake w q t :
  fresh w → Http.request_ok q → view (w_buf w) = [] → zlen (Http.render q) ≤ room (w_buf w) →
  Forall_byte (Http.render q) → zlen (Http.render q) ≤ 1024 →
  let h := Http.mkHttpContext Http.kGotAll (Http.parsed q t) in
  ∃ b, buf_is b [] max_room ∧
    receive w (t, Http.render q) = Ret (mkWorld (connected_ctx w) b
      ((w_log w ++ [EvSend (create_websocket_response (B := B) SHA1 now h)])
         ++ [EvConnected (client_ip boost cb h)])).
Proof.
  intros [Hst Hh Hhttp Hb] Hq Hv Hr Hby Hmax h.
  destruct (append_view (w_buf w) (Http.render q)) as (b & Hap & [Hb' Hv' Hr']); [done..|].
  rewrite Hv in Hv'. destruct (entry_handshake (with_buf w b) q t) as (b' & Hb'' & He); [by split|done..|].
  exists b'. split; [done|]. unfold receive. cbn [fst snd]. rewrite Hap. orun. by rewrite He.
Qed.
End lifecycle.

(** C2: The whole life of a connection.  [create] is given fresh buffers; the client
    sends a well-formed opening request of at most 1024 bytes, which arrives in one piece
    with nothing after it, and then, cut into pieces anywhere, a legal stream of masked
    frames without a close frame, in which every fragment that another one follows has a
    length divisible by 4 ([aligned]; [second_fragment_key_offset] shows what happens
    otherwise).  Then the server answers the request, reports the connection, and delivers
    exactly the messages RFC 6455 prescribes for the frames that have arrived
    completely, in this order, and nothing stops the process.  The user's callback may
    change the message buffer but leaves it well-formed, and the stream fits the buffers. *)
Theorem connection_lifecycle {B} `{!IBytesBuffer B, !BytesBufferLaws B}
    SHA1 boost debug (cb : ICallback B) now (buf db kb : B) c q t fs cs r :
  let h := Http.mkHttpContext Http.kGotAll (Http.parsed q t) in
  callback_ok cb →
  create true (Some Http.HttpContext_ctor) (Some db) (Some kb) = Ret c →
  buf_is buf [] (zlen (Http.render q)) →
  buf_is db [] (zlen (wire fs)) → buf_is kb [] (zlen (wire fs)) →
  zlen (wire fs) ≤ max_room →
  Http.request_ok q → Forall_byte (Http.render q) → zlen (Http.render q) ≤ 1024 →
  Forall cframe_ok fs → Forall aligned fs → Forall (λ f, cf_op f ≠ CloseMessage) fs →
  rx_run rfc_unmask None fs = Some r → received cs `prefix_of` wire fs →
  ∃ w' st evs,
    receives SHA1 boost debug cb now (mkWorld c buf []) ((t, Http.render q) :: cs) = Ret w' ∧
    rx_run rfc_unmask None (complete (zlen (received cs)) fs) = Some (st, evs) ∧
    untimed <$> w_log w' =
      [EvSend (create_websocket_response (B := B) SHA1 now h);
       EvConnected (client_ip boost cb h)] ++ evs ∧
    state_ (w_ctx w') = kConnected.
Proof.
  intros h Hcb Hc [Hbi Hbv Hbr] Hdb Hkb Hmax Hq Hqb Hql Hf Ha Hopen Hr [fut Hbs].
  apply create_runs in Hc as (_ & _ & _ & _ & ->).
  set (w0 := mkWorld _ buf []).
  destruct (receive_handshake SHA1 boost debug cb now w0 q t) as (b & Hb & Hrecv); try done.
  cbn [receives]. rewrite Hrecv. orun. cbn [w_log app].
  set (w := mkWorld _ b _).
  assert (ready (zlen (wire fs)) w) as Hw.
  { split; try done; [by eapply buf_is_weaken|by exists db|by exists kb]. }
  assert (is_Some (rx_run code_unmask None fs)) as Hrun by (by rewrite rx_run_aligned, Hr).
  pose proof (ready_stream debug fs w Hw Hf Hrun) as Hs.
  pose proof (wire_bytes fs Hf) as Hby. rewrite Hbs, Forall_app in Hby. destruct Hby as [Hby _].
  rewrite Hbs in Hs. erewrite receives_stream; [|done|exact Hs|done|done| |done].
  2: { cbn. rewrite list_elem_of_In. cbn. naive_solver. }
  destruct (feeds_stream debug cb Hcb _ _ _ _ _ _ _ Hs) as (w' & Hw' & p & st & fs' & Hs' & Hp & Hn);
    [done|by destruct Hb as [_ Hv _]; cbn; rewrite Hv|done|].
  destruct (stalled_complete debug _ _ _ _ _ _ (zlen (received cs)) Hs' Hp Hn) as (evs & Hrx & Hlog).
  { cbn [pl_frames]. rewrite Hbs, length_app. lia. }
  exists w', st, evs. split_and!; [done| |done|].
  - rewrite <- Hrx. cbn [pl_st pl_frames]. symmetry. apply rx_run_aligned; [done|].
    eapply Forall_prefix; [apply complete_prefix|done].
  - eapply stream_open; [done| |done]. cbn. rewrite list_elem_of_In. cbn. naive_solver.
Qed.

(** ** Witness *)

Lemma connection_lifecycle_witness :
  let h := Http.mkHttpContext Http.kGotAll (Http.parsed HttpSample.upgrade 1) in
  ∃ w' st evs,
    receives HandshakeSample.digest HandshakeSample.boost true Sample.callback 0
      (mkWorld (Sample.context kClosed (Some Http.HttpContext_ctor)) Sample.empty_buffer [])
      ((1, Http.render HttpSample.upgrade) :: SampleStream.chunks) = Ret w' ∧
    rx_run rfc_unmask None
      (complete (zlen (received SampleStream.chunks)) SampleStream.frames) = Some (st, evs) ∧
    untimed <$> w_log w' =
      [EvSend (create_websocket_response (B := Buffer.Buffer) HandshakeSample.digest 0 h);
       EvConnected (client_ip HandshakeSample.boost Sample.callback h)] ++ evs ∧
    state_ (w_ctx w') = kConnected.
Proof.
  assert (∀ n, n ≤ 2 ^ 20 → buf_is Sample.empty_buffer [] n) as Hbuf.
  { intros n Hn. split; [apply Sample.empty_buffer_wf|done|]. etrans; [done|by vm_compute]. }
  eapply (connection_lifecycle HandshakeSample.digest HandshakeSample.boost true Sample.callback 0
    Sample.empty_buffer Sample.empty_buffer Sample.empty_buffer _ HttpSample.upgrade 1
    SampleStream.frames SampleStream.chunks).
  - apply Sample.callback_is_ok.
  - reflexivity.
  - apply Hbuf. by vm_compute.
  - apply Hbuf. by vm_compute.
  - apply Hbuf. by vm_compute.
  - by vm_compute.
  - apply HttpSample.upgrade_ok.
  - apply (bool_decide_unpack _). by vm_compute.
  - by vm_compute.
  - apply SampleStream.frames_ok.
  - apply SampleStream.frames_aligned.
  - apply (bool_decide_unpack _). by vm_compute.
  - vm_compute. reflexivity.
  - exists (drop 13 (wire SampleStream.frames)). by vm_compute.
Defined.
