(* ===== verification/SocketIO.v ===== *)
(** * SocketIO: reading and writing until the kernel has no more
    (src/libwebsocket/private/IBytesBuffer.cc, src/libwebsocket/ssl)

    The loops [readFull] and [writeFull] that empty a socket into a buffer and
    push bytes to a socket, and their OpenSSL counterparts [SSL_read],
    [SSL_write], [SSL_handshake] and [SSL_free].  System calls and OpenSSL are
    interfaces ([Kernel], [OpenSSL]) over an abstract state [OS]; what the code
    relies on is stated as laws taken from their manuals.  [ScriptOS] is a
    concrete kernel that follows a script, for evaluation. *)

From S2P Require Import Prelude BytesBuffer Buffer.
Import Buffer.

Module SocketIO.

(** ** Error numbers of Linux and of OpenSSL *)

Definition EINTR : Z := 4.
Definition EAGAIN : Z := 11.
Definition EPIPE : Z := 32.
Definition ECONNRESET : Z := 104.
Definition EINPROGRESS : Z := 115.

Definition SSL_ERROR_SSL : Z := 1.
Definition SSL_ERROR_WANT_READ : Z := 2.
Definition SSL_ERROR_WANT_WRITE : Z := 3.
Definition SSL_ERROR_ZERO_RETURN : Z := 6.
Definition SSL_ERROR_WANT_CONNECT : Z := 7.
Definition SSL_ERROR_WANT_ACCEPT : Z := 8.

(** The most bytes one [read] or [write] transfers on Linux. *)
Definition kMaxTransfer : Z := 2147479552.

(** ** The interfaces

    [rx] are the bytes that reads will still deliver, [tx] the bytes that
    writes have handed to the kernel; [errno] is passed in and out.  A read
    returns the result, the bytes delivered and the new [errno]. *)
Class Kernel (OS : Type) : Type := {
  sys_read : OS → Z → Z → Z * bytes * Z * OS;
  sys_write : OS → bytes → Z → Z * Z * OS;
  rx : OS → bytes;
  tx : OS → bytes;
}.

(** read(2), write(2): at most the requested number of bytes is transferred,
    -1 reports an error in [errno], which success leaves alone. *)
Record read_ok {OS} `{!Kernel OS} (os : OS) (len errno rc : Z) (d : bytes) (errno' : Z) (os' : OS) : Prop := {
  read_rc : -1 ≤ rc ≤ len `min` kMaxTransfer;
  read_data : zlen d = rc `max` 0;
  read_bytes : Forall_byte d;
  read_rx : rx os = d ++ rx os';
  read_tx : tx os' = tx os;
  read_errno : if rc <? 0 then 0 < errno' else errno' = errno;
}.

Record write_ok {OS} `{!Kernel OS} (os : OS) (data : bytes) (errno rc errno' : Z) (os' : OS) : Prop := {
  write_rc : -1 ≤ rc ≤ zlen data `min` kMaxTransfer;
  write_tx : tx os' = tx os ++ ztake rc data;
  write_rx : rx os' = rx os;
  write_errno : if rc <? 0 then 0 < errno' else errno' = errno;
}.

Class KernelLaws (OS : Type) `{!Kernel OS} : Prop := {
  read_law (os : OS) len errno rc d errno' os' :
    0 < len → sys_read os len errno = (rc, d, errno', os') →
    read_ok os len errno rc d errno' os';
  write_law (os : OS) data errno rc errno' os' :
    data ≠ [] → sys_write os data errno = (rc, errno', os') →
    write_ok os data errno rc errno' os';
}.

(** OpenSSL: results with [SSL_get_error] of the call, [SSL_pending] after a
    read, and [errno]. *)
Class OpenSSL (OS : Type) : Type := {
  ossl_new : OS → bool * OS;
  ossl_set_fd : OS → bool * OS;
  ossl_do_handshake : OS → Z → Z * Z * Z * OS;
  ossl_read : OS → Z → Z → Z * Z * Z * bytes * Z * OS;
  ossl_write : OS → bytes → Z → Z → Z * Z * Z * OS;
  ossl_shutdown_free : OS → Z → Z * OS;
}.

Section io.
Context {OS : Type} `{!Kernel OS} `{!OpenSSL OS}.

(** ** readFull

    The kernel stores what it delivers at [beginWrite()]. *)
Definition receive (buf : Buffer) (d : bytes) (rc : Z) : outcome Buffer :=
  v ← write_at (buffer_ buf) (writerIndex_ buf) d;
  hasWritten (mkBuffer v (readerIndex_ buf) (writerIndex_ buf)) rc.

Fixpoint readFull_loop (fuel : nat) (os : OS) (buf : Buffer) (n errno : Z) :
    outcome (Z * Z * Z * Buffer * OS) :=
  match fuel with
  | O => Abort OutOfFuel
  | S fuel =>
      buf ← (if writableBytes buf =? 0 then ensureWritableBytes buf 4096 else Ret buf);
      let writable := writableBytes buf in
      let '(rc, d, errno, os) := sys_read os writable errno in
      let savedErrno := s32 rc in
      if 0 <? rc then
        buf ← receive buf d rc;
        readFull_loop fuel os buf (n + rc) errno
      else Ret (n, savedErrno, errno, buf, os)
  end.

(** Returns [n], [*savedErrno], [errno], the buffer and the kernel. *)
Definition readFull (os : OS) (buf : Buffer) (errno : Z) : outcome (Z * Z * Z * Buffer * OS) :=
  assert (0 <=? writableBytes buf) ;;
  readFull_loop (S (length (rx os))) os buf 0 errno.

(** ** writeFull *)

Fixpoint writeFull_loop (fuel : nat) (os : OS) (data : bytes) (left_ n savedErrno errno : Z) :
    outcome (Z * Z * Z * OS) :=
  if 0 <? left_ then
    match fuel with
    | O => Abort OutOfFuel
    | S fuel =>
        let '(rc, errno, os) := sys_write os (ztake left_ (zdrop n data)) errno in
        let savedErrno := s32 rc in
        if 0 <? rc then writeFull_loop fuel os data (left_ - rc) (n + rc) savedErrno errno
        else Ret (n, savedErrno, errno, os)
    end
  else Ret (n, savedErrno, errno, os).

Definition writeFull (os : OS) (data : bytes) (savedErrno errno : Z) : outcome (Z * Z * Z * OS) :=
  writeFull_loop (length data) os data (s64 (zlen data)) 0 savedErrno errno.

(** ** SSL_read and SSL_write: fuel bounds the number of calls *)

Fixpoint SSL_read (fuel : nat) (os : OS) (buf : Buffer) (n savedErrno errno : Z) :
    outcome (Z * Z * Z * Buffer * OS) :=
  match fuel with
  | O => Abort OutOfFuel
  | S fuel =>
      buf ← (if writableBytes buf =? 0 then ensureWritableBytes buf 4096 else Ret buf);
      let writable := writableBytes buf in
      let '(rc, err, left_, d, errno, os) := ossl_read os (s32 writable) errno in
      if 0 <? rc then
        assert (err =? 0) ;;
        buf ← receive buf d rc;
        let n := n + rc in
        if 0 <? left_ then
          buf ← (if writableBytes buf <? left_ then ensureWritableBytes buf left_ else Ret buf);
          SSL_read fuel os buf n savedErrno errno
        else
          assert (left_ =? 0) ;;
          Ret (n, savedErrno, errno, buf, os)
      else if rc <? 0 then Ret (n, err, errno, buf, os)
      else
        assert (left_ =? 0) ;;
        Ret (n, err, errno, buf, os)
  end.

Fixpoint SSL_write_loop (fuel : nat) (os : OS) (data : bytes) (left_ n savedErrno errno : Z) :
    outcome (Z * Z * Z * OS) :=
  if 0 <? left_ then
    match fuel with
    | O => Abort OutOfFuel
    | S fuel =>
        let '(rc, err, errno, os) := ossl_write os (zdrop n data) (s32 left_) errno in
        if 0 <? rc then
          assert (err =? 0) ;;
          SSL_write_loop fuel os data (left_ - rc) (n + rc) savedErrno errno
        else Ret (n, err, errno, os)
    end
  else Ret (n, savedErrno, errno, os).

Definition SSL_write (os : OS) (data : bytes) (savedErrno errno : Z) : outcome (Z * Z * Z * OS) :=
  SSL_write_loop (length data) os data (s64 (zlen data)) 0 savedErrno errno.

(** ** SSL_free and SSL_handshake: [ssl] says whether the SSL object exists *)

Definition SSL_free (os : OS) (ssl : bool) (errno : Z) : Z * OS :=
  if ssl then ossl_shutdown_free os errno else (errno, os).

(** Returns the result, [saveErrno], the SSL pointer, [errno] and the kernel. *)
Definition SSL_handshake (os : OS) (ctx ssl : bool) (saveErrno errno : Z) :
    outcome (bool * Z * bool * Z * OS) :=
  assert ctx ;;
  let do_handshake (os : OS) :=
    let '(rc, err, errno, os) := ossl_do_handshake os errno in
    if rc =? 1 then (true, saveErrno, true, errno, os)
    else if (err =? SSL_ERROR_WANT_READ) || (err =? SSL_ERROR_WANT_WRITE)
         || (err =? SSL_ERROR_ZERO_RETURN) || (err =? SSL_ERROR_WANT_CONNECT)
         || (err =? SSL_ERROR_WANT_ACCEPT)
    then (false, err, true, errno, os)
    else let '(errno, os) := SSL_free os true errno in (false, err, false, errno, os) in
  if ssl then Ret (do_handshake os)
  else
    let '(created, os) := ossl_new os in
    if negb created then Ret (false, saveErrno, false, errno, os)
    else
      let '(fd_set, os) := ossl_set_fd os in
      if negb fd_set then
        let '(errno, os) := SSL_free os true errno in
        Ret (false, saveErrno, false, errno, os)
      else Ret (do_handshake os).

End io.

(** ** What the loops guarantee *)

Notation has b v r := (buf_has wf readable room_of b v r).

Section io_correct.
Context {OS : Type} `{!Kernel OS, !KernelLaws OS}.

Lemma receive_has buf d rc :
  wf buf → Forall_byte d → zlen d = rc → rc ≤ writableBytes buf →
  ∃ b', receive buf d rc = Ret b' ∧ has b' (readable buf ++ d) (room_of buf - rc).
Proof.
  intros Hb Hd <- Hw. unfold receive. destruct (fill_has buf d) as [-> Hh]; [done..|]. orun.
  unfold hasWritten. rewrite writableBytes_eq in Hw by done. pose proof Hb as [].
  set (b2 := mkBuffer _ _ (writerIndex_ buf)).
  assert (writableBytes b2 = writableBytes buf) as Hw2.
  { unfold writableBytes, b2. cbn [buffer_ writerIndex_]. by rewrite length_write by lia. }
  rewrite Hw2, writableBytes_eq by done. orun. eexists. split; [reflexivity|]. exact Hh.
Qed.

(** How the last system call of a loop ended. *)
Definition stopped (saved errno errno' : Z) : Prop :=
  (saved = 0 ∧ errno' = errno) ∨ (saved = -1 ∧ 0 < errno').

Lemma s32_rc rc : -1 ≤ rc ≤ kMaxTransfer → s32 rc = rc.
Proof. intros. apply sint_small; unfold kMaxTransfer in *; lia. Qed.

Lemma ensure_space buf r :
  wf buf → 4096 ≤ r → r ≤ room_of buf →
  ∃ b, (if writableBytes buf =? 0 then ensureWritableBytes buf 4096 else Ret buf) = Ret b ∧
    has b (readable buf) (room_of buf) ∧ 0 < writableBytes b.
Proof.
  intros Hb H1 H2. destruct (Z.eqb_spec (writableBytes buf) 0).
  - destruct (ensureWritableBytes_has buf 4096) as (b & -> & Hh & Hw); [done|lia|].
    exists b. split_and!; [done|done|lia].
  - exists buf. split_and!; [done|done|]. rewrite writableBytes_eq in * by done.
    destruct Hb. lia.
Qed.

(** What is known of the [errno] of a failing [read]. *)
Definition read_failures (P : Z → Prop) : Prop := ∀ os len e rc d e' os',
  0 < len → sys_read os len e = (rc, d, e', os') → rc < 0 → P e'.

Lemma readFull_loop_has P fuel os buf n errno :
  read_failures P → wf buf → (length (rx os) < fuel)%nat → zlen (rx os) + 4096 ≤ room_of buf →
  ∃ d saved errno' buf' os',
    readFull_loop fuel os buf n errno = Ret (n + zlen d, saved, errno', buf', os') ∧
    has buf' (readable buf ++ d) (room_of buf - zlen d) ∧
    rx os = d ++ rx os' ∧ tx os' = tx os ∧ Forall_byte d ∧ stopped saved errno errno' ∧
    (saved = -1 → P errno').
Proof using KernelLaws0.
  intros HP. revert os buf n errno. induction fuel as [|fuel IH]; intros os buf n errno Hb Hf Hr; [lia|].
  cbn [readFull_loop].
  destruct (ensure_space buf 4096) as (b & -> & [Hwb Hv Hrm] & Hw); [done|lia|lia|]. orun.
  destruct (sys_read os _ errno) as [[[rc d] errno1] os1] eqn:Hread.
  pose proof (HP _ _ _ _ _ _ _ Hw Hread) as HPr. apply read_law in Hread; [|done]. destruct Hread as [Hrc Hd Hbd Hrx Htx He].
  destruct (Z.ltb_spec 0 rc).
  - destruct (receive_has b d rc) as (b2 & -> & [Hw2 Hv2 Hr2]); [done..|lia|lia|]. orun.
    rewrite Hrx, length_app in Hf, Hr.
    destruct (IH os1 b2 (n + rc) errno1) as (d' & saved & errno' & b3 & os2 & -> & [Hw3 Hv3 Hr3] & Hx & Ht & Hbd' & Hs & HPs);
      [done|lia|lia|].
    exists (d ++ d'), saved, errno', b3, os2. rewrite !length_app, Nat2Z.inj_add. split_and!.
    + by replace (n + (zlen d + zlen d')) with (n + rc + zlen d') by lia.
    + split; [done| |lia]. by rewrite Hv3, Hv2, Hv, app_assoc.
    + by rewrite Hrx, Hx, app_assoc.
    + by rewrite Ht.
    + by apply Forall_app.
    + rewrite (proj2 (Z.ltb_ge rc 0)) in He by lia. by subst.
    + done.
  - exists [], (s32 rc), errno1, b, os1. rewrite Z.add_0_r, app_nil_r, Z.sub_0_r.
    destruct d; [|cbn in Hd; lia]. rewrite s32_rc by lia. split_and!; try done; [|auto with lia].
    unfold stopped. destruct (Z.ltb_spec rc 0); [right|left]; lia.
Qed.

Lemma readFull_has P os buf errno :
  read_failures P → wf buf → zlen (rx os) + 4096 ≤ room_of buf →
  ∃ d saved errno' buf' os',
    readFull os buf errno = Ret (zlen d, saved, errno', buf', os') ∧
    has buf' (readable buf ++ d) (room_of buf - zlen d) ∧
    rx os = d ++ rx os' ∧ tx os' = tx os ∧ Forall_byte d ∧ stopped saved errno errno' ∧
    (saved = -1 → P errno').
Proof using KernelLaws0.
  intros HP Hb Hr. unfold readFull.
  rewrite writableBytes_eq by done. pose proof Hb as []. orun.
  apply (readFull_loop_has P _ _ _ 0); [done|done|lia|done].
Qed.

(** How [writeFull] ends after [k] of the bytes [data]: there was nothing to
    write, everything was written, or the last call wrote nothing, with a
    result and an [errno] that satisfy [P]. *)
Inductive write_end (P : Z → Z → Prop) (data : bytes) (k saved saved' errno errno' : Z) : Prop :=
  | write_nothing : data = [] → k = 0 → saved' = saved → errno' = errno →
      write_end P data k saved saved' errno errno'
  | write_all : k = zlen data → 0 < k → 0 < saved' → errno' = errno →
      write_end P data k saved saved' errno errno'
  | write_some : 0 ≤ k < zlen data → stopped saved' errno errno' → P saved' errno' →
      write_end P data k saved saved' errno errno'.

(** What is known of a [write] that fails or writes nothing. *)
Definition write_failures (P : Z → Z → Prop) : Prop := ∀ os data e rc e' os',
  data ≠ [] → sys_write os data e = (rc, e', os') → rc ≤ 0 → P rc e'.

Lemma ztake_zdrop_app (a b : Z) (l : bytes) :
  0 ≤ a → 0 ≤ b → ztake a l ++ ztake b (zdrop a l) = ztake (a + b) l.
Proof.
  intros. unfold ztake, zdrop. rewrite Z2Nat.inj_add by lia.
  rewrite <- (take_drop (Z.to_nat a) (take (Z.to_nat a + Z.to_nat b) l)).
  rewrite take_take, Nat.min_l by lia. by rewrite take_drop_commute.
Qed.

Lemma writeFull_loop_ok P fuel os data n saved errno :
  write_failures P → 0 ≤ n ≤ zlen data → (Z.to_nat (zlen data - n) ≤ fuel)%nat → (0 < n → 0 < saved) →
  ∃ k saved' errno' os',
    writeFull_loop fuel os data (zlen data - n) n saved errno = Ret (k, saved', errno', os') ∧
    n ≤ k ≤ zlen data ∧ tx os' = tx os ++ ztake (k - n) (zdrop n data) ∧ rx os' = rx os ∧
    write_end P data k saved saved' errno errno'.
Proof using KernelLaws0.
  intros HP. revert os n saved errno.
  induction fuel as [|fuel IH]; intros os n saved errno Hn Hf Hs;
    cbn [writeFull_loop].
  all: destruct (Z.ltb_spec 0 (zlen data - n)) as [Hl|Hl]; [|
    exists n, saved, errno, os; split_and!; try done; try lia;
    [by rewrite Z.sub_diag, app_nil_r|
     destruct (decide (n = 0)) as [->|]; [apply write_nothing|apply write_all]; try done; try lia;
     destruct data; [done|cbn in *; lia]]].
  - lia.
  - destruct (sys_write os _ errno) as [[rc errno1] os1] eqn:Hw.
    assert (zlen (zdrop n data) = zlen data - n) as Hlz by (apply length_zdrop; lia).
    rewrite ztake_all in Hw by lia.
    assert (zdrop n data ≠ []) as Hne by (intros E; rewrite E in Hlz; cbn in Hlz; lia).
    pose proof (HP _ _ _ _ _ _ Hne Hw) as HPw. apply write_law in Hw; [|done].
    destruct Hw as [Hrc Ht Hx He]. rewrite s32_rc by lia. destruct (Z.ltb_spec 0 rc).
    + replace (zlen data - n - rc) with (zlen data - (n + rc)) by lia.
      destruct (IH os1 (n + rc) rc errno1) as (k & saved' & errno' & os2 & -> & Hk & Ht2 & Hx2 & Hend);
        [lia..|].
      exists k, saved', errno', os2. rewrite (proj2 (Z.ltb_ge rc 0)) in He by lia. subst errno1.
      split_and!; [done|lia|lia| |by rewrite Hx2|].
      * rewrite Ht2, Ht, <- app_assoc. f_equal.
        replace (k - n) with (rc + (k - (n + rc))) by lia.
        rewrite <- ztake_zdrop_app by lia. f_equal. unfold zdrop. rewrite drop_drop.
        do 2 f_equal. lia.
      * destruct Hend; [subst; cbn in *; lia|by apply write_all|by apply write_some].
    + exists n, rc, errno1, os1. rewrite Z.sub_diag.
      assert (ztake rc (zdrop n data) = []) as E.
      { unfold ztake. replace (Z.to_nat rc) with 0%nat by lia. done. }
      rewrite E in Ht. split_and!; try done; try lia. apply write_some; [lia| |auto with lia].
      unfold stopped. destruct (Z.ltb_spec rc 0); [right|left]; lia.
Qed.

Lemma writeFull_ok P os data saved errno :
  write_failures P → zlen data < 2 ^ 63 →
  ∃ k saved' errno' os',
    writeFull os data saved errno = Ret (k, saved', errno', os') ∧
    0 ≤ k ≤ zlen data ∧ tx os' = tx os ++ ztake k data ∧ rx os' = rx os ∧
    write_end P data k saved saved' errno errno'.
Proof using KernelLaws0.
  intros HP Hl. unfold writeFull, s64. rewrite sint_small by lia.
  destruct (writeFull_loop_ok P (length data) os data 0 saved errno)
    as (k & saved' & errno' & os' & Hw & Hk & Ht & Hx & Hend); [done|lia..|].
  rewrite Z.sub_0_r in Hw, Ht. exists k, saved', errno', os'. split_and!; try done; lia.
Qed.

End io_correct.

(** ** A kernel that follows a script

    [E] are the errors the script may contain besides a socket that is not
    ready.  A chunk of input is delivered in as many reads as its size needs, an
    empty chunk is the end of the stream; a write takes up to the given number
    of bytes.  When the script is over the socket is not ready. *)

Class ErrorCode (E : Type) : Type := {
  error_code : E → Z;
  error_code_pos e : 0 < error_code e;
}.

Inductive script_read (E : Type) : Type :=
  | RData (d : bytes)
  | RFail (e : E).
Arguments RData {_} _.
Arguments RFail {_} _.

Inductive script_write (E : Type) : Type :=
  | WTake (n : positive)
  | WFail (e : E).
Arguments WTake {_} _.
Arguments WFail {_} _.

Record ScriptOS (E : Type) : Type := mkScript {
  so_reads : list (script_read E);
  so_writes : list (script_write E);
  so_tx : bytes;
}.
Arguments mkScript {_} _ _ _.
Arguments so_reads {_} _.
Arguments so_writes {_} _.
Arguments so_tx {_} _.

Section script.
Context {E : Type} `{!ErrorCode E}.

Definition chunk_bytes (r : script_read E) : bytes :=
  match r with RData d => map u8 d | RFail _ => [] end.

Definition script_sys_read (os : ScriptOS E) (len errno : Z) : Z * bytes * Z * ScriptOS E :=
  match so_reads os with
  | [] => (-1, [], EAGAIN, os)
  | RFail e :: rs => (-1, [], error_code e, mkScript rs (so_writes os) (so_tx os))
  | RData d :: rs =>
      let n := zlen d `min` (len `min` kMaxTransfer) in
      let rs := if zlen d <=? n then rs else RData (zdrop n d) :: rs in
      (n, ztake n (map u8 d), errno, mkScript rs (so_writes os) (so_tx os))
  end.

Definition script_sys_write (os : ScriptOS E) (data : bytes) (errno : Z) : Z * Z * ScriptOS E :=
  match so_writes os with
  | [] => (-1, EAGAIN, os)
  | WFail e :: ws => (-1, error_code e, mkScript (so_reads os) ws (so_tx os))
  | WTake k :: ws =>
      let n := Z.pos k `min` (zlen data `min` kMaxTransfer) in
      (n, errno, mkScript (so_reads os) ws (so_tx os ++ ztake n data))
  end.

#[global] Instance script_kernel : Kernel (ScriptOS E) := {
  sys_read := script_sys_read;
  sys_write := script_sys_write;
  rx os := concat (map chunk_bytes (so_reads os));
  tx := so_tx;
}.

(** The script says nothing about SSL: every call reports a failure. *)
#[global] Instance script_openssl : OpenSSL (ScriptOS E) := {
  ossl_new os := (false, os);
  ossl_set_fd os := (false, os);
  ossl_do_handshake os e := (-1, SSL_ERROR_SSL, e, os);
  ossl_read os _ e := (-1, SSL_ERROR_SSL, 0, [], e, os);
  ossl_write os _ _ e := (-1, SSL_ERROR_SSL, e, os);
  ossl_shutdown_free os e := (e, os);
}.

Lemma map_u8_bytes d : Forall_byte (map u8 d).
Proof. apply Forall_forall. intros x (y & -> & _)%list_elem_of_fmap. unfold u8, is_byte. apply Z.mod_pos_bound. done. Qed.

#[global] Instance script_laws : KernelLaws (ScriptOS E).
Proof.
  split.
  - intros os len errno rc d errno' os' Hlen. cbn. unfold script_sys_read.
    destruct os as [[|[d0|e0] rs] ws t]; cbn [so_reads]; intros [= <- <- <- <-];
      [by split; cbn; unfold kMaxTransfer; try lia| |].
    + set (n := zlen d0 `min` (len `min` kMaxTransfer)).
      assert (0 ≤ n ≤ zlen d0) as Hn by (unfold kMaxTransfer in *; lia).
      assert (zlen (map u8 d0) = zlen d0) as Hl by by rewrite length_map.
      split; cbn [rx tx script_kernel so_reads so_tx].
      * lia.
      * rewrite length_ztake by lia. lia.
      * apply Forall_ztake, map_u8_bytes.
      * destruct (Z.leb_spec (zlen d0) n); cbn.
        -- by rewrite ztake_all by lia.
        -- rewrite app_assoc. f_equal. unfold ztake, zdrop.
           by rewrite <- (take_drop (Z.to_nat n) (map u8 d0)) at 1; rewrite skipn_map.
      * done.
      * by rewrite (proj2 (Z.ltb_ge n 0)) by lia.
    + split; cbn; try done; try (unfold kMaxTransfer; lia). apply error_code_pos.
  - intros os data errno rc errno' os' Hne. cbn. unfold script_sys_write.
    assert (0 < zlen data) as Hpos by (destruct data; [done|cbn; lia]).
    destruct os as [rs [|[k|e0] ws] t]; cbn [so_writes]; intros [= <- <- <-].
    + split; cbn; try (unfold kMaxTransfer; lia); try done. by rewrite app_nil_r.
    + split; cbn [rx tx script_kernel so_reads so_tx]; try done; [unfold kMaxTransfer; lia|].
      by rewrite (proj2 (Z.ltb_ge _ 0)) by (unfold kMaxTransfer; lia).
    + split; cbn; try (unfold kMaxTransfer; lia); try done; [by rewrite app_nil_r|apply error_code_pos].
Qed.

End script.

(** A peer that never resets the connection, and one that may. *)
Inductive not_ready : Type := NotReady | Interrupted.

#[global] Instance not_ready_code : ErrorCode not_ready.
Proof.
  refine {| error_code e := match e with NotReady => EAGAIN | Interrupted => EINTR end |}.
  abstract (by intros []).
Defined.

#[global] Instance positive_code : ErrorCode positive.
Proof. refine {| error_code e := Z.pos e |}. abstract done. Defined.

Lemma script_writes_retry :
  write_failures (OS := ScriptOS not_ready) (λ rc e, rc < 0 ∧ (e = EAGAIN ∨ e = EINTR)).
Proof.
  intros os data e rc e' os' Hne. cbn. unfold script_sys_write.
  assert (0 < zlen data) as Hpos by (destruct data; [done|cbn; lia]).
  destruct (so_writes os) as [|[k|[]] ws]; intros [= <- <- <-] Hrc; cbn.
  2: unfold kMaxTransfer in *; lia.
  all: split; [done|auto].
Qed.

Lemma script_reads_retry :
  read_failures (OS := ScriptOS not_ready) (λ e, e = EAGAIN ∨ e = EINTR).
Proof.
  intros os len e rc d e' os' Hlen. cbn. unfold script_sys_read.
  destruct (so_reads os) as [|[k|[]] ws]; intros [= <- <- <- <-] Hrc; cbn; auto.
  unfold kMaxTransfer in *. lia.
Qed.

End SocketIO.
