(* ===== verification/Channel.v ===== *)
(** * Channel: interest in a descriptor and its registration with epoll
    (src/muduo-vip/muduo/net/Channel.{h,cc}, poller/EPollPoller.{h,cc})

    A [Channel] holds the events its owner wants, the [Poller] registers them
    with the kernel by [epoll_ctl].  The calls are recorded in order in [ctl];
    [interest] is what epoll(7) says the kernel's interest list holds after
    them.  _MUDUO_OPTIMIZE_CHNANNEL_ is not defined. *)

From S2P Require Import Prelude.

Module Channel.

(** ** Event bits *)

Definition POLLIN : Z := 1.
Definition POLLPRI : Z := 2.
Definition POLLOUT : Z := 4.
Definition POLLERR : Z := 8.
Definition POLLHUP : Z := 16.
Definition POLLNVAL : Z := 32.
Definition POLLRDHUP : Z := 8192.
Definition EPOLLET : Z := 2 ^ 31.

Definition kNoneEvent : Z := 0.
Definition kReadEvent : Z := Z.lor POLLIN POLLPRI.
Definition kReadEventET : Z := Z.lor (Z.lor POLLIN POLLPRI) EPOLLET.
Definition kWriteEvent : Z := POLLOUT.
Definition kWriteEventET : Z := Z.lor POLLOUT EPOLLET.

Definition has_bits (ev mask : Z) : bool := negb (Z.land ev mask =? 0).
Definition clear_bits (ev mask : Z) : Z := Z.land ev (Z.lnot mask).

(** States of a channel in the poller. *)
Definition kNew : Z := -1.
Definition kAdded : Z := 1.
Definition kDeleted : Z := 2.

(** [ptr] is the identity of the object, its address. *)
Record Channel : Type := mkChannel {
  ptr : Z;
  fd_ : Z;
  events_ : Z;
  revents_ : Z;
  index_ : Z;
  tied_ : bool;
  eventHandling_ : bool;
  addedToLoop_ : bool;
}.

Definition Channel_ctor (p fd : Z) : Channel := mkChannel p fd 0 0 (-1) false false false.

Definition set_events (c : Channel) (ev : Z) : Channel :=
  mkChannel (ptr c) (fd_ c) ev (revents_ c) (index_ c) (tied_ c) (eventHandling_ c) (addedToLoop_ c).
Definition set_revents (c : Channel) (revt : Z) : Channel :=
  mkChannel (ptr c) (fd_ c) (events_ c) revt (index_ c) (tied_ c) (eventHandling_ c) (addedToLoop_ c).
Definition set_index (c : Channel) (idx : Z) : Channel :=
  mkChannel (ptr c) (fd_ c) (events_ c) (revents_ c) idx (tied_ c) (eventHandling_ c) (addedToLoop_ c).
Definition tie (c : Channel) : Channel :=
  mkChannel (ptr c) (fd_ c) (events_ c) (revents_ c) (index_ c) true (eventHandling_ c) (addedToLoop_ c).
Definition set_eventHandling (c : Channel) (b : bool) : Channel :=
  mkChannel (ptr c) (fd_ c) (events_ c) (revents_ c) (index_ c) (tied_ c) b (addedToLoop_ c).
Definition set_added (c : Channel) (b : bool) : Channel :=
  mkChannel (ptr c) (fd_ c) (events_ c) (revents_ c) (index_ c) (tied_ c) (eventHandling_ c) b.

Definition isNoneEvent (c : Channel) : bool := events_ c =? kNoneEvent.
Definition isWriting (c : Channel) : bool := has_bits (events_ c) kWriteEvent.
Definition isReading (c : Channel) : bool := has_bits (events_ c) kReadEvent.
Definition readEvent (et : bool) : Z := if et then kReadEventET else kReadEvent.
Definition writeEvent (et : bool) : Z := if et then kWriteEventET else kWriteEvent.

(** [isETReading] and [isETWriting] assign to [events_] ([&=]). *)
Definition isETReading (c : Channel) : bool * Channel :=
  let ev := clear_bits (events_ c) kReadEvent in (negb (ev =? 0), set_events c ev).
Definition isETWriting (c : Channel) : bool * Channel :=
  let ev := clear_bits (events_ c) kWriteEvent in (negb (ev =? 0), set_events c ev).

(** ** The poller *)

Inductive epoll_op : Type := EPOLL_CTL_ADD | EPOLL_CTL_MOD | EPOLL_CTL_DEL.

(** [channels_] maps descriptors to channels; [ctl] are the calls of
    [epoll_ctl], the newest first. *)
Record Poller : Type := mkPoller {
  channels_ : gmap Z Z;
  ctl : list (epoll_op * Z * Z);
}.

Definition Poller_ctor : Poller := mkPoller ∅ [].

Definition update (p : Poller) (operation : epoll_op) (c : Channel) : Poller :=
  mkPoller (channels_ p) ((operation, fd_ c, events_ c) :: ctl p).

(** [channels_.find(fd) != end()] and [channels_[fd] == channel]. *)
Definition found (p : Poller) (c : Channel) : bool :=
  match channels_ p !! fd_ c with Some _ => true | None => false end.
Definition is_mine (p : Poller) (c : Channel) : bool :=
  match channels_ p !! fd_ c with Some q => q =? ptr c | None => false end.

Definition updateChannel (p : Poller) (c : Channel) : outcome (Poller * Channel) :=
  let index := index_ c in
  if (index =? kNew) || (index =? kDeleted) then
    p ← (if index =? kNew then
           assert (negb (found p c)) ;;
           Ret (mkPoller (<[fd_ c := ptr c]> (channels_ p)) (ctl p))
         else
           assert (found p c) ;;
           assert (is_mine p c) ;;
           Ret p);
    let c := set_index c kAdded in
    Ret (update p EPOLL_CTL_ADD c, c)
  else
    assert (found p c) ;;
    assert (is_mine p c) ;;
    assert (index =? kAdded) ;;
    if isNoneEvent c then Ret (update p EPOLL_CTL_DEL c, set_index c kDeleted)
    else Ret (update p EPOLL_CTL_MOD c, c).

Definition removeChannel (p : Poller) (c : Channel) : outcome (Poller * Channel) :=
  assert (found p c) ;;
  assert (is_mine p c) ;;
  assert (isNoneEvent c) ;;
  let index := index_ c in
  assert ((index =? kAdded) || (index =? kDeleted)) ;;
  let p := mkPoller (delete (fd_ c) (channels_ p)) (ctl p) in
  let p := if index =? kAdded then update p EPOLL_CTL_DEL c else p in
  Ret (p, set_index c kNew).

(** ** Operations of the channel *)

Definition channel_update (p : Poller) (c : Channel) : outcome (Poller * Channel) :=
  updateChannel p (set_added c true).

Definition enableReading (p : Poller) (c : Channel) (et : bool) : outcome (Poller * Channel) :=
  channel_update p (set_events c (Z.lor (events_ c) (readEvent et))).
Definition disableReading (p : Poller) (c : Channel) (et : bool) : outcome (Poller * Channel) :=
  channel_update p (set_events c (clear_bits (events_ c) (readEvent et))).
Definition enableWriting (p : Poller) (c : Channel) (et : bool) : outcome (Poller * Channel) :=
  channel_update p (set_events c (Z.lor (events_ c) (writeEvent et))).
Definition disableWriting (p : Poller) (c : Channel) (et : bool) : outcome (Poller * Channel) :=
  channel_update p (set_events c (clear_bits (events_ c) (writeEvent et))).
Definition disableAll (p : Poller) (c : Channel) : outcome (Poller * Channel) :=
  channel_update p (set_events c kNoneEvent).

(** What the loop is doing: [None] while it handles no events ([eventHandling_]), else
    [currentActiveChannel_] and [activeChannels_].  [EventLoop::removeChannel] asserts
    that a channel whose events are still to be handled is not removed. *)
Definition handling : Type := option (option Z * list Z).

Definition may_remove (eh : handling) (c : Channel) : bool :=
  match eh with
  | None => true
  | Some (currentActiveChannel, activeChannels) =>
      bool_decide (currentActiveChannel = Some (ptr c)) || bool_decide (ptr c ∉ activeChannels)
  end.

Definition remove (eh : handling) (p : Poller) (c : Channel) : outcome (Poller * Channel) :=
  assert (isNoneEvent c) ;;
  assert (may_remove eh c) ;;
  removeChannel p (set_added c false).

(** ** The kernel's interest list, from epoll_ctl(2)

    [None]: a call failed with [EEXIST] or [ENOENT]. *)
Definition epoll_ctl_spec (call : epoll_op * Z * Z) (m : gmap Z Z) : option (gmap Z Z) :=
  let '(op, fd, ev) := call in
  match op, m !! fd with
  | EPOLL_CTL_ADD, None => Some (<[fd := ev]> m)
  | EPOLL_CTL_MOD, Some _ => Some (<[fd := ev]> m)
  | EPOLL_CTL_DEL, Some _ => Some (delete fd m)
  | _, _ => None
  end.

Fixpoint interest (calls : list (epoll_op * Z * Z)) : option (gmap Z Z) :=
  match calls with
  | [] => Some ∅
  | c :: calls => interest calls ≫= epoll_ctl_spec c
  end.

(** ** The registration invariant of the channels [cs] of a poller

    Channels are found under their pointers; two channels have different
    descriptors.  A channel is in [channels_] unless it is new, and the kernel
    waits for the events of exactly the added ones. *)
Record reg (p : Poller) (m : gmap Z Z) (c : Channel) : Prop := Reg {
  reg_index : index_ c = kNew ∨ index_ c = kAdded ∨ index_ c = kDeleted;
  reg_channels : channels_ p !! fd_ c = if index_ c =? kNew then None else Some (ptr c);
  reg_interest : m !! fd_ c = if index_ c =? kAdded then Some (events_ c) else None;
}.

Definition poller_inv (p : Poller) (cs : gmap Z Channel) : Prop :=
  ∃ m, interest (ctl p) = Some m ∧
    (∀ i c, cs !! i = Some c → ptr c = i ∧ reg p m c) ∧
    (∀ i j c d, cs !! i = Some c → cs !! j = Some d → fd_ c = fd_ d → i = j).

(** Requests of the channels' owners. *)
Inductive channel_op : Type :=
  | OpEnableReading (et : bool)
  | OpDisableReading (et : bool)
  | OpEnableWriting (et : bool)
  | OpDisableWriting (et : bool)
  | OpDisableAll
  | OpRemove (eh : handling).

#[global] Instance channel_op_eq_dec : EqDecision channel_op.
Proof. solve_decision. Defined.

Definition run_channel_op (p : Poller) (c : Channel) (o : channel_op) : outcome (Poller * Channel) :=
  match o with
  | OpEnableReading et => enableReading p c et
  | OpDisableReading et => disableReading p c et
  | OpEnableWriting et => enableWriting p c et
  | OpDisableWriting et => disableWriting p c et
  | OpDisableAll => disableAll p c
  | OpRemove eh => remove eh p c
  end.

(** [remove] is called on a channel that has been added, wants no events, and whose
    events are not still to be handled. *)
Definition op_allowed (c : Channel) (o : channel_op) : bool :=
  match o with
  | OpRemove eh => isNoneEvent c && negb (index_ c =? kNew) && may_remove eh c
  | _ => true
  end.

Fixpoint run_requests (p : Poller) (cs : gmap Z Channel) (os : list (Z * channel_op)) :
    outcome (Poller * gmap Z Channel) :=
  match os with
  | [] => Ret (p, cs)
  | (i, o) :: os =>
      match cs !! i with
      | None => Abort NullPointer
      | Some c =>
          '(p, c) ← run_channel_op p c o;
          run_requests p (<[i := c]> cs) os
      end
  end.

(** ** Proofs *)

(** [c] is [c0] with other events, not yet told to the poller. *)
Definition same_slot (c0 c : Channel) : Prop :=
  ptr c = ptr c0 ∧ fd_ c = fd_ c0 ∧ index_ c = index_ c0.

Lemma reg_frame p m p' m' fd d :
  fd_ d ≠ fd → (∀ x, x ≠ fd → channels_ p' !! x = channels_ p !! x ∧ m' !! x = m !! x) →
  reg p m d → reg p' m' d.
Proof.
  intros Hne Hx [H1 H2 H3]. destruct (Hx _ Hne) as [E1 E2]. split; [done|..]; congruence.
Qed.

Lemma poller_inv_step p cs i c0 c m p' m' :
  interest (ctl p) = Some m →
  (∀ i c, cs !! i = Some c → ptr c = i ∧ reg p m c) →
  (∀ i j c d, cs !! i = Some c → cs !! j = Some d → fd_ c = fd_ d → i = j) →
  cs !! i = Some c0 → ptr c = ptr c0 → fd_ c = fd_ c0 →
  interest (ctl p') = Some m' → reg p' m' c →
  (∀ x, x ≠ fd_ c0 → channels_ p' !! x = channels_ p !! x ∧ m' !! x = m !! x) →
  poller_inv p' (<[i := c]> cs).
Proof.
  intros Hm Hreg Hfd Hi Hp Hf Hm' Hc Hx. exists m'. split_and!; [done|..].
  - intros j d Hj. destruct (decide (i = j)) as [->|Hne].
    + rewrite lookup_insert_eq in Hj. simplify_eq. rewrite Hp. split; [by apply (Hreg _ _ Hi)|done].
    + rewrite lookup_insert_ne in Hj by done. destruct (Hreg _ _ Hj) as [Hpd Hd].
      split; [done|]. apply (reg_frame p m _ _ (fd_ c0)); [|done|done].
      intros E. by apply Hne, (Hfd i j c0 d).
  - assert (∀ k e, <[i := c]> cs !! k = Some e → ∃ e0, cs !! k = Some e0 ∧ fd_ e = fd_ e0) as Hslot.
    { intros k e [[<- <-]|[_ Hk]]%lookup_insert_Some; eauto. }
    intros j k d e (d0 & Hj & Ed)%Hslot (e0 & Hk & Ee)%Hslot E.
    apply (Hfd j k d0 e0); congruence.
Qed.

Lemma updateChannel_inv p cs i c0 c :
  poller_inv p cs → cs !! i = Some c0 → same_slot c0 c →
  ∃ p' c', updateChannel p c = Ret (p', c') ∧ poller_inv p' (<[i := c']> cs) ∧
    c' = set_index c (if negb (index_ c =? kAdded) then kAdded
                      else if isNoneEvent c then kDeleted else kAdded).
Proof.
  intros (m & Hm & Hreg & Hfd) Hi (Hp & Hf & Hix).
  pose proof (Hreg i c0 Hi) as [Hp0 [Hidx Hch Hint]].
  rewrite <- Hix, <- ?Hf, <- ?Hp in *. unfold updateChannel, found, is_mine. rewrite Hch.
  pose proof (poller_inv_step p cs i c0) as Hstep.
  destruct Hidx as [E|[E|E]]; rewrite E in *; cbn; rewrite ?Z.eqb_refl; orun.
  - eexists _, _. split_and!; [done| |done].
    apply (Hstep _ m _ (<[fd_ c := events_ c]> m)); try done.
    + cbn. rewrite Hm. cbn. by rewrite Hint.
    + split; cbn; [auto| |]; by rewrite lookup_insert_eq.
    + intros x Hx. cbn. rewrite !lookup_insert_ne by congruence. done.
  - destruct (isNoneEvent c) eqn:Hn.
    + eexists _, _. split_and!; [done| |done].
      apply (Hstep _ m _ (delete (fd_ c) m)); try done.
      * cbn. rewrite Hm. cbn. by rewrite Hint.
      * split; cbn; [auto|done|]. by rewrite lookup_delete_eq.
      * intros x Hx. cbn. rewrite !lookup_delete_ne by congruence. done.
    + eexists _, c. split_and!; [done| |destruct c; cbn in *; by subst].
      apply (Hstep _ m _ (<[fd_ c := events_ c]> m)); try done.
      * cbn. rewrite Hm. cbn. by rewrite Hint.
      * split; rewrite E; cbn; [auto|done|]. by rewrite lookup_insert_eq.
      * intros x Hx. cbn. rewrite !lookup_insert_ne by congruence. done.
  - eexists _, _. split_and!; [done| |done].
    apply (Hstep _ m _ (<[fd_ c := events_ c]> m)); try done.
    + cbn. rewrite Hm. cbn. by rewrite Hint.
    + split; cbn; [auto|done|]. by rewrite lookup_insert_eq.
    + intros x Hx. cbn. rewrite !lookup_insert_ne by congruence. done.
Qed.

Lemma may_remove_self b c : may_remove (if b : bool then Some (Some (ptr c), [ptr c]) else None) c = true.
Proof. destruct b; [|done]. cbn. by rewrite bool_decide_eq_true_2. Qed.

Lemma remove_inv eh p cs i c :
  poller_inv p cs → cs !! i = Some c → op_allowed c (OpRemove eh) = true →
  ∃ p' c', remove eh p c = Ret (p', c') ∧ poller_inv p' (<[i := c']> cs).
Proof.
  intros (m & Hm & Hreg & Hfd) Hi [[Hn Hk]%andb_true_iff Hmay]%andb_true_iff.
  pose proof (Hreg i c Hi) as [Hp0 [Hidx Hch Hint]].
  unfold remove, removeChannel, found, is_mine. rewrite Hmay. cbn. rewrite Hn, Hch.
  replace (isNoneEvent (set_added c false)) with true by (by rewrite <- Hn).
  pose proof (poller_inv_step p cs i c) as Hstep.
  destruct Hidx as [E|[E|E]]; rewrite E in *; [done|..]; cbn; rewrite Z.eqb_refl; orun;
    (eexists _, _; split; [done|]).
  - apply (Hstep _ m _ (delete (fd_ c) m)); try done.
    + cbn. rewrite Hm. cbn. by rewrite Hint.
    + split; cbn; [auto| |]; by rewrite lookup_delete_eq.
    + intros x Hx. cbn. by rewrite !lookup_delete_ne by congruence.
  - apply (Hstep _ m _ m); try done.
    + split; cbn; [auto| |done]. by rewrite lookup_delete_eq.
    + intros x Hx. cbn. by rewrite !lookup_delete_ne by congruence.
Qed.

Lemma remove_not_allowed eh p cs i c :
  poller_inv p cs → cs !! i = Some c → op_allowed c (OpRemove eh) = false →
  remove eh p c = Abort AssertFailed.
Proof.
  intros (m & Hm & Hreg & Hfd) Hi Ha. pose proof (Hreg i c Hi) as [_ [_ Hch _]].
  unfold remove, removeChannel, found. cbn in *. destruct (isNoneEvent c); [|done].
  cbn in Ha. destruct (may_remove eh c); [|done]. rewrite andb_true_r in Ha.
  apply negb_false_iff in Ha. rewrite Ha in Hch. by rewrite Hch.
Qed.

Lemma run_channel_op_inv p cs i c o :
  poller_inv p cs → cs !! i = Some c → op_allowed c o = true →
  ∃ p' c', run_channel_op p c o = Ret (p', c') ∧ poller_inv p' (<[i := c']> cs).
Proof.
  intros Hinv Hi Ha. destruct o; [..|by apply remove_inv]; cbn [run_channel_op];
    unfold enableReading, disableReading, enableWriting, disableWriting, disableAll, channel_update;
    (edestruct updateChannel_inv as (p' & c' & -> & Hp' & _); [done|done| |by exists p', c']; done).
Qed.

Lemma poller_inv_init cs :
  (∀ i c, cs !! i = Some c → c = Channel_ctor i (fd_ c)) →
  (∀ i j c d, cs !! i = Some c → cs !! j = Some d → fd_ c = fd_ d → i = j) →
  poller_inv Poller_ctor cs.
Proof.
  intros Hc Hfd. exists ∅. split_and!; [done| |done]. intros i c Hi. rewrite (Hc i c Hi).
  split; [done|]. split; cbn; [by left|apply lookup_empty..].
Qed.


Definition kSampleChannels : gmap Z Channel :=
  <[100 := Channel_ctor 100 7]> (<[200 := Channel_ctor 200 8]> ∅).
Definition kSampleRequests : list (Z * channel_op) :=
  [(100, OpEnableReading true); (200, OpEnableReading false); (100, OpEnableWriting true);
   (100, OpDisableAll); (100, OpRemove (Some (Some 100, [100; 200]))); (100, OpEnableReading false)].

Lemma kSampleChannels_inv : poller_inv Poller_ctor kSampleChannels.
Proof.
  unfold kSampleChannels. apply poller_inv_init.
  - intros i c [[<- <-]|[_ [[<- <-]|[_ H]]%lookup_insert_Some]]%lookup_insert_Some; done.
  - intros i j c d [[<- <-]|[_ [[<- <-]|[_ H]]%lookup_insert_Some]]%lookup_insert_Some
      [[<- <-]|[_ [[<- <-]|[_ H']]%lookup_insert_Some]]%lookup_insert_Some; done.
Qed.


(** ** Edge-triggered channels lose the flag *)

(** In edge-triggered mode [disableWriting] clears EPOLLET for reading, too: a
    channel that was reading edge-triggered goes on level-triggered. *)
Theorem disableWriting_drops_edge_trigger p cs i c0 :
  poller_inv p cs → cs !! i = Some c0 → events_ c0 = Z.lor kReadEventET kWriteEventET →
  ∃ p' c', disableWriting p c0 true = Ret (p', c') ∧ events_ c' = kReadEvent ∧
    has_bits (events_ c') EPOLLET = false.
Proof.
  intros Hinv Hi He. unfold disableWriting, channel_update.
  edestruct updateChannel_inv as (p' & c' & -> & _ & ->); [done|done| |]; [done|].
  eexists _, _. split; [done|]. cbn. by rewrite He.
Qed.

Definition kWritingChannel : Channel :=
  set_events (Channel_ctor 100 7) (Z.lor kReadEventET kWriteEventET).

Lemma disableWriting_drops_edge_trigger_witness :
  ∃ p' c', disableWriting Poller_ctor kWritingChannel true = Ret (p', c') ∧
    events_ c' = kReadEvent ∧ has_bits (events_ c') EPOLLET = false.
Proof.
  apply (disableWriting_drops_edge_trigger Poller_ctor {[100 := kWritingChannel]} 100).
  - exists ∅. split_and!; [reflexivity|..].
    + intros i c [<- <-]%lookup_singleton_Some. split; [done|].
      split; [left; reflexivity|vm_compute; reflexivity..].
    + intros i j c d [<- <-]%lookup_singleton_Some [<- <-]%lookup_singleton_Some _. done.
  - vm_compute. reflexivity.
  - reflexivity.
Defined.

End Channel.
