(* ===== verification/TcpConnection.v ===== *)
(** * TcpConnection: one TCP connection of a server
    (src/muduo-vip/muduo/net/TcpConnection.{h,cc}, the dispatch of
    Channel::handleEvent, EventLoop's pending functors, and the removal of the
    connection by TcpServer)

    The state [Conn] holds the members of the class, the poller and the pending
    functors of the loop, [errno], the kernel, and the history [log] of what the
    connection did that others see.  The user's callbacks are parameters.  The
    connection, its loop and its server live in one thread; calls from other
    threads ([inLoop = false]) queue a functor as the code does.  The close
    callback is that of TcpServer; [in_map] says whether the server's
    [connections_] still has the connection.  [ndebug] switches the assertions
    of TcpConnection.cc, since EventLoop.h defines NDEBUG before some headers
    that it includes. *)

From S2P Require Import Prelude BytesBuffer Buffer SocketIO Channel.
Import Buffer SocketIO Channel.

Module TcpConnection.

Inductive StateE : Type := kDisconnected | kConnecting | kConnected | kDisconnecting.

#[global] Instance StateE_eq_dec : EqDecision StateE.
Proof. solve_decision. Defined.

Definition is_state (s t : StateE) : bool := bool_decide (s = t).

(** Functors queued in the loop, with their bound arguments. *)
Inductive functor : Type :=
  | FSendInLoop (message : bytes)
  | FShutdownInLoop
  | FForceCloseInLoop
  | FForceClose
  | FStartReadInLoop
  | FStopReadInLoop
  | FWriteComplete
  | FHighWaterMark (n : Z)
  | FConnectDestroyed.

#[global] Instance functor_eq_dec : EqDecision functor.
Proof. solve_decision. Defined.

(** History: a callback was called, data was accepted by [sendInLoop], input
    was consumed, the write side was shut down in this state after these bytes. *)
Inductive event : Type :=
  | EvConnection (s : StateE)
  | EvMessage
  | EvWriteComplete
  | EvHighWaterMark (n : Z)
  | EvSend (data : bytes)
  | EvRetrieve (data : bytes)
  | EvShutdownWrite (s : StateE) (written : bytes).

Record Conn (OS : Type) : Type := mkConn {
  state_ : StateE;
  reading_ : bool;
  channel_ : Channel;
  poller_ : Poller;
  inputBuffer_ : Buffer;
  outputBuffer_ : Buffer;
  ssl_ : bool;
  sslConnected_ : bool;
  errno : Z;
  os_ : OS;
  pending : list functor;
  delayed : list functor;
  in_map : bool;
  log : list event;
}.
Arguments mkConn {_}.
Arguments state_ {_}.
Arguments reading_ {_}.
Arguments channel_ {_}.
Arguments poller_ {_}.
Arguments inputBuffer_ {_}.
Arguments outputBuffer_ {_}.
Arguments ssl_ {_}.
Arguments sslConnected_ {_}.
Arguments errno {_}.
Arguments os_ {_}.
Arguments pending {_}.
Arguments delayed {_}.
Arguments in_map {_}.
Arguments log {_}.

Section setters.
Context {OS : Type}.
Implicit Types c : Conn OS.

Definition setState c (s : StateE) : Conn OS :=
  mkConn s (reading_ c) (channel_ c) (poller_ c) (inputBuffer_ c) (outputBuffer_ c) (ssl_ c)
    (sslConnected_ c) (errno c) (os_ c) (pending c) (delayed c) (in_map c) (log c).
Definition set_reading c (r : bool) : Conn OS :=
  mkConn (state_ c) r (channel_ c) (poller_ c) (inputBuffer_ c) (outputBuffer_ c) (ssl_ c)
    (sslConnected_ c) (errno c) (os_ c) (pending c) (delayed c) (in_map c) (log c).
Definition set_channel c (x : Poller * Channel) : Conn OS :=
  mkConn (state_ c) (reading_ c) x.2 x.1 (inputBuffer_ c) (outputBuffer_ c) (ssl_ c)
    (sslConnected_ c) (errno c) (os_ c) (pending c) (delayed c) (in_map c) (log c).
Definition set_input c (i : Buffer) : Conn OS :=
  mkConn (state_ c) (reading_ c) (channel_ c) (poller_ c) i (outputBuffer_ c) (ssl_ c)
    (sslConnected_ c) (errno c) (os_ c) (pending c) (delayed c) (in_map c) (log c).
Definition set_output c (o : Buffer) : Conn OS :=
  mkConn (state_ c) (reading_ c) (channel_ c) (poller_ c) (inputBuffer_ c) o (ssl_ c)
    (sslConnected_ c) (errno c) (os_ c) (pending c) (delayed c) (in_map c) (log c).
Definition set_ssl c (l : bool) : Conn OS :=
  mkConn (state_ c) (reading_ c) (channel_ c) (poller_ c) (inputBuffer_ c) (outputBuffer_ c) l
    (sslConnected_ c) (errno c) (os_ c) (pending c) (delayed c) (in_map c) (log c).
Definition set_sslConnected c (l : bool) : Conn OS :=
  mkConn (state_ c) (reading_ c) (channel_ c) (poller_ c) (inputBuffer_ c) (outputBuffer_ c)
    (ssl_ c) l (errno c) (os_ c) (pending c) (delayed c) (in_map c) (log c).
Definition set_errno c (e : Z) : Conn OS :=
  mkConn (state_ c) (reading_ c) (channel_ c) (poller_ c) (inputBuffer_ c) (outputBuffer_ c)
    (ssl_ c) (sslConnected_ c) e (os_ c) (pending c) (delayed c) (in_map c) (log c).
Definition set_os c (k : OS) : Conn OS :=
  mkConn (state_ c) (reading_ c) (channel_ c) (poller_ c) (inputBuffer_ c) (outputBuffer_ c)
    (ssl_ c) (sslConnected_ c) (errno c) k (pending c) (delayed c) (in_map c) (log c).
Definition set_pending c (fs : list functor) : Conn OS :=
  mkConn (state_ c) (reading_ c) (channel_ c) (poller_ c) (inputBuffer_ c) (outputBuffer_ c)
    (ssl_ c) (sslConnected_ c) (errno c) (os_ c) fs (delayed c) (in_map c) (log c).
Definition set_delayed c (fs : list functor) : Conn OS :=
  mkConn (state_ c) (reading_ c) (channel_ c) (poller_ c) (inputBuffer_ c) (outputBuffer_ c)
    (ssl_ c) (sslConnected_ c) (errno c) (os_ c) (pending c) fs (in_map c) (log c).
Definition set_in_map c (b : bool) : Conn OS :=
  mkConn (state_ c) (reading_ c) (channel_ c) (poller_ c) (inputBuffer_ c) (outputBuffer_ c)
    (ssl_ c) (sslConnected_ c) (errno c) (os_ c) (pending c) (delayed c) b (log c).
Definition record_event c (ev : event) : Conn OS :=
  mkConn (state_ c) (reading_ c) (channel_ c) (poller_ c) (inputBuffer_ c) (outputBuffer_ c)
    (ssl_ c) (sslConnected_ c) (errno c) (os_ c) (pending c) (delayed c) (in_map c)
    (log c ++ [ev]).

(** EventLoop::queueInLoop. *)
Definition queueInLoop c (f : functor) : Conn OS := set_pending c (pending c ++ [f]).

Definition connected c : bool := is_state (state_ c) kConnected.
Definition disconnected c : bool := is_state (state_ c) kDisconnected.
End setters.

Section tcp.
Context {OS : Type} `{!Kernel OS} `{!OpenSSL OS}.
Implicit Types c : Conn OS.

(** Configuration: NDEBUG, an SSL context, edge-triggered mode, which optional
    callbacks are set, the high-water mark, the number of calls [SSL_read] is
    followed for. *)
Variables (ndebug ssl_ctx_ enable_et_ has_writeComplete has_highWaterMark : bool).
Variables (highWaterMark_ : Z) (ssl_fuel : nat).
Variables (connectionCallback_ messageCallback_ : Conn OS → outcome (Conn OS)).

Definition assert_dbg (b : bool) : outcome unit := if ndebug then Ret tt else assert b.

Definition on_channel c (f : Poller → Channel → outcome (Poller * Channel)) : outcome (Conn OS) :=
  x ← f (poller_ c) (channel_ c);
  Ret (set_channel c x).

(** ** Closing *)

(** TcpServer::removeConnection, in the server's loop. *)
Definition removeConnection c : outcome (Conn OS) :=
  assert (in_map c) ;;
  Ret (queueInLoop (set_in_map c false) FConnectDestroyed).

Definition handleClose c : outcome (Conn OS) :=
  let '(e, k) := SSL_free (os_ c) (ssl_ c) (errno c) in
  let c := set_ssl (set_os (set_errno c e) k) false in
  assert_dbg (is_state (state_ c) kConnected || is_state (state_ c) kDisconnecting) ;;
  let c := setState c kDisconnected in
  c ← on_channel c disableAll;
  c ← connectionCallback_ (record_event c (EvConnection kDisconnected));
  removeConnection c.

Definition shutdownInLoop c : outcome (Conn OS) :=
  if negb (isWriting (channel_ c)) then Ret (record_event c (EvShutdownWrite (state_ c) (tx (os_ c))))
  else Ret c.

Definition forceCloseInLoop c : outcome (Conn OS) :=
  if is_state (state_ c) kConnected || is_state (state_ c) kDisconnecting
  then handleClose c else Ret c.

Definition connectDestroyed c : outcome (Conn OS) :=
  c ← (if is_state (state_ c) kConnected then
         let c := setState c kDisconnected in
         c ← on_channel c disableAll;
         connectionCallback_ (record_event c (EvConnection kDisconnected))
       else Ret c);
  on_channel c (remove None).

(** ** Sending *)

(** What follows a write; [retry] is what the caller does when the socket was
    not ready. *)
Definition after_plain_write c (savedErrno : Z) (retry : Conn OS → outcome (Conn OS)) :
    outcome (Conn OS) :=
  let e := errno c in
  if 0 <? savedErrno then
    if (e =? EINPROGRESS) || (e =? EAGAIN) || (e =? EINTR) then retry (set_errno c 0)
    else if e =? 0 then Ret c
    else handleClose c
  else if savedErrno =? 0 then handleClose c
  else
    if (e =? EAGAIN) || (e =? EINTR) then retry (set_errno c 0)
    else if e =? 0 then Ret c
    else handleClose c.

Definition after_ssl_write c (savedErrno : Z) (retry : Conn OS → outcome (Conn OS)) :
    outcome (Conn OS) :=
  if savedErrno =? SSL_ERROR_WANT_WRITE then retry c
  else if savedErrno =? SSL_ERROR_ZERO_RETURN then handleClose c
  else if savedErrno =? 0 then Ret c
  else handleClose c.

(** [writeFull] or [SSL_write] on the connection. *)
Definition write_out c (data : bytes) : outcome (Z * Z * Conn OS) :=
  '(n, saved, e, k) ← (if ssl_ c then SSL_write (os_ c) data 0 (errno c)
                       else writeFull (os_ c) data 0 (errno c));
  Ret (n, saved, set_os (set_errno c e) k).

(** The attempt to write at once: [nwrote], [remaining], [faultError]. *)
Definition send_directly c (data : bytes) : outcome (Z * Z * bool * Conn OS) :=
  let len := zlen data in
  '(nwrote, savedErrno, c) ← write_out c data;
  let remaining := if 0 <=? nwrote then u64 (len - nwrote) else len in
  let c := if (0 <=? nwrote) && (remaining =? 0) && has_writeComplete
           then queueInLoop c FWriteComplete else c in
  if ssl_ c then
    c ← after_ssl_write c savedErrno Ret;
    Ret (nwrote, remaining, false, c)
  else
    c ← after_plain_write c savedErrno Ret;
    let nwrote := 0 in
    let faultError := negb (errno c =? EAGAIN) && negb (errno c =? EINTR) &&
                      ((errno c =? EPIPE) || (errno c =? ECONNRESET)) in
    Ret (nwrote, remaining, faultError, c).

Definition sendInLoop c (data : bytes) : outcome (Conn OS) :=
  let len := zlen data in
  if is_state (state_ c) kDisconnected then Ret c
  else
    let c := record_event c (EvSend data) in
    '(nwrote, remaining, faultError, c) ←
      (if negb (isWriting (channel_ c)) && (readableBytes (outputBuffer_ c) =? 0)
       then send_directly c data else Ret (0, len, false, c));
    assert_dbg (remaining <=? len) ;;
    if negb faultError && (0 <? remaining) then
      let oldLen := readableBytes (outputBuffer_ c) in
      let c := if (highWaterMark_ <=? u64 (oldLen + remaining)) && (oldLen <? highWaterMark_)
                  && has_highWaterMark
               then queueInLoop c (FHighWaterMark (u64 (oldLen + remaining))) else c in
      o ← append (outputBuffer_ c) (ztake remaining (zdrop nwrote data));
      let c := set_output c o in
      if negb (isWriting (channel_ c)) then on_channel c (λ p ch, enableWriting p ch enable_et_)
      else Ret c
    else Ret c.

(** [send(const StringPiece&)] and [send(Buffer* )]; the latter returns the
    buffer it has emptied. *)
Definition send c (inLoop : bool) (message : bytes) : outcome (Conn OS) :=
  if is_state (state_ c) kConnected then
    if inLoop then sendInLoop c message else Ret (queueInLoop c (FSendInLoop message))
  else Ret c.

Definition send_buffer c (inLoop : bool) (buf : Buffer) : outcome (Conn OS * Buffer) :=
  if is_state (state_ c) kConnected then
    if inLoop then
      c ← sendInLoop c (readable buf);
      Ret (c, retrieveAll buf)
    else
      '(s, buf) ← retrieveAllAsString buf;
      Ret (queueInLoop c (FSendInLoop s), buf)
  else Ret (c, buf).

(** ** Requests of the user *)

Definition runInLoop c (inLoop : bool) (f : functor) (run : Conn OS → outcome (Conn OS)) :
    outcome (Conn OS) :=
  if inLoop then run c else Ret (queueInLoop c f).

Definition shutdown c (inLoop : bool) : outcome (Conn OS) :=
  if is_state (state_ c) kConnected then
    runInLoop (setState c kDisconnecting) inLoop FShutdownInLoop shutdownInLoop
  else Ret c.

Definition forceClose c : outcome (Conn OS) :=
  if is_state (state_ c) kConnected || is_state (state_ c) kDisconnecting then
    Ret (queueInLoop (setState c kDisconnecting) FForceCloseInLoop)
  else Ret c.

Definition forceCloseWithDelay c : outcome (Conn OS) :=
  if is_state (state_ c) kConnected || is_state (state_ c) kDisconnecting then
    let c := setState c kDisconnecting in
    Ret (set_delayed c (delayed c ++ [FForceClose]))
  else Ret c.

Definition startReadInLoop c : outcome (Conn OS) :=
  if negb (reading_ c) || negb (isReading (channel_ c)) then
    c ← on_channel c (λ p ch, enableReading p ch enable_et_);
    Ret (set_reading c true)
  else Ret c.

Definition stopReadInLoop c : outcome (Conn OS) :=
  if reading_ c || isReading (channel_ c) then
    c ← on_channel c (λ p ch, disableReading p ch enable_et_);
    Ret (set_reading c false)
  else Ret c.

Definition startRead c (inLoop : bool) : outcome (Conn OS) :=
  runInLoop c inLoop FStartReadInLoop startReadInLoop.
Definition stopRead c (inLoop : bool) : outcome (Conn OS) :=
  runInLoop c inLoop FStopReadInLoop stopReadInLoop.

Definition connectEstablished c : outcome (Conn OS) :=
  assert_dbg (is_state (state_ c) kConnecting) ;;
  let c := setState c kConnected in
  let c := set_channel c (poller_ c, tie (channel_ c)) in
  c ← on_channel c (λ p ch, enableReading p ch enable_et_);
  connectionCallback_ (record_event c (EvConnection kConnected)).

(** ** Events of the channel *)

Definition ssl_handshake_step c : outcome (Conn OS) :=
  '(ok, saved, l, e, k) ← SSL_handshake (os_ c) ssl_ctx_ (ssl_ c) 0 (errno c);
  let c := set_sslConnected (set_ssl (set_os (set_errno c e) k) l) ok in
  if saved =? SSL_ERROR_WANT_READ then on_channel c (λ p ch, enableReading p ch enable_et_)
  else if saved =? SSL_ERROR_WANT_WRITE then on_channel c (λ p ch, enableWriting p ch enable_et_)
  else if saved =? 0 then Ret c
  else handleClose c.

Definition after_ssl_read c (saved : Z) : outcome (Conn OS) :=
  if saved =? SSL_ERROR_WANT_READ then on_channel c (λ p ch, enableReading p ch enable_et_)
  else if saved =? SSL_ERROR_WANT_WRITE then on_channel c (λ p ch, enableWriting p ch enable_et_)
  else if saved =? 0 then
    let '(et, ch) := isETReading (channel_ c) in
    let c := set_channel c (poller_ c, ch) in
    if et then on_channel c (λ p ch, enableReading p ch enable_et_) else Ret c
  else handleClose c.

Definition after_plain_read c (saved : Z) : outcome (Conn OS) :=
  let e := errno c in
  if saved =? 0 then handleClose c
  else if (e =? EAGAIN) || (e =? EINTR) then
    on_channel (set_errno c 0) (λ p ch, enableReading p ch enable_et_)
  else if e =? 0 then Ret c
  else handleClose c.

Definition handleRead c : outcome (Conn OS) :=
  if ssl_ctx_ && negb (sslConnected_ c) then ssl_handshake_step c
  else
    '(n, saved, e, b, k) ←
      (if ssl_ c then SSL_read ssl_fuel (os_ c) (inputBuffer_ c) 0 0 (errno c)
       else readFull (os_ c) (inputBuffer_ c) (errno c));
    let c := set_os (set_errno (set_input c b) e) k in
    c ← (if 0 <? n then
           let c := if (errno c =? EAGAIN) || (errno c =? EINTR) then set_errno c 0 else c in
           messageCallback_ (record_event c EvMessage)
         else Ret c);
    if ssl_ c then after_ssl_read c saved else after_plain_read c saved.

(** The [n] bytes of the output buffer that were written. *)
Definition output_written c (n : Z) : outcome (Conn OS) :=
  if 0 <? n then
    o ← retrieve (outputBuffer_ c) n;
    let c := set_output c o in
    if readableBytes o =? 0 then
      c ← on_channel c (λ p ch, disableWriting p ch enable_et_);
      let c := if has_writeComplete then queueInLoop c FWriteComplete else c in
      if is_state (state_ c) kDisconnecting then shutdownInLoop c else Ret c
    else Ret c
  else Ret c.

Definition handleWrite c : outcome (Conn OS) :=
  if ssl_ctx_ && negb (sslConnected_ c) then ssl_handshake_step c
  else if isWriting (channel_ c) then
    '(n, saved, c) ← write_out c (readable (outputBuffer_ c));
    c ← output_written c n;
    let retry c := on_channel c (λ p ch, enableWriting p ch enable_et_) in
    if ssl_ c then after_ssl_write c saved retry else after_plain_write c saved retry
  else Ret c.

(** handleError only asks for the pending error of the socket. *)
Definition handleError c : outcome (Conn OS) := Ret c.

(** Channel::handleEventWithGuard; the connection is alive while it runs. *)
Definition handleEvent c (revents : Z) : outcome (Conn OS) :=
  let mark b c := set_channel c (poller_ c, set_eventHandling (channel_ c) b) in
  let c := mark true c in
  c ← (if has_bits revents POLLHUP && negb (has_bits revents POLLIN) then handleClose c else Ret c);
  c ← (if has_bits revents (Z.lor POLLERR POLLNVAL) then handleError c else Ret c);
  c ← (if has_bits revents (Z.lor (Z.lor POLLIN POLLPRI) POLLRDHUP) then handleRead c else Ret c);
  c ← (if has_bits revents POLLOUT then handleWrite c else Ret c);
  Ret (mark false c).

(** ** EventLoop::doPendingFunctors *)

Definition run_functor c (f : functor) : outcome (Conn OS) :=
  match f with
  | FSendInLoop message => sendInLoop c message
  | FShutdownInLoop => shutdownInLoop c
  | FForceCloseInLoop => forceCloseInLoop c
  | FForceClose => forceClose c
  | FStartReadInLoop => startReadInLoop c
  | FStopReadInLoop => stopReadInLoop c
  | FWriteComplete => Ret (record_event c EvWriteComplete)
  | FHighWaterMark n => Ret (record_event c (EvHighWaterMark n))
  | FConnectDestroyed => connectDestroyed c
  end.

Fixpoint run_functors c (fs : list functor) : outcome (Conn OS) :=
  match fs with
  | [] => Ret c
  | f :: fs => c ← run_functor c f; run_functors c fs
  end.

Definition doPendingFunctors c : outcome (Conn OS) :=
  run_functors (set_pending c []) (pending c).

End tcp.
End TcpConnection.
