(* ===== verification/TcpStream.v ===== *)
(** * TcpStream: what a TCP connection promises to its user

    For a plain (not SSL) connection of a server, every possible sequence of events of
    the socket, calls of the user and runs of the pending functors keeps the
    connection consistent: no assertion fails, the bytes handed to the kernel
    and the bytes still buffered are, in order, the messages accepted by
    [sendInLoop], the write side is shut down only between messages, and the
    user sees the received bytes in order and without loss.  The messages
    arrive as [garbled] says: a message of which the kernel takes a part at once
    is continued with its beginning (see [partial_write_repeats_prefix] of
    TcpFaults). *)

From S2P Require Import Prelude BytesBuffer Buffer SocketIO Channel TcpConnection.
Import Buffer SocketIO Channel TcpConnection.

(** ** Event bits *)

Lemma has_bits_testbit x n : 0 ≤ n → has_bits x (2 ^ n) = Z.testbit x n.
Proof.
  intros Hn. unfold has_bits. destruct (Z.testbit x n) eqn:E.
  - apply negb_true_iff, Z.eqb_neq. intros H.
    assert (Z.testbit (Z.land x (2 ^ n)) n = true) as H1.
    { by rewrite Z.land_spec, E, Z.pow2_bits_true. }
    rewrite H, Z.bits_0 in H1. done.
  - apply negb_false_iff, Z.eqb_eq, Z.bits_inj'. intros m Hm. rewrite Z.land_spec, Z.bits_0.
    destruct (decide (n = m)) as [<-|]; [by rewrite E|].
    by rewrite (Z.pow2_bits_false n m), andb_false_r.
Qed.

Lemma isWriting_testbit c : isWriting c = Z.testbit (events_ c) 2.
Proof. apply (has_bits_testbit _ 2). done. Qed.

Lemma testbit_clear ev m n : 0 ≤ n →
  Z.testbit (clear_bits ev m) n = Z.testbit ev n && negb (Z.testbit m n).
Proof. intros. unfold clear_bits. by rewrite Z.land_spec, Z.lnot_spec. Qed.

(** ** Messages on the wire *)

Lemma zlen_zero (l : bytes) : zlen l = 0 → l = [].
Proof. destruct l; [done|cbn; lia]. Qed.

Definition sends (l : list event) : list bytes :=
  omap (λ e, match e with EvSend d => Some d | _ => None end) l.
Definition retrieves (l : list event) : list bytes :=
  omap (λ e, match e with EvRetrieve d => Some d | _ => None end) l.

(** What the peer gets for the message [d] when the kernel takes [k] bytes of
    it at once; it is [d] when [k] is 0 or the length of [d]. *)
Definition garble (k : Z) (d : bytes) : bytes := ztake k d ++ ztake (zlen d - k) d.
Definition garbled (d d' : bytes) : Prop := ∃ k, 0 ≤ k ≤ zlen d ∧ d' = garble k d.

Lemma garble_all d : garble (zlen d) d = d.
Proof. unfold garble. rewrite ztake_all, Z.sub_diag by lia. apply app_nil_r. Qed.

Lemma garble_none d : garble 0 d = d.
Proof. unfold garble. rewrite Z.sub_0_r, (ztake_all (zlen d)) by lia. done. Qed.

(** Every shutdown of an open connection came after complete messages. *)
Definition shut_ok (t0 : bytes) (l : list event) (ds : list bytes) : Prop :=
  ∀ s t, EvShutdownWrite s t ∈ l → s ≠ kDisconnected →
  ∃ ds1, ds1 `prefix_of` ds ∧ t = t0 ++ concat ds1.

(** ** Registration of the connection's channel *)

Definition reg_ok (p : Poller) (ch : Channel) : Prop :=
  ∃ cs c0, poller_inv p cs ∧ cs !! ptr c0 = Some c0 ∧ same_slot c0 ch ∧ events_ c0 = events_ ch.

Lemma reg_ok_update p ch ev :
  reg_ok p ch →
  ∃ x, channel_update p (set_events ch ev) = Ret x ∧ reg_ok x.1 x.2 ∧
    events_ x.2 = ev ∧ index_ x.2 ≠ kNew ∧
    (index_ ch ≠ kAdded → index_ x.2 = kAdded) ∧
    (index_ ch = kAdded → index_ x.2 = if ev =? 0 then kDeleted else kAdded).
Proof.
  intros (cs & c0 & Hinv & Hc0 & (Hp & Hf & Hi) & He). unfold channel_update.
  destruct (updateChannel_inv p cs (ptr c0) c0 (set_added (set_events ch ev) true))
    as (p' & c' & Hu & Hinv' & Hc'); [done..|].
  exists (p', c'). rewrite Hu. split_and!; [done| |by subst c'| | |].
  - exists (<[ptr c0 := c']> cs), c'. split_and!; [done| |by split_and!|done].
    rewrite <- Hp. subst c'. cbn. by rewrite lookup_insert_eq.
  - subst c'. cbn. by repeat case_match.
  - intros Hne. subst c'. cbn in *. apply Z.eqb_neq in Hne. by rewrite Hne.
  - intros Ha. subst c'. cbn in *. rewrite Ha. cbn. unfold isNoneEvent. cbn. by case_match.
Qed.

Lemma reg_ok_remove p ch :
  reg_ok p ch → events_ ch = 0 → index_ ch ≠ kNew →
  ∃ x, remove None p ch = Ret x ∧ reg_ok x.1 x.2 ∧ events_ x.2 = 0 ∧ index_ x.2 = kNew.
Proof.
  intros (cs & c0 & Hinv & Hc0 & (Hp & Hf & Hi) & He) H0 Hn.
  assert (op_allowed c0 (OpRemove None) = true) as Ha.
  { cbn. unfold isNoneEvent. rewrite He, H0, andb_true_r. cbn. apply negb_true_iff, Z.eqb_neq. congruence. }
  destruct (remove_inv None p cs (ptr c0) c0 Hinv Hc0 Ha) as (p' & c' & Hr & Hinv').
  assert (∃ c2, remove None p ch = Ret (p', c2) ∧ same_slot c' c2 ∧ events_ c2 = 0 ∧ events_ c' = 0 ∧
            index_ c2 = kNew ∧ ptr c' = ptr c0) as (c2 & Hr2 & Hs & He2 & He' & Hi2 & Hp').
  { revert Hr. unfold remove, removeChannel, found, is_mine, isNoneEvent. cbn.
    rewrite Hp, Hf, Hi, He, H0. destruct (channels_ p !! fd_ c0) as [q|]; [|done]. cbn.
    destruct (q =? ptr c0); [|done]. cbn.
    destruct ((index_ c0 =? kAdded) || (index_ c0 =? kDeleted)); [|done]. cbn.
    intros [= <- <-]. exists (set_index (set_added ch false) kNew). unfold update. cbn.
    rewrite Hf, He, H0. split; [by destruct (index_ c0 =? kAdded)|].
    unfold same_slot. cbn. by rewrite Hp, Hf. }
  exists (p', c2). split_and!; try done.
  exists (<[ptr c0 := c']> cs), c'. split_and!; [done| |done|cbn; congruence].
  rewrite Hp'. by rewrite lookup_insert_eq.
Qed.

(** ** The user of a connection

    Callbacks and other code of the loop's thread act on a connection by these
    calls; [ARetrieve] consumes input, at most what there is.  TcpConnection::forceClose
    and forceCloseWithDelay do the same in every thread, so that these acts stand for
    the calls of other threads as well. *)
Inductive act : Type :=
  | ASend (data : bytes)
  | AShutdown
  | AForceClose
  | AForceCloseWithDelay
  | AStartRead
  | AStopRead
  | ARetrieve (n : Z).

(** [stops]: the user stops reading at times. *)
Definition act_ok (stops : bool) (a : act) : Prop :=
  match a with
  | ASend data => data ≠ [] ∧ Forall_byte data
  | ARetrieve n => 0 ≤ n
  | AStopRead => stops = true
  | _ => True
  end.

Definition switches_reading (a : act) : bool :=
  match a with AStartRead | AStopRead => true | _ => false end.

Definition act_cost (a : act) : Z := match a with ASend data => zlen data | _ => 0 end.
Definition acts_cost (l : list act) : Z := foldr (λ a n, act_cost a + n) 0 l.

(** What happens to a connection: an act of the user in the loop's thread, a
    call from another thread, a report of epoll, a turn of the pending
    functors, a timer of [forceCloseWithDelay]. *)
Inductive op : Type :=
  | OAct (a : act)
  | OForeignSend (data : bytes)
  | OForeignShutdown
  | OEvents (revents : Z)
  | OPending
  | OTimer.

Definition functor_ok (f : functor) : Prop :=
  match f with
  | FSendInLoop data => data ≠ [] ∧ Forall_byte data
  | FStartReadInLoop | FStopReadInLoop => False
  | _ => True
  end.

Definition functor_cost (f : functor) : Z := match f with FSendInLoop d => zlen d | _ => 0 end.
Definition fcost (l : list functor) : Z := foldr (λ f n, functor_cost f + n) 0 l.

Fixpoint destroys (l : list functor) : nat :=
  match l with
  | [] => 0
  | FConnectDestroyed :: l => S (destroys l)
  | _ :: l => destroys l
  end.

Lemma destroys_app l1 l2 : destroys (l1 ++ l2) = (destroys l1 + destroys l2)%nat.
Proof. induction l1 as [|[] l1 IH]; cbn; lia. Qed.

Lemma fcost_app l1 l2 : fcost (l1 ++ l2) = fcost l1 + fcost l2.
Proof. induction l1 as [|f l1 IH]; cbn [fcost foldr app] in *; [done|]. unfold fcost in *. lia. Qed.

Lemma fcost_nonneg l : 0 ≤ fcost l.
Proof. induction l as [|[] l IH]; cbn [fcost foldr functor_cost] in *; unfold fcost in *; lia. Qed.

Lemma acts_cost_nonneg l : 0 ≤ acts_cost l.
Proof. induction l as [|[] l IH]; cbn [acts_cost foldr act_cost] in *; unfold acts_cost in *; lia. Qed.

Section stream.
Context {OS : Type} `{!Kernel OS} `{!OpenSSL OS}.
Implicit Types c : Conn OS.
Variables (ndebug enable_et_ has_writeComplete has_highWaterMark : bool).
Variables (highWaterMark_ : Z) (ssl_fuel : nat).
Variables (connectionCallback_ messageCallback_ : Conn OS → outcome (Conn OS)).

Notation sendInLoop' := (sendInLoop ndebug enable_et_ has_writeComplete has_highWaterMark
  highWaterMark_ connectionCallback_).
Notation send' := (send ndebug enable_et_ has_writeComplete has_highWaterMark
  highWaterMark_ connectionCallback_).
Notation handleClose' := (handleClose ndebug connectionCallback_).
Notation handleRead' := (handleRead ndebug false enable_et_ ssl_fuel connectionCallback_ messageCallback_).
Notation handleWrite' := (handleWrite ndebug false enable_et_ has_writeComplete connectionCallback_).
Notation handleEvent' := (handleEvent ndebug false enable_et_ has_writeComplete ssl_fuel
  connectionCallback_ messageCallback_).
Notation run_functor' := (run_functor ndebug enable_et_ has_writeComplete has_highWaterMark
  highWaterMark_ connectionCallback_).
Notation run_functors' := (run_functors ndebug enable_et_ has_writeComplete has_highWaterMark
  highWaterMark_ connectionCallback_).
Notation doPendingFunctors' := (doPendingFunctors ndebug enable_et_ has_writeComplete
  has_highWaterMark highWaterMark_ connectionCallback_).
Notation connectEstablished' := (connectEstablished ndebug enable_et_ connectionCallback_).

Definition run_act c (a : act) : outcome (Conn OS) :=
  match a with
  | ASend data => send' c true data
  | AShutdown => shutdown c true
  | AForceClose => forceClose c
  | AForceCloseWithDelay => forceCloseWithDelay c
  | AStartRead => startRead enable_et_ c true
  | AStopRead => stopRead enable_et_ c true
  | ARetrieve n =>
      let n := n `min` zlen (readable (inputBuffer_ c)) in
      let d := ztake n (readable (inputBuffer_ c)) in
      b ← retrieve (inputBuffer_ c) n;
      Ret (record_event (set_input c b) (EvRetrieve d))
  end.

Fixpoint run_acts c (l : list act) : outcome (Conn OS) :=
  match l with
  | [] => Ret c
  | a :: l => c ← run_act c a; run_acts c l
  end.

Definition run_op c (o : op) : outcome (Conn OS) :=
  match o with
  | OAct a => run_act c a
  | OForeignSend data => send' c false data
  | OForeignShutdown => shutdown c false
  | OEvents revents => handleEvent' c revents
  | OPending => doPendingFunctors' c
  | OTimer =>
      match delayed c with
      | [] => Ret c
      | f :: fs => run_functor' (set_delayed c fs) f
      end
  end.

Fixpoint run_ops c (l : list op) : outcome (Conn OS) :=
  match l with
  | [] => Ret c
  | o :: l => c ← run_op c o; run_ops c l
  end.

(** ** The invariant

    [fs] are functors taken from the queue that still have to run, [B] the
    bytes that may still be sent before the output buffer could overflow,
    [t0], [r0] the bytes sent before and received in all, [ds] the messages as
    they appear on the wire. *)
Variables (stops : bool) (t0 r0 : bytes).

(** The channel of an open connection: registered, and reading unless the user stops
    reading at times. *)
Definition chan_up (ch : Channel) : Prop :=
  index_ ch ≠ kNew ∧ (stops = false → index_ ch = kAdded ∧ Z.testbit (events_ ch) 0 = true).

(** The channel of a closed connection has no events; it is registered no more, unless
    reading was stopped when the connection closed (see [closing_paused_connection] of
    TcpFaults). *)
Definition chan_down (ch : Channel) : Prop :=
  events_ ch = 0 ∧ (stops = false → index_ ch ≠ kAdded).

Record base (B : Z) (fs : list functor) c (ds : list bytes) : Prop := Base {
  b_reg : reg_ok (poller_ c) (channel_ c);
  b_out : wf (outputBuffer_ c);
  b_room : B + fcost (fs ++ pending c) ≤ room_of (outputBuffer_ c);
  b_in : wf (inputBuffer_ c);
  b_inroom : zlen (rx (os_ c)) + 4096 ≤ room_of (inputBuffer_ c);
  b_ssl : ssl_ c = false;
  b_queue : Forall functor_ok (fs ++ pending c);
  b_delayed : Forall (λ f, f = FForceClose) (delayed c);
  b_sends : Forall2 garbled (sends (log c)) ds;
  b_tx : tx (os_ c) `prefix_of` t0 ++ concat ds;
  b_shut : shut_ok t0 (log c) ds;
  b_input : concat (retrieves (log c)) ++ readable (inputBuffer_ c) ++ rx (os_ c) = r0;
}.

(** Open: the connection is up or is being shut down. *)
Record opened (B : Z) (fs : list functor) c (ds : list bytes) : Prop := Opened {
  o_base : base B fs c ds;
  o_state : state_ c = kConnected ∨ state_ c = kDisconnecting;
  o_index : chan_up (channel_ c);
  o_writing : isWriting (channel_ c) = negb (zlen (readable (outputBuffer_ c)) =? 0);
  o_errno : errno c = 0;
  o_map : in_map c = true;
  o_queue : destroys (fs ++ pending c) = 0%nat;
  o_stream : tx (os_ c) ++ readable (outputBuffer_ c) = t0 ++ concat ds;
}.

(** Closed: the channel is disabled and its removal is queued, or done. *)
Record closed (B : Z) (fs : list functor) c (ds : list bytes) : Prop := Closed {
  c_base : base B fs c ds;
  c_state : state_ c = kDisconnected;
  c_events : chan_down (channel_ c);
  c_map : in_map c = false;
  c_queue : destroys (fs ++ pending c) = if index_ (channel_ c) =? kNew then 0%nat else 1%nat;
}.

Definition conn_inv (B : Z) (fs : list functor) c (ds : list bytes) : Prop :=
  opened B fs c ds ∨ closed B fs c ds.

(** ** Assumptions *)

(** The callbacks act only by the calls above and send at most [M] bytes; told
    that the connection is down, the user leaves it alone. *)
Variable M : Z.
Definition acts_only (cb : Conn OS → outcome (Conn OS)) : Prop :=
  ∀ c, ∃ l, cb c = run_acts c l ∧ Forall (act_ok stops) l ∧ acts_cost l ≤ M.

Context `{!KernelLaws OS}.
Hypothesis connection_up : ∀ c, state_ c = kConnected →
  ∃ l, connectionCallback_ c = run_acts c l ∧ Forall (act_ok stops) l ∧ acts_cost l ≤ M.
Hypothesis connection_down : ∀ c, state_ c = kDisconnected → connectionCallback_ c = Ret c.
Hypothesis message_acts : acts_only messageCallback_.
(** The peer does not reset the connection: reads and writes fail only because
    the socket is not ready.  It may close it at any time. *)
Hypothesis writes_retry : write_failures (λ rc e, rc < 0 ∧ (e = EAGAIN ∨ e = EINTR)).
Hypothesis reads_retry : read_failures (λ e, e = EAGAIN ∨ e = EINTR).

Local Hint Constructors base opened closed : core.

Lemma chan_up_update ch ch' ev :
  chan_up ch → index_ ch' ≠ kNew → events_ ch' = ev →
  (index_ ch = kAdded → index_ ch' = if ev =? 0 then kDeleted else kAdded) →
  (stops = false → Z.testbit ev 0 = true) → chan_up ch'.
Proof.
  intros [_ H] Hn He Hi Hev. split; [done|]. intros Hs. destruct (H Hs) as [Ha _].
  specialize (Hev Hs). rewrite He, Hi by done. split; [|done].
  destruct (Z.eqb_spec ev 0) as [->|]; [by rewrite Z.bits_0 in Hev|done].
Qed.

(** Enabling events, and disabling others than those of reading. *)
Lemma chan_up_lor ch ev : chan_up ch → stops = false → Z.testbit (Z.lor (events_ ch) ev) 0 = true.
Proof. intros [_ H] Hs. destruct (H Hs) as [_ Hr]. by rewrite Z.lor_spec, Hr. Qed.

Lemma chan_up_clear ch ev :
  chan_up ch → Z.testbit ev 0 = false → stops = false → Z.testbit (clear_bits (events_ ch) ev) 0 = true.
Proof. intros [_ H] Hev Hs. destruct (H Hs) as [_ Hr]. by rewrite testbit_clear, Hr, Hev. Qed.

Lemma is_state_refl s : is_state s s = true.
Proof. by apply bool_decide_eq_true. Qed.

Lemma is_state_ne s t : s ≠ t → is_state s t = false.
Proof. intros. by apply bool_decide_eq_false. Qed.

Lemma omap_log_app {A} (f : event → option A) l e :
  omap f (l ++ [e]) = omap f l ++ match f e with Some a => [a] | None => [] end.
Proof. rewrite omap_app. cbn. by destruct (f e). Qed.

Lemma shut_ok_other l ds e :
  (∀ s t, e ≠ EvShutdownWrite s t) → shut_ok t0 l ds → shut_ok t0 (l ++ [e]) ds.
Proof.
  intros He H s t [Hin|Hin%list_elem_of_singleton]%elem_of_app Hs; [by apply H with s|].
  by destruct (He s t).
Qed.

(** ** Closing *)

Lemma handleClose_closed B fs c ds :
  base B fs c ds → (state_ c = kConnected ∨ state_ c = kDisconnecting) → in_map c = true →
  chan_up (channel_ c) → destroys (fs ++ pending c) = 0%nat →
  ∃ c', handleClose' c = Ret c' ∧ closed B fs c' ds ∧
    errno c' = errno c ∧ outputBuffer_ c' = outputBuffer_ c ∧ os_ c' = os_ c ∧
    pending c' = pending c ++ [FConnectDestroyed] ∧
    (index_ (channel_ c) ≠ kAdded → index_ (channel_ c') = kAdded).
Proof using connection_down.
  intros [] Hs Hm Hi Hd. unfold handleClose, SSL_free. rewrite b_ssl0.
  assert (assert_dbg ndebug (is_state (state_ c) kConnected || is_state (state_ c) kDisconnecting)
          = Ret tt) as Ha.
  { unfold assert_dbg. destruct ndebug; [done|].
    destruct Hs as [-> | ->]; by rewrite is_state_refl. }
  cbn. rewrite Ha. orun. unfold on_channel. cbn.
  destruct (reg_ok_update (poller_ c) (channel_ c) kNoneEvent b_reg0) as (x & Hx & Hr & He & Hn & Hnew & Hdel).
  unfold disableAll. rewrite Hx. orun. rewrite connection_down by done. orun.
  unfold removeConnection. cbn. rewrite Hm. orun. eexists. split; [done|]. split; [|done].
  split; cbn; try done.
  - split; cbn; try done.
    + rewrite !fcost_app in *. cbn. lia.
    + rewrite app_assoc. apply Forall_app. split; [done|]. by apply Forall_singleton.
    + unfold sends. by rewrite omap_log_app, app_nil_r.
    + by apply shut_ok_other.
    + unfold retrieves. by rewrite omap_log_app, app_nil_r.
  - split; [done|]. intros Hst. destruct Hi as [_ Hi]. destruct (Hi Hst) as [Hadd _].
    by rewrite Hdel.
  - rewrite app_assoc, destroys_app, Hd. apply Z.eqb_neq in Hn. by rewrite Hn.
Qed.

(** ** Sending *)

(** Like [opened], but the bytes [rest] of the last message still have to be
    put into the output buffer. *)
Record sending (B : Z) (fs : list functor) c (ds : list bytes) (rest : bytes) : Prop := Sending {
  s_base : base (B + zlen rest) fs c ds;
  s_state : state_ c = kConnected ∨ state_ c = kDisconnecting;
  s_index : chan_up (channel_ c);
  s_writing : isWriting (channel_ c) = negb (zlen (readable (outputBuffer_ c)) =? 0);
  s_errno : errno c = 0;
  s_map : in_map c = true;
  s_queue : destroys (fs ++ pending c) = 0%nat;
  s_stream : tx (os_ c) ++ readable (outputBuffer_ c) ++ rest = t0 ++ concat ds;
  s_rest : Forall_byte rest;
}.

Lemma queue_sending B fs c ds rest f :
  functor_ok f → functor_cost f = 0 → destroys [f] = 0%nat →
  sending B fs c ds rest → sending B fs (queueInLoop c f) ds rest.
Proof.
  intros Hf Hc Hd [[] Hs Hi Hw He Hm Hq Hst Hr]. split; cbn; try done.
  - split; cbn; try done.
    + rewrite !fcost_app in *. cbn. lia.
    + rewrite app_assoc. apply Forall_app. split; [done|]. by apply Forall_singleton.
  - by rewrite app_assoc, destroys_app, Hq, Hd.
Qed.

Lemma readableBytes_zero b : wf b → (readableBytes b =? 0) = (zlen (readable b) =? 0).
Proof. intros. by rewrite length_readable. Qed.

Lemma append_rest B fs c ds rest :
  0 ≤ B → rest ≠ [] → sending B fs c ds rest →
  ∃ c', (o ← append (outputBuffer_ c) rest;
         if negb (isWriting (channel_ (set_output c o)))
         then on_channel (set_output c o) (λ p ch, enableWriting p ch enable_et_)
         else Ret (set_output c o)) = Ret c' ∧ opened B fs c' ds.
Proof.
  intros HB Hne [[] Hs Hi Hw He Hm Hq Hst Hr]. pose proof (fcost_nonneg (fs ++ pending c)).
  destruct (append_has (outputBuffer_ c) rest) as (o & -> & [Ho Hov Hor]); [done|done|lia|].
  assert (negb (zlen (readable o) =? 0) = true) as Hnz.
  { rewrite Hov, length_app. destruct rest; [done|]. cbn. bool_side. }
  orun. cbn. rewrite Hw. destruct (zlen (readable (outputBuffer_ c)) =? 0) eqn:Hz; cbn.
  - unfold on_channel, enableWriting. cbn.
    edestruct reg_ok_update as (x & -> & Hx & Hev & Hix & _ & Hia); [done|]. orun.
    eexists. split; [done|]. split; cbn; try done; [split; cbn; try done| | |].
    + lia.
    + eapply chan_up_update; [done..|]. by apply chan_up_lor.
    + rewrite isWriting_testbit, Hev, Hnz, Z.lor_spec.
      destruct enable_et_; apply orb_true_r.
    + by rewrite Hov.
  - eexists. split; [done|]. split; cbn; try done; [split; cbn; try done| |].
    + lia.
    + by rewrite Hw, Hnz.
    + by rewrite Hov.
Qed.

Lemma sending_done B fs c ds : sending B fs c ds [] → opened B fs c ds.
Proof.
  intros [[] Hs Hi Hw He Hm Hq Hst Hr]. rewrite Z.add_0_r, ?app_nil_r in *. auto.
Qed.

(** Accepting the message [data] of which [k] bytes are written at once. *)
Lemma accept_message B fs c ds data k e os' :
  opened B fs c ds → 0 ≤ k ≤ zlen data → zlen data ≤ B → Forall_byte data →
  (0 < k → readable (outputBuffer_ c) = []) →
  tx os' = tx (os_ c) ++ ztake k data → rx os' = rx (os_ c) → e = 0 →
  sending (B - zlen data) fs (set_os (set_errno (record_event c (EvSend data)) e) os')
    (ds ++ [garble k data]) (ztake (zlen data - k) data).
Proof.
  intros [[] Hs Hi Hw He Hm Hq Hst] Hk HB Hd Hempty Ht Hx ->.
  assert (tx os' ++ readable (outputBuffer_ c) ++ ztake (zlen data - k) data
          = t0 ++ concat (ds ++ [garble k data])) as Hstream.
  { rewrite concat_app, (app_assoc t0), <- Hst. cbn. rewrite app_nil_r, Ht. unfold garble.
    destruct (decide (k = 0)) as [->|].
    { change (ztake 0 data) with (@nil Z). cbn [app]. by rewrite app_nil_r, app_assoc. }
    rewrite Hempty by lia. cbn. by rewrite !app_nil_r, !app_assoc. }
  assert (zlen (ztake (zlen data - k) data) ≤ zlen data) as Hl by (rewrite length_ztake; lia).
  split; cbn; try done; [split; cbn; try done|by apply Forall_ztake].
  - lia.
  - by rewrite Hx.
  - unfold sends. rewrite omap_log_app. apply Forall2_app; [done|].
    constructor; [by exists k|constructor].
  - rewrite <- Hstream. by eexists.
  - apply shut_ok_other; [done|]. intros s t Hin Hsne. destruct (b_shut0 s t Hin Hsne) as (ds1 & Hp & ->).
    exists ds1. split; [by apply prefix_app_r|done].
  - unfold retrieves. by rewrite omap_log_app, app_nil_r, Hx.
Qed.

Lemma opened_not_disconnected B fs c ds :
  opened B fs c ds → is_state (state_ c) kDisconnected = false.
Proof. intros []. apply is_state_ne. destruct o_state0; congruence. Qed.

Lemma len_budget B fs c ds (data : bytes) :
  opened B fs c ds → zlen data ≤ B → zlen data < 2 ^ 63.
Proof.
  intros [[] ] H. pose proof (fcost_nonneg (fs ++ pending c)). destruct b_out0.
  unfold room_of, kMaxSize in *. lia.
Qed.

Lemma assert_dbg_true b : b = true → assert_dbg ndebug b = Ret tt.
Proof. intros ->. unfold assert_dbg. by destruct ndebug. Qed.

(** The last part of [sendInLoop], for the bytes that are left. *)
Lemma send_rest B fs c ds rest n :
  0 ≤ B → sending B fs c ds rest → n = zlen rest →
  ∃ c', (if 0 <? n then
           let oldLen := readableBytes (outputBuffer_ c) in
           let c := if (highWaterMark_ <=? u64 (oldLen + n)) && (oldLen <? highWaterMark_)
                       && has_highWaterMark
                    then queueInLoop c (FHighWaterMark (u64 (oldLen + n))) else c in
           o ← append (outputBuffer_ c) rest;
           let c := set_output c o in
           if negb (isWriting (channel_ c)) then on_channel c (λ p ch, enableWriting p ch enable_et_)
           else Ret c
         else Ret c) = Ret c' ∧ opened B fs c' ds.
Proof.
  intros HB Hs ->. destruct (Z.ltb_spec 0 (zlen rest)).
  - cbn zeta. apply append_rest; [done| |].
    { intros ->. cbn in *. lia. }
    case_match; [by apply queue_sending|done].
  - exists c. split; [done|]. apply sending_done. by destruct rest; [|cbn in *; lia].
Qed.

(** After a write that was complete, or stopped because the socket was not
    ready, the connection stays open with [errno] reset. *)
Lemma after_plain_write_retry c saved e retry :
  errno c = e → (e = 0 ∧ 0 < saved ∨ saved = -1 ∧ (e = EAGAIN ∨ e = EINTR)) →
  ∃ m, after_plain_write ndebug connectionCallback_ c saved retry = m ∧
    (m = Ret c ∧ errno c = 0 ∧ 0 < saved ∨ m = retry (set_errno c 0) ∧ saved = -1).
Proof.
  intros He H. unfold after_plain_write. rewrite He.
  destruct H as [[-> Hs]|[-> Hs]].
  - rewrite (proj2 (Z.ltb_lt 0 saved)) by lia. eexists. split; [done|]. by left.
  - eexists. split; [done|]. right. by destruct Hs as [-> | ->].
Qed.

Lemma sendInLoop_opened B fs c ds data :
  opened B fs c ds → data ≠ [] → Forall_byte data → zlen data ≤ B →
  ∃ c' d', sendInLoop' c data = Ret c' ∧ opened (B - zlen data) fs c' (ds ++ [d']) ∧ garbled data d'.
Proof using writes_retry KernelLaws0.
  intros Hop Hne Hd HB. pose proof (len_budget _ _ _ _ _ Hop HB) as Hlen.
  pose proof Hop as [[] Hs Hi Hw He Hm Hq Hst].
  unfold sendInLoop. rewrite (opened_not_disconnected _ _ _ _ Hop). cbn zeta.
  cbn [channel_ outputBuffer_ record_event].
  rewrite (readableBytes_zero _ b_out0), Hw, negb_involutive, andb_diag.
  destruct (zlen (readable (outputBuffer_ c)) =? 0) eqn:Hz.
  - unfold send_directly, write_out. cbn [ssl_ os_ errno record_event]. rewrite b_ssl0.
    destruct (writeFull_ok _ (os_ c) data 0 (errno c) writes_retry Hlen)
      as (k & saved & e' & os' & -> & Hk & Ht & Hx & Hend). orun.
    cbn [ssl_ set_os set_errno]. rewrite (proj2 (Z.leb_le 0 k)) by lia.
    rewrite (u64_small (zlen data - k)) by lia. cbn [andb].
    assert (e' = 0 ∧ 0 < saved ∧ k = zlen data ∨
            saved = -1 ∧ (e' = EAGAIN ∨ e' = EINTR) ∧ k < zlen data) as Hcase.
    { destruct Hend as [->| |? [[-> ?]|[-> ?]] [? ?]]; [done|left; lia|lia|right; lia]. }
    assert (sending (B - zlen data) fs
              (set_os (set_errno (record_event c (EvSend data)) 0) os')
              (ds ++ [garble k data]) (ztake (zlen data - k) data)) as Hsend.
    { apply accept_message; try done. intros _. by apply zlen_zero, Z.eqb_eq. }
    set (c1 := if (zlen data - k =? 0) && has_writeComplete then _ else _).
    assert (ssl_ c1 = false ∧ errno c1 = e' ∧
            sending (B - zlen data) fs (set_errno c1 0) (ds ++ [garble k data])
              (ztake (zlen data - k) data)) as (Hl1 & He1 & Hs1).
    { unfold c1. case_match; cbn; rewrite b_ssl0; split_and!; try done.
      by apply (queue_sending _ _ _ _ _ FWriteComplete) in Hsend. }
    rewrite Hl1.
    destruct (after_plain_write_retry c1 saved e' Ret) as (m & -> & Hm2); [done|lia|].
    assert (∃ c2, m = Ret c2 ∧ errno c2 = 0 ∧ sending (B - zlen data) fs c2
              (ds ++ [garble k data]) (ztake (zlen data - k) data)) as (c2 & -> & He2 & Hs2).
    { destruct Hm2 as [(-> & He0 & _)|[-> _]]; eexists; (split_and!; [done..|]); [|done].
      revert Hs1 He0. clear. destruct c1. cbn. by intros ? ->. }
    orun. rewrite He2. cbn [negb andb orb Z.eqb EAGAIN EINTR EPIPE ECONNRESET].
    rewrite assert_dbg_true by bool_side. orun. cbn [negb andb].
    change (zdrop 0 data) with data.
    destruct (send_rest (B - zlen data) fs c2 (ds ++ [garble k data])
      (ztake (zlen data - k) data) (zlen data - k)) as (c' & Hc' & Ho'); [lia|done| |].
    { rewrite length_ztake; lia. }
    exists c', (garble k data). split_and!; [exact Hc'|done|]. by exists k.
  - orun. rewrite assert_dbg_true by bool_side. orun. cbn [negb andb].
    change (zdrop 0 data) with data.
    assert (sending (B - zlen data) fs (record_event c (EvSend data)) (ds ++ [garble 0 data])
              (ztake (zlen data) data)) as Hsend.
    { pose proof (accept_message B fs c ds data 0 0 (os_ c) Hop) as Hacc.
      rewrite Z.sub_0_r in Hacc. revert Hacc. clear -He HB Hd. destruct c. cbn in *. subst.
      intros Hacc. apply Hacc; first [done | lia | by rewrite app_nil_r]. }
    destruct (send_rest (B - zlen data) _ _ _ _ (zlen data) ltac:(lia) Hsend) as (c' & Hc' & Ho').
    { by rewrite ztake_all by lia. }
    exists c', (garble 0 data). split_and!; [exact Hc'|done|]. exists 0. split; [lia|done].
Qed.

(** ** The calls of the user *)

Lemma opened_sending B fs c ds : opened B fs c ds → sending B fs c ds [].
Proof.
  intros [[] Hs Hi Hw He Hm Hq Hst]. split; rewrite ?app_nil_r, ?Z.add_0_r; auto.
Qed.

Lemma queue_opened B fs c ds f :
  functor_ok f → functor_cost f = 0 → destroys [f] = 0%nat →
  opened B fs c ds → opened B fs (queueInLoop c f) ds.
Proof. intros ??? H%opened_sending. by apply sending_done, queue_sending. Qed.

Lemma setState_opened B fs c ds :
  opened B fs c ds → opened B fs (setState c kDisconnecting) ds.
Proof. intros [[] Hs Hi Hw He Hm Hq Hst]. split; cbn; auto. Qed.

Lemma record_opened B fs c ds e :
  (∀ d, e ≠ EvSend d) → (∀ d, e ≠ EvRetrieve d) → (∀ s t, e ≠ EvShutdownWrite s t) →
  opened B fs c ds → opened B fs (record_event c e) ds.
Proof.
  intros H1 H2 H3 [[] Hs Hi Hw He Hm Hq Hst].
  split; cbn; try done. split; cbn; try done; unfold sends, retrieves;
    rewrite ?omap_log_app; [|by apply shut_ok_other|];
    destruct e; rewrite ?app_nil_r; try done; naive_solver.
Qed.

Lemma channel_opened B fs c ds ev :
  opened B fs c ds → Z.testbit ev 2 = isWriting (channel_ c) →
  (stops = false → Z.testbit ev 0 = true) →
  ∃ c', on_channel c (λ p ch, channel_update p (set_events ch ev)) = Ret c' ∧
    opened B fs c' ds.
Proof.
  intros [[] Hs Hi Hw He Hm Hq Hst] Hev Hr. unfold on_channel.
  destruct (reg_ok_update (poller_ c) (channel_ c) ev b_reg0) as (x & -> & Hx & Hxe & Hxi & _ & Hxa). orun.
  eexists. split; [done|]. split; cbn; try done; [by eapply chan_up_update|].
  by rewrite isWriting_testbit, Hxe, Hev.
Qed.

Lemma enableReading_opened B fs c ds :
  opened B fs c ds →
  ∃ c', on_channel c (λ p ch, enableReading p ch enable_et_) = Ret c' ∧ opened B fs c' ds.
Proof.
  intros H. apply (channel_opened B fs c ds (Z.lor (events_ (channel_ c)) (readEvent enable_et_))); [done| |apply chan_up_lor, H].
  rewrite Z.lor_spec, isWriting_testbit. destruct enable_et_; apply orb_false_r.
Qed.

Lemma disableReading_opened B fs c ds :
  opened B fs c ds → stops = true →
  ∃ c', on_channel c (λ p ch, disableReading p ch enable_et_) = Ret c' ∧ opened B fs c' ds.
Proof.
  intros H Hs.
  apply (channel_opened B fs c ds (clear_bits (events_ (channel_ c)) (readEvent enable_et_))); [done| |congruence].
  rewrite testbit_clear, isWriting_testbit by done. destruct enable_et_; apply andb_true_r.
Qed.

Lemma reading_opened B fs c ds r : opened B fs c ds → opened B fs (set_reading c r) ds.
Proof. intros [[] Hs Hi Hw He Hm Hq Hst]. split; cbn; auto. Qed.

Lemma shutdownInLoop_opened B fs c ds :
  opened B fs c ds → ∃ c', shutdownInLoop c = Ret c' ∧ opened B fs c' ds.
Proof.
  intros H. pose proof H as [[] Hs Hi Hw He Hm Hq Hst]. unfold shutdownInLoop. rewrite Hw.
  destruct (zlen (readable (outputBuffer_ c)) =? 0) eqn:Hz; [|by exists c].
  cbn. eexists. split; [done|]. apply Z.eqb_eq in Hz.
  assert (readable (outputBuffer_ c) = []) as Hr by by apply zlen_zero.
  split; cbn; try done; [|by rewrite Hw, Hz].
  split; cbn; try done; unfold sends, retrieves; rewrite ?omap_log_app, ?app_nil_r; try done.
  intros s t [Hin|Hin%list_elem_of_singleton]%elem_of_app Hne; [by apply (b_shut0 s)|].
  simplify_eq. exists ds. split; [done|]. by rewrite <- Hst, Hr, app_nil_r.
Qed.

Lemma retrieve_base B fs c ds n :
  base B fs c ds → 0 ≤ n →
  ∃ b d, run_act c (ARetrieve n) = Ret (record_event (set_input c b) (EvRetrieve d)) ∧
    base B fs (record_event (set_input c b) (EvRetrieve d)) ds.
Proof.
  intros [] Hn. cbn. set (k := n `min` _).
  destruct (retrieve_has (inputBuffer_ c) k) as (b & -> & [Hb Hv Hr]); [done|lia|]. orun.
  eexists _, _. split; [done|]. split; cbn; try done; unfold sends, retrieves;
    rewrite ?omap_log_app, ?app_nil_r; try done.
  - lia.
  - by apply shut_ok_other.
  - rewrite concat_app, Hv. cbn. rewrite app_nil_r, <- app_assoc.
    by rewrite (app_assoc (ztake k _)), ztake_zdrop.
Qed.

Lemma retrieve_opened B fs c ds n :
  opened B fs c ds → 0 ≤ n → ∃ c', run_act c (ARetrieve n) = Ret c' ∧ opened B fs c' ds.
Proof.
  intros [Hb Hs Hi Hw He Hm Hq Hst] Hn. destruct (retrieve_base B fs c ds n Hb Hn) as (b & d & Hr & Hb').
  eexists. split; [exact Hr|]. by split.
Qed.

Lemma opened_budget B B' fs c ds : B' ≤ B → opened B fs c ds → opened B' fs c ds.
Proof. intros HB [[] Hs Hi Hw He Hm Hq Hst]. split; auto. split; try done. lia. Qed.

Lemma delayed_opened B fs c ds fs' :
  Forall (λ f, f = FForceClose) fs' → opened B fs c ds → opened B fs (set_delayed c fs') ds.
Proof. intros Hf [[] Hs Hi Hw He Hm Hq Hst]. split; cbn; auto. Qed.

Lemma run_act_opened B fs c ds a :
  opened B fs c ds → act_ok stops a → act_cost a ≤ B →
  ∃ c' ds', run_act c a = Ret c' ∧ opened (B - act_cost a) fs c' ds'.
Proof using writes_retry KernelLaws0.
  intros H Ha HB. destruct a as [data| | | | | |n]; cbn [run_act act_cost] in *; rewrite ?Z.sub_0_r.
  - destruct Ha as [Hne Hd]. unfold send. case_match.
    + destruct (sendInLoop_opened B fs c ds data) as (c' & d' & -> & Ho & _); [done..|]. eauto.
    + eexists _, _. split; [done|]. apply opened_budget with B; [lia|done].
  - unfold shutdown, runInLoop. case_match; [|eauto].
    destruct (shutdownInLoop_opened B fs (setState c kDisconnecting) ds) as (c' & -> & Ho);
      [by apply setState_opened|eauto].
  - unfold forceClose. case_match; [|eauto]. eexists _, _. split; [done|].
    by apply queue_opened, setState_opened.
  - unfold forceCloseWithDelay. case_match; [|eauto]. eexists _, _. split; [done|].
    apply delayed_opened, setState_opened; [|done]. destruct H as [[] ].
    apply Forall_app. split; [done|]. by apply Forall_singleton.
  - unfold startRead, runInLoop, startReadInLoop. case_match; [|eauto].
    destruct (enableReading_opened B fs c ds H) as (c' & -> & Ho). orun.
    eexists _, _. split; [done|]. by apply reading_opened.
  - unfold stopRead, runInLoop, stopReadInLoop. case_match; [|eauto].
    destruct (disableReading_opened B fs c ds H Ha) as (c' & -> & Ho). orun.
    eexists _, _. split; [done|]. by apply reading_opened.
  - destruct (retrieve_opened B fs c ds n H Ha) as (c' & Hc & Ho). eauto.
Qed.

Lemma run_acts_opened B fs c ds l :
  opened B fs c ds → Forall (act_ok stops) l → acts_cost l ≤ B →
  ∃ c' ds', run_acts c l = Ret c' ∧ opened (B - acts_cost l) fs c' ds'.
Proof using writes_retry KernelLaws0.
  revert B c ds. induction l as [|a l IH]; intros B c ds H Hl HB; cbn [acts_cost foldr] in *.
  - rewrite Z.sub_0_r. by exists c, ds.
  - fold (acts_cost l) in *. pose proof (acts_cost_nonneg l).
    apply Forall_cons in Hl as [Ha Hl]. cbn [run_acts].
    destruct (run_act_opened B fs c ds a) as (c' & ds' & -> & Ho); [done..|lia|]. orun.
    destruct (IH _ _ _ Ho Hl) as (c2 & ds2 & -> & Ho2); [lia|]. rewrite Z.sub_add_distr. eauto.
Qed.

(** ** Events of the socket *)

Lemma input_opened B fs c ds b e d os' :
  opened B fs c ds → buf_has wf readable room_of b (readable (inputBuffer_ c) ++ d) (room_of (inputBuffer_ c) - zlen d) →
  rx (os_ c) = d ++ rx os' → tx os' = tx (os_ c) → e = 0 →
  opened B fs (set_os (set_errno (set_input c b) e) os') ds.
Proof.
  intros [[] Hs Hi Hw He Hm Hq Hst] [Hb Hv Hr] Hx Ht ->. rewrite Hx, length_app in b_inroom0.
  split; cbn; rewrite ?Ht; try done. split; cbn; rewrite ?Ht; try done; [lia|].
  rewrite Hv, <- b_input0, Hx. by rewrite <- !app_assoc.
Qed.

Lemma closes B fs c ds : opened B fs c ds →
  ∃ c', handleClose' c = Ret c' ∧ closed B fs c' ds.
Proof using connection_down.
  intros []. destruct (handleClose_closed B fs c ds) as (c' & ? & ? & _); [done..|eauto].
Qed.

Lemma errno_opened B fs c ds e : opened B fs (set_errno c e) ds → opened B fs (set_errno c 0) ds.
Proof. intros [[] Hs Hi Hw He Hm Hq Hst]. cbn in *. split; cbn; try done. Qed.

Lemma set_errno_id c : errno c = 0 → set_errno c 0 = c.
Proof. destruct c. cbn. by intros ->. Qed.

Lemma after_plain_read_inv B fs c ds saved :
  opened B fs (set_errno c 0) ds → (errno c = 0 ∨ saved = -1 ∧ (errno c = EAGAIN ∨ errno c = EINTR)) →
  ∃ c', after_plain_read ndebug enable_et_ connectionCallback_ c saved = Ret c' ∧ conn_inv B fs c' ds.
Proof using connection_down.
  intros Ho He. unfold after_plain_read.
  destruct (Z.eqb_spec saved 0) as [->|Hne].
  - destruct He as [He|[? _]]; [|lia]. rewrite set_errno_id in Ho by done.
    destruct (closes B fs c ds Ho) as (c' & -> & Hc). exists c'. by split; [|right].
  - destruct (Z.eqb_spec (errno c) 0) as [He0|He0].
    + rewrite set_errno_id in Ho by done. exists c. rewrite He0. by split; [|left].
    + destruct (enableReading_opened B fs (set_errno c 0) ds Ho) as (c' & Hc' & Ho').
      destruct He as [|[_ [-> | ->]]]; [done|..]; exists c'; (split; [exact Hc'|by left]).
Qed.

Lemma messageCallback_opened B fs c ds :
  opened B fs c ds → M ≤ B →
  ∃ c' ds', messageCallback_ (record_event c EvMessage) = Ret c' ∧ opened (B - M) fs c' ds'.
Proof using writes_retry message_acts KernelLaws0.
  intros Ho HM. apply (record_opened _ _ _ _ EvMessage) in Ho; [|done..].
  destruct (message_acts (record_event c EvMessage)) as (l & -> & Hl & Hc).
  destruct (run_acts_opened B fs _ ds l Ho Hl) as (c' & ds' & -> & Ho'); [lia|].
  exists c', ds'. split; [done|]. apply opened_budget with (B - acts_cost l); [lia|done].
Qed.

Lemma handleRead_inv B fs c ds :
  opened B fs c ds → 0 ≤ M ≤ B →
  ∃ c' ds', handleRead' c = Ret c' ∧ conn_inv (B - M) fs c' ds'.
Proof using connection_down writes_retry reads_retry message_acts KernelLaws0.
  intros Ho HM. pose proof Ho as [[] Hs Hi Hw He Hm Hq Hst]. unfold handleRead. cbn [andb].
  rewrite b_ssl0.
  destruct (readFull_has _ (os_ c) (inputBuffer_ c) (errno c) reads_retry b_in0 b_inroom0)
    as (d & saved & e' & b & os' & -> & Hb & Hx & Ht & Hd & Hstop & HP). orun.
  set (c1 := set_os _ os').
  assert (opened B fs (set_errno c1 0) ds) as Ho1.
  { apply errno_opened with 0. by apply (input_opened B fs c ds b 0 d os'). }
  assert (errno c1 = e' ∧ (e' = 0 ∨ saved = -1 ∧ (e' = EAGAIN ∨ e' = EINTR))) as [He1 Hcase].
  { split; [done|]. destruct Hstop as [[-> ->]|[-> ?]]; [by left|right; auto]. }
  destruct (Z.ltb_spec 0 (zlen d)).
  - set (c2 := if (errno c1 =? EAGAIN) || (errno c1 =? EINTR) then set_errno c1 0 else c1).
    assert (c2 = set_errno c1 0) as ->.
    { unfold c2. rewrite He1. destruct Hcase as [-> |[_ [-> | ->]]]; [|done..].
      symmetry. by apply set_errno_id. }
    destruct (messageCallback_opened B fs (set_errno c1 0) ds Ho1) as (c3 & ds' & -> & Ho3); [lia|].
    orun. pose proof Ho3 as [[] ? ? ? He3]. rewrite b_ssl1.
    rewrite <- (set_errno_id c3 He3) in Ho3.
    destruct (after_plain_read_inv _ _ _ _ saved Ho3) as (c' & -> & Hc); [by left|eauto].
  - orun. replace (ssl_ c1) with false by done.
    destruct (after_plain_read_inv (B - M) fs c1 ds saved) as (c' & -> & Hc);
      [apply opened_budget with B; [lia|done]|by rewrite He1|eauto].
Qed.

Lemma enableWriting_opened B fs c ds :
  opened B fs c ds → isWriting (channel_ c) = true →
  ∃ c', on_channel c (λ p ch, enableWriting p ch enable_et_) = Ret c' ∧ opened B fs c' ds.
Proof.
  intros H Hw. apply (channel_opened B fs c ds (Z.lor (events_ (channel_ c)) (writeEvent enable_et_))); [done| |apply chan_up_lor, H].
  rewrite Z.lor_spec, Hw. destruct enable_et_; apply orb_true_r.
Qed.

(** Part of the output buffer was written. *)
Lemma progress_opened B fs c ds k o os' :
  opened B fs c ds → 0 ≤ k < zlen (readable (outputBuffer_ c)) →
  buf_has wf readable room_of o (zdrop k (readable (outputBuffer_ c))) (room_of (outputBuffer_ c)) →
  tx os' = tx (os_ c) ++ ztake k (readable (outputBuffer_ c)) → rx os' = rx (os_ c) →
  opened B fs (set_output (set_os (set_errno c 0) os') o) ds.
Proof.
  intros [[] Hs Hi Hw He Hm Hq Hst] Hk [Ho Hv Hr] Ht Hx.
  assert (tx os' ++ readable o = t0 ++ concat ds) as Hst'.
  { by rewrite <- Hst, Ht, Hv, <- app_assoc, ztake_zdrop. }
  split; cbn; try done; [split; cbn; rewrite ?Hx; try done|].
  - lia.
  - rewrite <- Hst'. by eexists.
  - rewrite Hw, Hv, length_zdrop by lia. f_equal. rewrite !(proj2 (Z.eqb_neq _ _)) by lia. done.
Qed.

(** The whole output buffer was written, and the channel stops writing. *)
Lemma drained_opened B fs c ds o os' :
  opened B fs c ds →
  buf_has wf readable room_of o [] (room_of (outputBuffer_ c)) →
  tx os' = tx (os_ c) ++ readable (outputBuffer_ c) → rx os' = rx (os_ c) →
  ∃ c', on_channel (set_output (set_os (set_errno c 0) os') o)
          (λ p ch, disableWriting p ch enable_et_) = Ret c' ∧ opened B fs c' ds.
Proof.
  intros [[] Hs Hi Hw He Hm Hq Hst] [Ho Hv Hr] Ht Hx. unfold on_channel, disableWriting. cbn.
  edestruct reg_ok_update as (x & -> & Hxr & Hxe & Hxi & _ & Hxa); [done|]. orun.
  assert (tx os' ++ readable o = t0 ++ concat ds) as Hst' by by rewrite <- Hst, Ht, Hv, app_nil_r.
  eexists. split; [done|]. split; cbn; try done; [split; cbn; rewrite ?Hx; try done| |].
  - lia.
  - rewrite <- Hst'. by eexists.
  - eapply chan_up_update; [done..|]. apply chan_up_clear; [done|by destruct enable_et_].
  - rewrite isWriting_testbit, Hxe, testbit_clear, Hv by done.
    destruct enable_et_; apply andb_false_r.
Qed.

Lemma finish_drained B fs c ds :
  opened B fs c ds →
  ∃ c', (let c := if has_writeComplete then queueInLoop c FWriteComplete else c in
         if is_state (state_ c) kDisconnecting then shutdownInLoop c else Ret c) = Ret c' ∧
    opened B fs c' ds.
Proof.
  intros Ho. cbn zeta.
  assert (opened B fs (if has_writeComplete then queueInLoop c FWriteComplete else c) ds) as H.
  { case_match; [by apply queue_opened|done]. }
  revert H. generalize (if has_writeComplete then queueInLoop c FWriteComplete else c).
  intros c1 H. case_match; [by apply shutdownInLoop_opened|eauto].
Qed.

Lemma write_all_opened B fs c ds o os' n :
  opened B fs c ds → n = zlen (readable (outputBuffer_ c)) → 0 < n →
  retrieve (outputBuffer_ c) n = Ret o →
  buf_has wf readable room_of o [] (room_of (outputBuffer_ c)) →
  tx os' = tx (os_ c) ++ readable (outputBuffer_ c) → rx os' = rx (os_ c) →
  ∃ c', output_written enable_et_ has_writeComplete (set_os (set_errno c 0) os') n = Ret c' ∧
    opened B fs c' ds.
Proof.
  intros Ho -> Hn Hret Hb Ht Hx. unfold output_written.
  rewrite (proj2 (Z.ltb_lt 0 _)) by done. cbn [outputBuffer_ set_os set_errno]. rewrite Hret. orun.
  destruct (drained_opened B fs c ds o os' Ho Hb Ht Hx) as (c2 & Hc2 & Ho2).
  destruct Hb as [Hb Hv _]. rewrite readableBytes_zero, Hv by done.
  change (zlen (@nil Z) =? 0) with true. rewrite Hc2. orun.
  by apply finish_drained.
Qed.

Lemma write_part_opened B fs c ds o os' e n :
  opened B fs c ds → 0 ≤ n < zlen (readable (outputBuffer_ c)) →
  retrieve (outputBuffer_ c) n = Ret o →
  buf_has wf readable room_of o (zdrop n (readable (outputBuffer_ c))) (room_of (outputBuffer_ c)) →
  tx os' = tx (os_ c) ++ ztake n (readable (outputBuffer_ c)) → rx os' = rx (os_ c) →
  ∃ c', output_written enable_et_ has_writeComplete (set_os (set_errno c e) os') n = Ret c' ∧
    errno c' = e ∧ ssl_ c' = false ∧ channel_ c' = channel_ c ∧ opened B fs (set_errno c' 0) ds.
Proof.
  intros Ho Hn Hret Hb Ht Hx. pose proof Ho as [[] Hs Hi Hw He Hm Hq Hst]. unfold output_written.
  destruct (Z.ltb_spec 0 n).
  - cbn [outputBuffer_ set_os set_errno]. rewrite Hret. orun. pose proof Hb as [Hbo Hv Hr].
    rewrite readableBytes_zero, Hv, length_zdrop, (proj2 (Z.eqb_neq _ 0)) by (done || lia).
    eexists. split_and!; [done..|]. by apply (progress_opened B fs c ds n o os' Ho).
  - assert (n = 0) as -> by lia. change (ztake 0 _) with (@nil Z) in Ht. rewrite app_nil_r in Ht.
    eexists. split_and!; [done..|].
    split; cbn; rewrite ?Ht; try done. split; cbn; rewrite ?Ht, ?Hx; done.
Qed.

Lemma handleWrite_opened B fs c ds :
  opened B fs c ds → ∃ c', handleWrite' c = Ret c' ∧ opened B fs c' ds.
Proof using writes_retry KernelLaws0.
  intros Ho. pose proof Ho as [[] Hs Hi Hw He Hm Hq Hst]. unfold handleWrite. cbn [andb].
  destruct (isWriting (channel_ c)) eqn:Hwr; [|by exists c].
  symmetry in Hw. apply negb_true_iff, Z.eqb_neq in Hw.
  assert (zlen (readable (outputBuffer_ c)) < 2 ^ 63) as Hlen.
  { rewrite length_readable, readableBytes_eq by done. destruct b_out0. unfold kMaxSize in *. lia. }
  unfold write_out. rewrite b_ssl0.
  destruct (writeFull_ok _ (os_ c) (readable (outputBuffer_ c)) 0 (errno c) writes_retry Hlen)
    as (k & saved & e' & os' & -> & Hk & Ht & Hx & Hend). orun.
  destruct (retrieve_has (outputBuffer_ c) k) as (o & Hret & Hbo); [done|lia|].
  destruct Hend as [E|Hk' Hpos Hsv ->|Hk' [[-> _]|[-> ?]] [? He']]; [by rewrite E in Hw| |lia|].
  - rewrite zdrop_all in Hbo by lia. rewrite ztake_all in Ht by lia. rewrite He.
    destruct (write_all_opened B fs c ds o os' k) as (c3 & -> & Ho3); [done..|]. orun.
    pose proof Ho3 as [[] ? ? ? He3]. rewrite b_ssl1.
    edestruct (after_plain_write_retry c3) as (m & -> & [(-> & _)|(-> & ?)]); [done| |eauto|lia].
    by left.
  - destruct (write_part_opened B fs c ds o os' e' k) as (c2 & -> & He2 & Hl2 & Hc2 & Ho2); [done..|].
    orun. rewrite Hl2.
    destruct (after_plain_write_retry c2 (-1) e' (λ c, on_channel c (λ p ch, enableWriting p ch enable_et_)))
      as (m & -> & [(? & ? & ?)|[-> _]]); [done|by right|lia|].
    apply enableWriting_opened; [done|]. cbn. by rewrite Hc2.
Qed.

Lemma handleWrite_closed B fs c ds : closed B fs c ds → handleWrite' c = Ret c.
Proof.
  intros [_ _ [He _] _ _]. unfold handleWrite. cbn [andb].
  by rewrite isWriting_testbit, He.
Qed.

Lemma mark_base B fs c ds b :
  base B fs c ds → base B fs (set_channel c (poller_ c, set_eventHandling (channel_ c) b)) ds.
Proof. intros []. by split. Qed.

Lemma mark_opened B fs c ds b :
  opened B fs c ds → opened B fs (set_channel c (poller_ c, set_eventHandling (channel_ c) b)) ds.
Proof. intros [H]. split; cbn; try done. by apply mark_base. Qed.

Lemma mark_inv B fs c ds b :
  conn_inv B fs c ds → conn_inv B fs (set_channel c (poller_ c, set_eventHandling (channel_ c) b)) ds.
Proof.
  intros [H|[H]]; [left; by apply mark_opened|right]. split; cbn; try done. by apply mark_base.
Qed.

Lemma base_budget B B' fs c ds : B' ≤ B → base B fs c ds → base B' fs c ds.
Proof. intros HB []. split; try done. lia. Qed.

Lemma inv_budget B B' fs c ds : B' ≤ B → conn_inv B fs c ds → conn_inv B' fs c ds.
Proof.
  intros HB [H|[H]]; [left; by apply opened_budget with B|right].
  split; try done. by apply base_budget with B.
Qed.

(** A hang-up is not reported together with urgent data or a half-close unless
    there is also data to read (POLLRDHUP is never asked for). *)
Definition revents_ok (r : Z) : bool :=
  negb (has_bits r POLLHUP && negb (has_bits r POLLIN) &&
        has_bits r (Z.lor (Z.lor POLLIN POLLPRI) POLLRDHUP)).

Lemma handleEvent_inv B fs c ds r :
  opened B fs c ds → 0 ≤ M ≤ B → revents_ok r = true →
  ∃ c' ds', handleEvent' c r = Ret c' ∧ conn_inv (B - M) fs c' ds'.
Proof using connection_down writes_retry reads_retry message_acts KernelLaws0.
  intros Ho HM Hr. unfold handleEvent. cbn zeta. set (c0 := set_channel c _).
  assert (opened B fs c0 ds) as Ho0 by by apply mark_opened.
  assert (∃ c1 ds1, (c ← (if has_bits r POLLHUP && negb (has_bits r POLLIN) then handleClose' c0 else Ret c0);
            c ← (if has_bits r (Z.lor POLLERR POLLNVAL) then handleError c else Ret c);
            if has_bits r (Z.lor (Z.lor POLLIN POLLPRI) POLLRDHUP) then handleRead' c else Ret c)
            = Ret c1 ∧ conn_inv (B - M) fs c1 ds1) as (c1 & ds1 & Hc1 & Hi1).
  { unfold revents_ok in Hr. destruct (has_bits r POLLHUP && negb (has_bits r POLLIN)).
    - apply negb_true_iff in Hr. cbn in Hr. rewrite Hr.
      destruct (closes B fs c0 ds Ho0) as (c1 & -> & Hc). orun.
      exists c1, ds. split; [by case_match|]. apply inv_budget with B; [lia|by right].
    - orun. replace (if has_bits r (Z.lor POLLERR POLLNVAL) then handleError c0 else Ret c0)
        with (Ret c0) by by case_match. orun.
      case_match; [by apply handleRead_inv with ds|]. exists c0, ds. split; [done|].
      apply inv_budget with B; [lia|by left]. }
  apply bind_ret_inv in Hc1 as (x & -> & (y & Hy & Hz)%bind_ret_inv). orun. rewrite Hy. orun.
  rewrite Hz. orun.
  assert (∃ c2, (if has_bits r POLLOUT then handleWrite' c1 else Ret c1) = Ret c2 ∧
            conn_inv (B - M) fs c2 ds1) as (c2 & -> & Hi2).
  { destruct (has_bits r POLLOUT); [|eauto]. destruct Hi1 as [Hi1|Hi1].
    - destruct (handleWrite_opened _ _ _ _ Hi1) as (c2 & -> & Ho2). exists c2. by split; [|left].
    - rewrite (handleWrite_closed _ _ _ _ Hi1). exists c1. by split; [|right]. }
  orun. eexists _, _. split; [done|]. by apply mark_inv.
Qed.

(** ** Pending functors *)

Lemma fcost_cons f fs : fcost (f :: fs) = functor_cost f + fcost fs.
Proof. done. Qed.

Lemma base_pop B f fs c ds :
  base B (f :: fs) c ds → base (B + functor_cost f) fs c ds ∧ functor_ok f.
Proof.
  intros []. cbn [app] in *. rewrite fcost_cons in b_room0. apply Forall_cons in b_queue0 as [Hf Hq].
  split; [|done]. split; try done. lia.
Qed.

Lemma opened_pop B f fs c ds :
  opened B (f :: fs) c ds →
  opened (B + functor_cost f) fs c ds ∧ functor_ok f ∧ f ≠ FConnectDestroyed.
Proof.
  intros [Hb Hs Hi Hw He Hm Hq Hst]. apply base_pop in Hb as [Hb Hf]. cbn [app] in Hq.
  split_and!; [|done|by intros ->]. split; try done. by destruct f.
Qed.

Lemma closed_pop B f fs c ds :
  f ≠ FConnectDestroyed → closed B (f :: fs) c ds → closed (B + functor_cost f) fs c ds ∧ functor_ok f.
Proof.
  intros Hf [Hb Hs He Hm Hq]. apply base_pop in Hb as [Hb Hok]. split; [|done].
  split; try done. rewrite <- Hq. by destruct f.
Qed.

Lemma record_base B fs c ds e :
  (∀ d, e ≠ EvSend d) → (∀ d, e ≠ EvRetrieve d) →
  (∀ s t, e = EvShutdownWrite s t → s = kDisconnected) →
  base B fs c ds → base B fs (record_event c e) ds.
Proof.
  intros H1 H2 H3 []. split; cbn; try done; unfold sends, retrieves; rewrite ?omap_log_app.
  1, 3: destruct e; rewrite ?app_nil_r; try done; naive_solver.
  intros s t [Hin|Hin%list_elem_of_singleton]%elem_of_app Hs; [by apply (b_shut0 s)|].
  by destruct Hs; apply (H3 s t).
Qed.

Lemma record_closed B fs c ds e :
  (∀ d, e ≠ EvSend d) → (∀ d, e ≠ EvRetrieve d) →
  (∀ s t, e = EvShutdownWrite s t → s = kDisconnected) →
  closed B fs c ds → closed B fs (record_event c e) ds.
Proof. intros H1 H2 H3 [Hb Hs He Hm Hq]. split; cbn; try done. by apply record_base. Qed.

Lemma run_functor_opened B f fs c ds :
  0 ≤ B → opened B (f :: fs) c ds →
  ∃ c' ds', run_functor' c f = Ret c' ∧ conn_inv B fs c' ds'.
Proof using connection_down writes_retry KernelLaws0.
  intros HB (Ho & Hf & Hd)%opened_pop. destruct f; cbn [run_functor functor_cost] in *; try done;
    rewrite ?Z.add_0_r in Ho.
  - destruct Hf as [Hne Hby].
    destruct (sendInLoop_opened _ _ _ _ message Ho Hne Hby) as (c' & d' & -> & Ho' & _); [lia|].
    rewrite Z.add_simpl_r in Ho'. eexists _, _. by split; [|left].
  - destruct (shutdownInLoop_opened _ _ _ _ Ho) as (c' & -> & Ho'). exists c', ds. by split; [|left].
  - unfold forceCloseInLoop. case_match; [|exists c, ds; by split; [|left]].
    destruct (closes _ _ _ _ Ho) as (c' & -> & Hc). exists c', ds. by split; [|right].
  - unfold forceClose. case_match; eexists _, ds; (split; [done|left]); [|done].
    by apply queue_opened, setState_opened.
  - eexists _, ds. split; [done|left]. by apply record_opened.
  - eexists _, ds. split; [done|left]. by apply record_opened.
Qed.

Lemma run_functor_closed B f fs c ds :
  closed B (f :: fs) c ds → ∃ c', run_functor' c f = Ret c' ∧ closed B fs c' ds.
Proof.
  intros Hc. assert (is_state (state_ c) kDisconnected = true) as Hst.
  { destruct Hc as [_ -> _ _ _]. apply is_state_refl. }
  assert (∀ s, s ≠ kDisconnected → is_state (state_ c) s = false) as Hne.
  { destruct Hc as [_ -> _ _ _]. intros. by apply is_state_ne. }
  destruct (decide (f = FConnectDestroyed)) as [->|Hf].
  - destruct Hc as [Hb Hs He Hm Hq]. apply base_pop in Hb as [Hb _]. cbn in Hb, Hq. rewrite Z.add_0_r in Hb.
    cbn [run_functor]. unfold connectDestroyed. rewrite Hne by done. orun. unfold on_channel.
    assert (index_ (channel_ c) ≠ kNew) as Hi by (intros E; by rewrite E in Hq).
    destruct (reg_ok_remove (poller_ c) (channel_ c)) as (x & -> & Hx & Hxe & Hxi); [apply Hb|apply He|done|].
    orun. eexists. split; [done|]. apply Z.eqb_neq in Hi. rewrite Hi in Hq.
    split; cbn; try done; [| |rewrite Hxi; cbn; congruence]; [destruct Hb; by split|].
    split; [done|]. by rewrite Hxi.
  - apply closed_pop in Hc as [Hc Hok]; [|done].
    assert (0 ≤ functor_cost f) as Hcost by (destruct f; cbn; lia).
    assert (closed B fs c ds) as Hcl.
    { destruct Hc as [Hb]. split; try done. apply base_budget with (B + functor_cost f); [lia|done]. }
    destruct f; try done; cbn [run_functor];
      unfold sendInLoop, forceCloseInLoop, forceClose; rewrite ?Hst, ?Hne by done; eauto.
    + unfold shutdownInLoop. case_match; [|eauto]. eexists. split; [done|].
      apply record_closed; try done. intros s t [= <- <-]. apply Hc.
    + eexists. split; [done|]. by apply record_closed.
    + eexists. split; [done|]. by apply record_closed.
Qed.

Lemma run_functors_inv B fs c ds :
  0 ≤ B → conn_inv B fs c ds → ∃ c' ds', run_functors' c fs = Ret c' ∧ conn_inv B [] c' ds'.
Proof using connection_down writes_retry KernelLaws0.
  intros HB. revert c ds. induction fs as [|f fs IH]; intros c ds Hi; cbn [run_functors]; [eauto|].
  destruct Hi as [Ho|Hc].
  - destruct (run_functor_opened B f fs c ds HB Ho) as (c' & ds' & -> & Hi'). orun. eauto.
  - destruct (run_functor_closed B f fs c ds Hc) as (c' & -> & Hc'). orun.
    apply (IH c' ds). by right.
Qed.

Lemma take_pending_inv B c ds :
  conn_inv B [] c ds → conn_inv B (pending c) (set_pending c []) ds.
Proof.
  intros [[[] Hs Hi Hw He Hm Hq Hst]|[[] Hs He Hm Hq]]; [left|right];
    (split; cbn in *; rewrite ?app_nil_r; try done); split; cbn; rewrite ?app_nil_r; done.
Qed.

(** ** Runs *)

(** A call of the user on a connection that is down. *)
Lemma run_act_closed B fs c ds a :
  closed B fs c ds → act_ok stops a → switches_reading a = false →
  ∃ c', run_act c a = Ret c' ∧ closed B fs c' ds.
Proof.
  intros Hc Ha Hsw.
  destruct a; try done; cbn [run_act];
    unfold send, shutdown, forceClose, forceCloseWithDelay; rewrite ?(c_state _ _ _ _ Hc); eauto.
  destruct Hc as [Hb Hs He Hm Hq]. destruct (retrieve_base B fs c ds n Hb Ha) as (b & d & Hr & Hb').
  eexists. split; [exact Hr|]. by split.
Qed.

(** What can come next: epoll reports a channel only while it is registered, and, when
    the user stops reading at times, none whose connection has closed meanwhile (such a
    connection can stay registered, see TcpFaults); after the connection is down the
    user may still call its functions, but not start or stop reading. *)
Definition possible c (o : op) : bool :=
  match o with
  | OAct a => negb (disconnected c && switches_reading a)
  | OEvents _ => (index_ (channel_ c) =? kAdded) && negb (stops && disconnected c)
  | _ => true
  end.

Fixpoint possible_run c (l : list op) : bool :=
  match l with
  | [] => true
  | o :: l => possible c o && match run_op c o with Ret c => possible_run c l | _ => true end
  end.

Definition op_ok (o : op) : Prop :=
  match o with
  | OAct a => act_ok stops a
  | OForeignSend data => data ≠ [] ∧ Forall_byte data
  | OEvents r => revents_ok r = true
  | _ => True
  end.

Definition op_cost (o : op) : Z :=
  match o with
  | OAct a => act_cost a
  | OForeignSend data => zlen data
  | OEvents _ => M
  | _ => 0
  end.

Definition ops_cost (l : list op) : Z := foldr (λ o n, op_cost o + n) 0 l.

Lemma queue_send_opened B fs c ds data :
  data ≠ [] → Forall_byte data → opened B fs c ds →
  opened (B - zlen data) fs (queueInLoop c (FSendInLoop data)) ds.
Proof.
  intros Hne Hby [[] Hs Hi Hw He Hm Hq Hst]. split; cbn; try done; [split; cbn; try done|].
  - rewrite !fcost_app in *. cbn. lia.
  - rewrite app_assoc. apply Forall_app. split; [done|]. by apply Forall_singleton.
  - by rewrite app_assoc, destroys_app, Hq.
Qed.

Lemma run_cost_nonneg l : 0 ≤ M → 0 ≤ ops_cost l.
Proof.
  intros HM. induction l as [|o l IH]; cbn [ops_cost foldr]; [done|]. fold (ops_cost l).
  destruct o as [[]| | | | |]; cbn in *; lia.
Qed.

Lemma timer_inv B c ds f fs :
  conn_inv B [] c ds → delayed c = f :: fs →
  ∃ c' ds', run_functor' (set_delayed c fs) f = Ret c' ∧ conn_inv B [] c' ds'.
Proof.
  intros Hi Hd. assert (f = FForceClose ∧ Forall (λ f, f = FForceClose) fs) as [-> Hfs].
  { apply (Forall_cons (λ f, f = FForceClose)). rewrite <- Hd. by destruct Hi as [[[]]|[[]]]. }
  cbn [run_functor]. unfold forceClose. cbn [state_ set_delayed].
  destruct Hi as [Ho|[[] Hs He Hm Hq]].
  - apply (delayed_opened _ _ _ _ fs Hfs) in Ho.
    case_match; eexists _, _; (split; [done|left]); [|done].
    by apply queue_opened, setState_opened.
  - exists (set_delayed c fs), ds. rewrite Hs. split; [done|right]. split; [by split|done..].
Qed.

Lemma run_op_inv B c ds o :
  0 ≤ M → conn_inv B [] c ds → op_ok o → possible c o = true → op_cost o ≤ B →
  ∃ c' ds', run_op c o = Ret c' ∧ conn_inv (B - op_cost o) [] c' ds'.
Proof using connection_down writes_retry reads_retry message_acts KernelLaws0.
  intros HM Hi Hok Hp HB.
  assert (0 ≤ op_cost o) as Hpos by (destruct o as [[]| | | | |]; cbn in *; lia).
  destruct o as [a|data| |r| |]; cbn [run_op op_cost op_ok possible] in *.
  - destruct Hi as [Ho|Hc].
    + destruct (run_act_opened B [] c ds a Ho Hok HB) as (c' & ds' & -> & Ho'). exists c', ds'. by split; [|left].
    + unfold disconnected in Hp. rewrite (c_state _ _ _ _ Hc), is_state_refl in Hp.
      apply negb_true_iff in Hp. destruct (run_act_closed B [] c ds a Hc Hok Hp) as (c' & -> & Hc').
      exists c', ds. split; [done|]. apply inv_budget with B; [lia|by right].
  - destruct Hok as [Hne Hby]. unfold send. case_match eqn:Hs; eexists _, _; (split; [done|]).
    + destruct Hi as [Ho|Hc]; [left; by apply queue_send_opened|].
      rewrite (c_state _ _ _ _ Hc) in Hs. done.
    + apply inv_budget with B; [lia|done].
  - rewrite Z.sub_0_r. unfold shutdown, runInLoop. case_match eqn:Hs; [|eauto].
    destruct Hi as [Ho|Hc]; [|by rewrite (c_state _ _ _ _ Hc) in Hs].
    eexists _, _. split; [done|left]. by apply queue_opened, setState_opened.
  - destruct Hi as [Ho|Hc]; [by apply handleEvent_inv with ds|].
    apply andb_true_iff in Hp as [Hx%Z.eqb_eq Hp]. unfold disconnected in Hp.
    rewrite (c_state _ _ _ _ Hc), is_state_refl, andb_true_r in Hp. apply negb_true_iff in Hp.
    by destruct (c_events _ _ _ _ Hc) as [_ []].
  - rewrite Z.sub_0_r. unfold doPendingFunctors.
    apply run_functors_inv with ds; [lia|]. by apply take_pending_inv.
  - rewrite Z.sub_0_r. destruct (delayed c) as [|f fs] eqn:Hd; [eauto|]. by apply (timer_inv B c ds f fs).
Qed.

Lemma run_ops_inv B c ds l :
  0 ≤ M → conn_inv B [] c ds → Forall op_ok l → possible_run c l = true → ops_cost l ≤ B →
  ∃ c' ds', run_ops c l = Ret c' ∧ conn_inv (B - ops_cost l) [] c' ds'.
Proof using connection_down writes_retry reads_retry message_acts KernelLaws0.
  intros HM. revert B c ds. induction l as [|o l IH]; intros B c ds Hi Hl Hp HB.
  - exists c, ds. cbn. by rewrite Z.sub_0_r.
  - apply Forall_cons in Hl as [Ho Hl]. cbn [ops_cost foldr run_ops possible_run] in *. fold (ops_cost l) in *.
    apply andb_true_iff in Hp as [Hp1 Hp].
    pose proof (run_cost_nonneg l HM).
    destruct (run_op_inv B c ds o) as (c' & ds' & Hrun & Hi'); [done..|lia|]. rewrite Hrun in *. orun.
    destruct (IH _ _ _ Hi' Hl Hp) as (c2 & ds2 & -> & Hi2); [lia|]. rewrite Z.sub_add_distr. eauto.
Qed.

(** ** The connection as its user sees it *)

(** A connection as TcpServer::newConnection makes it. *)
Record fresh c : Prop := Fresh {
  f_state : state_ c = kConnecting;
  f_reg : reg_ok (poller_ c) (channel_ c);
  f_events : events_ (channel_ c) = 0;
  f_out : buf_has wf readable room_of (outputBuffer_ c) [] (kMaxSize - kCheapPrepend);
  f_in : buf_has wf readable room_of (inputBuffer_ c) [] (zlen (rx (os_ c)) + 4096);
  f_ssl : ssl_ c = false;
  f_errno : errno c = 0;
  f_map : in_map c = true;
  f_queues : pending c = [] ∧ delayed c = [] ∧ log c = [];
  f_io : tx (os_ c) = t0 ∧ rx (os_ c) = r0;
}.

(** What the history [log c] of a connection and its wire have in common: the
    messages accepted appear as [ds] on the wire, complete in order as long as
    the connection is open, a prefix of them afterwards; a shutdown came after
    complete messages; consumed, buffered and awaited input make up the input; a
    connection that is down is out of the server's map and its channel has no events
    and, when reading is never stopped, is not registered. *)
Record duplex c (ds : list bytes) : Prop := Duplex {
  d_sends : Forall2 garbled (sends (log c)) ds;
  d_open : state_ c ≠ kDisconnected → tx (os_ c) ++ readable (outputBuffer_ c) = t0 ++ concat ds;
  d_prefix : tx (os_ c) `prefix_of` t0 ++ concat ds;
  d_shutdown : shut_ok t0 (log c) ds;
  d_input : concat (retrieves (log c)) ++ readable (inputBuffer_ c) ++ rx (os_ c) = r0;
  d_closed : state_ c = kDisconnected → in_map c = false ∧ chan_down (channel_ c);
}.

Lemma inv_duplex B fs c ds : conn_inv B fs c ds → duplex c ds.
Proof.
  intros [[[] Hs Hi Hw He Hm Hq Hst]|[[] Hs He Hm Hq]]; split; try done.
  intros E. destruct Hs; congruence.
Qed.

Lemma established_inv c :
  fresh c → 0 ≤ M ≤ kMaxSize - kCheapPrepend →
  ∃ c' ds, connectEstablished' c = Ret c' ∧ opened (kMaxSize - kCheapPrepend - M) [] c' ds.
Proof using connection_up writes_retry KernelLaws0.
  intros [Hs Hr He [Ho Hov Hor] [Hi Hiv Hir] Hl Hen Hm (Hp & Hd & Hlog) [Ht Hx]] HM.
  unfold connectEstablished. rewrite assert_dbg_true by by rewrite Hs. orun.
  unfold on_channel, enableReading. cbn [poller_ channel_ set_channel setState fst snd].
  assert (reg_ok (poller_ c) (tie (channel_ c))) as Hr1 by done.
  destruct (reg_ok_update _ _ (Z.lor (events_ (tie (channel_ c))) (readEvent enable_et_)) Hr1)
    as (x & -> & Hxr & Hxe & Hxi & Hnew & Hadd). orun.
  set (c1 := record_event _ _).
  assert (opened (kMaxSize - kCheapPrepend) [] c1 []) as Hop.
  { split; cbn; rewrite ?Hp, ?Hov, ?Ht; try done; [split; cbn; rewrite ?Hp, ?Hlog, ?Hiv, ?Ht, ?Hd; try done|..].
    - by rewrite app_nil_r.
    - intros s t Hin%list_elem_of_singleton. done.
    - by left.
    - assert (Z.testbit (events_ x.2) 0 = true) as Hb.
      { rewrite Hxe. cbn. rewrite He. by destruct enable_et_. }
      split; [done|]. intros _. split; [|done].
      destruct (decide (index_ (channel_ c) = kAdded)) as [E|E]; [|by apply Hnew].
      rewrite (Hadd E), <- Hxe. destruct (Z.eqb_spec (events_ x.2) 0) as [Hz|]; [by rewrite Hz in Hb|done].
    - rewrite isWriting_testbit, Hxe. cbn. rewrite He. by destruct enable_et_. }
  destruct (connection_up c1) as (l & -> & Hok & Hc); [done|].
  destruct (run_acts_opened _ _ _ _ l Hop Hok) as (c2 & ds & -> & Ho2); [lia|].
  exists c2, ds. split; [done|]. apply opened_budget with (kMaxSize - kCheapPrepend - acts_cost l); [lia|done].
Qed.


End stream.

(** ** An example: an echo server whose socket takes three bytes at a time *)

Module SampleConnection.

Definition OS0 : Type := ScriptOS not_ready.

Definition os0 : OS0 :=
  mkScript [RData (str "hello"); RFail NotReady; RData (str "bye"); RData []]
    [WTake 16; WTake 3; WFail Interrupted; WTake 3; WTake 16] [].

Definition buf0 : Buffer := mkBuffer (replicate 1032 0) 8 8.

Definition conn0 : Conn OS0 :=
  mkConn kConnecting true (Channel_ctor 100 7) Poller_ctor buf0 buf0 false false 0 os0 [] [] true [].

Definition down_up (c : Conn OS0) : outcome (Conn OS0) := Ret c.

Definition echo (c : Conn OS0) : outcome (Conn OS0) :=
  run_acts false true true true 8 down_up c [ASend (str "echo!"); ARetrieve 64].

Definition ops0 : list op :=
  [OEvents POLLIN; OForeignSend (str "more"); OPending; OEvents POLLOUT; OAct AShutdown;
   OEvents (Z.lor POLLIN POLLOUT); OAct (ASend (str "late")); OPending; OPending].

Definition run0 : outcome (Conn OS0) :=
  c ← connectEstablished false true down_up conn0;
  run_ops false true true true 8 0 down_up echo c ops0.

Lemma fresh0 : fresh [] (str "hellobye") conn0.
Proof.
  split; try reflexivity.
  - exists {[100 := Channel_ctor 100 7]}, (Channel_ctor 100 7). split_and!; [|done..].
    apply poller_inv_init.
    + intros i c [<- <-]%lookup_singleton_Some. done.
    + intros i j c d [<- <-]%lookup_singleton_Some [<- <-]%lookup_singleton_Some _. done.
  - split; [apply (bool_decide_unpack _); vm_compute; exact I|done|done].
  - split; [apply (bool_decide_unpack _); vm_compute; exact I|done|done].
  - done.
  - done.
Qed.

End SampleConnection.

