(* ===== verification/TcpFaults.v ===== *)
(** * TcpFaults: where a TCP connection fails its user

    The cases that the assumptions of [connection_is_duplex_stream] leave out,
    and the one its statement carries in [garbled]: a partial direct write, an
    [errno] left over from another connection, a send that fails inside the
    message callback, a write error that is not a reset, an empty message, and
    closing a paused connection. *)

From S2P Require Import Prelude BytesBuffer Buffer SocketIO Channel TcpConnection TcpStream.
Import Buffer SocketIO Channel TcpConnection.

Section faults.
Context {OS : Type} `{!Kernel OS, !KernelLaws OS} `{!OpenSSL OS}.
Implicit Types c : Conn OS.
Variables (ndebug enable_et_ has_writeComplete has_highWaterMark : bool).
Variables (highWaterMark_ : Z) (ssl_fuel : nat).
Variables (connectionCallback_ messageCallback_ : Conn OS → outcome (Conn OS)).
Variables (t0 r0 : bytes).
Hypothesis connection_down : ∀ c, state_ c = kDisconnected → connectionCallback_ c = Ret c.

Notation sendInLoop' := (sendInLoop ndebug enable_et_ has_writeComplete has_highWaterMark
  highWaterMark_ connectionCallback_).
Notation send' := (send ndebug enable_et_ has_writeComplete has_highWaterMark
  highWaterMark_ connectionCallback_).
Notation handleClose' := (handleClose ndebug connectionCallback_).
Notation opened' := (opened true t0 r0).
Notation closed' := (closed true t0 r0).

(** The connection has nothing to write. *)
Definition idle c : Prop := readable (outputBuffer_ c) = [].

(** [e] is no error that the code takes for a socket that is not ready. *)
Definition hard (e : Z) : Prop := 0 < e ∧ e ≠ EAGAIN ∧ e ≠ EINTR ∧ e ≠ EINPROGRESS.

Lemma hard_eqb e : hard e →
  (e =? EAGAIN) = false ∧ (e =? EINTR) = false ∧ (e =? EINPROGRESS) = false ∧ (e =? 0) = false.
Proof. intros (? & ? & ? & ?). split_and!; apply Z.eqb_neq; [done..|lia]. Qed.

(** [sendInLoop] on an idle open connection, up to what follows the write. *)
Lemma sendInLoop_idle B fs c ds data k saved e os' :
  opened' B fs c ds → idle c → zlen data < 2 ^ 63 → 0 ≤ k ≤ zlen data →
  writeFull (os_ c) data 0 0 = Ret (k, saved, e, os') →
  let c1 := set_os (set_errno (record_event c (EvSend data)) e) os' in
  let c1 := if (zlen data - k =? 0) && has_writeComplete
            then queueInLoop c1 FWriteComplete else c1 in
  sendInLoop' c data =
    (c2 ← after_plain_write ndebug connectionCallback_ c1 saved Ret;
     let faultError := negb (errno c2 =? EAGAIN) && negb (errno c2 =? EINTR) &&
                       ((errno c2 =? EPIPE) || (errno c2 =? ECONNRESET)) in
     if negb faultError && (0 <? zlen data - k) then
       let oldLen := readableBytes (outputBuffer_ c2) in
       let c2 := if (highWaterMark_ <=? u64 (oldLen + (zlen data - k))) && (oldLen <? highWaterMark_)
                    && has_highWaterMark
                 then queueInLoop c2 (FHighWaterMark (u64 (oldLen + (zlen data - k)))) else c2 in
       o ← append (outputBuffer_ c2) (ztake (zlen data - k) data);
       let c2 := set_output c2 o in
       if negb (isWriting (channel_ c2)) then on_channel c2 (λ p ch, enableWriting p ch enable_et_)
       else Ret c2
     else Ret c2).
Proof.
  intros Ho Hidle Hlen Hk Hw. pose proof Ho as [[] Hs Hi Hwr He Hm Hq Hst].
  unfold sendInLoop. rewrite (opened_not_disconnected _ _ _ _ _ _ _ Ho). cbn zeta.
  cbn [channel_ outputBuffer_ record_event].
  rewrite (readableBytes_zero _ b_out), Hwr, Hidle. change (zlen (@nil Z) =? 0) with true. cbn [negb andb].
  unfold send_directly, write_out. cbn [ssl_ os_ errno record_event]. rewrite b_ssl, He, Hw. orun.
  cbn [ssl_ set_os set_errno]. rewrite (proj2 (Z.leb_le 0 k)) by lia.
  rewrite (u64_small (zlen data - k)) by lia. cbn [andb].
  set (c1 := if (zlen data - k =? 0) && has_writeComplete then _ else _).
  assert (ssl_ c1 = false) as -> by (unfold c1; by case_match).
  destruct (after_plain_write ndebug connectionCallback_ c1 saved Ret) as [c2|f]; [|done]. orun.
  rewrite assert_dbg_true by bool_side. orun. by change (zdrop 0 data) with data.
Qed.

Lemma writeFull_tx os data saved e k saved' e' os' :
  zlen data < 2 ^ 63 → writeFull os data saved e = Ret (k, saved', e', os') →
  tx os' = tx os ++ ztake k data ∧ rx os' = rx os.
Proof using KernelLaws0.
  intros Hlen Hw. destruct (writeFull_ok (λ _ _, True) os data saved e)
    as (? & ? & ? & ? & Hw' & _ & Ht & Hx & _); [done..|]. rewrite Hw in Hw'. by simplify_eq.
Qed.

(** ** A partial write repeats the beginning of the message *)

(** When the kernel takes only the first [k] bytes of a message at once, the
    output buffer is filled with the first bytes of the message again, not with
    the rest: the peer receives [garble k data]. *)
Theorem partial_write_repeats_prefix B fs c ds data k e os' :
  opened' B fs c ds → idle c → 0 < k < zlen data → Forall_byte data → zlen data ≤ B →
  writeFull (os_ c) data 0 0 = Ret (k, -1, e, os') → e = EAGAIN ∨ e = EINTR →
  ∃ c', sendInLoop' c data = Ret c' ∧
    readable (outputBuffer_ c') = ztake (zlen data - k) data ∧
    tx (os_ c') ++ readable (outputBuffer_ c') = tx (os_ c) ++ garble k data.
Proof using KernelLaws0.
  intros Ho Hidle Hk Hby HB Hw He. pose proof (len_budget _ _ _ _ _ _ _ _ Ho HB) as Hlen.
  destruct (writeFull_tx _ _ _ _ _ _ _ _ Hlen Hw) as [Ht _].
  rewrite (sendInLoop_idle B fs c ds data k (-1) e os') by (done || lia). cbn zeta.
  rewrite (proj2 (Z.eqb_neq (zlen data - k) 0)) by lia. cbn [andb].
  set (c1 := set_os _ os').
  destruct (after_plain_write_retry ndebug connectionCallback_ c1 (-1) e Ret)
    as (m & -> & [(_ & _ & ?)|[-> _]]); [reflexivity|by right|lia|]. orun.
  cbn [errno set_errno]. change (0 =? EPIPE) with false. change (0 =? ECONNRESET) with false.
  rewrite !andb_false_r. cbn [negb andb]. rewrite (proj2 (Z.ltb_lt 0 _)) by lia.
  match goal with |- context [append (outputBuffer_ ?x) _] => set (c2 := x) end.
  pose proof Ho as [[] Hs Hi Hwr He0 Hm Hq Hst]. pose proof (fcost_nonneg (fs ++ pending c)).
  assert (outputBuffer_ c2 = outputBuffer_ c ∧ os_ c2 = os' ∧ reg_ok (poller_ c2) (channel_ c2))
    as (Ho2 & Hos & Hr2) by (unfold c2; by case_match).
  rewrite Ho2. destruct (append_has (outputBuffer_ c) (ztake (zlen data - k) data))
    as (o & -> & [Hwo Hv Hr]); [done|by apply Forall_ztake|rewrite length_ztake; lia|]. orun.
  rewrite Hidle in Hv. cbn [app] in Hv.
  assert (∀ c', os_ c' = os' → outputBuffer_ c' = o →
    readable (outputBuffer_ c') = ztake (zlen data - k) data ∧
    tx (os_ c') ++ readable (outputBuffer_ c') = tx (os_ c) ++ garble k data) as Hend.
  { intros c' -> ->. rewrite Hv, Ht. unfold garble. by rewrite <- app_assoc. }
  case_match.
  - unfold on_channel, enableWriting. cbn [poller_ channel_ set_output].
    edestruct reg_ok_update as (x & -> & _); [done|]. orun. eexists. split; [done|]. by apply Hend.
  - eexists. split; [done|]. by apply Hend.
Qed.

(** ** Closing twice *)

Lemma handleClose_twice B fs c ds : closed' B fs c ds → handleClose' c = Abort AssertFailed.
Proof using connection_down.
  intros [[] Hs He Hm Hq]. unfold handleClose, SSL_free. rewrite b_ssl. cbn [fst snd].
  cbn [state_ set_ssl set_os set_errno]. rewrite Hs. unfold assert_dbg.
  destruct ndebug; [|done]. orun. unfold on_channel, disableAll. cbn [poller_ channel_ setState set_ssl set_os set_errno].
  edestruct reg_ok_update as (x & -> & _); [done|]. orun.
  rewrite connection_down by done. orun. unfold removeConnection. cbn. by rewrite Hm.
Qed.

(** ** Write errors *)

(** The state in which the write of [data] left the connection. *)
Definition after_write c (data : bytes) (e : Z) (os' : OS) : Conn OS :=
  set_os (set_errno (record_event c (EvSend data)) e) os'.

Lemma after_write_base B fs c ds data k saved saved' e e' os' :
  opened' B fs c ds → idle c → Forall_byte data → zlen data ≤ B → 0 ≤ k ≤ zlen data →
  writeFull (os_ c) data saved e' = Ret (k, saved', e, os') →
  base t0 r0 (B - zlen data) fs (after_write c data e os') (ds ++ [garble k data]).
Proof using KernelLaws0.
  intros Ho Hidle Hby HB Hk Hw. pose proof (len_budget _ _ _ _ _ _ _ _ Ho HB) as Hlen.
  destruct (writeFull_tx _ _ _ _ _ _ _ _ Hlen Hw) as [Ht Hx].
  destruct (accept_message true t0 r0 B fs c ds data k 0 os') as [Hb]; try done.
  apply (base_budget t0 r0 _ (B - zlen data)) in Hb; [|lia]. destruct Hb. by split.
Qed.

(** The write-complete callback may have been queued. *)
Lemma complete_base B fs c ds (b : bool) :
  base t0 r0 B fs c ds → destroys (fs ++ pending c) = 0%nat →
  let c1 := if b then queueInLoop c FWriteComplete else c in
  base t0 r0 B fs c1 ds ∧ destroys (fs ++ pending c1) = 0%nat ∧ ssl_ c1 = ssl_ c ∧
  state_ c1 = state_ c ∧ in_map c1 = in_map c ∧ channel_ c1 = channel_ c ∧
  errno c1 = errno c ∧ os_ c1 = os_ c.
Proof.
  intros Hb Hq. destruct b; [|done]. cbn. split_and!; try done.
  - destruct Hb. split; cbn; try done; [rewrite !fcost_app in *; cbn; lia|].
    rewrite app_assoc. apply Forall_app. split; [done|]. by apply Forall_singleton.
  - by rewrite app_assoc, destroys_app, Hq.
Qed.

(** A write that ends in a hard error closes the connection at once. *)
Lemma hard_error_closes B fs c ds data k e os' :
  opened' B fs c ds → idle c → Forall_byte data → zlen data ≤ B → 0 ≤ k ≤ zlen data →
  writeFull (os_ c) data 0 0 = Ret (k, -1, e, os') → hard e →
  ∃ c2, after_plain_write ndebug connectionCallback_ (after_write c data e os') (-1) Ret = Ret c2 ∧
    closed' (B - zlen data) fs c2 (ds ++ [garble k data]) ∧
    errno c2 = e ∧ outputBuffer_ c2 = outputBuffer_ c ∧ FConnectDestroyed ∈ pending c2.
Proof using KernelLaws0 connection_down.
  intros Ho Hidle Hby HB Hk Hw Hh. pose proof Ho as [_ Hs Hi _ _ Hm Hq _].
  pose proof (after_write_base _ _ _ _ _ _ _ _ _ _ _ Ho Hidle Hby HB Hk Hw) as Hb.
  destruct (handleClose_closed ndebug connectionCallback_ true t0 r0 connection_down _ _ _ _ Hb)
    as (c2 & Hc2 & Hcl & He2 & Hout & _ & Hp & _); [done..|].
  exists c2. split; [|by rewrite Hp, elem_of_app, list_elem_of_singleton; auto]. unfold after_plain_write. cbn [errno after_write set_os set_errno].
  destruct (hard_eqb e Hh) as (-> & -> & _ & ->). exact Hc2.
Qed.

(** The peer has reset the connection: [send] closes it and drops the rest. *)
Lemma reset_closes B fs c ds data k e os' :
  opened' B fs c ds → idle c → Forall_byte data → zlen data ≤ B → 0 ≤ k < zlen data →
  writeFull (os_ c) data 0 0 = Ret (k, -1, e, os') → e = EPIPE ∨ e = ECONNRESET →
  ∃ c2, sendInLoop' c data = Ret c2 ∧ closed' (B - zlen data) fs c2 (ds ++ [garble k data]) ∧ errno c2 = e.
Proof using KernelLaws0 connection_down.
  intros Ho Hidle Hby HB Hk Hw He. assert (hard e) as Hh by (destruct He as [-> | ->]; by repeat split).
  pose proof (len_budget _ _ _ _ _ _ _ _ Ho HB) as Hlen.
  rewrite (sendInLoop_idle B fs c ds data k (-1) e os') by (done || lia). cbn zeta.
  rewrite (proj2 (Z.eqb_neq (zlen data - k) 0)) by lia. cbn [andb].
  destruct (hard_error_closes B fs c ds data k e os') as (c2 & Hc2 & Hcl & He2 & _); [done|done|done|done|lia|done|done|].
  unfold after_write in Hc2. rewrite Hc2. orun. exists c2. rewrite He2.
  split; [|done]. by destruct He as [-> | ->].
Qed.

Notation handleRead' := (handleRead ndebug false enable_et_ ssl_fuel connectionCallback_ messageCallback_).

(** ** A failing send inside the message callback *)

(** If the message callback sends [data] and the peer has meanwhile reset the
    connection, [sendInLoop] closes the connection, and [handleRead], which
    finds the error number of the send, closes it again: an assertion of
    TcpConnection.cc or, compiled without, of TcpServer.cc stops the process. *)
Theorem failing_send_in_callback_stops_the_process B c ds data n e1 b os1 k e os' :
  opened' B [] c ds → idle c → state_ c = kConnected → Forall_byte data → zlen data ≤ B →
  zlen (rx (os_ c)) + 4096 ≤ room_of (inputBuffer_ c) →
  readFull (os_ c) (inputBuffer_ c) 0 = Ret (n, -1, e1, b, os1) → 0 < n →
  e1 = EAGAIN ∨ e1 = EINTR →
  (∀ c, messageCallback_ c = send' c true data) →
  writeFull os1 data 0 0 = Ret (k, -1, e, os') → 0 ≤ k < zlen data → e = EPIPE ∨ e = ECONNRESET →
  handleRead' c = Abort AssertFailed.
Proof using KernelLaws0 connection_down.
  intros Ho Hidle Hs Hby HB Hroom Hr Hn He1 Hcb Hw Hk He.
  pose proof Ho as [[] _ _ _ He0 _ _ _]. unfold handleRead. cbn [andb]. rewrite b_ssl, He0, Hr. orun.
  destruct (readFull_has (λ _, True) (os_ c) (inputBuffer_ c) 0)
    as (d & ? & ? & ? & ? & Hr' & Hb & Hx & Ht & _); [done..|]. rewrite Hr in Hr'.
  injection Hr' as -> <- <- <- <-.
  rewrite (proj2 (Z.ltb_lt 0 _)) by done. cbn [errno set_os set_errno].
  match goal with |- context [if ?x then ?y else ?z] => replace (if x then y else z) with y
    by (by destruct He1 as [-> | ->]) end.
  rewrite Hcb. unfold send. cbn [state_ record_event set_errno set_os set_input]. rewrite Hs.
  change (is_state kConnected kConnected) with true.
  set (c1 := record_event _ EvMessage).
  assert (opened' B [] c1 ds) as Ho1.
  { apply record_opened; try done. by apply (input_opened true t0 r0 B [] c ds b 0 d os1). }
  destruct (reset_closes B [] c1 ds data k e os') as (c2 & -> & Hcl & He2); try done. orun.
  pose proof Hcl as [[] _ _ _ _]. rewrite b_ssl0. unfold after_plain_read. rewrite He2.
  destruct He as [-> | ->]; by apply (handleClose_twice _ _ _ _ Hcl).
Qed.

(** ** An error number of another connection *)

(** A send whose bytes the kernel has all taken closes the connection if
    [errno] still holds an error of an earlier call: nothing resets it before. *)
Theorem stale_errno_closes_connection B fs c ds data e saved os' :
  opened' B fs c ds → idle c → data ≠ [] → Forall_byte data → zlen data ≤ B → hard e →
  writeFull (os_ c) data 0 e = Ret (zlen data, saved, e, os') → 0 < saved →
  ∃ c', sendInLoop' (set_errno c e) data = Ret c' ∧ state_ c' = kDisconnected ∧
    tx (os_ c') = tx (os_ c) ++ data.
Proof using KernelLaws0 connection_down.
  intros Ho Hidle Hne Hby HB Hh Hw Hsv. pose proof (len_budget _ _ _ _ _ _ _ _ Ho HB) as Hlen.
  pose proof Ho as [[] Hs Hi Hwr He Hm Hq Hst].
  destruct (writeFull_tx _ _ _ _ _ _ _ _ Hlen Hw) as [Ht _]. rewrite ztake_all in Ht by lia.
  unfold sendInLoop. cbn [state_ set_errno]. rewrite (opened_not_disconnected _ _ _ _ _ _ _ Ho). cbn zeta.
  cbn [channel_ outputBuffer_ record_event set_errno].
  rewrite (readableBytes_zero _ b_out), Hwr, Hidle. change (zlen (@nil Z) =? 0) with true. cbn [negb andb].
  unfold send_directly, write_out. cbn [ssl_ os_ errno record_event set_errno]. rewrite b_ssl, Hw. orun.
  rewrite (proj2 (Z.leb_le 0 _)) by lia. rewrite Z.sub_diag. change (u64 0) with 0. cbn [andb Z.eqb].
  set (c1 := if has_writeComplete then queueInLoop _ _ else _).
  change c1 with (if has_writeComplete then queueInLoop (after_write c data e os') FWriteComplete
                  else after_write c data e os'). clear c1.
  pose proof (after_write_base _ _ _ _ _ _ _ _ _ _ _ Ho Hidle Hby HB
    (conj (Nat2Z.is_nonneg _) (Z.le_refl _)) Hw) as Hb.
  destruct (complete_base _ _ _ _ has_writeComplete Hb Hq) as (Hb1 & Hq1 & Hl1 & Hs1 & Hm1 & Hc1 & He1 & Hos1).
  cbn in Hs1, Hm1, Hc1. replace (ssl_ (after_write c data e os')) with false in Hl1 by done.
  replace (errno (after_write c data e os')) with e in He1 by done.
  replace (os_ (after_write c data e os')) with os' in Hos1 by done.
  rewrite Hl1. unfold after_plain_write. rewrite He1, (proj2 (Z.ltb_lt 0 _)) by done.
  destruct (hard_eqb e Hh) as (-> & -> & -> & ->). cbn [orb].
  destruct (handleClose_closed ndebug connectionCallback_ true t0 r0 connection_down _ _ _ _ Hb1)
    as (c2 & -> & Hcl & He2 & _ & Hos2 & _); [by rewrite Hs1|by rewrite Hm1|by rewrite Hc1|done|]. orun.
  rewrite assert_dbg_true by bool_side. orun. rewrite andb_false_r.
  exists c2. split; [done|]. split; [apply Hcl|]. by rewrite Hos2, Hos1.
Qed.

(** ** A write error that is not a reset *)

(** After an error such as ETIMEDOUT the connection is closed, but [sendInLoop]
    goes on: it buffers the rest and enables writing on the closed channel.
    When the server then destroys the connection, [Channel::remove] stops the
    process. *)
Theorem hard_error_leaves_channel_enabled B fs c ds data k e os' :
  opened' B fs c ds → idle c → Forall_byte data → zlen data ≤ B → 0 ≤ k < zlen data →
  writeFull (os_ c) data 0 0 = Ret (k, -1, e, os') → hard e → e ≠ EPIPE → e ≠ ECONNRESET →
  ∃ c', sendInLoop' c data = Ret c' ∧ state_ c' = kDisconnected ∧
    isWriting (channel_ c') = true ∧ FConnectDestroyed ∈ pending c' ∧
    connectDestroyed connectionCallback_ c' = Abort AssertFailed.
Proof using KernelLaws0 connection_down.
  intros Ho Hidle Hby HB Hk Hw Hh H1 H2. pose proof (len_budget _ _ _ _ _ _ _ _ Ho HB) as Hlen.
  rewrite (sendInLoop_idle B fs c ds data k (-1) e os') by (done || lia). cbn zeta.
  rewrite (proj2 (Z.eqb_neq (zlen data - k) 0)) by lia. cbn [andb].
  destruct (hard_error_closes B fs c ds data k e os')
    as (c2 & Hc2 & Hcl & He2 & Hout & Hd); [done|done|done|done|lia|done|done|].
  unfold after_write in Hc2. rewrite Hc2. orun.
  rewrite He2, (proj2 (Z.eqb_neq e EPIPE) H1), (proj2 (Z.eqb_neq e ECONNRESET) H2), andb_false_r.
  cbn [negb andb]. rewrite (proj2 (Z.ltb_lt 0 _)) by lia.
  match goal with |- context [append (outputBuffer_ ?x) _] => set (c3 := x) end.
  pose proof Ho as [Hbase _ _ _ _ _ Hdestr _]. pose proof Hcl as [[] Hs He Hm Hq].
  assert (outputBuffer_ c3 = outputBuffer_ c ∧ poller_ c3 = poller_ c2 ∧ channel_ c3 = channel_ c2 ∧
          state_ c3 = kDisconnected ∧ FConnectDestroyed ∈ pending c3)
    as (Ho3 & Hp3 & Hc3 & Hs3 & Hd3).
  { unfold c3. destruct (_ && has_highWaterMark); cbn; split_and!; try done.
    rewrite elem_of_app. by left. }
  pose proof (fcost_nonneg (fs ++ pending c)). pose proof Hbase as [_ Hwf Hrm _ _ _ _ _ _ _ _ _].
  rewrite Ho3. destruct (append_has (outputBuffer_ c) (ztake (zlen data - k) data))
    as (o & -> & _); [done|by apply Forall_ztake|rewrite length_ztake; lia|]. orun.
  cbn [channel_ set_output]. rewrite Hc3.
  assert (isWriting (channel_ c2) = false) as -> by (destruct He as [He _]; by rewrite isWriting_testbit, He).
  unfold on_channel, enableWriting. cbn [negb poller_ channel_ set_output]. rewrite Hp3, Hc3.
  edestruct reg_ok_update as (x & -> & _ & Hev & _); [done|]. orun.
  assert (isWriting x.2 = true) as Hwx.
  { rewrite isWriting_testbit, Hev, Z.lor_spec. destruct enable_et_; apply orb_true_r. }
  eexists. split; [done|]. cbn [state_ channel_ pending set_channel set_output].
  split_and!; [done..|].
  unfold connectDestroyed. cbn [state_ set_channel set_output]. rewrite Hs3.
  change (is_state kDisconnected kConnected) with false. cbn iota. rewrite bind_ret.
  unfold on_channel, remove. cbn [poller_ channel_ set_channel].
  replace (isNoneEvent x.2) with false; [done|]. symmetry. unfold isNoneEvent. apply Z.eqb_neq. intros E.
  by rewrite isWriting_testbit, E in Hwx.
Qed.

(** ** Empty messages *)

(** Sending an empty message on an idle connection closes it. *)
Theorem empty_send_closes B fs c ds :
  opened' B fs c ds → idle c → 0 ≤ B →
  ∃ c', sendInLoop' c [] = Ret c' ∧ state_ c' = kDisconnected ∧ tx (os_ c') = tx (os_ c).
Proof using KernelLaws0 connection_down.
  intros Ho Hidle HB.
  assert (writeFull (os_ c) [] 0 0 = Ret (0, 0, 0, os_ c)) as Hw by done.
  rewrite (sendInLoop_idle B fs c ds [] 0 0 0 (os_ c)) by done. cbn zeta.
  pose proof (after_write_base _ _ _ _ _ _ _ _ _ _ _ Ho Hidle (Forall_nil_2 _) HB (conj (Z.le_refl _) (Z.le_refl _)) Hw) as Hb.
  pose proof Ho as [[] Hs Hi _ He0 Hm Hq _].
  destruct (complete_base _ _ _ _ has_writeComplete Hb Hq) as (Hb1 & Hq1 & _ & Hs1 & Hm1 & Hc1 & He1 & Hos1).
  change ((zlen (@nil Z) - 0 =? 0) && has_writeComplete) with has_writeComplete.
  fold (after_write c [] 0 (os_ c)). unfold after_plain_write. cbn [Z.ltb Z.eqb Z.compare].
  destruct (handleClose_closed ndebug connectionCallback_ true t0 r0 connection_down _ _ _ _ Hb1)
    as (c2 & -> & Hcl & He2 & _ & Hos2 & _); [by rewrite Hs1|by rewrite Hm1|by rewrite Hc1|done|]. orun.
  rewrite andb_false_r. exists c2. split_and!; [done|apply Hcl|]. by rewrite Hos2, Hos1.
Qed.

(** ** Closing a paused connection *)

(** A connection that does not read and has nothing to write is not registered
    with epoll.  Closing it registers it again, without events, and a hang-up
    that epoll reports before the server has removed it stops the process. *)
Theorem closing_paused_connection B c ds :
  opened' B [] c ds → events_ (channel_ c) = 0 → index_ (channel_ c) = kDeleted →
  ∃ c', handleClose' c = Ret c' ∧ index_ (channel_ c') = kAdded ∧
    handleEvent ndebug false enable_et_ has_writeComplete ssl_fuel connectionCallback_ messageCallback_
      c' POLLHUP = Abort AssertFailed.
Proof using connection_down.
  intros Ho He Hk. pose proof Ho as [Hb Hs Hi _ He0 Hm Hq _].
  destruct (handleClose_closed ndebug connectionCallback_ true t0 r0 connection_down B [] c ds)
    as (c' & Hc' & Hcl & _ & _ & _ & _ & Hadd); [done..|].
  exists c'. split; [done|]. split; [apply Hadd; by rewrite Hk|].
  unfold handleEvent. cbn zeta. change (has_bits POLLHUP POLLHUP && negb (has_bits POLLHUP POLLIN)) with true.
  rewrite (handleClose_twice B [] _ ds); [done|]. destruct Hcl as [[] ? ? ? ?]. by split.
Qed.

End faults.

(** ** Concrete runs *)

Module FaultSamples.

Definition OS1 : Type := ScriptOS positive.
Definition buf1 : Buffer := mkBuffer (replicate 1032 0) 8 8.
Definition no_callback (c : Conn OS1) : outcome (Conn OS1) := Ret c.
Definition hi : bytes := str "hello".

(** An established connection on a kernel with the given script. *)
Definition conn1 (index events : Z) (ctl : list (epoll_op * Z * Z))
    (reads : list (script_read positive)) (writes : list (script_write positive)) : Conn OS1 :=
  mkConn kConnected true (mkChannel 100 7 events 0 index true false true) (mkPoller {[7 := 100]} ctl)
    buf1 buf1 false false 0 (mkScript reads writes []) [] [] true [].

Notation reading reads writes := (conn1 kAdded 3 [(EPOLL_CTL_ADD, 7, 3)] reads writes).
Notation paused := (conn1 kDeleted 0 [(EPOLL_CTL_DEL, 7, 0); (EPOLL_CTL_ADD, 7, 3)] [] []).

Lemma conn1_opened index events ctl m reads writes :
  interest ctl = Some m → index = kAdded ∨ index = kDeleted →
  m !! 7 = (if index =? kAdded then Some events else None) → Z.testbit events 2 = false →
  zlen (concat (map chunk_bytes reads)) ≤ 1024 →
  opened true [] (concat (map chunk_bytes reads)) 1024 [] (conn1 index events ctl reads writes) [].
Proof.
  intros Hm Hix Hint Hev Hlen.
  assert (wf buf1) as Hwf by (apply (bool_decide_unpack _); vm_compute; exact I).
  assert (1024 + fcost [] ≤ room_of buf1) as Hr by (vm_compute; discriminate).
  split; cbn; try done; [split; cbn; try done|by left|by destruct Hix as [-> | ->]|].
  - exists {[100 := mkChannel 100 7 events 0 index true false true]},
      (mkChannel 100 7 events 0 index true false true).
    split_and!; try done. exists m. split_and!; [done|..].
    + intros i c [<- <-]%lookup_singleton_Some. split; [done|]. split; cbn.
      * by destruct Hix as [-> | ->]; auto.
      * by destruct Hix as [-> | ->].
      * done.
    + intros i j c d [<- <-]%lookup_singleton_Some [<- <-]%lookup_singleton_Some _. done.
  - assert (5200 ≤ room_of buf1) by (vm_compute; discriminate). lia.
  - intros s t Hin. by apply elem_of_nil in Hin.
  - by rewrite isWriting_testbit.
Qed.

Lemma reading_opened1 reads writes :
  zlen (concat (map chunk_bytes reads)) ≤ 1024 →
  opened true [] (concat (map chunk_bytes reads)) 1024 [] (reading reads writes) [].
Proof. intros. apply (conn1_opened _ _ _ {[7 := 3]}); try done. by left. Qed.

End FaultSamples.
Import FaultSamples.

Lemma partial_write_repeats_prefix_witness :
  ∃ c', sendInLoop false false false false 100 no_callback (reading [] [WTake 2; WFail 4%positive]) hi = Ret c' ∧
    readable (outputBuffer_ c') = str "hel" ∧
    tx (os_ c') ++ readable (outputBuffer_ c') = str "hehel".
Proof.
  destruct (partial_write_repeats_prefix false false false false 100 no_callback [] [] 1024 []
           (reading [] [WTake 2; WFail 4%positive]) [] hi 2 EINTR (mkScript [] [] (str "he")))
    as (c' & H1 & H2 & H3).
  - apply (reading_opened1 []). vm_compute. discriminate.
  - reflexivity.
  - vm_compute. split; reflexivity.
  - repeat constructor; vm_compute; discriminate.
  - vm_compute. discriminate.
  - vm_compute. reflexivity.
  - right. reflexivity.
  - exists c'. split; [exact H1|]. rewrite H3, H2. split; reflexivity.
Defined.

Lemma failing_send_in_callback_stops_the_process_witness :
  handleRead false false false 0 no_callback
    (λ c, send false false false false 100 no_callback c true hi)
    (reading [RData hi; RFail 11%positive] [WFail 104%positive]) = Abort AssertFailed.
Proof.
  eapply (failing_send_in_callback_stops_the_process false false false false 100 0 no_callback
           (λ c, send false false false false 100 no_callback c true hi) [] hi) with
    (B := 1024) (ds := []) (data := hi) (k := 0) (e := ECONNRESET) (e1 := EAGAIN) (n := 5).
  - intros c _. reflexivity.
  - apply (reading_opened1 [RData hi; RFail 11%positive]). vm_compute. discriminate.
  - reflexivity.
  - reflexivity.
  - repeat constructor; vm_compute; discriminate.
  - vm_compute. discriminate.
  - vm_compute. discriminate.
  - vm_compute. reflexivity.
  - lia.
  - left. reflexivity.
  - intros c. reflexivity.
  - vm_compute. reflexivity.
  - vm_compute. split; [discriminate|reflexivity].
  - right. reflexivity.
Defined.

Lemma stale_errno_closes_connection_witness :
  ∃ c', sendInLoop false false false false 100 no_callback
          (set_errno (reading [] [WTake 64]) ECONNRESET) hi = Ret c' ∧
    state_ c' = kDisconnected ∧ tx (os_ c') = tx (os_ (reading [] [WTake 64])) ++ hi.
Proof.
  eapply (stale_errno_closes_connection false false false false 100 no_callback [] []) with
    (B := 1024) (fs := []) (ds := []) (saved := 5).
  - intros c _. reflexivity.
  - apply (reading_opened1 []). vm_compute. discriminate.
  - reflexivity.
  - discriminate.
  - repeat constructor; vm_compute; discriminate.
  - vm_compute. discriminate.
  - repeat split; discriminate.
  - vm_compute. reflexivity.
  - lia.
Defined.

Lemma hard_error_leaves_channel_enabled_witness :
  ∃ c', sendInLoop false false false false 100 no_callback (reading [] [WFail 110%positive]) hi = Ret c' ∧
    state_ c' = kDisconnected ∧ isWriting (channel_ c') = true ∧ FConnectDestroyed ∈ pending c' ∧
    connectDestroyed no_callback c' = Abort AssertFailed.
Proof.
  eapply (hard_error_leaves_channel_enabled false false false false 100 no_callback [] []) with
    (B := 1024) (fs := []) (ds := []) (k := 0) (e := 110).
  - intros c _. reflexivity.
  - apply (reading_opened1 []). vm_compute. discriminate.
  - reflexivity.
  - repeat constructor; vm_compute; discriminate.
  - vm_compute. discriminate.
  - vm_compute. split; [discriminate|reflexivity].
  - vm_compute. reflexivity.
  - repeat split; discriminate.
  - discriminate.
  - discriminate.
Defined.

Lemma empty_send_closes_witness :
  ∃ c', sendInLoop false false false false 100 no_callback (reading [] []) [] = Ret c' ∧
    state_ c' = kDisconnected ∧ tx (os_ c') = tx (os_ (reading [] [])).
Proof.
  apply (empty_send_closes false false false false 100 no_callback [] []) with (B := 1024) (fs := []) (ds := []).
  - intros c _. reflexivity.
  - apply (reading_opened1 []). vm_compute. discriminate.
  - reflexivity.
  - lia.
Defined.

Lemma closing_paused_connection_witness :
  ∃ c', handleClose false no_callback paused = Ret c' ∧ index_ (channel_ c') = kAdded ∧
    handleEvent false false false false 0 no_callback no_callback c' POLLHUP = Abort AssertFailed.
Proof.
  apply (closing_paused_connection false false false 0 no_callback no_callback [] []) with (B := 1024) (ds := []).
  - intros c _. reflexivity.
  - apply (conn1_opened _ _ _ ∅ []); try reflexivity; [right; reflexivity|vm_compute; discriminate].
  - reflexivity.
  - reflexivity.
Defined.
