(* ===== verification/TimerQueue.v ===== *)
(** * TimerQueue: timers of an event loop
    (src/muduo-vip/muduo/net/TimerQueue.{h,cc}, Timer.{h,cc}, TimerId.h)

    Timers live in a heap and are referred to by address; an address may be
    reused after [delete], which is why identifiers carry a sequence number.
    [timers_] is a [std::set] ordered by expiration and address (a strictly
    sorted list), [activeTimers_] and [cancelingTimers_] are sets of address and
    sequence.  Following a deleted address is the fault [NullPointer].  The
    callbacks of timers are lists of actions on the queue.  All operations run
    in the loop's thread. *)

From S2P Require Import Prelude.
From stdpp Require Import sorting.
#[local] Open Scope Z_scope.

Module TimerQueue.

(** ** Ordered sets of pairs of integers *)

Definition pair_ltb (a b : Z * Z) : bool := (a.1 <? b.1) || ((a.1 =? b.1) && (a.2 <? b.2)).
Definition pair_lt (a b : Z * Z) : Prop := pair_ltb a b = true.

Fixpoint oset_insert (x : Z * Z) (l : list (Z * Z)) : bool * list (Z * Z) :=
  match l with
  | [] => (true, [x])
  | y :: l' =>
      if pair_ltb x y then (true, x :: l)
      else if pair_ltb y x then let '(b, r) := oset_insert x l' in (b, y :: r)
      else (false, l)
  end.

Fixpoint oset_erase (x : Z * Z) (l : list (Z * Z)) : nat * list (Z * Z) :=
  match l with
  | [] => (0%nat, [])
  | y :: l' =>
      if pair_ltb x y then (0%nat, l)
      else if pair_ltb y x then let '(n, r) := oset_erase x l' in (n, y :: r)
      else (1%nat, l')
  end.

(** [begin() .. lower_bound(x)] and the rest. *)
Fixpoint oset_split (x : Z * Z) (l : list (Z * Z)) : list (Z * Z) * list (Z * Z) :=
  match l with
  | [] => ([], [])
  | y :: l' => if pair_ltb y x then let '(a, b) := oset_split x l' in (y :: a, b) else ([], l)
  end.

(** ** Timers *)

(** [delta_] is the interval in microseconds, as [addTime] computes it. *)
Record Timer : Type := mkTimer {
  expiration_ : Z;
  delta_ : Z;
  repeat_ : bool;
  sequence_ : Z;
}.

Definition restart (tm : Timer) (now : Z) : Timer :=
  mkTimer (if repeat_ tm then now + delta_ tm else 0) (delta_ tm) (repeat_ tm) (sequence_ tm).

(** [armed] is what [timerfd_] was set to: when, in microseconds, and after how many
    nanoseconds it fires; [ran] are the sequence numbers of the callbacks run. *)
Record TimerQueue : Type := mkTQ {
  heap : gmap Z Timer;
  s_numCreated_ : Z;
  timers_ : list (Z * Z);
  activeTimers_ : gset (Z * Z);
  callingExpiredTimers_ : bool;
  cancelingTimers_ : gset (Z * Z);
  armed : option (Z * Z);
  ran : list Z;
}.

Definition TimerQueue_ctor : TimerQueue := mkTQ ∅ 0 [] ∅ false ∅ None [].

Definition set_heap (q : TimerQueue) (h : gmap Z Timer) : TimerQueue :=
  mkTQ h (s_numCreated_ q) (timers_ q) (activeTimers_ q) (callingExpiredTimers_ q)
    (cancelingTimers_ q) (armed q) (ran q).
Definition set_sets (q : TimerQueue) (l : list (Z * Z)) (a : gset (Z * Z)) : TimerQueue :=
  mkTQ (heap q) (s_numCreated_ q) l a (callingExpiredTimers_ q) (cancelingTimers_ q) (armed q) (ran q).
Definition set_calling (q : TimerQueue) (b : bool) : TimerQueue :=
  mkTQ (heap q) (s_numCreated_ q) (timers_ q) (activeTimers_ q) b (cancelingTimers_ q) (armed q) (ran q).
Definition set_canceling (q : TimerQueue) (s : gset (Z * Z)) : TimerQueue :=
  mkTQ (heap q) (s_numCreated_ q) (timers_ q) (activeTimers_ q) (callingExpiredTimers_ q) s (armed q) (ran q).
Definition set_armed (q : TimerQueue) (t : option (Z * Z)) : TimerQueue :=
  mkTQ (heap q) (s_numCreated_ q) (timers_ q) (activeTimers_ q) (callingExpiredTimers_ q)
    (cancelingTimers_ q) t (ran q).
Definition record_run (q : TimerQueue) (s : Z) : TimerQueue :=
  mkTQ (heap q) (s_numCreated_ q) (timers_ q) (activeTimers_ q) (callingExpiredTimers_ q)
    (cancelingTimers_ q) (armed q) (ran q ++ [s]).

(** Following the address of a timer. *)
Definition deref (q : TimerQueue) (p : Z) : outcome Timer :=
  match heap q !! p with Some tm => Ret tm | None => Abort NullPointer end.

Definition same_size (q : TimerQueue) : bool := (length (timers_ q) =? size (activeTimers_ q))%nat.

(** ** howMuchTimeFromNow and resetTimerfd *)

Definition kMicroSecondsPerSecond : Z := 1000000.

Definition howMuchTimeFromNow (when now : Z) : Z * Z :=
  let microseconds := when - now in
  let microseconds := if microseconds <? 100 then 100 else microseconds in
  (microseconds `quot` kMicroSecondsPerSecond, (microseconds `rem` kMicroSecondsPerSecond) * 1000).

(** [timerfd_settime] with a relative time; the time zero disarms.  [now] is what the
    clock says. *)
Definition resetTimerfd (q : TimerQueue) (expiration now : Z) : TimerQueue :=
  let '(tv_sec, tv_nsec) := howMuchTimeFromNow expiration now in
  set_armed q (if (tv_sec =? 0) && (tv_nsec =? 0) then None
               else Some (now, tv_sec * (kMicroSecondsPerSecond * 1000) + tv_nsec)).

(** ** Operations *)

Definition insert (q : TimerQueue) (timer : Z) : outcome (bool * TimerQueue) :=
  assert (same_size q) ;;
  tm ← deref q timer;
  let when := expiration_ tm in
  let earliestChanged := match timers_ q with [] => true | e :: _ => when <? e.1 end in
  let '(fresh, l) := oset_insert (when, timer) (timers_ q) in
  assert fresh ;;
  assert (bool_decide ((timer, sequence_ tm) ∉ activeTimers_ q)) ;;
  let q := set_sets q l ({[ (timer, sequence_ tm) ]} ∪ activeTimers_ q) in
  assert (same_size q) ;;
  Ret (earliestChanged, q).

Definition addTimerInLoop (q : TimerQueue) (timer now : Z) : outcome TimerQueue :=
  '(earliestChanged, q) ← insert q timer;
  if (earliestChanged : bool) then
    tm ← deref q timer;
    Ret (resetTimerfd q (expiration_ tm) now)
  else Ret q.

(** [p] is the address [new Timer] returned, [now] what the clock says; the identifier
    is the result. *)
Definition addTimer (q : TimerQueue) (p now when delta : Z) (repeat : bool) :
    outcome ((Z * Z) * TimerQueue) :=
  let seq := s_numCreated_ q + 1 in
  let q := mkTQ (<[p := mkTimer when delta repeat seq]> (heap q)) seq (timers_ q) (activeTimers_ q)
             (callingExpiredTimers_ q) (cancelingTimers_ q) (armed q) (ran q) in
  q ← addTimerInLoop q p now;
  Ret ((p, seq), q).

Definition cancelInLoop (q : TimerQueue) (timerId : Z * Z) : outcome TimerQueue :=
  assert (same_size q) ;;
  q ← (if decide (timerId ∈ activeTimers_ q) then
         tm ← deref q timerId.1;
         let '(n, l) := oset_erase (expiration_ tm, timerId.1) (timers_ q) in
         assert (n =? 1)%nat ;;
         Ret (set_heap (set_sets q l (activeTimers_ q ∖ {[ timerId ]})) (delete timerId.1 (heap q)))
       else if callingExpiredTimers_ q then
         Ret (set_canceling q ({[ timerId ]} ∪ cancelingTimers_ q))
       else Ret q);
  assert (same_size q) ;;
  Ret q.

(** [UINTPTR_MAX]. *)
Definition kMaxPtr : Z := 2 ^ 64 - 1.

Fixpoint erase_active (q : TimerQueue) (expired : list (Z * Z)) : outcome TimerQueue :=
  match expired with
  | [] => Ret q
  | it :: expired =>
      tm ← deref q it.2;
      assert (bool_decide ((it.2, sequence_ tm) ∈ activeTimers_ q)) ;;
      erase_active (set_sets q (timers_ q) (activeTimers_ q ∖ {[ (it.2, sequence_ tm) ]})) expired
  end.

Definition getExpired (q : TimerQueue) (now : Z) : outcome (list (Z * Z) * TimerQueue) :=
  assert (same_size q) ;;
  let '(expired, rest) := oset_split (now, kMaxPtr) (timers_ q) in
  assert (match rest with [] => true | e :: _ => now <? e.1 end) ;;
  q ← erase_active (set_sets q rest (activeTimers_ q)) expired;
  assert (same_size q) ;;
  Ret (expired, q).

(** What a callback does with the queue; [p] is the address that [new] will
    return, which it takes from the free ones. *)
Inductive timer_act : Type :=
  | TAdd (p now when delta : Z) (repeat : bool)
  | TCancel (timerId : Z * Z).

#[global] Instance timer_act_eq_dec : EqDecision timer_act.
Proof. solve_decision. Defined.

Definition free_address (q : TimerQueue) (p : Z) : bool :=
  bool_decide (heap q !! p = None) && (0 <=? p) && (p <? kMaxPtr).

Definition run_timer_act (q : TimerQueue) (a : timer_act) : outcome TimerQueue :=
  match a with
  | TAdd p now when delta repeat =>
      if free_address q p then '(_, q) ← addTimer q p now when delta repeat; Ret q else Ret q
  | TCancel timerId => cancelInLoop q timerId
  end.

Fixpoint run_timer_acts (q : TimerQueue) (l : list timer_act) : outcome TimerQueue :=
  match l with
  | [] => Ret q
  | a :: l => q ← run_timer_act q a; run_timer_acts q l
  end.

Section read.
(** [callback q tm] are the actions of the timer's callback in state [q]. *)
Variable callback : TimerQueue → Timer → list timer_act.

Fixpoint run_expired (q : TimerQueue) (expired : list (Z * Z)) : outcome TimerQueue :=
  match expired with
  | [] => Ret q
  | it :: expired =>
      tm ← deref q it.2;
      q ← run_timer_acts (record_run q (sequence_ tm)) (callback q tm);
      run_expired q expired
  end.

Fixpoint restart_expired (q : TimerQueue) (expired : list (Z * Z)) (now : Z) : outcome TimerQueue :=
  match expired with
  | [] => Ret q
  | it :: expired =>
      tm ← deref q it.2;
      q ← (if repeat_ tm && bool_decide ((it.2, sequence_ tm) ∉ cancelingTimers_ q) then
             '(_, q) ← insert (set_heap q (<[it.2 := restart tm now]> (heap q))) it.2;
             Ret q
           else Ret (set_heap q (delete it.2 (heap q))));
      restart_expired q expired now
  end.

(** [now'] is what the clock says at the end. *)
Definition reset (q : TimerQueue) (expired : list (Z * Z)) (now now' : Z) : outcome TimerQueue :=
  q ← restart_expired q expired now;
  nextExpire ← match timers_ q with
               | [] => Ret 0
               | e :: _ => tm ← deref q e.2; Ret (expiration_ tm)
               end;
  if 0 <? nextExpire then Ret (resetTimerfd q nextExpire now') else Ret q.

(** The timer descriptor has fired: it is no longer armed. *)
Definition handleRead (q : TimerQueue) (now now' : Z) : outcome TimerQueue :=
  let q := set_armed q None in
  '(expired, q) ← getExpired q now;
  let q := set_canceling (set_calling q true) ∅ in
  q ← run_expired q expired;
  let q := set_calling q false in
  reset q expired now now'.

(** All that the callbacks of the timers did. *)
Fixpoint callback_acts (q : TimerQueue) (expired : list (Z * Z)) : list timer_act :=
  match expired with
  | [] => []
  | it :: expired =>
      match deref q it.2 with
      | Ret tm =>
          callback q tm ++
          match run_timer_acts (record_run q (sequence_ tm)) (callback q tm) with
          | Ret q => callback_acts q expired
          | Abort _ => []
          end
      | Abort _ => []
      end
  end.

(** What the callbacks did when the descriptor fired. *)
Definition fired_acts (q : TimerQueue) (now : Z) : list timer_act :=
  match getExpired (set_armed q None) now with
  | Ret (expired, q) => callback_acts (set_canceling (set_calling q true) ∅) expired
  | Abort _ => []
  end.

End read.
(** ** Ordered sets: lemmas *)

Lemma pair_lt_spec a b : pair_lt a b ↔ a.1 < b.1 ∨ a.1 = b.1 ∧ a.2 < b.2.
Proof. unfold pair_lt, pair_ltb. rewrite orb_true_iff, andb_true_iff. lia. Qed.

Lemma pair_ltb_false a b : pair_ltb a b = false → b = a ∨ pair_lt b a.
Proof.
  intros H. destruct a as [a1 a2], b as [b1 b2]. rewrite pair_lt_spec. unfold pair_ltb in H. cbn in *.
  rewrite orb_false_iff, andb_false_iff in H.
  destruct (decide (b1 = a1 ∧ b2 = a2)) as [[-> ->]|]; [by left|right; lia].
Qed.

#[global] Instance pair_lt_trans : Transitive pair_lt.
Proof. intros a b c. rewrite !pair_lt_spec. lia. Qed.

Lemma pair_ltb_irrefl a : pair_ltb a a = false.
Proof. unfold pair_ltb. rewrite !Z.ltb_irrefl. by rewrite andb_false_r. Qed.

Lemma oset_insert_spec x l :
  StronglySorted pair_lt l → x ∉ l →
  ∃ l', oset_insert x l = (true, l') ∧ l' ≡ₚ x :: l ∧ StronglySorted pair_lt l'.
Proof.
  induction l as [|y l IH]; intros Hs Hx; cbn.
  - eexists. split_and!; [done..|]. by repeat constructor.
  - inversion Hs as [|? ? Hs' Hy]; subst. destruct (pair_ltb x y) eqn:Hxy.
    + eexists. split_and!; [done..|]. constructor; [done|]. constructor; [done|].
      apply (Forall_impl _ _ _ Hy). intros z Hz. by trans y.
    + destruct (pair_ltb_false x y Hxy) as [->|Hyx]; [by destruct Hx; left|].
      rewrite Hyx. destruct IH as (l' & -> & Hp & Hsl); [done|intros ?; by destruct Hx; right|].
      eexists. split_and!; [done|rewrite Hp; apply Permutation_swap|].
      constructor; [done|]. rewrite Hp. by constructor.
Qed.

Lemma oset_erase_spec x l :
  StronglySorted pair_lt l → x ∈ l →
  ∃ l', oset_erase x l = (1%nat, l') ∧ l ≡ₚ x :: l' ∧ StronglySorted pair_lt l'.
Proof.
  induction l as [|y l IH]; intros Hs Hx; cbn; [by apply elem_of_nil in Hx|].
  inversion Hs as [|? ? Hs' Hy]; subst. rewrite Forall_forall in Hy.
  apply elem_of_cons in Hx as [->|Hx].
  - rewrite pair_ltb_irrefl. eauto.
  - pose proof (Hy x Hx) as Hyx. destruct (pair_ltb x y) eqn:E.
    { assert (pair_lt x x) as H by (by trans y). unfold pair_lt in H. by rewrite pair_ltb_irrefl in H. }
    rewrite Hyx. destruct IH as (l' & -> & Hp & Hsl); [done..|].
    eexists. split_and!; [done|rewrite Hp; apply Permutation_swap|].
    constructor; [done|]. rewrite Forall_forall. intros z Hz. apply Hy. rewrite Hp. by right.
Qed.

Lemma oset_split_spec x l a b :
  StronglySorted pair_lt l → oset_split x l = (a, b) →
  l = a ++ b ∧ (∀ y, y ∈ a → pair_lt y x) ∧ (∀ y, y ∈ b → ¬ pair_lt y x) ∧ StronglySorted pair_lt b.
Proof.
  revert a b. induction l as [|y l IH]; intros a b Hs; cbn.
  - intros [= <- <-]. split_and!; [done|set_solver..|constructor].
  - inversion Hs as [|? ? Hs' Hy]; subst. destruct (pair_ltb y x) eqn:E.
    + destruct (oset_split x l) as [a' b'] eqn:Hsp. intros [= <- <-].
      destruct (IH a' b' Hs' eq_refl) as (-> & Ha & Hb & Hsb). split_and!; try done.
      intros z [->|Hz]%elem_of_cons; [done|by apply Ha].
    + intros [= <- <-]. split_and!; [done|set_solver| |done].
      rewrite Forall_forall in Hy. intros z [->|Hz]%elem_of_cons Hlt; [by rewrite Hlt in E|].
      pose proof (Hy z Hz) as Hyz. assert (pair_lt y x) as H by (by trans z). by rewrite H in E.
Qed.

(** ** The invariant

    [E] are the expired timers that are between [getExpired] and [reset]: they
    are in the heap and in none of the sets. *)

Definition key (h : gmap Z Timer) (e : Z * Z) : Z * Z :=
  (e.2, match h !! e.2 with Some tm => sequence_ tm | None => 0 end).

Record tq_inv (E : list (Z * Z)) (q : TimerQueue) : Prop := TqInv {
  i_sorted : StronglySorted pair_lt (timers_ q);
  i_nodup : NoDup (E ++ timers_ q).*2;
  i_heap : ∀ e, e ∈ E ++ timers_ q → ∃ tm, heap q !! e.2 = Some tm ∧ expiration_ tm = e.1;
  i_active : activeTimers_ q = list_to_set (key (heap q) <$> timers_ q);
  i_ptr : ∀ p tm, heap q !! p = Some tm → 0 ≤ p < kMaxPtr ∧ 0 ≤ delta_ tm;
  i_pos : ∀ e, e ∈ timers_ q → 0 < e.1;
}.

(** The timer descriptor is armed, and fires no later than any timer is due, or 100
    microseconds after it was set. *)
Definition armed_ok (q : TimerQueue) : Prop :=
  ∀ e, e ∈ timers_ q → ∃ t d, armed q = Some (t, d) ∧ 0 < d ≤ 1000 * ((e.1 - t) `max` 100).

Lemma howMuchTimeFromNow_eq when now s ns : howMuchTimeFromNow when now = (s, ns) →
  0 ≤ s ∧ 0 ≤ ns < 1000000000 ∧ s * 1000000000 + ns = 1000 * ((when - now) `max` 100).
Proof.
  unfold howMuchTimeFromNow, kMicroSecondsPerSecond. intros [= <- <-].
  destruct (Z.ltb_spec (when - now) 100).
  - rewrite Z.max_r by lia. done.
  - rewrite Z.max_l by lia. rewrite Z.quot_div_nonneg, Z.rem_mod_nonneg by lia. dlia.
Qed.

Lemma resetTimerfd_eq q expiration now :
  resetTimerfd q expiration now = set_armed q (Some (now, 1000 * ((expiration - now) `max` 100))).
Proof.
  unfold resetTimerfd. destruct (howMuchTimeFromNow expiration now) as [s ns] eqn:E.
  apply howMuchTimeFromNow_eq in E as (? & ? & E). replace ((s =? 0) && (ns =? 0)) with false by lia.
  do 3 f_equal. unfold kMicroSecondsPerSecond. lia.
Qed.

Lemma key_nodup h (l : list (Z * Z)) : NoDup l.*2 → NoDup (key h <$> l).
Proof.
  intros H. apply (NoDup_fmap_1 fst). rewrite <- list_fmap_compose. exact H.
Qed.

Lemma inv_size E q : tq_inv E q → same_size q = true.
Proof.
  intros []. unfold same_size. apply Nat.eqb_eq. rewrite i_active0, size_list_to_set, length_fmap; [done|].
  apply key_nodup. rewrite fmap_app in i_nodup0. by apply NoDup_app in i_nodup0 as (_ & _ & ?).
Qed.

Lemma inv_split E q : tq_inv E q →
  NoDup E.*2 ∧ NoDup (timers_ q).*2 ∧ (∀ p, p ∈ E.*2 → p ∉ (timers_ q).*2).
Proof. intros []. rewrite fmap_app in i_nodup0. apply NoDup_app in i_nodup0. naive_solver. Qed.

(** Changing the heap at an address that no listed timer has. *)
Lemma key_frame h h' (l : list (Z * Z)) :
  (∀ e, e ∈ l → h' !! e.2 = h !! e.2) → key h' <$> l = key h <$> l.
Proof. intros H. apply list_fmap_ext. intros i e He%list_elem_of_lookup_2. unfold key. by rewrite H. Qed.

Lemma insert_inv E q p tm :
  tq_inv E q → heap q !! p = Some tm → p ∉ (E ++ timers_ q).*2 → 0 < expiration_ tm →
  ∃ l, insert q p = Ret (match timers_ q with [] => true | e :: _ => expiration_ tm <? e.1 end,
           set_sets q l ({[ (p, sequence_ tm) ]} ∪ activeTimers_ q)) ∧
    l ≡ₚ (expiration_ tm, p) :: timers_ q ∧
    tq_inv E (set_sets q l ({[ (p, sequence_ tm) ]} ∪ activeTimers_ q)).
Proof.
  intros Hinv Hp Hfresh Hpos. pose proof (inv_size _ _ Hinv) as Hsz.
  pose proof (inv_split _ _ Hinv) as (HndE & Hnd & Hdisj). pose proof Hinv as [].
  assert (p ∉ E.*2 ∧ p ∉ (timers_ q).*2) as [HpE Hpt].
  { rewrite fmap_app in Hfresh. set_solver. }
  destruct (oset_insert_spec (expiration_ tm, p) (timers_ q)) as (l & Hl & Hperm & Hsl); [done| |].
  { intros Hin. apply Hpt. apply list_elem_of_fmap. by exists (expiration_ tm, p). }
  assert (tq_inv E (set_sets q l ({[ (p, sequence_ tm) ]} ∪ activeTimers_ q))) as Hinv'.
  { split; cbn; try done.
    - rewrite Hperm, fmap_app. cbn. apply NoDup_app. split_and!; [done| |by constructor].
      intros x Hx [->|Hin]%elem_of_cons; [done|by apply (Hdisj x)].
    - intros e. rewrite Hperm. intros [HE|[->|Ht]%elem_of_cons]%elem_of_app.
      + apply i_heap0. set_solver.
      + by exists tm.
      + apply i_heap0. set_solver.
    - rewrite i_active0. apply set_eq. intros x. rewrite elem_of_union, !elem_of_list_to_set, Hperm. cbn.
      rewrite elem_of_cons, elem_of_singleton. unfold key at 2. cbn. by rewrite Hp.
    - intros e. rewrite Hperm. intros [->|He]%elem_of_cons; [done|by apply i_pos0]. }
  exists l. split_and!; [|done|done]. unfold insert, deref. rewrite Hsz, Hp.
  change (assert true) with (Ret tt). orun. rewrite Hl. change (assert true) with (Ret tt). orun.
  assert ((p, sequence_ tm) ∉ activeTimers_ q) as Hna.
  { rewrite i_active0, elem_of_list_to_set. intros ([t p'] & [= -> _] & Hin)%list_elem_of_fmap.
    apply Hpt, list_elem_of_fmap. by exists (t, p'). }
  rewrite bool_decide_eq_true_2 by done. change (assert true) with (Ret tt). orun.
  rewrite (inv_size _ _ Hinv'). done.
Qed.

Lemma head_min (e0 : Z * Z) l e : StronglySorted pair_lt (e0 :: l) → e ∈ e0 :: l → e0.1 ≤ e.1.
Proof.
  intros Hs [->|He]%elem_of_cons; [done|]. inversion Hs as [|? ? _ Hall]; subst.
  rewrite Forall_forall in Hall. specialize (Hall e He). rewrite pair_lt_spec in Hall. lia.
Qed.

Lemma free_address_spec q p :
  free_address q p = true → heap q !! p = None ∧ 0 ≤ p < kMaxPtr.
Proof.
  intros [[?%bool_decide_eq_true ?%Z.leb_le]%andb_true_iff ?%Z.ltb_lt]%andb_true_iff. split; [done|lia].
Qed.

Lemma not_allocated E q p : tq_inv E q → heap q !! p = None → p ∉ (E ++ timers_ q).*2.
Proof.
  intros [] Hp (e & -> & He)%list_elem_of_fmap. destruct (i_heap0 e He) as (tm & Htm & _). congruence.
Qed.

Lemma addTimer_inv E q p now when delta rep :
  tq_inv E q → free_address q p = true → 0 < when → 0 ≤ delta →
  ∃ q', addTimer q p now when delta rep = Ret ((p, s_numCreated_ q + 1), q') ∧ tq_inv E q' ∧
    (armed_ok q → armed_ok q') ∧ (∀ e, e ∈ E → heap q' !! e.2 = heap q !! e.2) ∧
    timers_ q' ≡ₚ (when, p) :: timers_ q ∧ ran q' = ran q ∧ cancelingTimers_ q' = cancelingTimers_ q ∧
    callingExpiredTimers_ q' = callingExpiredTimers_ q.
Proof.
  intros Hinv [Hp Hr]%free_address_spec Hw Hd. pose proof (not_allocated _ _ _ Hinv Hp) as Hnin.
  pose proof Hinv as []. unfold addTimer. set (tm := mkTimer when delta rep _). set (q1 := mkTQ _ _ _ _ _ _ _ _).
  assert (∀ e, e ∈ E ++ timers_ q → heap q1 !! e.2 = heap q !! e.2) as Hframe.
  { intros e He. cbn. apply lookup_insert_ne. intros ->. apply Hnin, list_elem_of_fmap. by exists e. }
  assert (tq_inv E q1) as Hinv1.
  { split; try done.
    - intros e He. rewrite Hframe by done. by apply i_heap0.
    - change (timers_ q1) with (timers_ q). rewrite (key_frame (heap q)) by set_solver. done.
    - intros p' tm'. cbn. intros [[<- <-]|[_ H]]%lookup_insert_Some; [done|by apply (i_ptr0 p')]. }
  destruct (insert_inv E q1 p tm Hinv1) as (l & Hins & Hperm & Hinv2); [apply lookup_insert_eq|done|done|].
  unfold addTimerInLoop. rewrite Hins. orun. set (q2 := set_sets q1 _ _) in *.
  assert (deref q2 p = Ret tm) as Hder by (unfold deref; cbn; by rewrite lookup_insert_eq).
  assert (∃ t, (if match timers_ q1 with [] => true | e :: _ => expiration_ tm <? e.1 end
                then tm ← deref q2 p; Ret (resetTimerfd q2 (expiration_ tm) now) else Ret q2)
               = Ret (set_armed q2 t) ∧ (armed_ok q → armed_ok (set_armed q2 t))) as (t & -> & Harm).
  { rewrite Hder. orun. cbn [timers_ q1]. rewrite resetTimerfd_eq. cbn [expiration_ tm].
    destruct (timers_ q) as [|e0 l0] eqn:Hl.
    - eexists. split; [done|]. intros _ e. cbn. rewrite Hperm. cbn. rewrite ?Hl.
      intros ->%list_elem_of_singleton. eexists _, _. split; [done|cbn; lia].
    - destruct (Z.ltb_spec when e0.1).
      + eexists. split; [done|]. intros _ e. cbn. rewrite Hperm. cbn. rewrite ?Hl.
        intros [->|He]%elem_of_cons; eexists _, _; (split; [done|cbn]); [lia|].
        pose proof (head_min _ _ _ i_sorted0 He). lia.
      + exists (armed q). split; [done|]. intros Ha e. cbn. rewrite Hperm. cbn. rewrite ?Hl. intros He.
        destruct (Ha e0) as (t & d & Ht & Hle); [rewrite Hl; left|].
        exists t, d. split; [done|]. apply elem_of_cons in He as [->|He]; [cbn; lia|].
        pose proof (head_min _ _ _ i_sorted0 He). lia. }
  orun. eexists. split_and!; [done| |done| |done..].
  - destruct Hinv2. by split.
  - intros e He. apply Hframe. set_solver.
Qed.

(** Forgetting a timer that is in none of the lists. *)
Lemma drop_heap E q h :
  tq_inv E q → (∀ e, e ∈ E ++ timers_ q → h !! e.2 = heap q !! e.2) →
  (∀ p tm, h !! p = Some tm → 0 ≤ p < kMaxPtr ∧ 0 ≤ delta_ tm) → tq_inv E (set_heap q h).
Proof.
  intros [] Hf Hh. split; cbn; try done.
  - intros e He. rewrite Hf by done. by apply i_heap0.
  - rewrite (key_frame (heap q)) by set_solver. done.
Qed.

(** Expired timers are not active. *)
Lemma expired_not_active E q e : tq_inv E q → e ∈ E → key (heap q) e ∉ activeTimers_ q.
Proof.
  intros Hinv He. pose proof (inv_split _ _ Hinv) as (_ & _ & Hdisj). rewrite (i_active _ _ Hinv), elem_of_list_to_set.
  intros (e' & Hk & He')%list_elem_of_fmap. apply (Hdisj e.2); [apply list_elem_of_fmap; eauto|].
  unfold key in Hk. injection Hk as -> _. apply list_elem_of_fmap. eauto.
Qed.

Lemma cancelInLoop_inv E q id :
  tq_inv E q →
  ∃ q', cancelInLoop q id = Ret q' ∧ tq_inv E q' ∧ (armed_ok q → armed_ok q') ∧
    (∀ e, e ∈ E → heap q' !! e.2 = heap q !! e.2) ∧ id ∉ activeTimers_ q' ∧ ran q' = ran q ∧
    callingExpiredTimers_ q' = callingExpiredTimers_ q ∧
    cancelingTimers_ q' = (if decide (id ∈ activeTimers_ q) then cancelingTimers_ q
      else if callingExpiredTimers_ q then {[ id ]} ∪ cancelingTimers_ q else cancelingTimers_ q).
Proof.
  intros Hinv. pose proof (inv_size _ _ Hinv) as Hsz. pose proof (inv_split _ _ Hinv) as (HndE & Hnd & Hdisj).
  pose proof Hinv as []. unfold cancelInLoop. rewrite Hsz. change (assert true) with (Ret tt). orun.
  destruct (decide (id ∈ activeTimers_ q)) as [Hin|Hnin].
  - pose proof Hin as Hin'. rewrite i_active0, elem_of_list_to_set in Hin'.
    apply list_elem_of_fmap in Hin' as ([t p] & Hkey & Hent).
    destruct (i_heap0 (t, p)) as (tm & Htm & Ht); [set_solver|]. cbn in Htm, Ht.
    unfold key in Hkey. cbn in Hkey. rewrite Htm in Hkey. subst id. cbn [fst]. unfold deref. rewrite Htm. orun.
    rewrite Ht. destruct (oset_erase_spec (t, p) (timers_ q)) as (l & -> & Hperm & Hsl); [done..|].
    change (assert (1 =? 1)%nat) with (Ret tt). orun.
    assert (NoDup l.*2 ∧ p ∉ l.*2) as [Hndl Hpl].
    { rewrite Hperm in Hnd. cbn in Hnd. by apply NoDup_cons in Hnd as [??]. }
    assert (p ∉ E.*2) as HpE.
    { intros HE. apply (Hdisj p HE). rewrite Hperm. by left. }
    assert (tq_inv E (set_sets q l (activeTimers_ q ∖ {[(p, sequence_ tm)]}))) as Hinv1.
    { split; cbn; try done.
      - rewrite fmap_app. apply NoDup_app. split_and!; [done| |done]. intros x Hx Hxl.
        apply (Hdisj x Hx). rewrite Hperm. by right.
      - intros e He. apply i_heap0. rewrite Hperm. set_solver.
      - rewrite i_active0. apply set_eq. intros x.
        rewrite elem_of_difference, !elem_of_list_to_set, Hperm, elem_of_singleton. cbn [fmap list_fmap].
        rewrite elem_of_cons. unfold key at 1. cbn. rewrite Htm. split; [tauto|].
        intros Hx. split; [by right|]. intros ->. apply Hpl. apply list_elem_of_fmap in Hx as (e & He & Hel).
        unfold key in He. injection He as ? ?. subst. apply list_elem_of_fmap. eauto.
      - intros e He. apply i_pos0. rewrite Hperm. by right. }
    assert (tq_inv E (set_heap (set_sets q l (activeTimers_ q ∖ {[(p, sequence_ tm)]})) (delete p (heap q)))) as Hinv2.
    { apply drop_heap; [done|..]; cbn.
      - intros e He. apply lookup_delete_ne. intros ->. apply elem_of_app in He as [He|He];
          [apply HpE|apply Hpl]; apply list_elem_of_fmap; eauto.
      - intros p' tm'. rewrite lookup_delete_Some. intros [_ H]. by apply (i_ptr0 p'). }
    rewrite (inv_size _ _ Hinv2). change (assert true) with (Ret tt). orun.
    eexists. split_and!; [done|done| | |cbn; set_solver|done..].
    + intros Ha e He. cbn in *. apply Ha. rewrite Hperm. by right.
    + intros e He. cbn. apply lookup_delete_ne. intros ->. apply HpE, list_elem_of_fmap. eauto.
  - assert (∀ q', q' = set_canceling q (cancelingTimers_ q') → ∃ q'', (assert (same_size q') ;; Ret q') = Ret q'' ∧
      tq_inv E q'' ∧ (armed_ok q → armed_ok q'') ∧ (∀ e, e ∈ E → heap q'' !! e.2 = heap q !! e.2) ∧
      id ∉ activeTimers_ q'' ∧ ran q'' = ran q ∧ callingExpiredTimers_ q'' = callingExpiredTimers_ q ∧
      cancelingTimers_ q'' = cancelingTimers_ q') as Hgen.
    { intros q' ->. change (same_size (set_canceling q _)) with (same_size q). rewrite Hsz.
      eexists. split_and!; [done|by split|done..]. }
    destruct (callingExpiredTimers_ q); rewrite bind_ret; cbn beta.
    + by apply (Hgen (set_canceling q _)).
    + apply (Hgen q). by destruct q.
Qed.

(** ** Actions of callbacks *)

Definition timer_act_ok (a : timer_act) : Prop :=
  match a with TAdd _ _ when delta _ => 0 < when ∧ 0 ≤ delta | TCancel _ => True end.

(** An expired timer is recorded as cancelled exactly when its callback, or that of
    another one, cancels it. *)
Definition cancels_recorded (E : list (Z * Z)) (q q' : TimerQueue) (acts : list timer_act) : Prop :=
  callingExpiredTimers_ q' = callingExpiredTimers_ q ∧
  (callingExpiredTimers_ q = true → ∀ e, e ∈ E →
     key (heap q) e ∈ cancelingTimers_ q' ↔ key (heap q) e ∈ cancelingTimers_ q ∨ TCancel (key (heap q) e) ∈ acts).

Lemma cancels_recorded_app E q q1 q2 l1 l2 : (∀ e, e ∈ E → heap q1 !! e.2 = heap q !! e.2) →
  cancels_recorded E q q1 l1 → cancels_recorded E q1 q2 l2 → cancels_recorded E q q2 (l1 ++ l2).
Proof.
  intros Hf [H1 H2] [H3 H4]. split; [congruence|]. intros Hc e He. rewrite H1 in H4. specialize (H4 Hc e He).
  assert (key (heap q1) e = key (heap q) e) as E1 by (unfold key; by rewrite Hf). rewrite E1 in H4.
  rewrite H4, (H2 Hc e He), elem_of_app. tauto.
Qed.

Lemma run_timer_act_inv E q a :
  tq_inv E q → timer_act_ok a →
  ∃ q', run_timer_act q a = Ret q' ∧ tq_inv E q' ∧ (armed_ok q → armed_ok q') ∧
    (∀ e, e ∈ E → heap q' !! e.2 = heap q !! e.2) ∧ ran q' = ran q ∧ cancels_recorded E q q' [a].
Proof.
  intros Hinv Ha. destruct a as [p now when delta rep|id]; cbn in *.
  - assert (∀ q', cancelingTimers_ q' = cancelingTimers_ q → callingExpiredTimers_ q' = callingExpiredTimers_ q →
      cancels_recorded E q q' [TAdd p now when delta rep]) as Hc.
    { intros q' E1 E2. split; [done|]. intros _ e _. rewrite E1, list_elem_of_singleton. by split; [left|intros [|]]. }
    destruct (free_address q p) eqn:Hf; [|exists q; split_and!; by auto]. destruct Ha as [Hw Hd].
    destruct (addTimer_inv E q p now when delta rep) as (q' & -> & ? & ? & ? & _ & ? & ? & ?); [done..|]. orun.
    exists q'. split_and!; by auto.
  - destruct (cancelInLoop_inv E q id Hinv) as (q' & -> & ? & ? & ? & _ & ? & Hcall & Hcan). exists q'. split_and!; try done.
    split; [done|]. intros Hc e He. pose proof (expired_not_active E q e Hinv He) as Hna. rewrite Hcan, Hc.
    rewrite list_elem_of_singleton. case_decide as Hin.
    + split; [by left|]. intros [?|[= <-]]; done.
    + rewrite elem_of_union, elem_of_singleton. naive_solver.
Qed.

Lemma run_timer_acts_inv E q l :
  tq_inv E q → Forall timer_act_ok l →
  ∃ q', run_timer_acts q l = Ret q' ∧ tq_inv E q' ∧ (armed_ok q → armed_ok q') ∧
    (∀ e, e ∈ E → heap q' !! e.2 = heap q !! e.2) ∧ ran q' = ran q ∧ cancels_recorded E q q' l.
Proof.
  intros Hinv Hl. revert q Hinv. induction Hl as [|a l Ha _ IH]; intros q Hinv; cbn.
  { exists q. split_and!; try done. split; [done|]. intros _ e _. set_solver. }
  destruct (run_timer_act_inv E q a Hinv Ha) as (q1 & -> & Hinv1 & Harm1 & Hf1 & Hr1 & Hc1). orun.
  destruct (IH q1 Hinv1) as (q2 & -> & Hinv2 & Harm2 & Hf2 & Hr2 & Hc2). exists q2. split_and!; try done; [auto| |congruence|].
  - intros e He. by rewrite Hf2, Hf1.
  - by apply (cancels_recorded_app E q q1 q2 [a] l).
Qed.

(** ** getExpired *)

Lemma erase_active_spec q ex :
  NoDup (ex ++ timers_ q).*2 →
  (∀ e, e ∈ ex → ∃ tm, heap q !! e.2 = Some tm) →
  activeTimers_ q = list_to_set (key (heap q) <$> ex ++ timers_ q) →
  erase_active q ex = Ret (set_sets q (timers_ q) (list_to_set (key (heap q) <$> timers_ q))).
Proof.
  revert q. induction ex as [|e ex IH]; intros q Hnd Hh Ha.
  - cbn in *. rewrite <- Ha. by destruct q.
  - destruct (Hh e) as [tm Htm]; [left|]. cbn [erase_active]. unfold deref. rewrite Htm. orun.
    assert (key (heap q) e = (e.2, sequence_ tm)) as Hk by (unfold key; by rewrite Htm).
    pose proof (key_nodup (heap q) _ Hnd) as Hnk. cbn in Hnd, Hnk, Ha. rewrite Hk in Hnk, Ha.
    apply NoDup_cons in Hnd as [_ Hnd]. apply NoDup_cons in Hnk as [Hni _].
    rewrite bool_decide_eq_true_2
      by (rewrite Ha, elem_of_union, elem_of_singleton; by left). change (assert true) with (Ret tt). orun.
    set (q1 := set_sets q _ _). rewrite (IH q1); [done|done| |].
    + intros e' He'. apply Hh. by right.
    + cbn. rewrite Ha. apply set_eq. intros x.
      rewrite elem_of_difference, elem_of_union, !elem_of_singleton, !elem_of_list_to_set. split; [tauto|].
      intros Hx. split; [by right|]. by intros ->.
Qed.

Lemma getExpired_spec q now :
  tq_inv [] q →
  ∃ ex q', getExpired q now = Ret (ex, q') ∧ timers_ q = ex ++ timers_ q' ∧ tq_inv ex q' ∧
    (∀ e, e ∈ timers_ q → e ∈ ex ↔ e.1 ≤ now) ∧ heap q' = heap q ∧ ran q' = ran q.
Proof.
  intros Hinv. pose proof (inv_size _ _ Hinv) as Hsz. pose proof Hinv as []. cbn [app] in *.
  unfold getExpired. rewrite Hsz. change (assert true) with (Ret tt). orun.
  destruct (oset_split (now, kMaxPtr) (timers_ q)) as [ex rest] eqn:Hsp.
  destruct (oset_split_spec _ _ _ _ i_sorted0 Hsp) as (Ht & Hex & Hrest & Hsr).
  assert (∀ e, e ∈ timers_ q → 0 ≤ e.2 < kMaxPtr) as Hptr.
  { intros e He. destruct (i_heap0 e He) as (tm & Htm & _). by apply (i_ptr0 _ _ Htm). }
  assert (∀ e, e ∈ rest → now < e.1) as Hlate.
  { intros e He. pose proof (Hrest e He) as Hn. rewrite pair_lt_spec in Hn. cbn in Hn.
    assert (0 ≤ e.2 < kMaxPtr) by (apply Hptr; rewrite Ht, elem_of_app; by right). lia. }
  replace (match rest with [] => true | e :: _ => now <? e.1 end) with true.
  2: { destruct rest as [|e rest]; [done|]. symmetry. apply Z.ltb_lt, Hlate. left. }
  change (assert true) with (Ret tt). orun.
  rewrite erase_active_spec; cbn [timers_ set_sets heap activeTimers_].
  2, 4: by rewrite <- Ht.
  2: { intros e He. destruct (i_heap0 e) as (tm & ? & _); [rewrite Ht, elem_of_app; by left|eauto]. }
  orun. set (q' := set_sets _ _ _).
  assert (tq_inv ex q') as Hinv'.
  { split; cbn; rewrite <- ?Ht; try done. intros e He. apply i_pos0. rewrite Ht, elem_of_app. by right. }
  rewrite (inv_size _ _ Hinv'). change (assert true) with (Ret tt). orun.
  exists ex, q'. split_and!; try done. intros e He. split.
  - intros Hin. specialize (Hex e Hin). rewrite pair_lt_spec in Hex. cbn in Hex. lia.
  - intros Hle. rewrite Ht in He. apply elem_of_app in He as [?|Hr]; [done|]. specialize (Hlate e Hr). lia.
Qed.

(** ** Running and restarting the expired timers *)

Section read_correct.
Variable callback : TimerQueue → Timer → list timer_act.
Hypothesis callback_ok : ∀ q tm, Forall timer_act_ok (callback q tm).

(** The sequence numbers of a list of timers. *)
Definition seqs (h : gmap Z Timer) (l : list (Z * Z)) : list Z := snd <$> (key h <$> l).

Lemma run_expired_inv ex l q :
  tq_inv ex q → l ⊆ ex →
  ∃ q', run_expired callback q l = Ret q' ∧ tq_inv ex q' ∧
    (∀ e, e ∈ ex → heap q' !! e.2 = heap q !! e.2) ∧ ran q' = ran q ++ seqs (heap q) l ∧
    cancels_recorded ex q q' (callback_acts callback q l).
Proof using callback_ok.
  revert q. induction l as [|e l IH]; intros q Hinv Hl; cbn [run_expired callback_acts].
  - exists q. change (seqs (heap q) []) with (@nil Z). rewrite app_nil_r. split_and!; try done.
    split; [done|]. intros _ e _. set_solver.
  - assert (e ∈ ex) as He by (apply Hl; left).
    destruct (i_heap _ _ Hinv e) as (tm & Htm & _); [rewrite elem_of_app; by left|]. unfold deref. rewrite Htm. orun.
    destruct (run_timer_acts_inv ex (record_run q (sequence_ tm)) (callback q tm))
      as (q1 & -> & Hinv1 & _ & Hf1 & Hr1 & Hc1); [by destruct Hinv|done|]. orun.
    destruct (IH q1 Hinv1) as (q2 & -> & Hinv2 & Hf2 & Hr2 & Hc2); [intros e' He'; apply Hl; by right|].
    exists q2. split_and!; [done|done| | |by eapply (cancels_recorded_app _ (record_run q (sequence_ tm)))].
    + intros e' He'. rewrite Hf2, Hf1 by done. done.
    + assert (seqs (heap q) (e :: l) = sequence_ tm :: seqs (heap q) l) as ->.
      { unfold seqs, key. cbn. by rewrite Htm. }
      rewrite Hr2, Hr1. cbn [ran record_run]. rewrite <- app_assoc. cbn [app]. do 2 f_equal.
      unfold seqs. rewrite (key_frame (heap q)); [done|]. intros e' He'.
      rewrite Hf1 by (apply Hl; by right). done.
Qed.

Lemma restart_expired_inv q l now :
  tq_inv l q → 0 < now →
  ∃ q', restart_expired q l now = Ret q' ∧ tq_inv [] q' ∧ ran q' = ran q ∧
    (∀ e, e ∈ l → heap q' !! e.2 =
       match heap q !! e.2 with
       | Some tm => if repeat_ tm && bool_decide ((e.2, sequence_ tm) ∉ cancelingTimers_ q)
                    then Some (restart tm now) else None
       | None => None
       end) ∧
    (∀ p, p ∉ l.*2 → heap q' !! p = heap q !! p) ∧
    (∀ e tm, e ∈ l → heap q !! e.2 = Some tm → repeat_ tm = true → (e.2, sequence_ tm) ∉ cancelingTimers_ q →
       (now + delta_ tm, e.2) ∈ timers_ q') ∧
    (∀ e, e ∈ timers_ q → e ∈ timers_ q').
Proof.
  intros Hinv Hnow. revert q Hinv. induction l as [|e l IH]; intros q Hinv; cbn.
  { exists q. split_and!; try done; intros e; [intros He|intros tm He]; by apply elem_of_nil in He. }
  pose proof (inv_split _ _ Hinv) as (HndE & Hnd & Hdisj). cbn in HndE.
  apply NoDup_cons in HndE as [Hel HndE].
  destruct (i_heap _ _ Hinv e) as (tm & Htm & _); [left|]. unfold deref. rewrite Htm. orun.
  assert (e.2 ∉ (l ++ timers_ q).*2) as Hfresh.
  { rewrite fmap_app. intros [?|?]%elem_of_app; [done|]. apply (Hdisj e.2); [by left|done]. }
  assert (tq_inv l q) as Hinv0.
  { destruct Hinv. split; try done; [by apply NoDup_cons in i_nodup0 as [_ ?]|]. intros e' He'.
    apply i_heap0. by right. }
  assert (∀ h : gmap Z Timer, (∀ x, x ≠ e.2 → h !! x = heap q !! x) → ∀ e', e' ∈ l ++ timers_ q → h !! e'.2 = heap q !! e'.2) as Hframe.
  { intros h Hh e' He'. apply Hh. intros E. apply Hfresh. rewrite <- E. apply list_elem_of_fmap. eauto. }
  destruct (repeat_ tm && bool_decide ((e.2, sequence_ tm) ∉ cancelingTimers_ q)) eqn:Hrep.
  - set (tm' := restart tm now). set (q1 := set_heap q (<[e.2 := tm']> (heap q))).
    assert (tm' = mkTimer (now + delta_ tm) (delta_ tm) (repeat_ tm) (sequence_ tm)) as Htm'.
    { unfold tm', restart. apply andb_true_iff in Hrep as [-> _]. done. }
    destruct (i_ptr _ _ Hinv e.2 tm Htm) as [Hp Hdelta].
    assert (tq_inv l q1) as Hinv1.
    { apply drop_heap; [done| |].
      - apply Hframe. intros x Hx. by apply lookup_insert_ne.
      - intros p tm2 [[<- <-]|[_ H]]%lookup_insert_Some; [by rewrite Htm'|by apply (i_ptr _ _ Hinv p)]. }
    destruct (insert_inv l q1 e.2 tm' Hinv1) as (l' & Hins & Hperm & Hinv2);
      [apply lookup_insert_eq|done|rewrite Htm'; cbn; lia|].
    rewrite Hins. orun. set (q2 := set_sets _ _ _) in *.
    destruct (IH q2 Hinv2) as (q' & -> & Hinv' & Hran & Hin & Hout & Hre & Hkeep). exists q'. split_and!; try done.
    + intros e' [->|He']%elem_of_cons.
      * rewrite Hout, Htm, Hrep by done. apply lookup_insert_eq.
      * rewrite Hin by done. cbn. rewrite lookup_insert_ne; [done|]. intros E. apply Hel. rewrite E.
        apply list_elem_of_fmap. eauto.
    + intros p [Hpe Hpl]%not_elem_of_cons. rewrite Hout by done. cbn. by rewrite lookup_insert_ne.
    + intros e' tm1 [->|He']%elem_of_cons Htm1 Hr1 Hc1.
      * simplify_eq. apply Hkeep. cbn. rewrite Hperm, Htm'. left.
      * apply Hre; [done| |done|done]. cbn. rewrite lookup_insert_ne; [done|]. intros E. apply Hel. rewrite E.
        apply list_elem_of_fmap. eauto.
    + intros e' He'. apply Hkeep. cbn. rewrite Hperm. by right.
  - set (q1 := set_heap q (delete e.2 (heap q))). orun.
    assert (tq_inv l q1) as Hinv1.
    { apply drop_heap; [done| |].
      - apply Hframe. intros x Hx. by apply lookup_delete_ne.
      - intros p tm2. rewrite lookup_delete_Some. intros [_ H]. by apply (i_ptr _ _ Hinv p). }
    destruct (IH q1 Hinv1) as (q' & -> & Hinv' & Hran & Hin & Hout & Hre & Hkeep). exists q'. split_and!; try done.
    + intros e' [->|He']%elem_of_cons.
      * rewrite Hout, Htm, Hrep by done. apply lookup_delete_eq.
      * rewrite Hin by done. cbn. rewrite lookup_delete_ne; [done|]. intros E. apply Hel. rewrite E.
        apply list_elem_of_fmap. eauto.
    + intros p [Hpe Hpl]%not_elem_of_cons. rewrite Hout by done. cbn. by rewrite lookup_delete_ne.
    + intros e' tm1 [->|He']%elem_of_cons Htm1 Hr1 Hc1.
      * simplify_eq. rewrite Hr1, bool_decide_eq_true_2 in Hrep by done. done.
      * apply Hre; [done| |done|done]. cbn. rewrite lookup_delete_ne; [done|]. intros E. apply Hel. rewrite E.
        apply list_elem_of_fmap. eauto.
Qed.

Lemma reset_inv q l now now' :
  tq_inv l q → 0 < now →
  ∃ q1 q', restart_expired q l now = Ret q1 ∧ reset q l now now' = Ret q' ∧ tq_inv [] q' ∧ armed_ok q' ∧
    heap q' = heap q1 ∧ ran q' = ran q ∧ timers_ q' = timers_ q1.
Proof.
  intros Hinv Hnow. destruct (restart_expired_inv q l now Hinv Hnow) as (q1 & Hr & Hinv1 & Hran & _).
  exists q1. unfold reset. rewrite Hr. orun. pose proof Hinv1 as []. cbn [app] in *.
  destruct (timers_ q1) as [|e0 l0] eqn:Hl.
  - orun. exists q1. split_and!; try done. intros e. rewrite Hl. intros He. by apply elem_of_nil in He.
  - destruct (i_heap0 e0) as (tm & Htm & Hexp); [left|]. unfold deref. rewrite Htm. orun.
    assert (0 < expiration_ tm) as Hpos by (rewrite Hexp; apply i_pos0; left).
    rewrite (proj2 (Z.ltb_lt 0 _)), resetTimerfd_eq by done. eexists. split_and!; [done|done| | |done|done|done].
    + destruct Hinv1. by split.
    + intros e. cbn. rewrite Hl. intros He. eexists _, _. split; [done|]. rewrite Hexp.
      pose proof (head_min e0 l0 e i_sorted0 He). lia.
Qed.

(** The timer [e] after the descriptor fired: scheduled again, or gone. *)
Definition rescheduled (q' : TimerQueue) (e : Z * Z) (tm : Timer) (now : Z) : Prop :=
  heap q' !! e.2 = Some (restart tm now) ∧ (now + delta_ tm, e.2) ∈ timers_ q'.
Definition deleted (q' : TimerQueue) (e : Z * Z) : Prop :=
  heap q' !! e.2 = None ∧ e.2 ∉ (timers_ q').*2.

Lemma tq_handleRead_inv q now now' :
  tq_inv [] q → 0 < now →
  ∃ due q', handleRead callback q now now' = Ret q' ∧ tq_inv [] q' ∧ armed_ok q' ∧
    due `prefix_of` timers_ q ∧ (∀ e, e ∈ timers_ q → e ∈ due ↔ e.1 ≤ now) ∧
    ran q' = ran q ++ seqs (heap q) due ∧
    (∀ e tm, e ∈ due → heap q !! e.2 = Some tm →
       if repeat_ tm && bool_decide (TCancel (e.2, sequence_ tm) ∉ fired_acts callback q now)
       then rescheduled q' e tm now else deleted q' e).
Proof using callback_ok.
  intros Hinv Hnow. unfold handleRead, fired_acts.
  destruct (getExpired_spec (set_armed q None) now) as (ex & q1 & -> & Ht & Hinv1 & Hdue & Hh1 & Hr1);
    [by destruct Hinv|]. orun. cbn in Ht, Hdue, Hh1, Hr1.
  destruct (run_expired_inv ex ex (set_canceling (set_calling q1 true) ∅))
    as (q2 & -> & Hinv2 & Hf2 & Hr2 & [_ Hc2]); [by destruct Hinv1|done|]. orun. cbn in Hf2, Hr2. specialize (Hc2 eq_refl).
  assert (tq_inv ex (set_calling q2 false)) as Hinv3 by by destruct Hinv2.
  destruct (reset_inv (set_calling q2 false) ex now now' Hinv3 Hnow) as (q3 & q' & Hq3 & -> & Hinv' & Harm & Hh' & Hr' & Ht').
  destruct (restart_expired_inv _ _ _ Hinv3 Hnow) as (q3' & Hq3' & _ & _ & Hin & _ & Hre & _).
  rewrite Hq3 in Hq3'. injection Hq3' as <-.
  exists ex, q'. split_and!; try done.
  - rewrite Ht. by eexists.
  - rewrite Hr'. cbn. by rewrite Hr2, Hr1, Hh1.
  - intros e tm He Htm. specialize (Hin e He). cbn in Hin. rewrite <- Hh', Hf2, Hh1, Htm in Hin by done.
    specialize (Hc2 e He). cbn in Hc2. unfold key in Hc2. cbn in Hc2. rewrite Hh1, Htm in Hc2.
    rewrite (bool_decide_ext _ (TCancel (e.2, sequence_ tm) ∉ callback_acts callback (set_canceling (set_calling q1 true) ∅) ex)) in Hin
      by (rewrite Hc2; set_solver).
    destruct (repeat_ tm) eqn:Hrep; [|split; [done|]]; cbn [andb] in *.
    2: { intros Hd. eapply (not_allocated [] q' e.2) in Hin; [by apply Hin|done]. }
    case_bool_decide as Hc; (split; [done|]).
    + rewrite Ht'. apply Hre; [done|cbn; by rewrite Hf2, Hh1|done|]. cbn. rewrite Hc2. set_solver.
    + intros Hd. eapply (not_allocated [] q' e.2) in Hin; [by apply Hin|done].
Qed.

(** ** Runs of a queue *)

Inductive tq_op : Type :=
  | TOAct (a : timer_act)
  | TOFire (now now' : Z).

Definition run_tq_op (q : TimerQueue) (o : tq_op) : outcome TimerQueue :=
  match o with
  | TOAct a => run_timer_act q a
  | TOFire now now' => handleRead callback q now now'
  end.

Fixpoint run_tq_ops (q : TimerQueue) (l : list tq_op) : outcome TimerQueue :=
  match l with
  | [] => Ret q
  | o :: l => q ← run_tq_op q o; run_tq_ops q l
  end.

Definition tq_op_ok (o : tq_op) : Prop :=
  match o with TOAct a => timer_act_ok a | TOFire now _ => 0 < now end.

Lemma run_tq_ops_inv q l :
  tq_inv [] q → armed_ok q → Forall tq_op_ok l →
  ∃ q', run_tq_ops q l = Ret q' ∧ tq_inv [] q' ∧ armed_ok q'.
Proof using callback_ok.
  intros Hinv Harm Hl. revert q Hinv Harm. induction Hl as [|o l Ho _ IH]; intros q Hinv Harm; cbn; [eauto|].
  destruct o as [a|now now']; cbn in Ho |- *.
  - destruct (run_timer_act_inv [] q a Hinv Ho) as (q1 & -> & Hinv1 & Ha1 & _). orun. auto.
  - destruct (tq_handleRead_inv q now now' Hinv Ho) as (_ & q1 & -> & Hinv1 & Ha1 & _). orun. auto.
Qed.

Lemma ctor_inv : tq_inv [] TimerQueue_ctor ∧ armed_ok TimerQueue_ctor.
Proof.
  split; [split; cbn|]; try done; [constructor|constructor|..].
  all: intros e He; by apply elem_of_nil in He.
Qed.

(** C11: From its creation on, whatever timers are added (with a positive time and an
    interval that is not negative) and cancelled, by the user and by callbacks, and
    whenever the descriptor fires, the queue fails no assertion and follows no deleted
    address; the sets agree ([tq_inv]); and while there are timers the descriptor is
    armed and fires no later than the first of them is due, or 100 microseconds after it
    was set, which is the shortest time the code sets. *)
Theorem timer_queue_safe l :
  Forall tq_op_ok l →
  ∃ q, run_tq_ops TimerQueue_ctor l = Ret q ∧ tq_inv [] q ∧ armed_ok q.
Proof using callback_ok. intros Hl. destruct ctor_inv. by apply run_tq_ops_inv. Qed.

(** C20: When the descriptor fires, the callbacks of exactly the timers that are due
    run, once each and in the order of their expiration; then a repeating one that no
    callback has cancelled meanwhile is scheduled again, its interval after the time at
    which the descriptor was read, and every other one is deleted. *)
Theorem handleRead_runs_due l q now now' :
  Forall tq_op_ok l → run_tq_ops TimerQueue_ctor l = Ret q → 0 < now →
  ∃ due q', handleRead callback q now now' = Ret q' ∧
    due `prefix_of` timers_ q ∧ (∀ e, e ∈ timers_ q → e ∈ due ↔ e.1 ≤ now) ∧
    ran q' = ran q ++ seqs (heap q) due ∧
    (∀ e tm, e ∈ due → heap q !! e.2 = Some tm →
       if repeat_ tm && bool_decide (TCancel (e.2, sequence_ tm) ∉ fired_acts callback q now)
       then rescheduled q' e tm now else deleted q' e).
Proof using callback_ok.
  intros Hl Hrun Hnow. destruct ctor_inv as [Hi Ha].
  destruct (run_tq_ops_inv _ l Hi Ha Hl) as (q0 & Hrun' & Hinv & _). rewrite Hrun in Hrun'.
  injection Hrun' as <-. destruct (tq_handleRead_inv q now now' Hinv Hnow) as (due & q' & ? & _ & _ & ?).
  by exists due, q'.
Qed.

End read_correct.

(** The value given to timerfd_settime is never zero, which would disarm the
    timer, and its nanoseconds are in range; rounding loses less than the
    minimum delay. *)
Theorem howMuchTimeFromNow_valid when now s ns :
  howMuchTimeFromNow when now = (s, ns) →
  0 ≤ s ∧ 0 ≤ ns < 1000000000 ∧ 0 < s + ns ∧
  s * 1000000000 + ns = 1000 * ((when - now) `max` 100).
Proof. intros (? & ? & E)%howMuchTimeFromNow_eq. lia. Qed.

(** *** Examples *)

(** Callback of the sample: timer 2 cancels timer 1. *)
Definition sample_callback (q : TimerQueue) (tm : Timer) : list timer_act :=
  if sequence_ tm =? 2 then [TCancel (16, 1); TAdd 48 150 900 0 false] else [].

Definition kSampleOps : list tq_op :=
  [TOAct (TAdd 16 10 100 50 true); TOAct (TAdd 32 11 90 0 false); TOAct (TAdd 64 12 300 0 false);
   TOAct (TAdd 80 13 140 70 true)].

Lemma sample_callback_ok q tm : Forall timer_act_ok (sample_callback q tm).
Proof. unfold sample_callback. case_match; repeat constructor; lia. Qed.

Lemma timer_queue_safe_witness :
  ∃ q, run_tq_ops sample_callback TimerQueue_ctor (kSampleOps ++ [TOFire 150 160]) = Ret q ∧
    tq_inv [] q ∧ armed_ok q.
Proof.
  apply (timer_queue_safe sample_callback sample_callback_ok).
  repeat constructor; lia.
Defined.

(** Of the repeating timers that are due the first is cancelled and the other one is
    scheduled again. *)
Lemma handleRead_runs_due_witness :
  ∃ q due q', run_tq_ops sample_callback TimerQueue_ctor kSampleOps = Ret q ∧
    handleRead sample_callback q 150 160 = Ret q' ∧ due `prefix_of` timers_ q ∧
    (∀ e, e ∈ timers_ q → e ∈ due ↔ e.1 ≤ 150) ∧ ran q' = ran q ++ seqs (heap q) due ∧
    (fired_acts sample_callback q 150 = [TCancel (16, 1); TAdd 48 150 900 0 false] ∧
     timers_ q' = [(220, 80); (300, 64); (900, 48)]).
Proof.
  assert (Forall tq_op_ok kSampleOps) as Hok by (repeat constructor; lia).
  destruct (run_tq_ops sample_callback TimerQueue_ctor kSampleOps) as [q|f] eqn:Hrun;
    [|vm_compute in Hrun; discriminate Hrun].
  destruct (handleRead_runs_due sample_callback sample_callback_ok kSampleOps q 150 160 Hok Hrun)
    as (due & q' & H1 & H2 & H3 & H4 & _); [lia|].
  exists q, due, q'. split; [reflexivity|]. split; [exact H1|]. split; [exact H2|]. split; [exact H3|]. split; [exact H4|].
  vm_compute in Hrun. injection Hrun as <-. split; [vm_compute; reflexivity|].
  vm_compute in H1. injection H1 as <-. reflexivity.
Defined.

Example sample_ran :
  (q ← run_tq_ops sample_callback TimerQueue_ctor (kSampleOps ++ [TOFire 150 160]); Ret (ran q, timers_ q))
  = Ret ([2; 1; 4], [(220, 80); (300, 64); (900, 48)]).
Proof. vm_compute. reflexivity. Qed.

Lemma howMuchTimeFromNow_valid_witness :
  0 ≤ 2 ∧ 0 ≤ 500000000 < 1000000000 ∧ 0 < 2 + 500000000 ∧
  2 * 1000000000 + 500000000 = 1000 * ((3500000 - 1000000) `max` 100).
Proof. apply (howMuchTimeFromNow_valid 3500000 1000000). vm_compute. reflexivity. Defined.

End TimerQueue.
