(* ===== verification/BlockHash.v ===== *)
(** * BlockHash: what the digests of sha1.cc and mymd5.cpp share

    Both hash a message in blocks of 64 bytes and accept it in pieces: a context has
    the number of bits in two words, the state after the complete blocks, and a buffer
    with the rest.  [hash_ok] says when a context stands for a message; [hash_small] and
    [hash_big] say how it changes with a piece that fills no block or some. *)

From S2P Require Import Prelude Buffer.
Import Buffer.

Lemma u32_small z : 0 ≤ z < 2 ^ 32 → u32 z = z.
Proof. apply Z.mod_small. Qed.

Lemma le4_lor b0 b1 b2 b3 : is_byte b0 → is_byte b1 → is_byte b2 → is_byte b3 →
  le_combine [b0; b1; b2; b3] =
    Z.lor (Z.shiftl b3 24) (Z.lor (Z.shiftl b2 16) (Z.lor (Z.shiftl b1 8) b0)).
Proof.
  unfold is_byte. intros. rewrite (lor_shiftl_add b1 b0 8), (lor_shiftl_add b2), (lor_shiftl_add b3) by lia.
  cbn [le_combine]. lia.
Qed.

(** [memcpy(&dst[j], &data[i], n)]. *)
Definition memcpy (dst : bytes) (j : Z) (data : bytes) (i n : Z) : outcome bytes :=
  in_bounds (i + n <=? zlen data) ;;
  write_at dst j (slice data i (i + n)).

Lemma memcpy_ok dst j data i n :
  0 ≤ i → 0 ≤ n → i + n ≤ zlen data → 0 ≤ j → j + n ≤ zlen dst →
  ∃ dst', memcpy dst j data i n = Ret dst' ∧ length dst' = length dst ∧
    take (Z.to_nat (j + n)) dst' = take (Z.to_nat j) dst ++ take (Z.to_nat n) (drop (Z.to_nat i) data).
Proof.
  intros Hi Hn Hd Hj Hdst. unfold memcpy, write_at, slice. rewrite (in_bounds_true (i + n <=? _)) by bool_side. rewrite bind_ret.
  replace (i + n - i) with n by lia. rewrite length_ztake by (rewrite length_zdrop; lia).
  rewrite in_bounds_true by bool_side. rewrite bind_ret. eexists. split; [done|]. unfold ztake, zdrop.
  split; [rewrite !length_app, !length_take, !length_drop; lia|].
  rewrite app_assoc, take_app_length'; [done|].
  rewrite !length_app, !length_take, !length_drop. lia.
Qed.

Lemma slice_bytes data i j : Forall_byte data → Forall_byte (slice data i j).
Proof. intros. unfold slice. auto with ws. Qed.

Lemma length_slice (data : bytes) i j : 0 ≤ i ≤ j → j ≤ zlen data → length (slice data i j) = Z.to_nat (j - i).
Proof. intros. unfold slice, ztake, zdrop. rewrite length_take, length_drop. lia. Qed.

(** The two words of the bit counter, one more for a carry. *)
Lemma count_words len0 c0 c1 len : 0 ≤ c0 < 2 ^ 32 → 0 ≤ c1 < 2 ^ 32 → c0 + 2 ^ 32 * c1 = (8 * len0) mod 2 ^ 64 →
  0 ≤ len < 2 ^ 32 →
  let c0' := u32 (c0 + u32 (Z.shiftl len 3)) in
  let c1' carry := u32 ((if carry : bool then u32 (c1 + 1) else c1) + Z.shiftr len 29) in
  (0 ≤ c0' < 2 ^ 32 ∧ (∀ carry, 0 ≤ c1' carry < 2 ^ 32)) ∧
  (c0' <? c0) = (c0' <? u32 (Z.shiftl len 3)) ∧
  c0' + 2 ^ 32 * c1' (c0' <? c0) = (8 * (len0 + len)) mod 2 ^ 64.
Proof.
  intros H1 H2 Hc Hlen. cbn zeta. rewrite Z.shiftl_mul_pow2, Z.shiftr_div_pow2 by lia.
  unfold u32. split; [split; [|intros]; by apply Z.mod_pos_bound|].
  replace (8 * (len0 + len)) with (8 * len0 + 8 * len) by lia.
  rewrite <- (Zplus_mod_idemp_l (8 * len0) (8 * len) (2 ^ 64)), <- Hc. change (2 ^ 3) with 8.
  set (q := len / 2 ^ 29). set (r := (len * 8) mod 2 ^ 32).
  assert (8 * len = 2 ^ 32 * q + r ∧ 0 ≤ r < 2 ^ 32 ∧ 0 ≤ q < 8) as (Hl & Hr & Hq) by (unfold q, r; dlia).
  rewrite Hl. clearbody q r. clear Hl Hc Hlen.
  destruct (Z.lt_ge_cases (c0 + r) (2 ^ 32)) as [Hlt|Hge].
  - rewrite (Z.mod_small (c0 + r)) by lia.
    rewrite (proj2 (Z.ltb_ge _ c0)), (proj2 (Z.ltb_ge _ r)) by lia. split; [done|]. dlia.
  - replace ((c0 + r) mod 2 ^ 32) with (c0 + r - 2 ^ 32) by dlia.
    rewrite (proj2 (Z.ltb_lt _ c0)), (proj2 (Z.ltb_lt _ r)) by lia. split; [done|]. rewrite Zplus_mod_idemp_l. dlia.
Qed.

Lemma divmod64 l q r : (l = q * 64 + r)%nat → (r < 64)%nat → (l / 64 = q ∧ l mod 64 = r)%nat.
Proof.
  intros -> Hr. rewrite Nat.div_add_l, (Nat.div_small r) by lia. split; [lia|].
  rewrite Nat.add_comm, Nat.Div0.mod_add. by apply Nat.mod_small.
Qed.

Section blocks.
Context {S : Type} (f : S → bytes → S).

Fixpoint blocks (n : nat) (H : S) (m : bytes) : S :=
  match n with
  | O => H
  | Datatypes.S n => blocks n (f H (take 64 m)) (drop 64 m)
  end.

Lemma blocks_app n H m x : (64 * n ≤ length m)%nat → blocks n H (m ++ x) = blocks n H m.
Proof.
  revert H m. induction n as [|n IH]; intros H m Hm; cbn [blocks]; [done|].
  rewrite take_app_le, drop_app_le by lia. apply IH. rewrite length_drop. lia.
Qed.

Lemma blocks_add n k H m : blocks (n + k) H m = blocks k (blocks n H m) (drop (64 * n) m).
Proof.
  revert H m. induction n as [|n IH]; intros H m; [by rewrite drop_0|].
  cbn [blocks plus]. rewrite IH, drop_drop. do 2 f_equal. lia.
Qed.

Variable H0 : S.

(** The context after the message [M] has arrived. *)
Record hash_ok (M : bytes) (c0 c1 : Z) (st : S) (buf : bytes) : Prop := HashOk {
  ok_range : 0 ≤ c0 < 2 ^ 32 ∧ 0 ≤ c1 < 2 ^ 32;
  ok_count : c0 + 2 ^ 32 * c1 = (8 * zlen M) mod 2 ^ 64;
  ok_state : st = blocks (length M / 64) H0 M;
  ok_length : length buf = 64%nat;
  ok_buffer : take (length M mod 64) buf = drop (64 * (length M / 64)) M;
}.

Lemma hash_fill M c0 c1 st buf : hash_ok M c0 c1 st buf → Z.land (Z.shiftr c0 3) 63 = Z.of_nat (length M mod 64).
Proof.
  intros [[H1 H2] Hc _ _ _]. rewrite (Z.land_ones _ 6), Z.shiftr_div_pow2 by lia.
  rewrite Nat2Z.inj_mod. change (Z.of_nat 64) with 64. change (2 ^ 3) with 8. change (2 ^ 6) with 64. dlia.
Qed.

Lemma hash_init buf : length buf = 64%nat → hash_ok [] 0 0 H0 buf.
Proof. intros Hb. split; cbn; [lia|done|done|done|]. by rewrite take_0. Qed.

(** A piece that fills no block. *)
Lemma hash_small M c0 c1 st buf data c0' c1' buf' : hash_ok M c0 c1 st buf →
  (length M mod 64 + length data < 64)%nat →
  0 ≤ c0' < 2 ^ 32 ∧ 0 ≤ c1' < 2 ^ 32 → c0' + 2 ^ 32 * c1' = (8 * (zlen M + zlen data)) mod 2 ^ 64 →
  length buf' = 64%nat → take (length M mod 64 + length data) buf' = take (length M mod 64) buf ++ data →
  hash_ok (M ++ data) c0' c1' st buf'.
Proof.
  intros [_ _ Hst Hl Hbuf] Hs Hrange Hcount Hl' Hbuf'.
  pose proof (Nat.div_mod_eq (length M) 64) as HM.
  assert (length (M ++ data) / 64 = length M / 64 ∧ length (M ++ data) mod 64 = length M mod 64 + length data)%nat as [Hq Hr].
  { apply divmod64; [rewrite length_app|]; lia. }
  split; [done| | |done|].
  - by rewrite length_app, Nat2Z.inj_add.
  - by rewrite Hq, blocks_app by lia.
  - rewrite Hq, Hr, Hbuf', Hbuf, drop_app_le by lia. done.
Qed.

(** A piece that fills the buffer and [k] more blocks. *)
Lemma hash_big M c0 c1 st buf data k i c0' c1' buf' : hash_ok M c0 c1 st buf →
  (i = 64 - length M mod 64 + 64 * k)%nat → (i ≤ length data < i + 64)%nat →
  0 ≤ c0' < 2 ^ 32 ∧ 0 ≤ c1' < 2 ^ 32 → c0' + 2 ^ 32 * c1' = (8 * (zlen M + zlen data)) mod 2 ^ 64 →
  length buf' = 64%nat → take (length data - i) buf' = drop i data →
  hash_ok (M ++ data) c0' c1'
    (blocks k (f st (take (length M mod 64) buf ++ take (64 - length M mod 64) data)) (drop (64 - length M mod 64) data)) buf'.
Proof.
  intros [_ _ Hst Hl Hbuf] Hi Hlen Hrange Hcount Hl' Hbuf'.
  set (n := (length M / 64)%nat) in *. set (j := (length M mod 64)%nat) in *.
  assert (length M = 64 * n + j ∧ j < 64)%nat as [HMl Hj].
  { unfold n, j. pose proof (Nat.div_mod_eq (length M) 64). split; [lia|apply Nat.mod_upper_bound; lia]. }
  assert (drop (64 * n) (M ++ data) = take j buf ++ data) as Hdrop by (rewrite Hbuf, drop_app_le by lia; done).
  assert (length (M ++ data) / 64 = n + Datatypes.S k ∧ length (M ++ data) mod 64 = length data - i)%nat as [Hq Hr].
  { apply divmod64; [rewrite length_app|]; lia. }
  split; [done| | |done|].
  - by rewrite length_app, Nat2Z.inj_add.
  - rewrite Hq, blocks_add, Hdrop, (blocks_app n _ M data), <- Hst by lia. cbn [blocks].
    rewrite take_app_ge, drop_app_ge by (rewrite length_take; lia). by rewrite length_take, Nat.min_l by lia.
  - rewrite Hq, Hr, Hbuf'. replace (64 * (n + Datatypes.S k))%nat with (64 * n + (64 + 64 * k))%nat by lia.
    rewrite <- drop_drop, Hdrop, drop_app_ge by (rewrite length_take; lia).
    rewrite length_take, Nat.min_l by lia. f_equal. lia.
Qed.
End blocks.
