(* ===== verification/Sha1.v ===== *)
(** * Sha1: the digest of src/libwebsocket/private/sha1.cc

    [SHA1Transform] hashes one block with the message schedule kept in the 16
    words of the block itself and the five working variables renamed instead of
    moved; [SHA1Update] accepts the message in pieces; [SHA1Final] pads.  The
    reference is the algorithm of FIPS 180-4, section 6.1, on a whole message.
    The compiler and the host are those of the rest: [unsigned int] has 32 bits
    and the host is little-endian. *)

From S2P Require Import Prelude Endian Buffer BlockHash.
From Stdlib Require Import Btauto.
Import Endian Buffer.

Module Sha1.

(** ** Arithmetic of [unsigned int] *)

Definition add32 (x y : Z) : Z := u32 (x + y).
Definition rol (value bits : Z) : Z := Z.lor (u32 (Z.shiftl value bits)) (Z.shiftr value (32 - bits)).

(** ** SHA1Transform *)

Inductive reg : Type := a | b | c | d | e.

Record Vars : Type := mkVars { va : Z; vb : Z; vc : Z; vd : Z; ve : Z }.

Definition get (s : Vars) (r : reg) : Z :=
  match r with a => va s | b => vb s | c => vc s | d => vd s | e => ve s end.

Definition put (s : Vars) (r : reg) (x : Z) : Vars :=
  match r with
  | a => mkVars x (vb s) (vc s) (vd s) (ve s)
  | b => mkVars (va s) x (vc s) (vd s) (ve s)
  | c => mkVars (va s) (vb s) x (vd s) (ve s)
  | d => mkVars (va s) (vb s) (vc s) x (ve s)
  | e => mkVars (va s) (vb s) (vc s) (vd s) x
  end.

(** The words [block->l] of the union. *)
Definition word (l : list Z) (i : Z) : Z := nth (Z.to_nat i) l 0.
Definition set_word (l : list Z) (i x : Z) : list Z := <[Z.to_nat i := x]> l.

Definition blk0 (l : list Z) (i : Z) : Z * list Z :=
  let x := Z.lor (Z.land (rol (word l i) 24) 4278255360) (Z.land (rol (word l i) 8) 16711935) in
  (x, set_word l i x).

Definition blk (l : list Z) (i : Z) : Z * list Z :=
  let at_ k := word l (Z.land k 15) in
  let x := rol (Z.lxor (Z.lxor (Z.lxor (at_ (i + 13)) (at_ (i + 8))) (at_ (i + 2))) (at_ i)) 1 in
  (x, set_word l (Z.land i 15) x).

Inductive macro : Type := R0 | R1 | R2 | R3 | R4.

Definition mix (m : macro) (w x y : Z) : Z :=
  match m with
  | R0 | R1 => Z.lxor (Z.land w (Z.lxor x y)) y
  | R2 | R4 => Z.lxor (Z.lxor w x) y
  | R3 => Z.lor (Z.land (Z.lor w x) y) (Z.land w x)
  end.

Definition constant (m : macro) : Z :=
  match m with
  | R0 | R1 => 1518500249
  | R2 => 1859775393
  | R3 => 2400959708
  | R4 => 3395469782
  end.

(** One line of the unrolled loop: a macro with its arguments. *)
Record op_t : Type := op { op_m : macro; op_v : reg; op_w : reg; op_x : reg; op_y : reg; op_z : reg; op_i : Z }.

Definition run_op (st : Vars * list Z) (o : op_t) : Vars * list Z :=
  let '(s, l) := st in
  let '(m, l) := (match op_m o with R0 => blk0 | _ => blk end) l (op_i o) in
  let s := put s (op_z o)
             (add32 (get s (op_z o))
                (add32 (add32 (add32 (mix (op_m o) (get s (op_w o)) (get s (op_x o)) (get s (op_y o))) m)
                   (constant (op_m o))) (rol (get s (op_v o)) 5))) in
  (put s (op_w o) (rol (get s (op_w o)) 30), l).

Definition rounds : list op_t :=
  [
   op R0 a b c d e 0; op R0 e a b c d 1; op R0 d e a b c 2; op R0 c d e a b 3;
   op R0 b c d e a 4; op R0 a b c d e 5; op R0 e a b c d 6; op R0 d e a b c 7;
   op R0 c d e a b 8; op R0 b c d e a 9; op R0 a b c d e 10; op R0 e a b c d 11;
   op R0 d e a b c 12; op R0 c d e a b 13; op R0 b c d e a 14; op R0 a b c d e 15;
   op R1 e a b c d 16; op R1 d e a b c 17; op R1 c d e a b 18; op R1 b c d e a 19;
   op R2 a b c d e 20; op R2 e a b c d 21; op R2 d e a b c 22; op R2 c d e a b 23;
   op R2 b c d e a 24; op R2 a b c d e 25; op R2 e a b c d 26; op R2 d e a b c 27;
   op R2 c d e a b 28; op R2 b c d e a 29; op R2 a b c d e 30; op R2 e a b c d 31;
   op R2 d e a b c 32; op R2 c d e a b 33; op R2 b c d e a 34; op R2 a b c d e 35;
   op R2 e a b c d 36; op R2 d e a b c 37; op R2 c d e a b 38; op R2 b c d e a 39;
   op R3 a b c d e 40; op R3 e a b c d 41; op R3 d e a b c 42; op R3 c d e a b 43;
   op R3 b c d e a 44; op R3 a b c d e 45; op R3 e a b c d 46; op R3 d e a b c 47;
   op R3 c d e a b 48; op R3 b c d e a 49; op R3 a b c d e 50; op R3 e a b c d 51;
   op R3 d e a b c 52; op R3 c d e a b 53; op R3 b c d e a 54; op R3 a b c d e 55;
   op R3 e a b c d 56; op R3 d e a b c 57; op R3 c d e a b 58; op R3 b c d e a 59;
   op R4 a b c d e 60; op R4 e a b c d 61; op R4 d e a b c 62; op R4 c d e a b 63;
   op R4 b c d e a 64; op R4 a b c d e 65; op R4 e a b c d 66; op R4 d e a b c 67;
   op R4 c d e a b 68; op R4 b c d e a 69; op R4 a b c d e 70; op R4 e a b c d 71;
   op R4 d e a b c 72; op R4 c d e a b 73; op R4 b c d e a 74; op R4 a b c d e 75;
   op R4 e a b c d 76; op R4 d e a b c 77; op R4 c d e a b 78; op R4 b c d e a 79].

(** [memcpy] of 64 bytes into the union: sixteen little-endian words. *)
Fixpoint load_words (n : nat) (buffer : bytes) : list Z :=
  match n with
  | O => []
  | S n => le_combine (take 4 buffer) :: load_words n (drop 4 buffer)
  end.

Definition SHA1Transform (state : Vars) (buffer : bytes) : Vars :=
  let '(s, _) := fold_left run_op rounds (state, load_words 16 buffer) in
  mkVars (add32 (va state) (va s)) (add32 (vb state) (vb s)) (add32 (vc state) (vc s))
    (add32 (vd state) (vd s)) (add32 (ve state) (ve s)).

(** ** The context *)

Record SHA1_CTX : Type := mkCtx { count0 : Z; count1 : Z; state : Vars; buffer : bytes }.

(** [buf] is what the memory of the context holds before. *)
Definition SHA1Init (buf : bytes) : SHA1_CTX :=
  mkCtx 0 0 (mkVars 1732584193 4023233417 2562383102 271733878 3285377520) buf.

(** [SHA1Transform] reads 64 bytes at [&data[i]]. *)
Definition transform_at (st : Vars) (data : bytes) (i : Z) : outcome Vars :=
  in_bounds (i + 64 <=? zlen data) ;;
  Ret (SHA1Transform st (slice data i (i + 64))).

Fixpoint update_loop (fuel : nat) (st : Vars) (data : bytes) (i len : Z) : outcome (Vars * Z) :=
  if u32 (i + 63) <? len then
    match fuel with
    | O => Abort OutOfFuel
    | S fuel => st ← transform_at st data i; update_loop fuel st data (u32 (i + 64)) len
    end
  else Ret (st, i).

Definition SHA1Update (context : SHA1_CTX) (data : bytes) (len : Z) : outcome SHA1_CTX :=
  let j := count0 context in
  let c0 := u32 (j + u32 (Z.shiftl len 3)) in
  let c1 := if c0 <? j then u32 (count1 context + 1) else count1 context in
  let c1 := u32 (c1 + Z.shiftr len 29) in
  let j := Z.land (Z.shiftr j 3) 63 in
  '(j, i, st, buf) ←
    (if 63 <? u32 (j + len) then
       let i := u32 (64 - j) in
       buf ← memcpy (buffer context) j data 0 i;
       st ← transform_at (state context) buf 0;
       '(st, i) ← update_loop (Z.to_nat (len / 64)) st data i len;
       Ret (0, i, st, buf)
     else Ret (j, 0, state context, buffer context));
  buf ← memcpy buf j data i (u32 (len - i));
  Ret (mkCtx c0 c1 st buf).

(** ** SHA1Final *)

Definition finalcount (context : SHA1_CTX) : bytes :=
  (λ i, u8 (Z.land (Z.shiftr (if 4 <=? i then count0 context else count1 context)
                      ((3 - Z.land i 3) * 8)) 255)) <$> seqZ 0 8.

Fixpoint pad_loop (fuel : nat) (context : SHA1_CTX) : outcome SHA1_CTX :=
  if negb (Z.land (count0 context) 504 =? 448) then
    match fuel with
    | O => Abort OutOfFuel
    | S fuel => context ← SHA1Update context [0] 1; pad_loop fuel context
    end
  else Ret context.

Definition state_word (s : Vars) (i : Z) : Z :=
  nth (Z.to_nat i) [va s; vb s; vc s; vd s; ve s] 0.

Definition digest_bytes (s : Vars) : bytes :=
  (λ i, u8 (Z.land (Z.shiftr (state_word s (Z.shiftr i 2)) ((3 - Z.land i 3) * 8)) 255)) <$> seqZ 0 20.

(** Returns the digest and the wiped context. *)
Definition SHA1Final (context : SHA1_CTX) : outcome (bytes * SHA1_CTX) :=
  let fc := finalcount context in
  context ← SHA1Update context [128] 1;
  context ← pad_loop 64 context;
  context ← SHA1Update context fc 8;
  Ret (digest_bytes (state context), mkCtx 0 0 (mkVars 0 0 0 0 0) (replicate 64 0)).

(** A digest computed over pieces, as the test program at the end of the file
    does. *)
Fixpoint updates (context : SHA1_CTX) (pieces : list bytes) : outcome SHA1_CTX :=
  match pieces with
  | [] => Ret context
  | p :: pieces => context ← SHA1Update context p (zlen p); updates context pieces
  end.

Definition sha1 (buf : bytes) (pieces : list bytes) : outcome bytes :=
  context ← updates (SHA1Init buf) pieces;
  '(digest, _) ← SHA1Final context;
  Ret digest.

(** The first test vector of the file. *)
Example sha1_abc : sha1 (replicate 64 7) [str "a"; str "bc"] =
  Ret [169; 153; 62; 54; 71; 6; 129; 106; 186; 62; 37; 113; 120; 80; 194; 108; 156; 208; 216; 157].
Proof. vm_compute. reflexivity. Qed.

(** ** The reference: FIPS 180-4 *)

Definition ROTL (n x : Z) : Z := Z.lor (Z.shiftl x n mod 2 ^ 32) (Z.shiftr x (32 - n)).

Definition Ch (x y z : Z) : Z := Z.lxor (Z.land x y) (Z.land (Z.lnot x) z).
Definition Parity (x y z : Z) : Z := Z.lxor (Z.lxor x y) z.
Definition Maj (x y z : Z) : Z := Z.lxor (Z.lxor (Z.land x y) (Z.land x z)) (Z.land y z).

Definition f_t (t : nat) (x y z : Z) : Z :=
  if (t <? 20)%nat then Ch x y z
  else if (t <? 40)%nat then Parity x y z
  else if (t <? 60)%nat then Maj x y z
  else Parity x y z.

Definition K_t (t : nat) : Z :=
  if (t <? 20)%nat then 1518500249
  else if (t <? 40)%nat then 1859775393
  else if (t <? 60)%nat then 2400959708
  else 3395469782.

(** The words of a block are read in network order. *)
Definition be_value (l : bytes) : Z := le_combine (rev l).

Fixpoint be_words (n : nat) (block : bytes) : list Z :=
  match n with
  | O => []
  | S n => be_value (take 4 block) :: be_words n (drop 4 block)
  end.

(** The message schedule W_0 ... W_79. *)
Fixpoint expand (n : nat) (W : list Z) : list Z :=
  match n with
  | O => W
  | S n =>
      let back k := nth (length W - k) W 0 in
      expand n (W ++ [ROTL 1 (Z.lxor (Z.lxor (Z.lxor (back 3%nat) (back 8%nat)) (back 14%nat)) (back 16%nat))])
  end.

Definition schedule (block : bytes) : list Z := expand 64 (be_words 16 block).

Definition fips_round (W : list Z) (H : Vars) (t : nat) : Vars :=
  let T := (ROTL 5 (va H) + f_t t (vb H) (vc H) (vd H) + ve H + K_t t + nth t W 0) mod 2 ^ 32 in
  mkVars T (va H) (ROTL 30 (vb H)) (vc H) (vd H).

Definition fips_block (H : Vars) (block : bytes) : Vars :=
  let s := fold_left (fips_round (schedule block)) (seq 0 80) H in
  mkVars ((va H + va s) mod 2 ^ 32) ((vb H + vb s) mod 2 ^ 32) ((vc H + vc s) mod 2 ^ 32)
    ((vd H + vd s) mod 2 ^ 32) ((ve H + ve s) mod 2 ^ 32).

Definition fips_blocks : nat → Vars → bytes → Vars := blocks fips_block.

Definition fips_pad (m : bytes) : bytes :=
  m ++ [128] ++ replicate (Z.to_nat ((55 - zlen m) mod 64)) 0 ++ be_bytes 8 (8 * zlen m).

Definition H0 : Vars := mkVars 1732584193 4023233417 2562383102 271733878 3285377520.

Definition fips_sha1 (m : bytes) : bytes :=
  let p := fips_pad m in
  let H := fips_blocks (length p / 64) H0 p in
  be_bytes 4 (va H) ++ be_bytes 4 (vb H) ++ be_bytes 4 (vc H) ++ be_bytes 4 (vd H) ++ be_bytes 4 (ve H).

Example fips_abc : fips_sha1 (str "abc") =
  [169; 153; 62; 54; 71; 6; 129; 106; 186; 62; 37; 113; 120; 80; 194; 108; 156; 208; 216; 157].
Proof. vm_compute. reflexivity. Qed.

(** ** One block *)

Ltac bits :=
  apply Z.bits_inj'; intros k Hk; rewrite ?Z.lxor_spec, ?Z.lor_spec, ?Z.land_spec, ?Z.lxor_spec,
    ?Z.lor_spec, ?Z.land_spec, ?Z.lnot_spec by done;
  repeat match goal with |- context [Z.testbit ?x k] => destruct (Z.testbit x k) end; reflexivity.

Lemma mix_Ch w x y : Z.lxor (Z.land w (Z.lxor x y)) y = Ch w x y.
Proof. unfold Ch. bits. Qed.

Lemma mix_Maj w x y : Z.lor (Z.land (Z.lor w x) y) (Z.land w x) = Maj w x y.
Proof. unfold Maj. bits. Qed.

Lemma add32_idemp_l x y : add32 (x mod 2 ^ 32) y = (x + y) mod 2 ^ 32.
Proof. apply Zplus_mod_idemp_l. Qed.

Lemma add32_idemp_r x y : add32 x (y mod 2 ^ 32) = (x + y) mod 2 ^ 32.
Proof. apply Zplus_mod_idemp_r. Qed.

(** *** The swap of [blk0] *)

Lemma byte_high x k : is_byte x → 8 ≤ k → Z.testbit x k = false.
Proof.
  intros Hx Hk. rewrite <- (Z.mod_small x (2 ^ 8)) by exact Hx. by apply Z.mod_pow2_bits_high.
Qed.

(** The bit [k] of a term of shifts, [k] a number. *)
Ltac bit_at :=
  repeat match goal with
  | |- context [Z.testbit ?t ?k] =>
      first
        [ rewrite (Z.testbit_neg_r t k) by lia
        | rewrite (byte_high t k) by (assumption || lia)
        | lazymatch t with
          | Z.lor ?x ?y => rewrite (Z.lor_spec x y k)
          | Z.land ?x ?y => rewrite (Z.land_spec x y k)
          | ?x mod 2 ^ ?w => rewrite (Z.mod_pow2_bits_low x w k) by lia
          | Z.shiftr ?x ?n => rewrite (Z.shiftr_spec x n k) by lia
          | Z.shiftl ?x ?n => rewrite (Z.shiftl_spec x n k) by lia
          end ]
  end.

Ltac bit_norm :=
  repeat match goal with
  | |- context [Z.testbit ?t ?k] =>
      first
        [ is_var t; progress (let k' := eval vm_compute in k in change k with k')
        | let v := eval vm_compute in (Z.testbit t k) in
          lazymatch v with true => idtac | false => idtac end;
          change (Z.testbit t k) with v ]
  end.

Lemma swap_word b0 b1 b2 b3 : is_byte b0 → is_byte b1 → is_byte b2 → is_byte b3 →
  let x := le_combine [b0; b1; b2; b3] in
  Z.lor (Z.land (rol x 24) 4278255360) (Z.land (rol x 8) 16711935) = be_value [b0; b1; b2; b3].
Proof.
  intros H0 H1 H2 H3. cbn zeta. unfold be_value. cbn [rev app]. rewrite !le4_lor by done.
  apply Z.bits_inj'. intros k Hk. destruct (Z.lt_ge_cases k 32) as [Hlt|Hge].
  - unfold rol, u32.
    assert (∃ n, (n < 32)%nat ∧ k = Z.of_nat n) as (n & Hn & ->) by (exists (Z.to_nat k); lia).
    do 32 (destruct n as [|n]; [bit_at; bit_norm; btauto|]).
    lia.
  - assert (∀ m p, 0 ≤ m < 2 ^ 32 → Z.testbit (Z.land p m) k = false) as Hm.
    { intros m p Hm. rewrite Z.land_spec, <- (Z.mod_small m (2 ^ 32)), Z.mod_pow2_bits_high by lia.
      apply andb_false_r. }
    rewrite Z.lor_spec, !Hm by lia. rewrite !Z.lor_spec, !Z.shiftl_spec, !byte_high by (done || lia).
    reflexivity.
Qed.

End Sha1.
