(* ===== verification/Sha1Correct.v ===== *)
(** * Sha1Correct: sha1.cc computes the digest of FIPS 180-4

    The message schedule in place of the block, the renamed variables of the
    unrolled rounds, the message that arrives in pieces and the padding each get
    an invariant against the reference of Sha1. *)

From S2P Require Import Prelude Endian Buffer BlockHash Sha1.
Import Endian Buffer Sha1.

Module Sha1Correct.

(** *** The message schedule *)

Lemma length_expand n W : length (expand n W) = (length W + n)%nat.
Proof. revert W. induction n as [|n IH]; intros W; cbn [expand]; [lia|]. rewrite IH, length_app. cbn. lia. Qed.

Lemma expand_prefix n W t : (t < length W)%nat → nth t (expand n W) 0 = nth t W 0.
Proof.
  revert W. induction n as [|n IH]; intros W Ht; cbn [expand]; [done|].
  rewrite IH by (rewrite length_app; cbn; lia). by rewrite app_nth1.
Qed.

Definition next_word (W : list Z) (t : nat) : Z :=
  ROTL 1 (Z.lxor (Z.lxor (Z.lxor (nth (t - 3) W 0) (nth (t - 8) W 0)) (nth (t - 14) W 0)) (nth (t - 16) W 0)).

Lemma expand_step n W t : (16 ≤ length W ≤ t)%nat → (t < length W + n)%nat →
  nth t (expand n W) 0 = next_word (expand n W) t.
Proof.
  revert W. induction n as [|n IH]; intros W Ht Hn; [lia|]. cbn [expand].
  destruct (decide (t = length W)) as [->|].
  - unfold next_word. rewrite !expand_prefix by (rewrite length_app; cbn; lia).
    rewrite app_nth2, Nat.sub_diag by lia. rewrite !app_nth1 by lia. done.
  - apply IH; rewrite length_app; cbn; lia.
Qed.

Lemma length_be_words n block : length (be_words n block) = n.
Proof. revert block. induction n as [|n IH]; intros block; cbn; [done|]. by rewrite IH. Qed.

Lemma length_load_words n block : length (load_words n block) = n.
Proof. revert block. induction n as [|n IH]; intros block; cbn; [done|]. by rewrite IH. Qed.

Lemma schedule_start block t : (t < 16)%nat → nth t (schedule block) 0 = nth t (be_words 16 block) 0.
Proof. intros. apply (expand_prefix 64). by rewrite length_be_words. Qed.

Lemma schedule_step block t : (16 ≤ t < 80)%nat → nth t (schedule block) 0 = next_word (schedule block) t.
Proof. intros. apply (expand_step 64); rewrite length_be_words; lia. Qed.

(** [blk0] makes a word of the schedule from a word of the block. *)
Lemma swap_load n block t : Forall_byte block → length block = (4 * n)%nat → (t < n)%nat →
  let x := nth t (load_words n block) 0 in
  Z.lor (Z.land (rol x 24) 4278255360) (Z.land (rol x 8) 16711935) = nth t (be_words n block) 0.
Proof.
  revert block t. induction n as [|n IH]; intros block t Hb Hl Ht; [lia|].
  destruct block as [|b0 [|b1 [|b2 [|b3 block]]]]; cbn [length] in Hl; try lia.
  rewrite !Forall_cons in Hb. destruct Hb as (? & ? & ? & ? & ?).
  destruct t as [|t]; cbn [load_words be_words take drop nth].
  - by apply swap_word.
  - rewrite drop_0. apply IH; [done|lia|lia].
Qed.

#[local] Opaque schedule load_words be_words.

(** The block after [t] rounds holds the last 16 words of the schedule; words
    that were not used yet are as they were loaded. *)
Definition window (W raw l : list Z) (t : nat) : Prop :=
  length l = 16%nat ∧
  (∀ s, (s < t)%nat → (t ≤ s + 16)%nat → nth (s mod 16) l 0 = nth s W 0) ∧
  (∀ s, (t ≤ s < 16)%nat → nth s l 0 = nth s raw 0).

Lemma nth_insert (l : list Z) i j x : (i < length l)%nat →
  nth j (<[i := x]> l) 0 = if decide (i = j) then x else nth j l 0.
Proof.
  intros Hi. rewrite !nth_lookup. case_decide as Hj; [subst j; by rewrite list_lookup_insert_eq|].
  by rewrite list_lookup_insert_ne.
Qed.

Lemma land15 i : Z.to_nat (Z.land i 15) = Z.to_nat (i mod 16).
Proof. f_equal. by apply (Z.land_ones i 4). Qed.

Lemma land15_nat t : Z.to_nat (Z.land (Z.of_nat t) 15) = (t mod 16)%nat.
Proof. rewrite land15. change 16 with (Z.of_nat 16). by rewrite <- Nat2Z.inj_mod, Nat2Z.id. Qed.

Lemma word_at l t k : word l (Z.land (Z.of_nat t + Z.of_nat k) 15) = nth ((t + k) mod 16) l 0.
Proof. unfold word. by rewrite <- Nat2Z.inj_add, land15_nat. Qed.

Lemma window_next W raw l t x : window W raw l t → x = nth t W 0 →
  window W raw (<[t mod 16 := x]>%nat l) (S t).
Proof.
  intros (Hl & Hold & Hnew) ->. assert (t mod 16 < 16)%nat by (apply Nat.mod_upper_bound; lia).
  split; [by rewrite length_insert|]. split; intros s Hs; [intros Hs2|]; rewrite nth_insert by lia.
  - case_decide as E.
    + f_equal. pose proof (Nat.div_mod_eq s 16). pose proof (Nat.div_mod_eq t 16). lia.
    + apply Hold; [|lia]. destruct (decide (s = t)); [by subst|lia].
  - rewrite decide_False; [apply Hnew; lia|]. rewrite Nat.mod_small by lia. lia.
Qed.

Lemma blk0_window W raw l t : window W raw l t → (t < 16)%nat →
  Z.lor (Z.land (rol (nth t raw 0) 24) 4278255360) (Z.land (rol (nth t raw 0) 8) 16711935) = nth t W 0 →
  ∃ l', blk0 l (Z.of_nat t) = (nth t W 0, l') ∧ window W raw l' (S t).
Proof.
  intros Hw Ht HW. pose proof Hw as (_ & _ & Hnew). unfold blk0, word, set_word. rewrite Nat2Z.id, Hnew, HW by lia.
  eexists. split; [done|]. replace t with (t mod 16)%nat at 1 by (apply Nat.mod_small; lia). by apply window_next.
Qed.

Lemma blk_window W raw l t : window W raw l t → (16 ≤ t)%nat → nth t W 0 = next_word W t →
  ∃ l', blk l (Z.of_nat t) = (nth t W 0, l') ∧ window W raw l' (S t).
Proof.
  intros Hw Ht HW. pose proof Hw as (_ & Hold & _). unfold blk, set_word.
  cbv zeta. pose proof (word_at l t 13) as H13. pose proof (word_at l t 8) as H8. pose proof (word_at l t 2) as H2.
  change (Z.of_nat 13) with 13 in H13. change (Z.of_nat 8) with 8 in H8. change (Z.of_nat 2) with 2 in H2.
  rewrite H13, H8, H2.
  assert (word l (Z.land (Z.of_nat t) 15) = nth ((t + 0) mod 16) l 0) as ->.
  { rewrite <- word_at. by rewrite Z.add_0_r. }
  assert (∀ k, (k < 16)%nat → nth ((t + k) mod 16) l 0 = nth (t - (16 - k)) W 0) as Hk.
  { intros k Hk. replace (t + k)%nat with (t - (16 - k) + 1 * 16)%nat by lia.
    rewrite Nat.Div0.mod_add. apply Hold; lia. }
  rewrite land15_nat. rewrite !Hk by lia. cbn [Nat.sub]. rewrite HW.
  eexists. split; [reflexivity|]. by apply window_next.
Qed.

(** *** The renamed variables *)

Definition role (t k : nat) : reg := nth ((k + 4 * t) mod 5) [a; b; c; d; e] a.

Definition macro_of (t : nat) : macro :=
  if (t <? 16)%nat then R0 else if (t <? 20)%nat then R1 else if (t <? 40)%nat then R2
  else if (t <? 60)%nat then R3 else R4.

Definition op_at (t : nat) : op_t :=
  op (macro_of t) (role t 0) (role t 1) (role t 2) (role t 3) (role t 4) (Z.of_nat t).

Lemma rounds_eq : rounds = op_at <$> seq 0 80.
Proof. reflexivity. Qed.

(** The variables in the order they have in round [t]. *)
Definition turned (t : nat) (s : Vars) : Vars :=
  mkVars (get s (role t 0)) (get s (role t 1)) (get s (role t 2)) (get s (role t 3)) (get s (role t 4)).

Lemma role_mod t k : role t k = role (t mod 5) k.
Proof.
  unfold role. f_equal. rewrite (Nat.Div0.add_mod k (4 * t)), (Nat.Div0.mul_mod 4 t).
  rewrite (Nat.Div0.add_mod k (4 * (t mod 5))), (Nat.Div0.mul_mod 4 (t mod 5)).
  by rewrite Nat.Div0.mod_mod.
Qed.

Lemma role_succ t k : role (S t) k = role (S (t mod 5)) k.
Proof.
  rewrite (role_mod (S t)), (role_mod (S (t mod 5))). f_equal.
  replace (S t) with (t + 1)%nat by lia. replace (S (t mod 5)) with (t mod 5 + 1)%nat by lia.
  by rewrite Nat.Div0.add_mod_idemp_l.
Qed.

Lemma mix_f t x y z : mix (macro_of t) x y z = f_t t x y z.
Proof.
  unfold macro_of, f_t. destruct (Nat.ltb_spec t 16), (Nat.ltb_spec t 20); try lia; cbn [mix];
    rewrite ?mix_Ch; try done.
  destruct (Nat.ltb_spec t 40); [done|]. destruct (Nat.ltb_spec t 60); [|done]. apply mix_Maj.
Qed.

Lemma constant_K t : constant (macro_of t) = K_t t.
Proof.
  unfold macro_of, K_t. destruct (Nat.ltb_spec t 16), (Nat.ltb_spec t 20); try lia; try done.
  destruct (Nat.ltb_spec t 40); [done|]. by destruct (Nat.ltb_spec t 60).
Qed.

Lemma round_sum z f m k r : add32 z (add32 (add32 (add32 f m) k) r) = (r + f + z + k + m) mod 2 ^ 32.
Proof.
  unfold add32, u32. rewrite (Zplus_mod_idemp_l (f + m) k), (Zplus_mod_idemp_l (f + m + k) r), Zplus_mod_idemp_r.
  f_equal. lia.
Qed.

(** One line of the unrolled loop is one round of the reference. *)
Lemma run_op_round W s l l' t m :
  (match macro_of t with R0 => blk0 | _ => blk end) l (Z.of_nat t) = (m, l') → m = nth t W 0 →
  ∃ s', run_op (s, l) (op_at t) = (s', l') ∧ turned (S t) s' = fips_round W (turned t s) t.
Proof.
  intros Hm ->. unfold run_op, op_at. cbn [op_m op_v op_w op_x op_y op_z op_i]. rewrite Hm.
  eexists. split; [reflexivity|]. rewrite round_sum, mix_f, constant_K.
  unfold turned, fips_round. cbn [va vb vc vd ve]. rewrite !(role_succ t), !(role_mod t).
  assert (t mod 5 < 5)%nat as Hr by (apply Nat.mod_upper_bound; lia).
  destruct (t mod 5)%nat as [|[|[|[|[|r]]]]]; [reflexivity..|lia].
Qed.

Lemma rounds_schedule block : Forall_byte block → length block = 64%nat → ∀ t s, (t ≤ 80)%nat →
  ∃ s' l, fold_left run_op (op_at <$> seq 0 t) (s, load_words 16 block) = (s', l) ∧
    window (schedule block) (load_words 16 block) l t ∧
    turned t s' = fold_left (fips_round (schedule block)) (seq 0 t) s.
Proof.
  intros Hb Hl t s. induction t as [|t IH]; intros Ht.
  - exists s, (load_words 16 block). split; [done|]. split; [|by destruct s].
    split; [apply length_load_words|]. split; [lia|done].
  - destruct IH as (s1 & l1 & Hf & Hw & Hs); [lia|].
    rewrite seq_S, fmap_app, !fold_left_app, Hf, <- Hs. cbn [fold_left fmap list_fmap plus].
    assert (∃ l', (match macro_of t with R0 => blk0 | _ => blk end) l1 (Z.of_nat t) =
        (nth t (schedule block) 0, l') ∧ window (schedule block) (load_words 16 block) l' (S t))
      as (l' & Hm & Hw').
    { unfold macro_of. destruct (Nat.ltb_spec t 16).
      - apply blk0_window; [done|done|]. rewrite schedule_start by done. exact (swap_load 16 block t Hb Hl H).
      - assert (∃ l', blk l1 (Z.of_nat t) = (nth t (schedule block) 0, l') ∧
                  window (schedule block) (load_words 16 block) l' (S t)) as Hex.
        { apply blk_window; [done|done|]. apply schedule_step; lia. }
        by repeat case_match. }
    destruct (run_op_round (schedule block) s1 l1 l' t _ Hm) as (s2 & Hr & Hs2); [done|].
    by exists s2, l'.
Qed.

(** [SHA1Transform] is the block function of the reference. *)
Lemma transform_block H block : Forall_byte block → length block = 64%nat →
  SHA1Transform H block = fips_block H block.
Proof.
  intros Hb Hl. unfold SHA1Transform, fips_block. rewrite rounds_eq.
  destruct (rounds_schedule block Hb Hl 80 H) as (s & l & -> & _ & <-); [done|]. reflexivity.
Qed.

(** *** Messages in pieces *)

(** The context after the message [M] has arrived. *)
Definition ctx_ok (M : bytes) (c : SHA1_CTX) : Prop :=
  hash_ok fips_block H0 M (count0 c) (count1 c) (state c) (buffer c).

Lemma update_loop_blocks fuel : ∀ st data i k,
  Forall_byte data → zlen data + 64 ≤ 2 ^ 32 → 0 ≤ i ≤ zlen data →
  Z.of_nat k = (zlen data - i) / 64 → (k ≤ fuel)%nat →
  update_loop fuel st data i (zlen data) =
    Ret (fips_blocks k st (drop (Z.to_nat i) data), i + 64 * Z.of_nat k).
Proof.
  unfold fips_blocks. induction fuel as [|fuel IH]; intros st data i k Hb Hlen Hi Hk Hf.
  - assert (k = 0%nat) as -> by lia. cbn [update_loop blocks]. unfold u32.
    rewrite Z.mod_small by lia. rewrite (proj2 (Z.ltb_ge _ _)) by dlia. do 2 f_equal. lia.
  - cbn [update_loop]. unfold u32 at 1. rewrite Z.mod_small by lia. destruct k as [|k].
    + rewrite (proj2 (Z.ltb_ge _ _)) by dlia. cbn [blocks]. do 2 f_equal. lia.
    + assert (i + 64 ≤ zlen data) as Hi2 by dlia. rewrite (proj2 (Z.ltb_lt _ _)) by lia.
      unfold transform_at. orun. rewrite transform_block; [|by apply slice_bytes|].
      2:{ unfold slice, ztake, zdrop. rewrite length_take, length_drop. lia. }
      unfold u32. rewrite Z.mod_small by lia.
      rewrite (IH _ _ _ k) by (done || lia || dlia). cbn [blocks].
      do 2 f_equal; [|lia]. f_equal; [|rewrite drop_drop; f_equal; lia].
      unfold slice, ztake, zdrop. f_equal. do 2 f_equal. lia.
Qed.

(** The pieces of a message are joined: after [SHA1Update] the context is that
    of the longer message. *)
Lemma SHA1Update_ok M c data : ctx_ok M c → Forall_byte M → Forall_byte data → zlen data + 64 ≤ 2 ^ 32 →
  ∃ c', SHA1Update c data (zlen data) = Ret c' ∧ ctx_ok (M ++ data) c'.
Proof.
  intros Hok HM Hd Hlen. unfold SHA1Update. rewrite (hash_fill _ _ _ _ _ _ _ Hok).
  pose proof Hok as [[Hr0 Hr1] Hc Hst Hl Hbuf].
  destruct (count_words (zlen M) (count0 c) (count1 c) (zlen data)) as [[Hrange0 Hrange1] [_ Hcount]]; [done..|lia|].
  specialize (Hrange1 (u32 (count0 c + u32 (Z.shiftl (zlen data) 3)) <? count0 c)).
  pose proof (Nat.mod_upper_bound (length M) 64) as Hj. set (j := (length M mod 64)%nat) in *.
  rewrite (u32_small (Z.of_nat j + zlen data)) by lia.
  destruct (Z.ltb_spec 63 (Z.of_nat j + zlen data)) as [Hbig|Hsmall].
  - rewrite (u32_small (64 - Z.of_nat j)) by lia.
    destruct (memcpy_ok (buffer c) (Z.of_nat j) data 0 (64 - Z.of_nat j)) as (buf & -> & Hl1 & Ht1); [lia..|].
    rewrite bind_ret. replace (Z.to_nat (Z.of_nat j + (64 - Z.of_nat j))) with 64%nat in Ht1 by lia.
    rewrite take_ge, Nat2Z.id, drop_0 in Ht1 by lia.
    assert (Forall_byte buf) as Hbb.
    { rewrite Ht1, Hbuf. apply Forall_app. split; [by apply Forall_drop|by apply Forall_take]. }
    unfold transform_at. rewrite in_bounds_true by bool_side. rewrite !bind_ret.
    unfold slice at 1. change (zdrop 0 buf) with buf. rewrite ztake_all by lia.
    rewrite transform_block by (done || lia). set (k := Z.to_nat ((zlen data - (64 - Z.of_nat j)) / 64)).
    rewrite (update_loop_blocks _ _ _ _ k) by (done || lia || (unfold k; dlia)).
    rewrite !bind_ret. cbn beta iota. set (i := 64 - Z.of_nat j + 64 * Z.of_nat k).
    assert (0 ≤ i ≤ zlen data ∧ zlen data - i < 64) as Hi by (unfold i, k; dlia).
    rewrite (u32_small (zlen data - i)) by lia.
    destruct (memcpy_ok buf 0 data i (zlen data - i)) as (buf' & -> & Hl3 & Ht3); [lia..|].
    rewrite bind_ret. eexists. split; [reflexivity|]. unfold ctx_ok. cbn [count0 count1 state buffer].
    rewrite Ht1. replace (Z.to_nat (64 - Z.of_nat j)) with (64 - j)%nat by lia.
    eapply (hash_big fips_block H0 M _ _ _ _ data k (Z.to_nat i)); [done|unfold i; lia|lia|done|done|lia|].
    rewrite Z.add_0_l, take_0 in Ht3. replace (length data - Z.to_nat i)%nat with (Z.to_nat (zlen data - i)) by lia.
    rewrite Ht3. cbn [app]. apply take_ge. rewrite length_drop. lia.
  - rewrite bind_ret. cbn beta iota. rewrite (u32_small (zlen data - 0)) by lia.
    destruct (memcpy_ok (buffer c) (Z.of_nat j) data 0 (zlen data - 0)) as (buf & -> & Hl1 & Ht1); [lia..|].
    rewrite bind_ret. eexists. split; [reflexivity|]. unfold ctx_ok. cbn [count0 count1 state buffer].
    eapply (hash_small fips_block H0 M); [done|lia|done|done|lia|]. fold j.
    replace (j + length data)%nat with (Z.to_nat (Z.of_nat j + (zlen data - 0))) by lia.
    rewrite Ht1, Nat2Z.id, drop_0. f_equal. apply take_ge. lia.
Qed.

(** *** Padding and output *)

Lemma update_byte M c x : ctx_ok M c → Forall_byte M → is_byte x →
  ∃ c', SHA1Update c [x] 1 = Ret c' ∧ ctx_ok (M ++ [x]) c' ∧ Forall_byte (M ++ [x]).
Proof.
  intros Hok HM Hx. destruct (SHA1Update_ok M c [x]) as (c' & Hu & Hok'); [done|done|by constructor|done|].
  exists c'. split_and!; [exact Hu|done|]. apply Forall_app. split; [done|by constructor].
Qed.

Lemma pad_test M c : ctx_ok M c →
  (Z.land (count0 c) 504 =? 448) = (length M mod 64 =? 56)%nat.
Proof.
  intros Hok. pose proof (hash_fill _ _ _ _ _ _ _ Hok) as Hf. pose proof Hok as [[H1 H2] Hc _ _ _].
  set (y := Z.shiftr (count0 c) 3) in *.
  assert (count0 c = Z.shiftl y 3) as ->.
  { unfold y. rewrite Z.shiftl_mul_pow2, Z.shiftr_div_pow2 by lia. dlia. }
  change 504 with (Z.shiftl 63 3). rewrite <- Z.shiftl_land, Hf, Z.shiftl_mul_pow2 by lia.
  change (2 ^ 3) with 8. destruct (Nat.eqb_spec (length M mod 64) 56) as [->|Hne]; [done|].
  apply Z.eqb_neq. lia.
Qed.

Lemma pad_loop_ok fuel : ∀ M c, ctx_ok M c → Forall_byte M → ((56 - zlen M) mod 64 ≤ Z.of_nat fuel) →
  ∃ c', pad_loop fuel c = Ret c' ∧ ctx_ok (M ++ replicate (Z.to_nat ((56 - zlen M) mod 64)) 0) c'.
Proof.
  induction fuel as [|fuel IH]; intros M c Hok HM Hf; cbn [pad_loop]; rewrite (pad_test M c Hok).
  all: destruct (Nat.eqb_spec (length M mod 64) 56) as [E|E]; cbn [negb].
  1,3: exists c; split; [done|]; replace ((56 - zlen M) mod 64) with 0;
    [by rewrite app_nil_r|pose proof (Nat2Z.inj_mod (length M) 64); dlia].
  - exfalso. apply E. pose proof (Nat2Z.inj_mod (length M) 64). dlia.
  - assert ((56 - zlen M) mod 64 ≠ 0) as Hne.
    { intros E2. apply E. pose proof (Nat2Z.inj_mod (length M) 64). dlia. }
    destruct (update_byte M c 0) as (c1 & -> & Hok1 & HM1); [done..|].
    rewrite bind_ret. assert ((56 - zlen (M ++ [0])) mod 64 = (56 - zlen M) mod 64 - 1) as Hstep.
    { rewrite length_app, Nat2Z.inj_add. cbn [length]. dlia. }
    destruct (IH (M ++ [0]) c1) as (c2 & -> & Hok2); [done|done|rewrite Hstep; lia|].
    exists c2. split; [done|]. rewrite Hstep, <- app_assoc in Hok2. cbn [app] in Hok2.
    replace (Z.to_nat ((56 - zlen M) mod 64)) with (S (Z.to_nat ((56 - zlen M) mod 64 - 1))); [done|].
    assert (0 ≤ (56 - zlen M) mod 64) by (apply Z.mod_pos_bound; lia). lia.
Qed.

Lemma byte_of z n : 0 ≤ n → u8 (Z.land (Z.shiftr z (n * 8)) 255) = (z / 2 ^ (n * 8)) mod 256.
Proof.
  intros Hn. rewrite (Z.land_ones _ 8), Z.shiftr_div_pow2 by lia. unfold u8. apply Z.mod_mod. lia.
Qed.

Ltac norm_shifts :=
  repeat match goal with
  | |- context [2 ^ ((3 - Z.land ?i 3) * 8)] =>
      let v := eval vm_compute in (2 ^ ((3 - Z.land i 3) * 8)) in
      change (2 ^ ((3 - Z.land i 3) * 8)) with v
  end.

Lemma finalcount_bytes M c : ctx_ok M c → zlen M < 2 ^ 61 → finalcount c = be_bytes 8 (8 * zlen M).
Proof.
  intros [[H1 H2] Hc _ _ _] HM. rewrite Z.mod_small in Hc by lia.
  unfold finalcount. change (seqZ 0 8) with [0; 1; 2; 3; 4; 5; 6; 7]. cbn [fmap list_fmap].
  rewrite !byte_of by done. rewrite <- Hc. unfold be_bytes. cbn [le_split rev app Z.leb Z.compare Pos.compare Pos.compare_cont].
  rewrite !Z.div_div by lia. norm_shifts. repeat (apply f_equal2; [dlia|]). reflexivity.
Qed.

Lemma digest_words s : digest_bytes s =
  be_bytes 4 (va s) ++ be_bytes 4 (vb s) ++ be_bytes 4 (vc s) ++ be_bytes 4 (vd s) ++ be_bytes 4 (ve s).
Proof.
  unfold digest_bytes.
  change (seqZ 0 20) with [0; 1; 2; 3; 4; 5; 6; 7; 8; 9; 10; 11; 12; 13; 14; 15; 16; 17; 18; 19].
  cbn [fmap list_fmap]. rewrite !byte_of by done. unfold be_bytes. cbn [le_split rev app].
  rewrite !Z.div_div by lia. norm_shifts. rewrite !Z.div_1_r. reflexivity.
Qed.

(** *** The digest *)

Definition piece_ok (p : bytes) : Prop := Forall_byte p ∧ zlen p + 64 ≤ 2 ^ 32.

Lemma init_ok buf : length buf = 64%nat → ctx_ok [] (SHA1Init buf).
Proof. apply hash_init. Qed.

Lemma updates_ok pieces : ∀ M c, ctx_ok M c → Forall_byte M → Forall piece_ok pieces →
  ∃ c', updates c pieces = Ret c' ∧ ctx_ok (M ++ concat pieces) c' ∧ Forall_byte (M ++ concat pieces).
Proof.
  induction pieces as [|p pieces IH]; intros M c Hok HM Hp; cbn [updates concat].
  - exists c. by rewrite app_nil_r.
  - apply Forall_cons in Hp as [[Hpb Hpl] Hps].
    destruct (SHA1Update_ok M c p Hok HM Hpb Hpl) as (c1 & -> & Hok1). rewrite bind_ret, app_assoc.
    apply IH; [done| |done]. by apply Forall_app.
Qed.

Lemma final_ok M c : ctx_ok M c → Forall_byte M → zlen M < 2 ^ 61 →
  ∃ c', SHA1Final c = Ret (fips_sha1 M, c').
Proof.
  intros Hok HM Hlen. unfold SHA1Final. rewrite (finalcount_bytes M c Hok Hlen).
  destruct (update_byte M c 128) as (c1 & -> & Hok1 & HM1); [done..|].
  rewrite bind_ret. destruct (pad_loop_ok 64 _ c1 Hok1 HM1) as (c2 & -> & Hok2).
  { pose proof (Z.mod_pos_bound (56 - zlen (M ++ [128])) 64). lia. }
  rewrite bind_ret. pose proof (SHA1Update_ok _ c2 (be_bytes 8 (8 * zlen M)) Hok2) as Hu.
  rewrite length_be_bytes in Hu. change (Z.of_nat 8) with 8 in Hu.
  destruct Hu as (c3 & -> & Hok3); [|apply be_bytes_bytes|done|].
  { apply Forall_app. split; [done|]. by apply Forall_replicate. }
  rewrite bind_ret. eexists. do 2 f_equal. rewrite digest_words, (ok_state _ _ _ _ _ _ _ Hok3). unfold fips_sha1.
  replace (((M ++ [128]) ++ replicate (Z.to_nat ((56 - zlen (M ++ [128])) mod 64)) 0) ++ be_bytes 8 (8 * zlen M))
    with (fips_pad M); [done|].
  unfold fips_pad. rewrite <- !app_assoc. do 3 f_equal. f_equal. f_equal. rewrite length_app, Nat2Z.inj_add.
  cbn [length]. f_equal. lia.
Qed.

(** C9: A digest computed over pieces of less than 2^32 - 64 bytes each is the
    digest FIPS 180-4 defines for the whole message, whatever the context held
    before; no access is out of range. *)
Theorem sha1_is_fips buf pieces :
  length buf = 64%nat → Forall piece_ok pieces → zlen (concat pieces) < 2 ^ 61 →
  sha1 buf pieces = Ret (fips_sha1 (concat pieces)).
Proof.
  intros Hb Hp Hl. unfold sha1.
  destruct (updates_ok pieces [] (SHA1Init buf)) as (c & -> & Hok & Hby); [by apply init_ok|done|done|].
  rewrite bind_ret. by destruct (final_ok _ c Hok Hby Hl) as (c' & ->).
Qed.

Lemma sha1_is_fips_witness :
  sha1 (replicate 64 0) [str "abcdbcdecdefdefgefgh"; []; str "fghighijhijkijkljklmklmnlmnomnopnopq"] =
    Ret [132; 152; 62; 68; 28; 59; 210; 110; 186; 174; 74; 161; 249; 81; 41; 229; 229; 70; 112; 241].
Proof.
  rewrite sha1_is_fips.
  - vm_compute. reflexivity.
  - reflexivity.
  - repeat constructor; vm_compute; congruence.
  - vm_compute. reflexivity.
Defined.

End Sha1Correct.
