(* ===== verification/PollPoller.v ===== *)
(** * PollPoller: the poller on poll(2) (src/muduo-vip/muduo/net/poller/PollPoller.cc)

    The channels of a loop are shared objects: the poller keeps their addresses
    and writes to them, so the operations pass the store of all channels.  The
    events given to poll(2) are compared with those the epoll poller of [Channel]
    has registered. *)

From S2P Require Import Prelude Channel.
Import Channel.

Module PollPoller.

Record pollfd : Type := mkPollfd { pfd_fd : Z; pfd_events : Z; pfd_revents : Z }.

Record PollPoller : Type := mkPP { fd_map : gmap Z Z; pollfds_ : list pollfd }.

Definition PollPoller_ctor : PollPoller := mkPP ∅ [].

(** [channels_.find(fd) != end()], [channels_[fd] == channel]. *)
Definition has_fd (p : PollPoller) (c : Channel) : bool :=
  match fd_map p !! fd_ c with Some _ => true | None => false end.
Definition holds (p : PollPoller) (c : Channel) : bool :=
  match fd_map p !! fd_ c with Some q => q =? ptr c | None => false end.

Definition valid_index (p : PollPoller) (idx : Z) : bool := (0 <=? idx) && (idx <? s32 (zlen (pollfds_ p))).

(** [pollfds_[idx]] after its index was checked. *)
Definition pollfd_at (p : PollPoller) (idx : Z) : outcome pollfd :=
  match pollfds_ p !! Z.to_nat idx with Some pfd => Ret pfd | None => Abort OutOfBounds end.

Definition updateChannel (p : PollPoller) (c : Channel) : outcome (PollPoller * Channel) :=
  if index_ c <? 0 then
    assert (negb (has_fd p c)) ;;
    let pfd := mkPollfd (fd_ c) (s16 (events_ c)) 0 in
    let l := pollfds_ p ++ [pfd] in
    let idx := s32 (zlen l) - 1 in
    Ret (mkPP (<[fd_ c := ptr c]> (fd_map p)) l, set_index c idx)
  else
    assert (has_fd p c) ;;
    assert (holds p c) ;;
    let idx := index_ c in
    assert (valid_index p idx) ;;
    pfd ← pollfd_at p idx;
    assert ((pfd_fd pfd =? fd_ c) || (pfd_fd pfd =? - fd_ c - 1)) ;;
    let fd := if isNoneEvent c then - fd_ c - 1 else fd_ c in
    Ret (mkPP (fd_map p) (<[Z.to_nat idx := mkPollfd fd (s16 (events_ c)) 0]> (pollfds_ p)), c).

(** [channels_[fd]->set_index(idx)]: a missing entry is a null pointer. *)
Definition set_index_of (m : gmap Z Z) (cs : gmap Z Channel) (fd idx : Z) : outcome (gmap Z Channel) :=
  match m !! fd ≫= λ i, (i,.) <$> cs !! i with
  | Some (i, c) => Ret (<[i := set_index c idx]> cs)
  | None => Abort NullPointer
  end.

Definition removeChannel (p : PollPoller) (cs : gmap Z Channel) (c : Channel) :
    outcome (PollPoller * gmap Z Channel) :=
  assert (has_fd p c) ;;
  assert (holds p c) ;;
  assert (isNoneEvent c) ;;
  let idx := index_ c in
  assert (valid_index p idx) ;;
  pfd ← pollfd_at p idx;
  assert ((pfd_fd pfd =? - fd_ c - 1) && (pfd_events pfd =? events_ c)) ;;
  let m := delete (fd_ c) (fd_map p) in
  if u64 idx =? u64 (zlen (pollfds_ p) - 1) then
    Ret (mkPP m (removelast (pollfds_ p)), cs)
  else
    last ← pollfd_at p (zlen (pollfds_ p) - 1);
    let channelAtEnd := pfd_fd last in
    let l := <[Z.to_nat (zlen (pollfds_ p) - 1) := pfd]> (<[Z.to_nat idx := last]> (pollfds_ p)) in
    let channelAtEnd := if channelAtEnd <? 0 then - channelAtEnd - 1 else channelAtEnd in
    cs ← set_index_of m cs channelAtEnd idx;
    Ret (mkPP m (removelast l), cs).

(** ** Requests of the channels' owners

    After [remove] the owner deletes the channel, as all of muduo's do. *)
Definition with_events (c : Channel) (o : channel_op) : Channel :=
  match o with
  | OpEnableReading et => set_events c (Z.lor (events_ c) (readEvent et))
  | OpDisableReading et => set_events c (clear_bits (events_ c) (readEvent et))
  | OpEnableWriting et => set_events c (Z.lor (events_ c) (writeEvent et))
  | OpDisableWriting et => set_events c (clear_bits (events_ c) (writeEvent et))
  | OpDisableAll => set_events c kNoneEvent
  | OpRemove _ => c
  end.

Definition poll_request (p : PollPoller) (cs : gmap Z Channel) (i : Z) (o : channel_op) :
    outcome (PollPoller * gmap Z Channel) :=
  match cs !! i with
  | None => Abort NullPointer
  | Some c =>
      match o with
      | OpRemove eh =>
          assert (isNoneEvent c) ;;
          assert (may_remove eh c) ;;
          '(p, cs) ← removeChannel p (<[i := set_added c false]> cs) (set_added c false);
          Ret (p, delete i cs)
      | _ =>
          '(p, c) ← updateChannel p (set_added (with_events c o) true);
          Ret (p, <[i := c]> cs)
      end
  end.

Fixpoint poll_requests (p : PollPoller) (cs : gmap Z Channel) (os : list (Z * channel_op)) :
    outcome (PollPoller * gmap Z Channel) :=
  match os with
  | [] => Ret (p, cs)
  | (i, o) :: os => '(p, cs) ← poll_request p cs i o; poll_requests p cs os
  end.

(** ** fillActiveChannels *)

(** poll(2) has stored [revents] in the entries. *)
Fixpoint fillActiveChannels (m : gmap Z Z) (pfds : list pollfd) (cs : gmap Z Channel) (numEvents : Z)
    (activeChannels : list Z) : outcome (list Z * gmap Z Channel) :=
  match pfds with
  | pfd :: pfds =>
      if 0 <? numEvents then
        if 0 <? pfd_revents pfd then
          match m !! pfd_fd pfd ≫= λ i, (i,.) <$> cs !! i with
          | None => Abort AssertFailed
          | Some (i, c) =>
              assert (fd_ c =? pfd_fd pfd) ;;
              fillActiveChannels m pfds (<[i := set_revents c (pfd_revents pfd)]> cs) (numEvents - 1)
                (activeChannels ++ [i])
          end
        else fillActiveChannels m pfds cs numEvents activeChannels
      else Ret (activeChannels, cs)
  | [] => Ret (activeChannels, cs)
  end.

(** ** The invariant

    [ow] lists the channels that own the entries of [pollfds_], in their order:
    the index of a channel is its position. *)
Definition pfd_ok (c : Channel) (pfd : pollfd) : Prop :=
  pfd_events pfd = s16 (events_ c) ∧
  (pfd_fd pfd = fd_ c ∨ (pfd_fd pfd = - fd_ c - 1 ∧ events_ c = 0)).

Record pp_inv (ow : list Z) (p : PollPoller) (cs : gmap Z Channel) : Prop := PpInv {
  pp_length : length ow = length (pollfds_ p);
  pp_own : ∀ k i, ow !! k = Some i ↔ ∃ c, cs !! i = Some c ∧ index_ c = Z.of_nat k;
  pp_chan : ∀ i c, cs !! i = Some c → ptr c = i ∧ 0 ≤ fd_ c ∧ -1 ≤ index_ c ∧
    fd_map p !! fd_ c = if index_ c <? 0 then None else Some i;
  pp_slot : ∀ i c pfd, cs !! i = Some c → 0 ≤ index_ c →
    pollfds_ p !! Z.to_nat (index_ c) = Some pfd → pfd_ok c pfd;
  pp_fds : ∀ i j c d, cs !! i = Some c → cs !! j = Some d → fd_ c = fd_ d → i = j;
}.

Definition few (cs : gmap Z Channel) : Prop := Z.of_nat (size cs) < 2 ^ 31 - 1.

Lemma owners_nodup ow p cs : pp_inv ow p cs → NoDup ow.
Proof.
  intros [_ Hown _ _ _]. apply NoDup_alt. intros k k' i Hk Hk'.
  apply Hown in Hk as (c & Hc & Ek), Hk' as (c' & Hc' & Ek'). simplify_eq. lia.
Qed.

Lemma owners_few ow p cs : pp_inv ow p cs → (length ow ≤ size cs)%nat.
Proof.
  intros Hinv. pose proof (owners_nodup _ _ _ Hinv) as Hnd. destruct Hinv as [_ Hown _ _ _].
  rewrite <- (size_dom (D := gset Z)), <- (size_list_to_set (C := gset Z) ow Hnd).
  apply subseteq_size. intros i Hi. apply elem_of_list_to_set, list_elem_of_lookup in Hi as [k Hk].
  apply Hown in Hk as (c & Hc & _). by apply elem_of_dom_2 in Hc.
Qed.

(** A registered channel owns an entry. *)
Lemma pp_entry ow p cs i c : pp_inv ow p cs → few cs → cs !! i = Some c → 0 ≤ index_ c →
  ∃ pfd, pollfds_ p !! Z.to_nat (index_ c) = Some pfd ∧ pfd_ok c pfd ∧ valid_index p (index_ c) = true ∧
    zlen (pollfds_ p) < 2 ^ 31.
Proof.
  intros Hinv Hfew Hi Hidx. pose proof (owners_few _ _ _ Hinv) as Hle. pose proof Hinv as [Hl Hown _ Hslot _].
  assert (ow !! Z.to_nat (index_ c) = Some i) as Ho by (apply Hown; exists c; split; [done|lia]).
  apply lookup_lt_Some in Ho. rewrite Hl in Ho, Hle.
  destruct (lookup_lt_is_Some_2 (pollfds_ p) (Z.to_nat (index_ c))) as [pfd Hpfd]; [done|].
  unfold few in Hfew. assert (s32 (zlen (pollfds_ p)) = zlen (pollfds_ p)) as Hs by (apply sint_small; lia).
  exists pfd. split_and!; [done|by eapply Hslot| |lia].
  unfold valid_index. rewrite Hs. bool_side.
Qed.

Lemma holds_self ow p cs i c c0 : pp_inv ow p cs → cs !! i = Some c0 → 0 ≤ index_ c0 →
  ptr c = ptr c0 → fd_ c = fd_ c0 → has_fd p c = true ∧ holds p c = true.
Proof.
  intros [_ _ Hch _ _] Hi Hidx Hp Hf. destruct (Hch i c0 Hi) as (Hpi & _ & _ & Hm).
  rewrite (proj2 (Z.ltb_ge _ _)) in Hm by done. unfold has_fd, holds. rewrite Hf, Hm, Hp, Hpi.
  by rewrite Z.eqb_refl.
Qed.

Lemma few_insert (cs : gmap Z Channel) i (c c0 : Channel) : cs !! i = Some c0 → few cs → few (<[i := c]> cs).
Proof. intros Hi. unfold few. by rewrite map_size_insert_Some by eauto. Qed.

Lemma few_delete (cs : gmap Z Channel) i : few cs → few (delete i cs).
Proof. unfold few. rewrite map_size_delete. destruct (cs !! i); cbn [id pred]; lia. Qed.

Lemma fds_insert (cs : gmap Z Channel) i (c0 c' : Channel) :
  (∀ i j c d, cs !! i = Some c → cs !! j = Some d → fd_ c = fd_ d → i = j) →
  cs !! i = Some c0 → fd_ c' = fd_ c0 →
  ∀ j k d e, <[i := c']> cs !! j = Some d → <[i := c']> cs !! k = Some e → fd_ d = fd_ e → j = k.
Proof.
  intros Hfd Hi Hf j k d e [[<- <-]|[Hj Hd]]%lookup_insert_Some [[<- <-]|[Hk He]]%lookup_insert_Some E.
  - done.
  - apply (Hfd i k c0 e); congruence.
  - apply (Hfd j i d c0); congruence.
  - by apply (Hfd j k d e).
Qed.

Lemma pp_inv_same ow p cs i c c' : pp_inv ow p cs → cs !! i = Some c → ptr c' = ptr c → fd_ c' = fd_ c →
  index_ c' = index_ c → events_ c' = events_ c → pp_inv ow p (<[i := c']> cs).
Proof.
  intros [Hl Hown Hch Hslot Hfd] Hi Hp Hf Hx He. split; [done|..].
  - intros k j. rewrite Hown. split; intros (d & Hd & Ed).
    + destruct (decide (i = j)) as [->|Hne]; [exists c'|exists d; by rewrite lookup_insert_ne].
      rewrite lookup_insert_eq. simplify_eq. split; [done|lia].
    + apply lookup_insert_Some in Hd as [[<- <-]|[_ Hd]]; [exists c; split; [done|lia]|by exists d].
  - intros j d [[<- <-]|[_ Hd]]%lookup_insert_Some; [|by apply Hch]. rewrite Hp, Hf, Hx. by apply Hch.
  - intros j d pfd [[<- <-]|[_ Hd]]%lookup_insert_Some; [|by apply (Hslot j)]. rewrite Hx. intros H1 H2.
    unfold pfd_ok. rewrite Hf, He. by apply (Hslot i).
  - by apply (fds_insert cs i c).
Qed.

(** A new channel is appended. *)
Lemma update_new ow p cs i c0 c :
  pp_inv ow p cs → few cs → cs !! i = Some c0 → same_slot c0 c → index_ c < 0 →
  ∃ p' c', updateChannel p c = Ret (p', c') ∧ pp_inv (ow ++ [i]) p' (<[i := c']> cs) ∧
    c' = set_index c (index_ c') ∧ 0 ≤ index_ c'.
Proof.
  intros Hinv Hfew Hi (Hp & Hf & Hx) Hneg. pose proof Hinv as [Hl Hown Hch Hslot Hfd].
  destruct (Hch i c0 Hi) as (Hpi & Hfd0 & Hidx & Hm).
  rewrite (proj2 (Z.ltb_lt _ _)) in Hm by lia.
  unfold updateChannel, has_fd. rewrite (proj2 (Z.ltb_lt _ _)) by done. rewrite Hf, Hm. orun.
  pose proof (owners_few _ _ _ Hinv) as Hle. unfold few in Hfew. rewrite Hl in Hle.
  assert (s32 (zlen (pollfds_ p ++ [mkPollfd (fd_ c0) (s16 (events_ c)) 0])) - 1 = zlen ow) as ->.
  { rewrite length_app. cbn [length]. unfold s32. rewrite sint_small; lia. }
  eexists _, _. split; [reflexivity|]. cbn [index_ set_index]. split; [|split; [done|lia]].
  split; cbn [pollfds_ fd_map].
  - rewrite !length_app. cbn. lia.
  - intros k j. rewrite lookup_snoc_Some. split.
    + intros [[Hk Hj]|[-> ->]].
      * apply Hown in Hj as (d & Hd & Ed). destruct (decide (i = j)) as [->|Hne]; [simplify_eq; lia|].
        exists d. by rewrite lookup_insert_ne.
      * exists (set_index c (zlen ow)). rewrite lookup_insert_eq. split; [done|]. cbn. lia.
    + intros (d & [[<- <-]|[Hne Hd]]%lookup_insert_Some & Ed); [cbn in Ed; right; split; [lia|done]|].
      left. assert (ow !! k = Some j) as Hk by (apply Hown; eauto). split; [|done]. by apply lookup_lt_Some in Hk.
  - intros j d [[<- <-]|[Hne Hd]]%lookup_insert_Some; cbn [ptr fd_ index_ set_index].
    + rewrite Hf, Hp, Hpi, lookup_insert_eq, (proj2 (Z.ltb_ge _ _)) by lia. split_and!; [done|done|lia|done].
    + destruct (Hch j d Hd) as (? & ? & ? & ?). split_and!; [done..|].
      rewrite lookup_insert_ne; [done|]. intros E. apply Hne. by apply (Hfd i j c0 d).
  - intros j d pfd [[<- <-]|[Hne Hd]]%lookup_insert_Some Hj; cbn [index_ set_index].
    + rewrite Nat2Z.id, Hl, lookup_app_r, Nat.sub_diag by lia. intros [= <-]. split; [done|]. left. by rewrite <- Hf.
    + rewrite lookup_app_l; [by apply (Hslot j)|].
      assert (ow !! Z.to_nat (index_ d) = Some j) as Hk by (apply Hown; exists d; split; [done|lia]).
      apply lookup_lt_Some in Hk. lia.
  - by apply (fds_insert cs i c0).
Qed.

(** The entry of a registered channel is overwritten. *)
Lemma update_old ow p cs i c0 c :
  pp_inv ow p cs → few cs → cs !! i = Some c0 → same_slot c0 c → 0 ≤ index_ c →
  ∃ p', updateChannel p c = Ret (p', c) ∧ pp_inv ow p' (<[i := c]> cs).
Proof.
  intros Hinv Hfew Hi (Hp & Hf & Hx) Hpos. pose proof Hinv as [Hl Hown Hch Hslot Hfd].
  destruct (Hch i c0 Hi) as (Hpi & Hfd0 & Hidx & Hm).
  destruct (holds_self ow p cs i c c0) as [Hh1 Hh2]; [done|done|lia|done|done|].
  destruct (pp_entry ow p cs i c0) as (pfd & Hpfd & [_ Hpf] & Hv & Hlt); [done|done|done|lia|].
  rewrite <- Hx in Hpfd, Hv. unfold updateChannel. rewrite (proj2 (Z.ltb_ge _ _)) by done. rewrite Hh1, Hh2, Hv.
  unfold pollfd_at. rewrite Hpfd. orun.
  eexists. split; [reflexivity|].
  assert (Z.to_nat (index_ c) < length (pollfds_ p))%nat as Hlen by (by apply lookup_lt_Some in Hpfd).
  split; cbn [pollfds_ fd_map].
  - by rewrite length_insert.
  - intros k j. rewrite Hown. split; intros (d & Hd & Ed).
    + destruct (decide (i = j)) as [->|Hne]; [exists c|exists d; by rewrite lookup_insert_ne].
      rewrite lookup_insert_eq. simplify_eq. split; [done|lia].
    + apply lookup_insert_Some in Hd as [[<- <-]|[Hne Hd]]; [exists c0; split; [done|lia]|by exists d].
  - intros j d [[<- <-]|[Hne Hd]]%lookup_insert_Some; [|by apply Hch].
    rewrite Hf, Hp, Hpi, Hx. split_and!; [done..|lia|done].
  - intros j d pfd' [[<- <-]|[Hne Hd]]%lookup_insert_Some Hj.
    + rewrite list_lookup_insert_eq by done. intros [= <-]. split; [done|]. cbn [pfd_fd].
      unfold isNoneEvent, kNoneEvent. destruct (Z.eqb_spec (events_ c) 0); [right|left]; done.
    + rewrite list_lookup_insert_ne; [by apply (Hslot j)|]. intros E. apply Hne.
      assert (ow !! Z.to_nat (index_ c) = Some i) as H1 by (apply Hown; exists c0; split; [done|lia]).
      assert (ow !! Z.to_nat (index_ d) = Some j) as H2 by (apply Hown; exists d; split; [done|lia]).
      congruence.
  - by apply (fds_insert cs i c0).
Qed.

(** What [removeChannel] leaves of the other channels. *)
Definition kept (c c' : Channel) : Prop :=
  ptr c' = ptr c ∧ fd_ c' = fd_ c ∧ events_ c' = events_ c ∧ (index_ c' < 0 ↔ index_ c < 0).

Lemma kept_refl c : kept c c.
Proof. done. Qed.

(** Entry [k] of the table after the last one has been moved to [idx]. *)
Lemma lookup_moved {A} (l : list A) idx (x last : A) k :
  (idx < length l - 1)%nat →
  removelast (<[(length l - 1)%nat := x]> (<[idx := last]> l)) !! k =
    if decide (k = idx) then Some last else if decide (k < length l - 1)%nat then l !! k else None.
Proof.
  intros Hidx. rewrite removelast_firstn_len, !length_insert. replace (pred (length l)) with (length l - 1)%nat by lia.
  repeat case_decide; subst.
  - rewrite lookup_take_lt, list_lookup_insert_ne, list_lookup_insert_eq by lia. done.
  - rewrite lookup_take_lt, !list_lookup_insert_ne by lia. done.
  - apply lookup_take_ge. lia.
Qed.

Lemma lookup_removelast {A} (l : list A) k :
  removelast l !! k = if decide (k < length l - 1)%nat then l !! k else None.
Proof.
  rewrite removelast_firstn_len. case_decide; [apply lookup_take_lt|apply lookup_take_ge]; lia.
Qed.

(** The invariant without the channel whose entry was the last one. *)
Lemma drop_last ow p cs i c : pp_inv ow p cs → cs !! i = Some c → index_ c = zlen ow - 1 → 0 ≤ index_ c →
  pp_inv (removelast ow) (mkPP (delete (fd_ c) (fd_map p)) (removelast (pollfds_ p))) (delete i cs).
Proof.
  intros [Hl Hown Hch Hslot Hfd] Hi Hidx Hpos.
  assert (ow !! (length ow - 1)%nat = Some i) as Hoi by (apply Hown; exists c; split; [done|lia]).
  split; cbn [pollfds_ fd_map].
  - rewrite !removelast_firstn_len, !length_take. lia.
  - intros k j. rewrite lookup_removelast. case_decide as Hk.
    + rewrite Hown. split; intros (d & Hd & Ed).
      * exists d. rewrite lookup_delete_ne; [done|]. intros ->. simplify_eq. lia.
      * apply lookup_delete_Some in Hd as [_ Hd]. by exists d.
    + split; [done|]. intros (d & [Hne Hd]%lookup_delete_Some & Ed). exfalso.
      assert (ow !! k = Some j) as Hkj by (apply Hown; eauto).
      assert (k = length ow - 1)%nat by (apply lookup_lt_Some in Hkj; lia). congruence.
  - intros j d [Hne Hd]%lookup_delete_Some. destruct (Hch j d Hd) as (? & ? & ? & ?). split_and!; [done..|].
    rewrite lookup_delete_ne; [done|]. intros E. apply Hne. by apply (Hfd i j c d).
  - intros j d pfd [Hne Hd]%lookup_delete_Some Hj. rewrite lookup_removelast. case_decide; [|done]. by apply (Hslot j).
  - intros j k d e [_ Hd]%lookup_delete_Some [_ He]%lookup_delete_Some. by apply (Hfd j k).
Qed.

(** The same when the last entry moves to the place of the removed one. *)
Lemma drop_moved ow p cs i c jl d pfd last : pp_inv ow p cs → cs !! i = Some c → 0 ≤ index_ c →
  index_ c < zlen ow - 1 → cs !! jl = Some d → index_ d = zlen ow - 1 →
  pollfds_ p !! (length (pollfds_ p) - 1)%nat = Some last →
  pp_inv (removelast (<[(length ow - 1)%nat := i]> (<[Z.to_nat (index_ c) := jl]> ow)))
    (mkPP (delete (fd_ c) (fd_map p))
       (removelast (<[(length (pollfds_ p) - 1)%nat := pfd]> (<[Z.to_nat (index_ c) := last]> (pollfds_ p)))))
    (delete i (<[jl := set_index d (index_ c)]> cs)).
Proof.
  intros [Hl Hown Hch Hslot Hfd] Hi Hpos Hidx Hj Ed Hlast.
  assert (ow !! Z.to_nat (index_ c) = Some i) as Hoi by (apply Hown; exists c; split; [done|lia]).
  assert (ow !! (length ow - 1)%nat = Some jl) as Hoj by (apply Hown; exists d; split; [done|lia]).
  assert (i ≠ jl) as Hij by (intros ->; simplify_eq; lia).
  split; cbn [pollfds_ fd_map].
  - rewrite !removelast_firstn_len, !length_take, !length_insert. lia.
  - intros k j. rewrite lookup_moved by lia. split.
    + repeat case_decide; [intros [= <-]|intros Hk|done].
      * exists (set_index d (index_ c)). rewrite lookup_delete_ne, lookup_insert_eq by done. split; [done|cbn; lia].
      * apply Hown in Hk as (f & Hf & Ef). exists f.
        rewrite lookup_delete_ne, lookup_insert_ne; [done|..]; intros ->; simplify_eq; lia.
    + intros (f & [Hne [[<- <-]|[Hne2 Hf]]%lookup_insert_Some]%lookup_delete_Some & Ef).
      * cbn in Ef. rewrite decide_True by lia. done.
      * assert (ow !! k = Some j) as Hk by (apply Hown; eauto).
        rewrite decide_False, decide_True; [done| |intros ->; congruence].
        assert (k ≠ (length ow - 1)%nat) by (intros ->; congruence). apply lookup_lt_Some in Hk. lia.
  - assert (∀ j f, cs !! j = Some f → j ≠ i → fd_ f ≠ fd_ c) as Hother.
    { intros j f Hf Hne E. by apply Hne, (Hfd j i f c). }
    intros j f [Hne [[<- <-]|[Hne2 Hf]]%lookup_insert_Some]%lookup_delete_Some; cbn [ptr fd_ index_ set_index].
    + destruct (Hch jl d Hj) as (? & ? & ? & Hm). rewrite lookup_delete_ne by (intros E; by apply (Hother jl d)).
      rewrite (proj2 (Z.ltb_ge _ _)) in Hm by lia. rewrite (proj2 (Z.ltb_ge _ _)) by lia. split_and!; [done..|lia|done].
    + destruct (Hch j f Hf) as (? & ? & ? & ?). split_and!; [done..|].
      by rewrite lookup_delete_ne by (intros E; by apply (Hother j f)).
  - intros j f pfd' [Hne [[<- <-]|[Hne2 Hf]]%lookup_insert_Some]%lookup_delete_Some Hjx; rewrite lookup_moved by lia.
    + cbn [index_ set_index]. rewrite decide_True by done. intros [= <-].
      change (pfd_ok d last). apply (Hslot jl); [done|lia|]. rewrite Ed. rewrite <- Hlast. f_equal. lia.
    + assert (ow !! Z.to_nat (index_ f) = Some j) as Hk by (apply Hown; exists f; split; [done|lia]).
      rewrite decide_False by (intros E; rewrite E in Hk; congruence). case_decide; [by apply (Hslot j)|done].
  - intros j k x y [_ Hx]%lookup_delete_Some [_ Hy]%lookup_delete_Some.
    by apply (fds_insert cs jl d (set_index d (index_ c)) Hfd Hj eq_refl j k).
Qed.

Lemma remove_entry ow p cs i c :
  pp_inv ow p cs → few cs → cs !! i = Some c → 0 ≤ index_ c → isNoneEvent c = true →
  (∀ pfd, pollfds_ p !! Z.to_nat (index_ c) = Some pfd → pfd_fd pfd < 0) →
  ∃ ow' p' cs', removeChannel p cs c = Ret (p', cs') ∧ pp_inv ow' p' (delete i cs') ∧
    (∀ j d', cs' !! j = Some d' → ∃ d, cs !! j = Some d ∧ kept d d') ∧
    (∀ j, cs' !! j = None → cs !! j = None) ∧ few cs'.
Proof.
  intros Hinv Hfew Hi Hpos Hnone Hign. pose proof Hinv as [Hl Hown Hch Hslot Hfd].
  destruct (holds_self ow p cs i c c) as [Hh1 Hh2]; [done..|].
  destruct (pp_entry ow p cs i c) as (pfd & Hpfd & [Hpe Hpf] & Hv & Hlt); [done..|].
  destruct (Hch i c Hi) as (Hpi & Hfd0 & _ & Hm). specialize (Hign _ Hpfd).
  assert (events_ c = 0) as He by (by apply Z.eqb_eq).
  assert (pfd_fd pfd = - fd_ c - 1) as Hpf' by (destruct Hpf as [?|[? _]]; [lia|done]).
  unfold removeChannel. rewrite Hh1, Hh2, Hnone, Hv. unfold pollfd_at. rewrite Hpfd. orun. rewrite Hpf', Hpe, He.
  rewrite !Z.eqb_refl. orun. cbn [andb].
  apply lookup_lt_Some in Hpfd as Hlen. rewrite !u64_small by lia.
  destruct (Z.eqb_spec (index_ c) (zlen (pollfds_ p) - 1)) as [E|E].
  - eexists _, _, cs. split; [reflexivity|]. split; [apply drop_last; (done || lia)|]. split; [|done].
    intros j d Hd. exists d. split; [done|apply kept_refl].
  - destruct (lookup_lt_is_Some_2 ow (length ow - 1)) as [jl Hjl]; [lia|].
    apply Hown in Hjl as Hd. destruct Hd as (d & Hd & Ed).
    destruct (pp_entry ow p cs jl d) as (last & Hlast & [_ Hlf] & _); [done|done|done|lia|].
    destruct (Hch jl d Hd) as (_ & Hfdd & _ & Hmd). rewrite (proj2 (Z.ltb_ge _ _)) in Hmd by lia.
    assert (fd_ c ≠ fd_ d) as Hne.
    { intros Efd. assert (i = jl) as -> by (by apply (Hfd i jl c d)). simplify_eq. lia. }
    replace (Z.to_nat (zlen (pollfds_ p) - 1)) with (Z.to_nat (index_ d)) by lia.
    rewrite Hlast, bind_ret.
    assert ((if pfd_fd last <? 0 then - pfd_fd last - 1 else pfd_fd last) = fd_ d) as ->.
    { destruct Hlf as [->|[-> _]]; [rewrite (proj2 (Z.ltb_ge _ _)) by lia|rewrite (proj2 (Z.ltb_lt _ _)) by lia]; lia. }
    unfold set_index_of. rewrite lookup_delete_ne, Hmd by done. cbn [mbind option_bind]. rewrite Hd. cbn [fmap option_fmap option_map].
    rewrite bind_ret. eexists _, _, _. split; [reflexivity|].
    assert (Z.to_nat (index_ d) = (length (pollfds_ p) - 1)%nat) as En by lia. rewrite En in *.
    split; [apply (drop_moved ow p cs i c jl d pfd last); (done || lia)|].
    split; [|split; [|by apply (few_insert cs jl _ d)]].
    2:{ intros j Hj. by apply lookup_insert_None in Hj as [? _]. }
    intros j f [[<- <-]|[_ Hf]]%lookup_insert_Some; [exists d|exists f]; split; try done.
    split_and!; try done. cbn. lia.
Qed.

(** ** Sequences of requests *)

(** A request names a channel that was not removed; [remove] wants a channel
    whose entry poll(2) ignores and whose events are not still to be handled. *)
Definition poll_allowed (p : PollPoller) (cs : gmap Z Channel) (r : Z * channel_op) : bool :=
  match cs !! r.1, r.2 with
  | None, _ => false
  | Some c, OpRemove eh =>
      isNoneEvent c && may_remove eh c && (0 <=? index_ c) &&
      match pollfds_ p !! Z.to_nat (index_ c) with Some pfd => pfd_fd pfd <? 0 | None => false end
  | Some _, _ => true
  end.

Definition is_remove (o : channel_op) : bool := match o with OpRemove _ => true | _ => false end.

(** What a request does to the channels. *)
Definition after_request (i : Z) (o : channel_op) (cs cs' : gmap Z Channel) : Prop :=
  ∀ j d', cs' !! j = Some d' → ∃ d, cs !! j = Some d ∧ fd_ d' = fd_ d ∧
    if decide (j = i) then is_remove o = false ∧ events_ d' = events_ (with_events d o) ∧ 0 ≤ index_ d'
    else events_ d' = events_ d ∧ (index_ d' < 0 ↔ index_ d < 0).

Definition same_channels (i : Z) (o : channel_op) (cs cs' : gmap Z Channel) : Prop :=
  ∀ j, cs' !! j = None → cs !! j = None ∨ (j = i ∧ is_remove o = true).

Lemma update_request ow p cs i c o : pp_inv ow p cs → few cs → cs !! i = Some c → is_remove o = false →
  ∃ ow' p' c', updateChannel p (set_added (with_events c o) true) = Ret (p', c') ∧
    pp_inv ow' p' (<[i := c']> cs) ∧ fd_ c' = fd_ c ∧ events_ c' = events_ (with_events c o) ∧ 0 ≤ index_ c'.
Proof.
  intros Hinv Hfew Hi Ho.
  assert (same_slot c (set_added (with_events c o) true)) as Hs by (by destruct o).
  pose proof Hs as (_ & Hf & _). destruct (Z.lt_ge_cases (index_ (set_added (with_events c o) true)) 0) as [Hneg|Hpos].
  - destruct (update_new ow p cs i c _ Hinv Hfew Hi Hs Hneg) as (p' & c' & -> & Hinv' & Hc & Hx).
    eexists _, p', c'. split; [done|]. split; [done|]. rewrite Hc. cbn [fd_ events_ set_index index_].
    split_and!; [by rewrite Hf|done|done].
  - destruct (update_old ow p cs i c _ Hinv Hfew Hi Hs Hpos) as (p' & -> & Hinv').
    by eexists _, p', _.
Qed.

Lemma poll_request_ok ow p cs i o : pp_inv ow p cs → few cs → poll_allowed p cs (i, o) = true →
  ∃ ow' p' cs', poll_request p cs i o = Ret (p', cs') ∧ pp_inv ow' p' cs' ∧ few cs' ∧ after_request i o cs cs' ∧ same_channels i o cs cs'.
Proof.
  intros Hinv Hfew Ha. unfold poll_request. unfold poll_allowed in Ha. cbn [fst snd] in Ha.
  destruct (cs !! i) as [c|] eqn:Hi; [|done]. destruct (is_remove o) eqn:Ho.
  - destruct o as [| | | | |eh]; try done. apply andb_true_iff in Ha as [[[Hn Hmay]%andb_true_iff Hx]%andb_true_iff Hfd].
    rewrite Hn, Hmay. orun. apply Z.leb_le in Hx.
    pose proof (pp_inv_same ow p cs i c (set_added c false) Hinv Hi eq_refl eq_refl eq_refl eq_refl) as Hinv0.
    destruct (remove_entry ow p _ i (set_added c false) Hinv0) as (ow' & p' & cs' & -> & Hinv' & Hk & Hdom & Hfew');
      [by apply (few_insert cs i _ c)|apply lookup_insert_eq|done|done| |].
    { intros pfd Hp. change (index_ (set_added c false)) with (index_ c) in Hp. rewrite Hp in Hfd. by apply Z.ltb_lt. }
    orun. exists ow', p', (delete i cs'). split; [done|]. split; [done|].
    split; [by apply few_delete|].
    split; [|intros j [->|Hj%Hdom]%lookup_delete_None; [by right|left]; by apply lookup_insert_None in Hj as [? _]].
    intros j d' [Hne Hd']%lookup_delete_Some. destruct (Hk j d' Hd') as (d & Hd & _ & Hf & He & Hx').
    rewrite lookup_insert_ne in Hd by done. exists d. split; [done|]. split; [done|]. by rewrite decide_False by congruence.
  - destruct (update_request ow p cs i c o Hinv Hfew Hi Ho) as (ow' & p' & c' & Hu & Hinv' & Hf & He & Hx).
    exists ow', p', (<[i := c']> cs). split; [destruct o; try done; by rewrite Hu|].
    split; [done|]. split; [by apply (few_insert cs i c' c)|].
    split; [|intros j Hj; left; by apply lookup_insert_None in Hj as [? _]].
    intros j d [[<- <-]|[Hne Hd]]%lookup_insert_Some.
    + exists c. split; [done|]. split; [done|]. by rewrite decide_True.
    + exists d. split; [done|]. split; [done|]. by rewrite decide_False by congruence.
Qed.

Lemma poll_request_refused p cs r : poll_allowed p cs r = false →
  ∀ ow, pp_inv ow p cs → few cs → ∃ f, poll_request p cs r.1 r.2 = Abort f ∧ (f = NullPointer ∨ f = AssertFailed).
Proof.
  destruct r as [i o]. unfold poll_allowed, poll_request. cbn [fst snd]. intros Ha ow Hinv Hfew.
  destruct (cs !! i) as [c|] eqn:Hi; [|by eexists; split; [done|left]].
  destruct o as [| | | | |eh]; try done. exists AssertFailed. split; [|by right].
  destruct (isNoneEvent c) eqn:Hn; [|done]. destruct (may_remove eh c); [|done]. orun. cbn [andb] in Ha. unfold removeChannel.
  destruct (pp_chan _ _ _ Hinv i c Hi) as (Hp & Hf0 & Hm1 & Hm).
  unfold has_fd at 1. change (fd_ (set_added c false)) with (fd_ c). rewrite Hm.
  destruct (Z.ltb_spec (index_ c) 0) as [Hneg|Hpos]; [done|].
  rewrite (proj2 (Z.leb_le _ _)) in Ha by done. cbn [andb] in Ha.
  destruct (pp_entry ow p cs i c) as (pfd & Hpfd & _ & Hv & _); [done..|]. rewrite Hpfd in Ha.
  destruct (holds_self ow p cs i (set_added c false) c) as [_ Hh]; [done..|]. rewrite Hh.
  change (isNoneEvent (set_added c false)) with (isNoneEvent c). rewrite Hn.
  change (index_ (set_added c false)) with (index_ c). rewrite Hv. unfold pollfd_at. rewrite Hpfd. cbn [assert mbind outcome_bind].
  rewrite (proj2 (Z.eqb_neq (pfd_fd pfd) (- fd_ c - 1))); [done|]. apply Z.ltb_ge in Ha. lia.
Qed.

Definition fresh_channels (cs : gmap Z Channel) : Prop :=
  few cs ∧ (∀ i c, cs !! i = Some c → c = Channel_ctor i (fd_ c) ∧ 0 ≤ fd_ c) ∧
  (∀ i j c d, cs !! i = Some c → cs !! j = Some d → fd_ c = fd_ d → i = j).

Lemma fresh_inv cs : fresh_channels cs → pp_inv [] PollPoller_ctor cs.
Proof.
  intros (Hfew & Hc & Hfd). split; cbn; [done|..|done].
  - intros k i. rewrite lookup_nil. split; [done|]. intros (c & Hi & Hx). destruct (Hc i c Hi) as [E _].
    rewrite E in Hx. cbn in Hx. lia.
  - intros i c Hi. destruct (Hc i c Hi) as [E Hf]. rewrite E at 1 3 4 5. cbn. split_and!; [done|done|lia|apply lookup_empty].
  - intros i c pfd Hi Hx. by rewrite lookup_nil.
Qed.

(** The poll poller serves every sequence of requests of channels with distinct
    descriptors, with the table [pollfds_], the indices in the channels and the
    map of descriptors in agreement; or the process stops at the first request
    for a channel that was removed before, or at the first [remove] of a channel
    that poll(2) does not ignore. *)
Theorem poll_protocol os cs : fresh_channels cs →
  (∃ p' cs' ow, poll_requests PollPoller_ctor cs os = Ret (p', cs') ∧ pp_inv ow p' cs') ∨
  (∃ os1 r os2 p1 cs1 f, os = os1 ++ r :: os2 ∧ poll_requests PollPoller_ctor cs os1 = Ret (p1, cs1) ∧
     poll_allowed p1 cs1 r = false ∧ poll_requests PollPoller_ctor cs os = Abort f ∧
     (f = NullPointer ∨ f = AssertFailed)).
Proof.
  intros Hfr. pose proof (fresh_inv cs Hfr) as Hinv. destruct Hfr as [Hfew _].
  generalize dependent (@nil Z). generalize PollPoller_ctor as p. revert cs Hfew.
  induction os as [|[i o] os IH]; intros cs Hfew p ow Hinv; [left; by exists p, cs, ow|].
  destruct (poll_allowed p cs (i, o)) eqn:Ha.
  - destruct (poll_request_ok ow p cs i o Hinv Hfew Ha) as (ow1 & p1 & cs1 & Hr & Hinv1 & Hfew1 & _ & _).
    destruct (IH cs1 Hfew1 p1 ow1 Hinv1) as [(p2 & cs2 & ow2 & H2 & Hi2)|(os1 & r & os2 & p2 & cs2 & f & -> & H1 & H2 & H3 & H4)].
    + left. exists p2, cs2, ow2. cbn [poll_requests]. by rewrite Hr.
    + right. exists ((i, o) :: os1), r, os2, p2, cs2, f. cbn [poll_requests app]. by rewrite Hr.
  - right. destruct (poll_request_refused p cs (i, o) Ha ow Hinv Hfew) as (f & Hf & Hff). cbn [fst snd] in Hf.
    exists [], (i, o), os, p, cs, f. cbn [poll_requests app]. by rewrite Hf.
Qed.

(** ** Comparison with the epoll poller *)

(** The channels of the two stores after the same requests. *)
Record agree (cs cs' : gmap Z Channel) : Prop := Agree {
  ag_live : ∀ i c', cs' !! i = Some c' → ∃ c, cs !! i = Some c ∧ fd_ c = fd_ c' ∧ events_ c = events_ c' ∧
    (index_ c = kNew ↔ index_ c' < 0);
  ag_gone : ∀ i c, cs !! i = Some c → cs' !! i = None → index_ c = kNew;
  ag_deleted : ∀ i c, cs !! i = Some c → index_ c = kDeleted → events_ c = 0;
}.

Lemma epoll_request p cs i c o p' c' : poller_inv p cs → cs !! i = Some c → run_channel_op p c o = Ret (p', c') →
  poller_inv p' (<[i := c']> cs) ∧ fd_ c' = fd_ c ∧ (index_ c' = kDeleted → events_ c' = 0) ∧
  (if is_remove o then index_ c' = kNew
   else events_ c' = events_ (with_events c o) ∧ index_ c' ≠ kNew).
Proof.
  intros Hinv Hi Hr. destruct (is_remove o) eqn:Ho.
  - destruct o as [| | | | |eh]; try done.
    cbn [run_channel_op] in Hr. destruct (op_allowed c (OpRemove eh)) eqn:Ha; [|by rewrite (remove_not_allowed eh p cs i c) in Hr].
    destruct (remove_inv eh p cs i c Hinv Hi Ha) as (p1 & c1 & H1 & Hinv1).
    rewrite H1 in Hr. injection Hr as -> ->. split; [done|].
    unfold remove, removeChannel in H1. destruct (isNoneEvent c) eqn:Hn; [|done]. cbn [assert mbind outcome_bind] in H1.
    repeat (apply bind_ret_inv in H1 as (? & _ & H1)). injection H1 as _ <-. done.
  - assert (run_channel_op p c o = channel_update p (with_events c o)) as E by (by destruct o).
    rewrite E in Hr. unfold channel_update in Hr.
    destruct (updateChannel_inv p cs i c (set_added (with_events c o) true)) as (p1 & c1 & H1 & Hinv1 & ->);
      [done|done|by destruct o|].
    rewrite H1 in Hr. injection Hr as -> <-. split; [done|]. split; [by destruct o|].
    cbn [index_ events_ set_index]. split.
    + destruct (negb _); [done|]. destruct (isNoneEvent _) eqn:Hn; [|done]. intros _. by apply Z.eqb_eq in Hn.
    + split; [done|]. by repeat case_match.
Qed.

Lemma request_agree p cs pp cs' ow i o c p1 c1 pp1 cs1' :
  poller_inv p cs → pp_inv ow pp cs' → few cs' → agree cs cs' → cs !! i = Some c →
  run_channel_op p c o = Ret (p1, c1) → poll_request pp cs' i o = Ret (pp1, cs1') →
  poller_inv p1 (<[i := c1]> cs) ∧ agree (<[i := c1]> cs) cs1' ∧ few cs1' ∧ ∃ ow1, pp_inv ow1 pp1 cs1'.
Proof.
  intros Hinv Hpp Hfew [Hlive Hgone Hdel] Hi Hr Hr'.
  destruct (epoll_request p cs i c o p1 c1 Hinv Hi Hr) as (Hinv1 & Hf1 & Hd1 & Ho1). split; [done|].
  destruct (poll_allowed pp cs' (i, o)) eqn:Ha; cycle 1.
  { destruct (poll_request_refused pp cs' (i, o) Ha ow Hpp Hfew) as (f & Hf & _). cbn in Hf. by rewrite Hf in Hr'. }
  destruct (poll_request_ok ow pp cs' i o Hpp Hfew Ha) as (ow1 & pp2 & cs2 & E & Hpp1 & Hfew1 & Haft & Hdom).
  rewrite E in Hr'. injection Hr' as -> ->. split; [|by eauto].
  assert (is_Some (cs' !! i)) as [d0 Hd0].
  { unfold poll_allowed in Ha. cbn in Ha. destruct (cs' !! i); [by eexists|done]. }
  split.
  - intros j d' Hj. destruct (Haft j d' Hj) as (d & Hd & Hf & Hev).
    destruct (Hlive j d Hd) as (e & He & Hfe & Hee & Hxe). case_decide as Eij.
    + subst j. destruct Hev as (Ho & Hev & Hx). rewrite Ho in Ho1. destruct Ho1 as [Hev1 Hx1].
      simplify_eq. exists c1. rewrite lookup_insert_eq. split; [done|]. split; [congruence|].
      split; [rewrite Hev1, Hev; destruct o; cbn; congruence|]. split; [done|lia].
    + exists e. rewrite lookup_insert_ne by congruence. destruct Hev as [Hev Hx]. split; [done|].
      split; [congruence|]. split; [congruence|]. rewrite Hxe. lia.
  - intros j e [[<- <-]|[Hne He]]%lookup_insert_Some Hn.
    + destruct (Hdom i Hn) as [?|[_ Ho]]; [congruence|]. by rewrite Ho in Ho1.
    + destruct (Hdom j Hn) as [Hn'|[-> _]]; [by apply (Hgone j)|done].
  - intros j e [[<- <-]|[Hne He]]%lookup_insert_Some Hx; [by apply Hd1|by apply (Hdel j)].
Qed.

Lemma requests_agree os : ∀ p cs pp cs' ow p1 cs1 pp1 cs1',
  poller_inv p cs → pp_inv ow pp cs' → few cs' → agree cs cs' →
  run_requests p cs os = Ret (p1, cs1) → poll_requests pp cs' os = Ret (pp1, cs1') →
  poller_inv p1 cs1 ∧ agree cs1 cs1' ∧ ∃ ow1, pp_inv ow1 pp1 cs1'.
Proof.
  induction os as [|[i o] os IH]; intros p cs pp cs' ow p1 cs1 pp1 cs1' Hinv Hpp Hfew Hag Hr Hr';
    cbn [run_requests poll_requests] in Hr, Hr'; [simplify_eq; by eauto|].
  destruct (cs !! i) as [c|] eqn:Hi; [|done].
  apply bind_ret_inv in Hr as ([p2 c2] & Hr & Hrest). apply bind_ret_inv in Hr' as ([pp2 cs2'] & Hr' & Hrest').
  destruct (request_agree p cs pp cs' ow i o c p2 c2 pp2 cs2') as (Hinv2 & Hag2 & Hfew2 & ow2 & Hpp2); [done..|].
  by apply (IH p2 (<[i := c2]> cs) pp2 cs2' ow2).
Qed.

(** C22: Both pollers, given the same requests and as long as neither fails an assertion,
    wait for the same events: for every set of events [ev] that is not empty, poll(2) is
    asked for [ev] on a channel's descriptor exactly if the epoll instance is, up to the
    edge-triggered flag, for which [short] has no room.  A channel without events may
    still be registered with epoll, which then reports errors and hang-ups, while
    poll(2) ignores it: the statement is about the events that were asked for. *)
Theorem pollers_agree cs os p cs1 pp cs2 :
  fresh_channels cs → run_requests Poller_ctor cs os = Ret (p, cs1) →
  poll_requests PollPoller_ctor cs os = Ret (pp, cs2) →
  ∃ m, interest (ctl p) = Some m ∧
    ∀ i c ev, cs1 !! i = Some c → ev ≠ 0 →
      (∃ r, mkPollfd (fd_ c) ev r ∈ pollfds_ pp) ↔ (∃ e, m !! fd_ c = Some e ∧ s16 e = ev).
Proof.
  intros Hfr Hr Hr'. pose proof (fresh_inv cs Hfr) as Hpp0. destruct Hfr as (Hfew & Hc & Hfd).
  destruct (requests_agree os Poller_ctor cs PollPoller_ctor cs [] p cs1 pp cs2)
    as ((m & Hm & Hreg & Hfd1) & [Hlive Hgone Hdel] & ow & [Hl Hown Hch Hslot Hfd2]); [|done|done| |done|done|].
  { apply poller_inv_init; [|done]. intros i c Hi. by apply Hc. }
  { split.
    - intros i c Hi. exists c. split_and!; [done..|]. destruct (Hc i c Hi) as [E _]. by rewrite E.
    - intros i c Hi Hn. congruence.
    - intros i c Hi Hx. destruct (Hc i c Hi) as [E _]. by rewrite E in Hx. }
  exists m. split; [done|]. intros i c ev Hi Hev. destruct (Hreg i c Hi) as [_ [Hidx _ Hint]]. split.
  - intros (r & (k & Hk)%list_elem_of_lookup).
    destruct (lookup_lt_is_Some_2 ow k) as [j Hj]; [rewrite Hl; by apply lookup_lt_Some in Hk|].
    apply Hown in Hj as (d & Hd & Ed). destruct (Hch j d Hd) as (_ & Hfd0 & _).
    destruct (Hlive j d Hd) as (e & He & Hfe & Hee & Hxe).
    destruct (Hslot j d (mkPollfd (fd_ c) ev r) Hd) as [Hpe Hpf]; [lia|by rewrite Ed, Nat2Z.id|]. cbn in Hpe, Hpf.
    assert (events_ d ≠ 0) as Hne by (intros E; by rewrite E in Hpe).
    destruct Hpf as [Hpf|[_ ?]]; [|done]. assert (i = j) as <- by (apply (Hfd1 i j c e); congruence). simplify_eq.
    exists (events_ c). split; [|congruence]. rewrite Hint.
    destruct Hidx as [E|[->|E]]; [|done|].
    + apply Hxe in E. lia.
    + apply (Hdel i c Hi) in E. congruence.
  - intros (e & He & Hs). rewrite Hint in He. destruct (Z.eqb_spec (index_ c) kAdded) as [Ex|]; [|done]. injection He as <-.
    destruct (cs2 !! i) as [d|] eqn:Hd; [|apply (Hgone i c Hi) in Hd; by rewrite Ex in Hd].
    destruct (Hlive i d Hd) as (c' & Hc' & Hfe & Hee & Hxe). simplify_eq.
    assert (0 ≤ index_ d) as Hpos by (apply Z.nlt_ge; intros E; apply Hxe in E; by rewrite Ex in E).
    assert (ow !! Z.to_nat (index_ d) = Some i) as Ho by (apply Hown; exists d; split; [done|lia]).
    destruct (lookup_lt_is_Some_2 (pollfds_ pp) (Z.to_nat (index_ d))) as [[fd ev r] Hk];
      [rewrite <- Hl; by apply lookup_lt_Some in Ho|].
    destruct (Hslot i d _ Hd Hpos Hk) as [Hpe Hpf]. cbn in Hpe, Hpf.
    destruct Hpf as [->|[_ E]]; [|by rewrite Hee, E in Hev].
    exists r. apply list_elem_of_lookup. exists (Z.to_nat (index_ d)). by rewrite Hfe, Hee, <- Hpe.
Qed.

(** ** What poll(2) reports *)

(** The entries poll(2) reports: those with events, in the order of the table. *)
Definition ready (pfds : list pollfd) : list pollfd := filter (λ pfd, 0 < pfd_revents pfd) pfds.

(** [l] are the owners of the entries [pfds] in the store [cs]. *)
Definition owned (m : gmap Z Z) (cs : gmap Z Channel) (pfd : pollfd) (i : Z) : Prop :=
  m !! pfd_fd pfd = Some i ∧ ∃ c, cs !! i = Some c ∧ fd_ c = pfd_fd pfd.

Lemma fill_ready m pfds : ∀ cs n act l,
  Forall2 (owned m cs) (ready pfds) l → n = zlen (ready pfds) →
  ∃ cs', fillActiveChannels m pfds cs n act = Ret (act ++ l, cs') ∧
    (∀ i c', cs' !! i = Some c' → ∃ c, cs !! i = Some c ∧ fd_ c' = fd_ c) ∧
    (∀ j, j ∉ l → cs' !! j = cs !! j) ∧
    (NoDup l → Forall2 (λ pfd i, revents_ <$> cs' !! i = Some (pfd_revents pfd)) (ready pfds) l).
Proof.
  induction pfds as [|pfd pfds IH]; intros cs n act l Hl ->; cbn [fillActiveChannels].
  - apply Forall2_nil_inv_l in Hl as ->. rewrite app_nil_r. exists cs. split_and!; [done|by eauto|done|by constructor].
  - unfold ready in *. rewrite filter_cons in *. case_decide as Hpos.
    + apply Forall2_cons_inv_l in Hl as (i & l' & (Hm & c & Hc & Hf) & Hl & ->).
      cbn [length]. rewrite !(proj2 (Z.ltb_lt _ _)) by lia. rewrite Hm. cbn [mbind option_bind]. rewrite Hc.
      cbn [fmap option_fmap option_map]. rewrite assert_true by (by apply Z.eqb_eq). rewrite bind_ret.
      destruct (IH (<[i := set_revents c (pfd_revents pfd)]> cs)
        (Z.of_nat (S (length (filter (λ pfd, 0 < pfd_revents pfd) pfds))) - 1) (act ++ [i]) l') as (cs' & -> & Hk & Hfr & Hrev).
      { eapply Forall2_impl; [exact Hl|]. intros x j (Hx & d & Hd & Hfd). split; [done|].
        destruct (decide (i = j)) as [<-|Hne]; [|exists d; by rewrite lookup_insert_ne].
        simplify_eq. eexists. by rewrite lookup_insert_eq. }
      { lia. }
      exists cs'. rewrite <- app_assoc. split; [done|]. split_and!.
      * intros j d' Hj. destruct (Hk j d' Hj) as (d & [[<- <-]|[_ Hd]]%lookup_insert_Some & Hfd); eauto.
      * intros j [Hne Hj]%not_elem_of_cons. by rewrite (Hfr j Hj), lookup_insert_ne.
      * intros [Hni Hnd]%NoDup_cons. constructor; [|by apply Hrev]. by rewrite (Hfr i Hni), lookup_insert_eq.
    + destruct (Z.ltb_spec 0 (zlen (filter (λ pfd, 0 < pfd_revents pfd) pfds))) as [Hn|Hn].
      * rewrite (proj2 (Z.ltb_ge _ _)) by lia. by apply IH.
      * assert (filter (λ pfd, 0 < pfd_revents pfd) pfds = []) as E by (apply length_zero_iff_nil; lia).
        rewrite E in *. apply Forall2_nil_inv_l in Hl as ->. rewrite app_nil_r. exists cs. split_and!; [done|by eauto|done|by constructor].
Qed.

(** poll(2) stores the returned events in the entries. *)
Definition store_revents (pfds : list pollfd) (revs : list Z) : list pollfd :=
  zip_with (λ pfd r, mkPollfd (pfd_fd pfd) (pfd_events pfd) r) pfds revs.

Definition reported (pfds : list pollfd) (ow : list Z) : list Z :=
  snd <$> filter (λ x, 0 < pfd_revents x.1) (zip pfds ow).

Lemma reported_ready (R : pollfd → Z → Prop) pfds ow :
  length ow = length pfds → (∀ k pfd i, pfds !! k = Some pfd → ow !! k = Some i → 0 < pfd_revents pfd → R pfd i) →
  Forall2 R (ready pfds) (reported pfds ow).
Proof.
  revert ow. unfold ready, reported. induction pfds as [|pfd pfds IH]; intros [|i ow] Hl HR; cbn in Hl; try done.
  cbn [zip_with]. rewrite !filter_cons. cbn [fst].
  assert (Forall2 R (filter (λ pfd, 0 < pfd_revents pfd) pfds)
     (snd <$> filter (λ x, 0 < pfd_revents x.1) (zip pfds ow))) as Hrest.
  { apply IH; [lia|]. intros k. apply (HR (S k)). }
  case_decide; [|done]. constructor; [by apply (HR 0%nat)|done].
Qed.

Lemma elem_of_reported pfds ow i :
  i ∈ reported pfds ow ↔ ∃ k pfd, pfds !! k = Some pfd ∧ ow !! k = Some i ∧ 0 < pfd_revents pfd.
Proof.
  unfold reported. rewrite list_elem_of_fmap. split.
  - intros ([pfd j] & -> & [Hp Hz]%list_elem_of_filter). cbn in *.
    apply list_elem_of_lookup in Hz as [k Hk]. apply lookup_zip_with_Some in Hk as (q & j' & E & Hq & Hj').
    injection E as -> ->. by exists k, q.
  - intros (k & pfd & Hp & Ho & Hr). exists (pfd, i). split; [done|]. apply list_elem_of_filter. split; [done|].
    apply list_elem_of_lookup. exists k. apply lookup_zip_with_Some. by exists pfd, i.
Qed.

Lemma NoDup_reported pfds ow : NoDup ow → NoDup (reported pfds ow).
Proof.
  intros Hnd. revert pfds. unfold reported. induction Hnd as [|i ow Hi Hnd IH]; intros [|pfd pfds]; cbn [zip_with]; try constructor.
  rewrite filter_cons. case_decide; [|apply IH]. cbn [fmap list_fmap snd]. constructor; [|apply IH].
  intros ([q j] & -> & [_ Hz]%list_elem_of_filter)%list_elem_of_fmap. apply Hi. cbn.
  by apply elem_of_zip_r in Hz.
Qed.

Lemma count_ready pfds revs : length revs = length pfds →
  zlen (filter (λ r, 0 < r) revs) = zlen (ready (store_revents pfds revs)).
Proof.
  revert revs. unfold ready, store_revents. induction pfds as [|pfd pfds IH]; intros [|r revs] Hl; cbn in Hl; try done.
  cbn [zip_with]. rewrite !filter_cons. cbn [pfd_revents]. case_decide; cbn [length]; rewrite ?Nat2Z.inj_succ, IH; lia.
Qed.

(** After any requests, when poll(2) reports events for entries that are not
    ignored, exactly the channels of these entries are handed to the loop, once
    each, with the reported events stored in them; no assertion fails. *)
Theorem poll_reports_ready cs os p cs1 revs :
  fresh_channels cs → poll_requests PollPoller_ctor cs os = Ret (p, cs1) →
  length revs = length (pollfds_ p) →
  (∀ k pfd, pollfds_ p !! k = Some pfd → pfd_fd pfd < 0 → revs !! k = Some 0) →
  ∃ act cs2,
    fillActiveChannels (fd_map p) (store_revents (pollfds_ p) revs) cs1
      (zlen (filter (λ r, 0 < r) revs)) [] = Ret (act, cs2) ∧ NoDup act ∧
    ∀ i c, cs1 !! i = Some c →
      (i ∈ act ↔ 0 ≤ index_ c ∧ ∃ r, revs !! Z.to_nat (index_ c) = Some r ∧ 0 < r) ∧
      (i ∈ act → revents_ <$> cs2 !! i = revs !! Z.to_nat (index_ c)).
Proof.
  intros Hfr Hr Hl Hign. destruct (poll_protocol os cs Hfr) as [(p' & cs' & ow & Hr' & Hinv)|Hbad]; cycle 1.
  { destruct Hbad as (? & ? & ? & ? & ? & ? & _ & _ & _ & Hbad & _). congruence. }
  rewrite Hr in Hr'. injection Hr' as <- <-. pose proof Hinv as [Hlo Hown Hch Hslot Hfd].
  set (pfds := store_revents (pollfds_ p) revs).
  assert (length ow = length pfds) as Hlen by (unfold pfds, store_revents; rewrite length_zip_with; lia).
  assert (∀ k pfd, pfds !! k = Some pfd → ∃ q, pollfds_ p !! k = Some q ∧ pfd_fd pfd = pfd_fd q ∧
            revs !! k = Some (pfd_revents pfd)) as Hent.
  { intros k pfd Hk. apply lookup_zip_with_Some in Hk as (q & r & -> & Hq & Hrv). by exists q. }
  rewrite (count_ready (pollfds_ p)) by done. fold pfds.
  assert (Forall2 (λ pfd i, owned (fd_map p) cs1 pfd i ∧ ∃ k, pfds !! k = Some pfd ∧ ow !! k = Some i)
            (ready pfds) (reported pfds ow)) as Hboth.
  { apply reported_ready; [done|]. intros k pfd i Hk Ho Hpos. split; [|by exists k].
    destruct (Hent k pfd Hk) as (q & Hq & Hfq & Hrv). apply Hown in Ho as (c & Hc & Hx).
    destruct (Hch i c Hc) as (_ & Hf0 & _ & Hm). rewrite (proj2 (Z.ltb_ge _ _)) in Hm by lia.
    destruct (Hslot i c q Hc) as [_ [Ef|[Ef _]]]; [lia|by rewrite Hx, Nat2Z.id|..].
    - split; [by rewrite Hfq, Ef|]. exists c. by rewrite Hfq.
    - exfalso. assert (revs !! k = Some 0) as H0 by (apply (Hign k q); [done|lia]). rewrite Hrv in H0. injection H0 as H0. lia. }
  destruct (fill_ready (fd_map p) pfds cs1 (zlen (ready pfds)) [] (reported pfds ow)) as (cs2 & -> & _ & _ & Hrev).
  { eapply Forall2_impl; [exact Hboth|]. by intros pfd i [? _]. }
  { done. }
  assert (NoDup (reported pfds ow)) as Hnd by apply NoDup_reported, (owners_nodup _ _ _ Hinv).
  specialize (Hrev Hnd). cbn [app]. exists (reported pfds ow), cs2. split; [done|]. split; [done|].
  intros i c Hi. split.
  - rewrite elem_of_reported. split.
    + intros (k & pfd & Hk & Ho & Hpos). apply Hown in Ho as (c' & Hc' & Hx). simplify_eq. split; [lia|].
      destruct (Hent k pfd Hk) as (_ & _ & _ & Hrv). rewrite Hx, Nat2Z.id. eauto.
    + intros (Hpos & r & Hrv & Hr0). assert (ow !! Z.to_nat (index_ c) = Some i) as Ho by (apply Hown; exists c; split; [done|lia]).
      destruct (lookup_lt_is_Some_2 pfds (Z.to_nat (index_ c))) as [pfd Hk]; [rewrite <- Hlen; by apply lookup_lt_Some in Ho|].
      exists (Z.to_nat (index_ c)), pfd. split_and!; [done|done|].
      destruct (Hent _ pfd Hk) as (_ & _ & _ & Hrv'). rewrite Hrv in Hrv'. by injection Hrv' as ->.
  - intros (q & Hq)%list_elem_of_lookup.
    destruct (Forall2_lookup_r _ _ _ _ _ Hboth Hq) as (pfd & Hpq & _ & k & Hk & Ho).
    destruct (Forall2_lookup_r _ _ _ _ _ Hrev Hq) as (pfd' & Hpq' & Hv). rewrite Hpq in Hpq'. injection Hpq' as <-.
    rewrite Hv. apply Hown in Ho as (c' & Hc' & Hx). simplify_eq. rewrite Hx, Nat2Z.id.
    by destruct (Hent k pfd Hk) as (_ & _ & _ & ->).
Qed.

(** ** Examples *)

Definition kPollChannels : gmap Z Channel :=
  <[100 := Channel_ctor 100 7]> (<[200 := Channel_ctor 200 8]> (<[300 := Channel_ctor 300 9]> ∅)).

(** The last entry moves to the place of the first. *)
Definition kPollRequests : list (Z * channel_op) :=
  [(100, OpEnableReading true); (200, OpEnableReading false); (300, OpEnableWriting false); (100, OpDisableAll);
   (100, OpRemove None); (300, OpEnableReading false)].

Lemma kPollChannels_fresh : fresh_channels kPollChannels.
Proof.
  unfold kPollChannels. split_and!.
  - vm_compute. reflexivity.
  - intros i c H. rewrite !lookup_insert_Some, lookup_empty in H. naive_solver (cbn; lia).
  - intros i j c d Hi Hj. rewrite !lookup_insert_Some, !lookup_empty in Hi, Hj. naive_solver.
Qed.

Lemma poll_protocol_witness :
  ∃ p' cs' ow, poll_requests PollPoller_ctor kPollChannels kPollRequests = Ret (p', cs') ∧ pp_inv ow p' cs'.
Proof.
  destruct (poll_protocol kPollRequests kPollChannels kPollChannels_fresh) as [H|H]; [exact H|].
  exfalso. destruct H as (os1 & r & os2 & p1 & cs1 & f & _ & _ & _ & H & _). vm_compute in H. discriminate H.
Defined.

Lemma pollers_agree_witness :
  ∃ p cs1 pp cs2 m,
    run_requests Poller_ctor kPollChannels kPollRequests = Ret (p, cs1) ∧
    poll_requests PollPoller_ctor kPollChannels kPollRequests = Ret (pp, cs2) ∧ interest (ctl p) = Some m ∧
    (∃ r, mkPollfd 9 7 r ∈ pollfds_ pp) ∧ m !! 9 = Some 7.
Proof.
  eexists _, _, _, _.
  match goal with |- ∃ _, ?a = Ret (?p, ?cs1) ∧ ?b = Ret (?pp, ?cs2) ∧ _ =>
    assert (a = Ret (p, cs1)) as H1 by (vm_compute; reflexivity);
    assert (b = Ret (pp, cs2)) as H2 by (vm_compute; reflexivity) end.
  destruct (pollers_agree _ _ _ _ _ _ kPollChannels_fresh H1 H2) as (m & Hm & Hag).
  exists m. split_and!; [exact H1|exact H2|exact Hm|..].
  - eexists. vm_compute. apply list_elem_of_lookup. exists 0%nat. reflexivity.
  - vm_compute in Hm. injection Hm as <-. vm_compute. reflexivity.
Defined.

Lemma poll_reports_ready_witness :
  ∃ p cs1 act cs2, poll_requests PollPoller_ctor kPollChannels kPollRequests = Ret (p, cs1) ∧
    fillActiveChannels (fd_map p) (store_revents (pollfds_ p) [5; 0]) cs1 1 [] = Ret (act, cs2) ∧
    NoDup act ∧ 300 ∈ act ∧ revents_ <$> cs2 !! 300 = Some 5.
Proof.
  eexists _, _.
  match goal with |- ∃ _ _, ?b = Ret (?pp, ?cs2) ∧ _ =>
    assert (b = Ret (pp, cs2)) as H by (vm_compute; reflexivity) end.
  destruct (poll_reports_ready _ _ _ _ [5; 0] kPollChannels_fresh H) as (act & cs2 & Hf & Hnd & Hact).
  - reflexivity.
  - intros [|[|k]] pfd [= <-] Hneg; vm_compute in Hneg; discriminate Hneg.
  - destruct (Hact 300 (mkChannel 300 9 7 0 0 false false true)) as [Hin Hrev]; [vm_compute; reflexivity|].
    assert (300 ∈ act) as H300 by (apply Hin; split; [vm_compute; congruence|]; by exists 5).
    exists act, cs2. split_and!; [exact H|exact Hf|exact Hnd|exact H300|by apply Hrev].
Defined.

End PollPoller.
