(* ===== verification/Calendar.v ===== *)
(** * Calendar: dates and UTC time (src/muduo-vip/muduo/base/Date.{h,cc}, TimeZone.cc)

    [getJulianDayNumber] and [getYearMonthDay] convert between the Gregorian
    calendar and a count of days with integer arithmetic only; [toUtcTime] and
    [fromUtcTime] are the gmtime and timegm built on them.  The arithmetic is
    that of [int]: division truncates, and [ints] lists the values an expression
    computes, none of which may overflow.  The reference is the calendar itself:
    leap years, the lengths of the months and the day after a date. *)

From S2P Require Import Prelude.

Module Calendar.

(** ** Date.cc *)

Record YearMonthDay : Type := mkYMD { year : Z; month : Z; day : Z }.

Definition getJulianDayNumber (year month day : Z) : outcome Z :=
  ints [14 - month; year + 4800] ;;
  let a := (14 - month) ÷ 12 in
  let y := year + 4800 - a in
  let m := month + 12 * a - 3 in
  ints [y; 12 * a; month + 12 * a; m] ;;
  let r1 := (153 * m + 2) ÷ 5 in
  ints [153 * m; 153 * m + 2; day + r1; y * 365; day + r1 + y * 365; day + r1 + y * 365 + y ÷ 4;
        day + r1 + y * 365 + y ÷ 4 - y ÷ 100; day + r1 + y * 365 + y ÷ 4 - y ÷ 100 + y ÷ 400;
        day + r1 + y * 365 + y ÷ 4 - y ÷ 100 + y ÷ 400 - 32045] ;;
  Ret (day + r1 + y * 365 + y ÷ 4 - y ÷ 100 + y ÷ 400 - 32045).

Definition getYearMonthDay (julianDayNumber : Z) : outcome YearMonthDay :=
  let a := julianDayNumber + 32044 in
  ints [a; 4 * a; 4 * a + 3] ;;
  let b := (4 * a + 3) ÷ 146097 in
  ints [b * 146097; a - (b * 146097) ÷ 4] ;;
  let c := a - (b * 146097) ÷ 4 in
  ints [4 * c; 4 * c + 3] ;;
  let d := (4 * c + 3) ÷ 1461 in
  ints [1461 * d; c - (1461 * d) ÷ 4] ;;
  let e := c - (1461 * d) ÷ 4 in
  ints [5 * e; 5 * e + 2] ;;
  let m := (5 * e + 2) ÷ 153 in
  ints [153 * m; 153 * m + 2; e - (153 * m + 2) ÷ 5; e - (153 * m + 2) ÷ 5 + 1;
        m + 3; 12 * (m ÷ 10); m + 3 - 12 * (m ÷ 10);
        b * 100; b * 100 + d; b * 100 + d - 4800; b * 100 + d - 4800 + m ÷ 10] ;;
  Ret (mkYMD (b * 100 + d - 4800 + m ÷ 10) (m + 3 - 12 * (m ÷ 10)) (e - (153 * m + 2) ÷ 5 + 1)).

Definition kJulianDayOf1970_01_01 : Z := 2440588.

Example kJulianDayOf1970_01_01_ok : getJulianDayNumber 1970 1 1 = Ret kJulianDayOf1970_01_01.
Proof. reflexivity. Qed.

Definition kDaysPerWeek : Z := 7.

Definition weekDay (julianDayNumber_ : Z) : outcome Z :=
  ints [julianDayNumber_ + 1] ;;
  Ret ((julianDayNumber_ + 1) `rem` kDaysPerWeek).

(** ** UTC time of TimeZone.cc *)

Record tm : Type := mkTm {
  tm_sec : Z; tm_min : Z; tm_hour : Z; tm_mday : Z; tm_mon : Z; tm_year : Z; tm_wday : Z; tm_yday : Z;
}.

Definition kSecondsPerDay : Z := 24 * 60 * 60.

(** Seconds, minutes, hours of [unsigned seconds]. *)
Definition fillHMS (seconds : Z) : Z * Z * Z :=
  let minutes := seconds / 60 in
  (seconds mod 60, minutes mod 60, minutes / 60).

Definition toUtcTime (secondsSinceEpoch : Z) (yday : bool) : outcome tm :=
  let seconds := s32 (secondsSinceEpoch `rem` kSecondsPerDay) in
  let days := s32 (secondsSinceEpoch ÷ kSecondsPerDay) in
  let '(seconds, days) := if seconds <? 0 then (seconds + kSecondsPerDay, days - 1) else (seconds, days) in
  ints [days] ;;
  let '(sec, min, hour) := fillHMS (u32 seconds) in
  ints [days + kJulianDayOf1970_01_01] ;;
  let date := days + kJulianDayOf1970_01_01 in
  ymd ← getYearMonthDay date;
  wday ← weekDay date;
  yd ← (if yday then
          startOfYear ← getJulianDayNumber (year ymd) 1 1;
          ints [date - startOfYear] ;;
          Ret (date - startOfYear)
        else Ret 0);
  ints [year ymd - 1900; month ymd - 1] ;;
  Ret (mkTm sec min hour (day ymd) (month ymd - 1) (year ymd - 1900) wday yd).

Definition fromUtcTime (year month day hour minute seconds : Z) : outcome Z :=
  date ← getJulianDayNumber year month day;
  ints [hour * 3600; minute * 60; hour * 3600 + minute * 60; hour * 3600 + minute * 60 + seconds;
        date - kJulianDayOf1970_01_01] ;;
  let secondsInDay := hour * 3600 + minute * 60 + seconds in
  let days := date - kJulianDayOf1970_01_01 in
  Ret (days * kSecondsPerDay + secondsInDay).

Definition fromUtcTime_tm (utc : tm) : outcome Z :=
  ints [tm_year utc + 1900; tm_mon utc + 1] ;;
  fromUtcTime (tm_year utc + 1900) (tm_mon utc + 1) (tm_mday utc) (tm_hour utc) (tm_min utc) (tm_sec utc).

(** ** The reference calendar *)

Definition leap (y : Z) : bool := (y mod 4 =? 0) && (negb (y mod 100 =? 0) || (y mod 400 =? 0)).

Definition days_in_month (y m : Z) : Z :=
  if m =? 2 then (if leap y then 29 else 28)
  else if (m =? 4) || (m =? 6) || (m =? 9) || (m =? 11) then 30 else 31.

Definition date_ok (x : YearMonthDay) : Prop :=
  -4800 < year x ≤ 1400000 ∧ 1 ≤ month x ≤ 12 ∧ 1 ≤ day x ≤ days_in_month (year x) (month x).

Definition next_day (x : YearMonthDay) : YearMonthDay :=
  if day x <? days_in_month (year x) (month x) then mkYMD (year x) (month x) (day x + 1)
  else if month x <? 12 then mkYMD (year x) (month x + 1) 1
  else mkYMD (year x + 1) 1 1.

(** ** Proofs *)

(** The day count without the checks: [y] and [m] count from March. *)
Definition march_days (y m : Z) : Z := (153 * m + 2) / 5 + y * 365 + y / 4 - y / 100 + y / 400.

Definition jdn (x : YearMonthDay) : Z :=
  let a := if month x <? 3 then 1 else 0 in
  day x + march_days (year x + 4800 - a) (month x + 12 * a - 3) - 32045.

Lemma getJulianDayNumber_eq x : date_ok x →
  getJulianDayNumber (year x) (month x) (day x) = Ret (jdn x) ∧ -32044 ≤ jdn x ≤ 520000000.
Proof.
  intros (Hy & Hm & Hd). unfold getJulianDayNumber, jdn, march_days.
  assert (days_in_month (year x) (month x) ≤ 31) by (unfold days_in_month; repeat case_match; lia).
  assert ((14 - month x) ÷ 12 = if month x <? 3 then 1 else 0) as ->.
  { rewrite Z.quot_div_nonneg by lia. destruct (Z.ltb_spec (month x) 3); dlia. }
  set (a := if month x <? 3 then 1 else 0). assert (0 ≤ a ≤ 1) as Ha by (unfold a; case_match; lia).
  assert (0 ≤ month x + 12 * a - 3 ≤ 11) as Hmm by (unfold a; destruct (Z.ltb_spec (month x) 3); lia).
  clearbody a. rewrite !Z.quot_div_nonneg by lia.
  set (y := year x + 4800 - a) in *. set (m := month x + 12 * a - 3) in *.
  rewrite !ints_ok by (repeat constructor; dlia). rewrite !bind_ret. split; [f_equal; lia|dlia].
Qed.

(** The divisions of [getYearMonthDay] recover century, year and day of a year
    that starts in March; [E] is the day in that year. *)
Lemma century y E : 0 ≤ y → 0 ≤ E ≤ 365 → (E = 365 → leap (y + 1) = true) →
  let a := E + y * 365 + y / 4 - y / 100 + y / 400 in
  (4 * a + 3) / 146097 = y / 100 ∧
  a - (y / 100 * 146097) / 4 = E + 365 * (y mod 100) + (y mod 100) / 4.
Proof.
  intros Hy HE Hleap. cbn zeta. unfold leap in Hleap.
  assert (∃ s u r, y = 400 * s + 100 * u + r ∧ 0 ≤ s ∧ 0 ≤ u < 4 ∧ 0 ≤ r < 100) as (s & u & r & -> & Hs & Hu & Hr).
  { exists (y / 400), ((y mod 400) / 100), (y mod 100). dlia. }
  replace ((400 * s + 100 * u + r) / 100) with (4 * s + u) by dlia.
  replace ((400 * s + 100 * u + r) / 400) with s by dlia.
  replace ((400 * s + 100 * u + r) / 4) with (100 * s + 25 * u + r / 4) by dlia.
  replace ((400 * s + 100 * u + r) mod 100) with r by dlia.
  assert (E = 365 → r = 99 → u = 3) as Hu3.
  { intros HE2 ->. specialize (Hleap HE2). apply andb_true_iff in Hleap as [_ Hl].
    apply orb_true_iff in Hl as [Hl|Hl]; [apply negb_true_iff, Z.eqb_neq in Hl|apply Z.eqb_eq in Hl]; dlia. }
  split; [|dlia]. symmetry. apply (Z.div_unique _ _ _ (4 * (E + 365 * r + r / 4) + 3 - u)); [|dlia]. left.
  destruct (decide (E = 365)), (decide (r = 99)); dlia.
Qed.

Lemma year_of_century r E : 0 ≤ r < 100 → 0 ≤ E ≤ 365 → (E = 365 → r mod 4 = 3) →
  let c := E + 365 * r + r / 4 in (4 * c + 3) / 1461 = r ∧ c - (1461 * r) / 4 = E.
Proof.
  intros Hr HE Hl. cbn zeta. split; [|dlia]. symmetry.
  apply (Z.div_unique _ _ _ (4 * E + 3 - r mod 4)); [left|]; destruct (decide (E = 365)); dlia.
Qed.

(** Month and day in a year that starts in March. *)
Lemma month_of_year m d len : 0 ≤ m ≤ 11 → 1 ≤ d ≤ len → len ≤ (if m =? 11 then 29 else (153 * (m + 1) + 2) / 5 - (153 * m + 2) / 5) →
  let E := (153 * m + 2) / 5 + (d - 1) in
  (5 * E + 2) / 153 = m ∧ E - (153 * m + 2) / 5 + 1 = d ∧ 0 ≤ E ≤ 365 ∧ (E = 365 → m = 11 ∧ d = 29).
Proof.
  intros Hm Hd Hlen. cbn zeta. destruct (Z.eqb_spec m 11); dlia.
Qed.

Lemma march_length y m : 1 ≤ m ≤ 12 → let m' := if m <? 3 then m + 9 else m - 3 in
  days_in_month y m ≤ (if m' =? 11 then 29 else (153 * (m' + 1) + 2) / 5 - (153 * m' + 2) / 5).
Proof.
  intros Hm. cbn zeta. unfold days_in_month.
  assert (∃ n, (n < 13)%nat ∧ m = Z.of_nat n) as (n & Hn & ->) by (exists (Z.to_nat m); lia).
  do 13 (destruct n as [|n]; [cbn; destruct (leap y); (done || lia)|]). lia.
Qed.

Lemma getYearMonthDay_jdn x : date_ok x → getYearMonthDay (jdn x) = Ret x.
Proof.
  intros Hx. destruct (getJulianDayNumber_eq x Hx) as [_ Hrange]. destruct Hx as (Hy & Hm & Hd).
  pose proof (march_length (year x) (month x) Hm) as Hlen. cbn zeta in Hlen.
  unfold jdn in *. set (a := if month x <? 3 then 1 else 0) in *.
  replace (if month x <? 3 then month x + 9 else month x - 3) with (month x + 12 * a - 3) in Hlen
    by (unfold a; destruct (Z.ltb_spec (month x) 3); lia).
  assert (0 ≤ month x + 12 * a - 3 ≤ 11 ∧ 0 ≤ a ≤ 1 ∧ (month x = 2 ↔ month x + 12 * a - 3 = 11) ∧
    (month x + 12 * a - 3) / 10 = a) as (Hm' & Ha & H2 & H10)
    by (unfold a; destruct (Z.ltb_spec (month x) 3); dlia).
  destruct (month_of_year (month x + 12 * a - 3) (day x) _ Hm' Hd Hlen) as (Hmon & Hday & HE & HE2).
  unfold march_days in *. set (m := month x + 12 * a - 3) in *. set (y := year x + 4800 - a) in *.
  set (E := (153 * m + 2) / 5 + (day x - 1)) in *.
  assert (E = 365 → leap (y + 1) = true) as Hleap.
  { intros He. destruct (HE2 He) as [E11 E29]. apply H2 in E11 as E2. unfold days_in_month in Hd.
    rewrite E2, E29 in Hd. cbn in Hd. destruct (leap (year x)) eqn:Hl; [|lia].
    assert (a = 1) as Ha1 by (unfold a; rewrite E2; done).
    unfold y. rewrite Ha1. unfold leap in *. replace (year x + 4800 - 1 + 1) with (year x + 12 * 400) by lia.
    rewrite (Z_mod_plus_full (year x) 12 400). replace (year x + 12 * 400) with (year x + 1200 * 4) by lia.
    rewrite Z_mod_plus_full. replace (year x + 1200 * 4) with (year x + 48 * 100) by lia. by rewrite Z_mod_plus_full. }
  assert (0 ≤ y ≤ 1404800) as Hy2 by (unfold y; lia).
  destruct (century y E) as [Hb Hc]; [lia|done|done|].
  destruct (year_of_century (y mod 100) E) as [Hdd He]; [dlia|done| |].
  { intros H365. specialize (Hleap H365). apply andb_true_iff in Hleap as [Hl _]. apply Z.eqb_eq in Hl. dlia. }
  unfold getYearMonthDay.
  replace (day x + ((153 * m + 2) / 5 + y * 365 + y / 4 - y / 100 + y / 400) - 32045 + 32044)
    with (E + y * 365 + y / 4 - y / 100 + y / 400) by (unfold E; lia).
  set (A := E + y * 365 + y / 4 - y / 100 + y / 400) in *. set (C := E + 365 * (y mod 100) + y mod 100 / 4) in *.
  assert (0 ≤ A ≤ 530000000 ∧ 0 ≤ C ≤ 40000 ∧ 0 ≤ y / 100 ≤ 14048 ∧ 0 ≤ y mod 100 < 100 ∧
    y = 100 * (y / 100) + y mod 100 ∧ 0 ≤ (153 * m + 2) / 5 ≤ 400) as (HA & HC & Hb1 & Hr1 & Hyy & Hu).
  { unfold A, C. clear -Hy2 HE Hm'. dlia. }
  rewrite (Z.quot_div_nonneg (4 * A + 3)), Hb by lia. rewrite (Z.quot_div_nonneg (y / 100 * 146097)), Hc by lia.
  rewrite (Z.quot_div_nonneg (4 * C + 3)), Hdd by lia. rewrite (Z.quot_div_nonneg (1461 * (y mod 100))), He by lia.
  rewrite (Z.quot_div_nonneg (5 * E + 2)), Hmon by lia. rewrite (Z.quot_div_nonneg (153 * m + 2)), (Z.quot_div_nonneg m) by lia.
  rewrite Hday, H10. clearbody A C. rewrite !ints_ok by (repeat constructor; lia). rewrite !bind_ret.
  clear -Hyy. destruct x as [Y M D]. cbn [year month day] in *. f_equal. f_equal; unfold m, y in *; lia.
Qed.

(** ** The day count *)

(** The years divisible by [k] up to [y + 1]. *)
Lemma div_succ y k : 0 < k → (y + 1) / k - y / k = if (y + 1) mod k =? 0 then 1 else 0.
Proof.
  intros Hk. destruct (Z.eqb_spec ((y + 1) mod k) 0) as [E|E].
  - pose proof (Z.div_mod (y + 1) k). replace (y / k) with ((y + 1) / k - 1); [lia|].
    apply (Z.div_unique _ _ _ (k - 1)); lia.
  - pose proof (Z.div_mod (y + 1) k). pose proof (Z.mod_pos_bound (y + 1) k).
    replace (y / k) with ((y + 1) / k); [lia|]. apply (Z.div_unique _ _ _ ((y + 1) mod k - 1)); lia.
Qed.

Lemma leap_4800 y : leap (y + 4800) = leap y.
Proof.
  unfold leap. replace (y + 4800) with (y + 12 * 400) by lia. rewrite (Z_mod_plus_full y 12 400).
  replace (y + 12 * 400) with (y + 1200 * 4) by lia. rewrite Z_mod_plus_full.
  replace (y + 1200 * 4) with (y + 48 * 100) by lia. by rewrite Z_mod_plus_full.
Qed.

(** From February to March. *)
Lemma march_year y : march_days (y + 1) 0 = march_days y 11 + (if leap (y + 1) then 29 else 28).
Proof.
  unfold march_days, leap. pose proof (div_succ y 4). pose proof (div_succ y 100). pose proof (div_succ y 400).
  change ((153 * 0 + 2) / 5) with 0. change ((153 * 11 + 2) / 5) with 337.
  destruct (Z.eqb_spec ((y + 1) mod 4) 0), (Z.eqb_spec ((y + 1) mod 100) 0), (Z.eqb_spec ((y + 1) mod 400) 0);
    cbn [andb orb negb]; dlia.
Qed.

(** Evaluates the expressions of a month that is a number. *)
Ltac norm_month :=
  repeat match goal with
  | |- context [(153 * ?t + 2) / 5] =>
      let v := eval vm_compute in ((153 * t + 2) / 5) in change ((153 * t + 2) / 5) with v
  | |- context [if ?c then _ else _] =>
      let v := eval vm_compute in c in
      lazymatch v with true => idtac | false => idtac end; change c with v; cbn iota
  end.

Lemma jdn_next x : date_ok x → jdn (next_day x) = jdn x + 1.
Proof.
  destruct x as [y m d]. intros (_ & Hm & Hd). cbn [year month day] in *. unfold next_day, jdn. cbn [year month day].
  destruct (Z.ltb_spec d (days_in_month y m)) as [Hlt|Hge]; cbn [year month day]; [lia|].
  assert (d = days_in_month y m) as -> by lia. clear Hd Hge.
  destruct (decide (m = 2)) as [->|H2].
  { change (2 <? 12) with true. cbn iota. cbn [year month day]. change (2 + 1 <? 3) with false. change (2 <? 3) with true.
    cbn iota. change (2 + 1 + 12 * 0 - 3) with 0. change (2 + 12 * 1 - 3) with 11.
    replace (y + 4800 - 0) with (y + 4800 - 1 + 1) by lia. rewrite march_year.
    replace (y + 4800 - 1 + 1) with (y + 4800) by lia. rewrite leap_4800. unfold days_in_month.
    change (2 =? 2) with true. cbn iota. destruct (leap y); lia. }
  unfold days_in_month. rewrite (proj2 (Z.eqb_neq _ _) H2).
  destruct (Z.ltb_spec m 12) as [H12|H12]; cbn [year month day].
  - assert (∃ n, (n < 12)%nat ∧ m = Z.of_nat n) as (n & Hn & ->) by (exists (Z.to_nat m); lia).
    unfold march_days. do 12 (destruct n as [|n]; [norm_month; lia|]). lia.
  - assert (m = 12) as -> by lia. cbn. unfold march_days. replace (y + 1 + 4800 - 1) with (y + 4800 - 0) by lia. 
    change ((153 * (1 + 12 * 1 - 3) + 2) / 5) with 306. change ((153 * (12 + 12 * 0 - 3) + 2) / 5) with 275. lia.
Qed.

Lemma next_day_ok x : date_ok x → (x = mkYMD 1400000 12 31 ∨ date_ok (next_day x)).
Proof.
  destruct x as [y m d]. intros (Hy & Hm & Hd). cbn [year month day] in *. unfold next_day, date_ok. cbn [year month day].
  assert (∀ y m, 28 ≤ days_in_month y m ≤ 31) as Hlen.
  { intros y' m'. unfold days_in_month. repeat case_match; lia. }
  destruct (Z.ltb_spec d (days_in_month y m)); cbn [year month day]; [right; lia|].
  destruct (Z.ltb_spec m 12); cbn [year month day]; [right; pose proof (Hlen y (m + 1)); lia|].
  destruct (decide (y = 1400000)) as [->|]; [left|right; pose proof (Hlen (y + 1) 1); lia].
  assert (m = 12) as -> by lia. f_equal. change (days_in_month 1400000 12) with 31 in *. lia.
Qed.

Definition kLastDay : Z := 513060925.

(** Every day number has a date. *)
Lemma date_of_day n : -31738 ≤ n ≤ kLastDay → ∃ x, date_ok x ∧ jdn x = n.
Proof.
  intros Hn. remember (Z.to_nat (n + 31738)) as k eqn:Hk. revert n Hn Hk.
  induction k as [|k IH]; intros n Hn Hk.
  - exists (mkYMD (-4799) 1 1). split; [repeat split; cbn; lia|].
    assert (jdn (mkYMD (-4799) 1 1) = -31738) as -> by (vm_compute; reflexivity). lia.
  - destruct (IH (n - 1)) as (x & Hx & Hj); [lia|lia|].
    destruct (next_day_ok x Hx) as [->|Hok]; [|exists (next_day x); split; [done|rewrite jdn_next by done; lia]].
    exfalso. assert (jdn (mkYMD 1400000 12 31) = kLastDay) as E by (vm_compute; reflexivity). lia.
Qed.

Lemma jdn_last x : date_ok x → jdn x ≤ kLastDay.
Proof.
  intros (Hy & Hm & Hd). unfold jdn, march_days, kLastDay.
  assert (days_in_month (year x) (month x) ≤ 31) by (unfold days_in_month; repeat case_match; lia).
  destruct (Z.ltb_spec (month x) 3); dlia.
Qed.

(** The count of days is that of the calendar: the number of the day after a
    date is one more, and the date is recovered from its number, for all dates
    of the years -4799 to 1400000; no [int] overflows. *)
Theorem julian_day_roundtrip x : date_ok x →
  ∃ n, getJulianDayNumber (year x) (month x) (day x) = Ret n ∧ getYearMonthDay n = Ret x ∧
    (date_ok (next_day x) →
     getJulianDayNumber (year (next_day x)) (month (next_day x)) (day (next_day x)) = Ret (n + 1)).
Proof.
  intros Hx. exists (jdn x). split; [by apply getJulianDayNumber_eq|]. split; [by apply getYearMonthDay_jdn|].
  intros Hn. rewrite <- jdn_next by done. by apply getJulianDayNumber_eq.
Qed.

(** ** UTC time *)

Definition time_ok (t : Z) : Prop :=
  - kJulianDayOf1970_01_01 * kSecondsPerDay ≤ t < (kLastDay - kJulianDayOf1970_01_01 + 1) * kSecondsPerDay.

Definition hms_ok (h m s : Z) : Prop := 0 ≤ h < 24 ∧ 0 ≤ m < 60 ∧ 0 ≤ s < 60.

Lemma toUtcTime_eq t yday x : time_ok t → date_ok x → jdn x = t / kSecondsPerDay + kJulianDayOf1970_01_01 →
  ∃ u, toUtcTime t yday = Ret u ∧
    tm_year u = year x - 1900 ∧ tm_mon u = month x - 1 ∧ tm_mday u = day x ∧
    hms_ok (tm_hour u) (tm_min u) (tm_sec u) ∧
    tm_hour u * 3600 + tm_min u * 60 + tm_sec u = t mod kSecondsPerDay ∧
    tm_wday u = (t / kSecondsPerDay + 4) mod 7 ∧
    tm_yday u = if yday then jdn x - jdn (mkYMD (year x) 1 1) else 0.
Proof.
  intros Ht Hx Hj. unfold time_ok, kLastDay in Ht. unfold kSecondsPerDay, kJulianDayOf1970_01_01 in *.
  change (24 * 60 * 60) with 86400 in *. unfold toUtcTime, kSecondsPerDay, kJulianDayOf1970_01_01.
  change (24 * 60 * 60) with 86400.
  assert (s32 (t `rem` 86400) = t `rem` 86400 ∧ s32 (t ÷ 86400) = t ÷ 86400) as [-> ->].
  { split; apply sint_small; dlia. }
  assert ((if t `rem` 86400 <? 0 then (t `rem` 86400 + 86400, t ÷ 86400 - 1) else (t `rem` 86400, t ÷ 86400)) =
    (t mod 86400, t / 86400)) as ->.
  { destruct (Z.ltb_spec (t `rem` 86400) 0); f_equal; dlia. }
  unfold u32. rewrite (Z.mod_small (t mod 86400)) by dlia. unfold fillHMS.
  rewrite !ints_ok by (repeat constructor; dlia). rewrite !bind_ret. rewrite <- Hj, (getYearMonthDay_jdn x Hx), bind_ret.
  assert (0 ≤ jdn x ≤ 513060925) as Hr by (rewrite Hj; dlia).
  unfold weekDay, kDaysPerWeek. rewrite (ints_ok [jdn x + 1]) by (repeat constructor; lia). rewrite !bind_ret.
  destruct (getJulianDayNumber_eq (mkYMD (year x) 1 1)) as [Hjan Hjr].
  { destruct Hx as (Hy & _ & _). repeat split; cbn; lia. }
  cbn [year month day] in Hjan.
  assert (∃ yd, (if yday then startOfYear ← getJulianDayNumber (year x) 1 1; ints [jdn x - startOfYear] ;; Ret (jdn x - startOfYear) else Ret 0) = Ret yd ∧
     yd = if yday then jdn x - jdn (mkYMD (year x) 1 1) else 0) as (yd & -> & Hyd).
  { destruct yday; [|by eexists]. rewrite Hjan, bind_ret, ints_ok by (repeat constructor; lia). by eexists. }
  rewrite bind_ret. destruct Hx as (Hy & Hm & _). rewrite ints_ok by (repeat constructor; lia). rewrite bind_ret.
  eexists. split; [reflexivity|]. cbn [tm_year tm_mon tm_mday tm_hour tm_min tm_sec tm_wday tm_yday].
  split_and!; try done; unfold hms_ok; [dlia|dlia|]. rewrite Z.rem_mod_nonneg by lia. rewrite Hj. dlia.
Qed.

Lemma fromUtcTime_eq x h m s : date_ok x → hms_ok h m s → 0 ≤ jdn x →
  fromUtcTime (year x) (month x) (day x) h m s =
    Ret ((jdn x - kJulianDayOf1970_01_01) * kSecondsPerDay + (h * 3600 + m * 60 + s)).
Proof.
  intros Hx (Hh & Hm & Hs) Hj. unfold fromUtcTime. destruct (getJulianDayNumber_eq x Hx) as [-> Hr].
  rewrite bind_ret, ints_ok; [done|]. unfold kJulianDayOf1970_01_01. repeat constructor; lia.
Qed.

(** [toUtcTime] and [fromUtcTime] are inverse to each other on all times from
    4713 BC to the year 1400000, and [toUtcTime] gives a valid date and time with
    the right day of the week. *)
Theorem utc_time_roundtrip t yday : time_ok t →
  ∃ u, toUtcTime t yday = Ret u ∧ fromUtcTime_tm u = Ret t ∧
    date_ok (mkYMD (tm_year u + 1900) (tm_mon u + 1) (tm_mday u)) ∧
    hms_ok (tm_hour u) (tm_min u) (tm_sec u) ∧ tm_wday u = (t / kSecondsPerDay + 4) mod 7.
Proof.
  intros Ht. destruct (date_of_day (t / kSecondsPerDay + kJulianDayOf1970_01_01)) as (x & Hx & Hj).
  { unfold time_ok, kLastDay, kSecondsPerDay, kJulianDayOf1970_01_01 in *. dlia. }
  destruct (toUtcTime_eq t yday x Ht Hx Hj) as (u & -> & Hy & Hm & Hd & Hhms & Hsec & Hw & _).
  exists u. split; [done|]. replace (tm_year u + 1900) with (year x) by lia. replace (tm_mon u + 1) with (month x) by lia.
  rewrite Hd. split; [|split_and!; [by destruct x|done|done]].
  unfold fromUtcTime_tm. replace (tm_year u + 1900) with (year x) by lia. replace (tm_mon u + 1) with (month x) by lia.
  pose proof Hx as (? & ? & _). rewrite ints_ok by (repeat constructor; lia). rewrite bind_ret, Hd, fromUtcTime_eq by
    (done || (unfold time_ok, kSecondsPerDay, kJulianDayOf1970_01_01 in *; dlia)).
  f_equal. rewrite Hsec, Hj. unfold kSecondsPerDay. dlia.
Qed.

(** The other direction: the seconds of a date and a time of day are broken up
    into the same date and time; the day of the year is counted from January 1. *)
Theorem civil_time_roundtrip x h m s : date_ok x → 0 ≤ jdn x → hms_ok h m s →
  ∃ t u, fromUtcTime (year x) (month x) (day x) h m s = Ret t ∧ toUtcTime t true = Ret u ∧
    tm_year u = year x - 1900 ∧ tm_mon u = month x - 1 ∧ tm_mday u = day x ∧
    tm_hour u = h ∧ tm_min u = m ∧ tm_sec u = s ∧ tm_yday u = jdn x - jdn (mkYMD (year x) 1 1).
Proof.
  intros Hx Hj Hhms. destruct (getJulianDayNumber_eq x Hx) as [_ Hr]. rewrite (fromUtcTime_eq x h m s Hx Hhms Hj).
  pose proof Hhms as (Hh & Hm & Hs). set (t := _ + (h * 3600 + m * 60 + s)). exists t.
  assert (jdn x ≤ kLastDay) as Hlast by (by apply jdn_last).
  assert (t / kSecondsPerDay = jdn x - kJulianDayOf1970_01_01 ∧ t mod kSecondsPerDay = h * 3600 + m * 60 + s) as [Hq Hrem].
  { unfold t, kSecondsPerDay. dlia. }
  destruct (toUtcTime_eq t true x) as (u & Hu & Hy & Hmo & Hd & (? & ? & ?) & Hsec & _ & Hyd); [|done|lia|].
  { unfold time_ok, t, kSecondsPerDay, kJulianDayOf1970_01_01 in *. lia. }
  exists u. rewrite Hrem in Hsec. split_and!; try done; dlia.
Qed.

(** ** Examples *)

Lemma julian_day_roundtrip_witness :
  ∃ n, getJulianDayNumber 2000 2 28 = Ret n ∧ getYearMonthDay n = Ret (mkYMD 2000 2 28) ∧
    getJulianDayNumber 2000 2 29 = Ret (n + 1).
Proof.
  destruct (julian_day_roundtrip (mkYMD 2000 2 28)) as (n & H1 & H2 & H3).
  - repeat split; vm_compute; congruence.
  - exists n. split_and!; [exact H1|exact H2|]. apply H3. repeat split; vm_compute; congruence.
Defined.

Lemma utc_time_roundtrip_witness :
  ∃ u, toUtcTime (-1) true = Ret u ∧ fromUtcTime_tm u = Ret (-1) ∧ tm_wday u = 3.
Proof.
  destruct (utc_time_roundtrip (-1) true) as (u & H1 & H2 & _ & _ & H3).
  - split; vm_compute; congruence.
  - exists u. split_and!; [exact H1|exact H2|exact H3].
Defined.

Lemma civil_time_roundtrip_witness :
  ∃ t u, fromUtcTime 2020 12 31 23 59 58 = Ret t ∧ toUtcTime t true = Ret u ∧ tm_yday u = 365.
Proof.
  destruct (civil_time_roundtrip (mkYMD 2020 12 31) 23 59 58) as (t & u & H1 & H2 & _ & _ & _ & _ & _ & _ & H3).
  - repeat split; vm_compute; congruence.
  - vm_compute. congruence.
  - repeat split; vm_compute; congruence.
  - exists t, u. split_and!; [exact H1|exact H2|]. rewrite H3. vm_compute. reflexivity.
Defined.

End Calendar.
