(* ===== verification/BlockingQueues.v ===== *)
(** * BlockingQueues: queues shared by threads (src/muduo-vip/muduo/base/BlockingQueue.h, BoundedBlockingQueue.h, CountDownLatch.cc)

    Each operation runs under the mutex from its beginning, or from the moment
    it wakes up, to its end or to its next [wait]; these are the steps of a
    transition system over the threads that are about to enter ([ready]) and
    those that wait on a condition.  [notify] wakes one waiting thread if there
    is one; a waiting thread may also wake up for no reason.  The calls that have
    returned are recorded.  [maxSize] is [None] for the unbounded BlockingQueue,
    on which no thread ever waits for [notFull_]. *)

From stdpp Require Export relations.
From S2P Require Import Prelude.

Module BlockingQueues.

Section queue.
Context {T : Type}.
Variable maxSize : option nat.

Inductive call : Type := Put (x : T) | Take.

Record BlockingQueue : Type := mkBQ {
  queue_ : list T;
  ready : list call;
  waiting_notEmpty : nat;
  waiting_notFull : list T;
  puts : list T;
  takes : list T;
}.

Definition BlockingQueue_ctor : BlockingQueue := mkBQ [] [] 0 [] [] [].

Definition full (q : list T) : bool :=
  match maxSize with Some n => (n <=? length q)%nat | None => false end.

(** [notEmpty_.notify()] and [notFull_.notify()]. *)
Inductive notify_notEmpty : BlockingQueue → BlockingQueue → Prop :=
  | nobody_waits_empty s : waiting_notEmpty s = 0%nat → notify_notEmpty s s
  | wakes_taker s n : waiting_notEmpty s = S n →
      notify_notEmpty s (mkBQ (queue_ s) (Take :: ready s) n (waiting_notFull s) (puts s) (takes s)).

Inductive notify_notFull : BlockingQueue → BlockingQueue → Prop :=
  | nobody_waits_full s : waiting_notFull s = [] → notify_notFull s s
  | wakes_putter s w1 x w2 : waiting_notFull s = w1 ++ x :: w2 →
      notify_notFull s (mkBQ (queue_ s) (Put x :: ready s) (waiting_notEmpty s) (w1 ++ w2) (puts s) (takes s)).

(** One thread holds the mutex and goes on. *)
Inductive step : BlockingQueue → BlockingQueue → Prop :=
  | step_call s c :
      step s (mkBQ (queue_ s) (c :: ready s) (waiting_notEmpty s) (waiting_notFull s) (puts s) (takes s))
  | step_put_waits s r1 r2 x :
      ready s = r1 ++ Put x :: r2 → full (queue_ s) = true →
      step s (mkBQ (queue_ s) (r1 ++ r2) (waiting_notEmpty s) (x :: waiting_notFull s) (puts s) (takes s))
  | step_put s s' r1 r2 x :
      ready s = r1 ++ Put x :: r2 → full (queue_ s) = false →
      notify_notEmpty (mkBQ (queue_ s ++ [x]) (r1 ++ r2) (waiting_notEmpty s) (waiting_notFull s)
                         (puts s ++ [x]) (takes s)) s' →
      step s s'
  | step_take_waits s r1 r2 :
      ready s = r1 ++ Take :: r2 → queue_ s = [] →
      step s (mkBQ (queue_ s) (r1 ++ r2) (S (waiting_notEmpty s)) (waiting_notFull s) (puts s) (takes s))
  | step_take s s' r1 r2 x q :
      ready s = r1 ++ Take :: r2 → queue_ s = x :: q →
      notify_notFull (mkBQ q (r1 ++ r2) (waiting_notEmpty s) (waiting_notFull s) (puts s) (takes s ++ [x])) s' →
      step s s'
  | step_wake_taker s n :
      waiting_notEmpty s = S n →
      step s (mkBQ (queue_ s) (Take :: ready s) n (waiting_notFull s) (puts s) (takes s))
  | step_wake_putter s w1 x w2 :
      waiting_notFull s = w1 ++ x :: w2 →
      step s (mkBQ (queue_ s) (Put x :: ready s) (waiting_notEmpty s) (w1 ++ w2) (puts s) (takes s)).

Definition reachable (s : BlockingQueue) : Prop := rtc step BlockingQueue_ctor s.

(** ** Invariants *)

Definition is_take (c : call) : bool := match c with Take => true | Put _ => false end.
Definition takers (r : list call) : nat := length (filter is_take r).
Definition putters (r : list call) : nat := length (filter (λ c, negb (is_take c)) r).

(** What the queue holds is what was put and not yet taken; it has room for what
    it holds; and a thread waits only while the threads that are about to enter
    can still use up the elements, or the room, that is there. *)
Record inv (s : BlockingQueue) : Prop := Inv {
  inv_fifo : takes s ++ queue_ s = puts s;
  inv_bound : ∀ n, maxSize = Some n → (length (queue_ s) ≤ n)%nat;
  inv_takers : waiting_notEmpty s ≠ 0%nat → (length (queue_ s) ≤ takers (ready s))%nat;
  inv_putters : waiting_notFull s ≠ [] →
    ∃ n, maxSize = Some n ∧ (n ≤ length (queue_ s) + putters (ready s))%nat;
}.

Lemma takers_app r1 r2 : takers (r1 ++ r2) = (takers r1 + takers r2)%nat.
Proof. unfold takers. by rewrite filter_app, length_app. Qed.

Lemma putters_app r1 r2 : putters (r1 ++ r2) = (putters r1 + putters r2)%nat.
Proof. unfold putters. by rewrite filter_app, length_app. Qed.

Lemma takers_cons c r : takers (c :: r) = ((if is_take c then 1 else 0) + takers r)%nat.
Proof. by destruct c. Qed.

Lemma putters_cons c r : putters (c :: r) = ((if is_take c then 0 else 1) + putters r)%nat.
Proof. by destruct c. Qed.

#[local] Arguments takers : simpl never.
#[local] Arguments putters : simpl never.
#[local] Hint Rewrite takers_app putters_app takers_cons putters_cons @length_app : queue.

Lemma full_spec q : full q = true ↔ ∃ n, maxSize = Some n ∧ (n ≤ length q)%nat.
Proof.
  unfold full. destruct maxSize as [n|]; [rewrite Nat.leb_le|]; naive_solver.
Qed.

Ltac queue_arith :=
  repeat match goal with
  | H : ready _ = _ |- _ => rewrite H in *; clear H
  | H : waiting_notEmpty _ = _ |- _ => rewrite H in *; clear H
  | H : waiting_notFull _ = _ |- _ => rewrite H in *; clear H
  end;
  autorewrite with queue in *; cbn [length is_take] in *.

Lemma notify_notEmpty_inv s s' :
  notify_notEmpty s s' → takes s ++ queue_ s = puts s →
  (∀ n, maxSize = Some n → (length (queue_ s) ≤ n)%nat) →
  (waiting_notEmpty s ≠ 0%nat → (length (queue_ s) ≤ S (takers (ready s)))%nat) →
  (waiting_notFull s ≠ [] → ∃ n, maxSize = Some n ∧ (n ≤ length (queue_ s) + putters (ready s))%nat) →
  inv s'.
Proof.
  intros [s0 Hw|s0 n Hw] Hf Hb Ht Hp; split; cbn in *; try done.
  - intros Hn. rewrite takers_cons. cbn. apply Ht. lia.
Qed.

Lemma notify_notFull_inv s s' :
  notify_notFull s s' → takes s ++ queue_ s = puts s →
  (∀ n, maxSize = Some n → (length (queue_ s) ≤ n)%nat) →
  (waiting_notEmpty s ≠ 0%nat → (length (queue_ s) ≤ takers (ready s))%nat) →
  (waiting_notFull s ≠ [] → ∃ n, maxSize = Some n ∧ (n ≤ S (length (queue_ s) + putters (ready s)))%nat) →
  inv s'.
Proof.
  intros [s0 Hw|s0 w1 x w2 Hw] Hf Hb Ht Hp; split; cbn in *; try done.
  intros Hn. destruct Hp as (n & Hm & Hle); [rewrite Hw; by destruct w1|].
  exists n. split; [done|]. rewrite putters_cons. cbn. lia.
Qed.

Lemma queue_step_inv s s' : step s s' → inv s → inv s'.
Proof.
  intros Hstep [Hf Hb Ht Hp].
  destruct Hstep as [s c|s r1 r2 x Hr Hfull|s s' r1 r2 x Hr Hfull Hn|s r1 r2 Hr Hq|s s' r1 r2 x q Hr Hq Hn|s n Hw|s w1 x w2 Hw].
  - split; cbn; [done|done|..]; intros Hw; [apply Ht in Hw; queue_arith; lia|].
    apply Hp in Hw as (n & ? & ?). exists n. queue_arith. split; [done|lia].
  - split; cbn; [done|done|..]; intros Hw; [apply Ht in Hw; queue_arith; lia|].
    apply full_spec in Hfull as (n & ? & ?). exists n. split; [done|lia].
  - eapply notify_notEmpty_inv; [exact Hn|..]; cbn.
    + by rewrite app_assoc, Hf.
    + intros n E. unfold full in Hfull. rewrite E in Hfull. apply Nat.leb_gt in Hfull. rewrite length_app. cbn. lia.
    + intros Hw. apply Ht in Hw. queue_arith. lia.
    + intros Hw. apply Hp in Hw as (n & ? & ?). exists n. queue_arith. split; [done|lia].
  - split; cbn; [done|done|..]; intros Hw; [rewrite Hq; cbn; lia|].
    apply Hp in Hw as (n & ? & ?). exists n. queue_arith. split; [done|lia].
  - rewrite Hq in *. eapply notify_notFull_inv; [exact Hn|..]; cbn.
    + rewrite <- app_assoc. done.
    + intros n E. apply Hb in E. cbn in E. lia.
    + intros Hw. apply Ht in Hw. queue_arith. lia.
    + intros Hw. apply Hp in Hw as (n & ? & ?). exists n. queue_arith. split; [done|lia].
  - split; cbn; [done|done|..]; intros Hw'; [assert (length (queue_ s) ≤ takers (ready s))%nat by (apply Ht; lia); queue_arith; lia|].
    apply Hp in Hw' as (m & ? & ?). exists m. queue_arith. split; [done|lia].
  - split; cbn; [done|done|..]; intros Hw'; [apply Ht in Hw'; queue_arith; lia|].
    destruct Hp as (m & ? & ?); [rewrite Hw; by destruct w1|]. exists m. queue_arith. split; [done|lia].
Qed.

Lemma queue_reachable_inv s : reachable s → inv s.
Proof.
  intros Hr. unfold reachable in Hr. remember BlockingQueue_ctor as s0 eqn:E.
  assert (inv s0) as H0 by (subst; split; cbn; [done|lia|done|done]).
  clear E. induction Hr as [s|s1 s2 s3 H1 _ IH]; [done|]. apply IH. by apply (queue_step_inv s1).
Qed.

(** Whatever threads call and in whatever order they run, elements are taken in
    the order they were put, each once, and a bounded queue never holds more
    than its capacity. *)
Theorem queue_is_fifo s : reachable s →
  takes s ++ queue_ s = puts s ∧ ∀ n, maxSize = Some n → (length (queue_ s) ≤ n)%nat.
Proof. intros [? ? _ _]%queue_reachable_inv. done. Qed.

(** C23: No wake-up is lost: while a thread waits for an element that is there, some
    thread is about to take it; while a thread waits for room that is there, some
    thread is about to use it.  So threads of both kinds never wait at once
    unless others are about to run. *)
Theorem no_lost_wakeup s : reachable s →
  (waiting_notEmpty s ≠ 0%nat → queue_ s ≠ [] → ∃ r1 r2, ready s = r1 ++ Take :: r2) ∧
  (waiting_notFull s ≠ [] → full (queue_ s) = false → ∃ r1 r2 x, ready s = r1 ++ Put x :: r2) ∧
  (ready s = [] → waiting_notEmpty s ≠ 0%nat → waiting_notFull s ≠ [] → maxSize = Some 0%nat).
Proof.
  intros [_ Hb Ht Hp]%queue_reachable_inv. split_and!.
  - intros Hw Hq. apply Ht in Hw. assert (takers (ready s) ≠ 0%nat) as Hn by (destruct (queue_ s); cbn in *; [done|lia]).
    clear -Hn. induction (ready s) as [|[x|] r IH]; [done| |by exists [], r].
    destruct IH as (r1 & r2 & ->); [done|]. by exists (Put x :: r1), r2.
  - intros Hw Hf. apply Hp in Hw as (n & E & Hle). unfold full in Hf. rewrite E in Hf. apply Nat.leb_gt in Hf.
    assert (putters (ready s) ≠ 0%nat) as Hn by lia.
    clear -Hn. induction (ready s) as [|[x|] r IH]; [done|by exists [], r, x|].
    destruct IH as (r1 & r2 & y & ->); [done|]. by exists (Take :: r1), r2, y.
  - intros E Hw1 Hw2. apply Ht in Hw1. apply Hp in Hw2 as (n & -> & Hle). rewrite E in *. unfold takers, putters in *. cbn in *. f_equal. lia.
Qed.

End queue.

(** ** CountDownLatch *)

(** Threads that call [wait] are ready to look at the counter or blocked; [woken]
    counts the calls that returned. *)
Record CountDownLatch : Type := mkLatch {
  count_ : Z; latch_ready : nat; latch_blocked : nat; returned : nat; counted : Z;
}.

Definition CountDownLatch_ctor (count : Z) : CountDownLatch := mkLatch count 0 0 0 0.

Inductive latch_step : CountDownLatch → CountDownLatch → Prop :=
  | latch_call l : latch_step l (mkLatch (count_ l) (S (latch_ready l)) (latch_blocked l) (returned l) (counted l))
  | latch_wait l n : latch_ready l = S n → 0 < count_ l →
      latch_step l (mkLatch (count_ l) n (S (latch_blocked l)) (returned l) (counted l))
  | latch_return l n : latch_ready l = S n → count_ l ≤ 0 →
      latch_step l (mkLatch (count_ l) n (latch_blocked l) (S (returned l)) (counted l))
  | latch_countDown l :
      latch_step l
        (if count_ l - 1 =? 0
         then mkLatch (count_ l - 1) (latch_ready l + latch_blocked l) 0 (returned l) (counted l + 1)
         else mkLatch (count_ l - 1) (latch_ready l) (latch_blocked l) (returned l) (counted l + 1))
  | latch_wake l n : latch_blocked l = S n →
      latch_step l (mkLatch (count_ l) (S (latch_ready l)) n (returned l) (counted l)).

(** No call of [wait] returns before [countDown] has been called as often as the
    latch says, and none stays blocked afterwards. *)
Theorem latch_opens_when_counted n l : 0 < n → rtc latch_step (CountDownLatch_ctor n) l →
  (returned l ≠ 0%nat → n ≤ counted l) ∧ (n ≤ counted l → latch_blocked l = 0%nat).
Proof.
  intros Hn Hr.
  assert (count_ l = n - counted l ∧ (returned l ≠ 0%nat → n ≤ counted l) ∧
          (n ≤ counted l → latch_blocked l = 0%nat)) as (_ & ? & ?); [|done].
  remember (CountDownLatch_ctor n) as l0 eqn:E.
  assert (count_ l0 = n - counted l0 ∧ (returned l0 ≠ 0%nat → n ≤ counted l0) ∧
          (n ≤ counted l0 → latch_blocked l0 = 0%nat)) as H0 by (subst; cbn; split_and!; [lia|done|lia]).
  clear E. induction Hr as [l|l1 l2 l3 Hs _ IH]; [done|]. apply IH. clear IH. destruct H0 as (H1 & H2 & H3).
  destruct Hs as [l|l k Hk Hc|l k Hk Hc|l|l k Hk]; cbn; [by split_and!|split_and!; [done|done|lia]|split_and!; [done|lia|done]| |].
  - destruct (Z.eqb_spec (count_ l - 1) 0); cbn; split_and!; try lia.
  - split_and!; [done|done|lia].
Qed.

(** ** Examples *)

(** A taker waits; a putter wakes it and another one fills the queue first. *)
Definition kSampleQueue : BlockingQueue :=
  mkBQ [5] [Take] 0 [6] [5] [].

Lemma kSampleQueue_reachable : reachable (Some 1%nat) kSampleQueue.
Proof.
  unfold reachable, kSampleQueue, BlockingQueue_ctor.
  eapply rtc_l; [apply (step_call _ _ Take)|]. cbn.
  eapply rtc_l; [by apply (step_take_waits _ _ [] [])|]. cbn.
  eapply rtc_l; [apply (step_call _ _ (Put 5))|]. cbn.
  eapply rtc_l; [eapply (step_put _ _ _ [] [] 5); [done|done|by apply (wakes_taker _ 0)]|]. cbn.
  eapply rtc_l; [apply (step_call _ _ (Put 6))|]. cbn.
  eapply rtc_l; [by apply (step_put_waits _ _ [] [Take] 6)|]. cbn. apply rtc_refl.
Qed.

Lemma queue_is_fifo_witness :
  takes kSampleQueue ++ queue_ kSampleQueue = puts kSampleQueue ∧ (length (queue_ kSampleQueue) ≤ 1)%nat.
Proof.
  destruct (queue_is_fifo (Some 1%nat) kSampleQueue kSampleQueue_reachable) as [H1 H2].
  split; [exact H1|apply H2; reflexivity].
Defined.

(** Two takers wait, one element is put and one of them is woken: the other waits
    although there is an element.  Two putters wait for the room of one, an element is
    taken and one of them is woken: the other waits although there is room. *)
Lemma no_lost_wakeup_witness :
  (let s := mkBQ [5] [Take] 1 [] [5] [] in
   reachable (Some 1%nat) s ∧ waiting_notEmpty s ≠ 0%nat ∧ queue_ s ≠ [] ∧ ∃ r1 r2, ready s = r1 ++ Take :: r2) ∧
  (let s := mkBQ [] [Put 7] 0 [6] [5] [5] in
   reachable (Some 1%nat) s ∧ waiting_notFull s ≠ [] ∧ full (Some 1%nat) (queue_ s) = false ∧
   ∃ r1 r2 x, ready s = r1 ++ Put x :: r2).
Proof.
  cbn zeta. split.
  - assert (reachable (Some 1%nat) (mkBQ [5] [Take] 1 [] [5] [])) as Hr.
    { unfold reachable, BlockingQueue_ctor.
      eapply rtc_l; [apply (step_call _ _ Take)|]. cbn. eapply rtc_l; [by apply (step_take_waits _ _ [] [])|]. cbn.
      eapply rtc_l; [apply (step_call _ _ Take)|]. cbn. eapply rtc_l; [by apply (step_take_waits _ _ [] [])|]. cbn.
      eapply rtc_l; [apply (step_call _ _ (Put 5))|]. cbn.
      eapply rtc_l; [eapply (step_put _ _ _ [] [] 5); [done|done|by apply (wakes_taker _ 1)]|]. cbn. apply rtc_refl. }
    split; [exact Hr|]. split; [discriminate|]. split; [discriminate|].
    apply (no_lost_wakeup (Some 1%nat) _ Hr); discriminate.
  - assert (reachable (Some 1%nat) (mkBQ [] [Put 7] 0 [6] [5] [5])) as Hr.
    { unfold reachable, BlockingQueue_ctor.
      eapply rtc_l; [apply (step_call _ _ (Put 5))|]. cbn.
      eapply rtc_l; [eapply (step_put _ _ _ [] [] 5); [done|done|by apply nobody_waits_empty]|]. cbn.
      eapply rtc_l; [apply (step_call _ _ (Put 6))|]. cbn. eapply rtc_l; [by apply (step_put_waits _ _ [] [] 6)|]. cbn.
      eapply rtc_l; [apply (step_call _ _ (Put 7))|]. cbn. eapply rtc_l; [by apply (step_put_waits _ _ [] [] 7)|]. cbn.
      eapply rtc_l; [apply (step_call _ _ Take)|]. cbn.
      eapply rtc_l; [eapply (step_take _ _ _ [] [] 5 []); [done|done|by apply (wakes_putter _ [] 7 [6])]|]. cbn. apply rtc_refl. }
    split; [exact Hr|]. split; [discriminate|]. split; [reflexivity|].
    apply (no_lost_wakeup (Some 1%nat) _ Hr); [discriminate|reflexivity].
Defined.

Lemma latch_opens_when_counted_witness :
  let l := mkLatch 0 1 0 0 1 in
  rtc latch_step (CountDownLatch_ctor 1) l ∧ latch_blocked l = 0%nat.
Proof.
  cbn zeta. assert (rtc latch_step (CountDownLatch_ctor 1) (mkLatch 0 1 0 0 1)) as Hr.
  { unfold CountDownLatch_ctor. eapply rtc_l; [apply latch_call|]. cbn.
    eapply rtc_l; [by apply (latch_wait _ 0)|]. cbn. eapply rtc_l; [apply latch_countDown|]. cbn. apply rtc_refl. }
  split; [exact Hr|]. apply (latch_opens_when_counted 1 _ ltac:(lia) Hr). cbn. lia.
Defined.

End BlockingQueues.
