(* ===== verification/ThreadPool.v ===== *)
(** * ThreadPool: the worker threads of src/muduo-vip/muduo/base/ThreadPool.cc

    The same kind of transition system as in [BlockingQueues]: a step is what one
    thread does between two points where others can run.  A worker is at the
    test of [while (running_)], about to enter [take], waiting in it, running a
    task, or has left [runInThread].  A caller of [run] is about to enter or waits
    for room. *)

From stdpp Require Export relations.
From S2P Require Import Prelude.

Module ThreadPool.

Section pool.
Context {Task : Type}.
(** The number of threads, positive, and [maxQueueSize_]. *)
Variables (numThreads maxQueueSize_ : nat).

Record Pool : Type := mkPool {
  queue_ : list Task;
  running_ : bool;
  checking : nat;
  entering : nat;
  waiting : nat;
  executing : list Task;
  exited : nat;
  callers : list Task;
  blocked : list Task;
  accepted : list Task;
  started : list Task;
}.

(** After [start(numThreads)]. *)
Definition start : Pool := mkPool [] true numThreads 0 0 [] 0 [] [] [] [].

Definition isFull (q : list Task) : bool :=
  ((0 <? maxQueueSize_) && (maxQueueSize_ <=? length q))%nat.

(** [notFull_.notify()], called only if the queue is bounded. *)
Inductive notify_notFull : Pool → Pool → Prop :=
  | notify_none p : maxQueueSize_ = 0%nat ∨ blocked p = [] → notify_notFull p p
  | notify_caller p b1 x b2 : maxQueueSize_ ≠ 0%nat → blocked p = b1 ++ x :: b2 →
      notify_notFull p (mkPool (queue_ p) (running_ p) (checking p) (entering p) (waiting p) (executing p)
                          (exited p) (x :: callers p) (b1 ++ b2) (accepted p) (started p)).

(** [notEmpty_.notify()]. *)
Inductive notify_notEmpty : Pool → Pool → Prop :=
  | notify_nobody p : waiting p = 0%nat → notify_notEmpty p p
  | notify_worker p n : waiting p = S n →
      notify_notEmpty p (mkPool (queue_ p) (running_ p) (checking p) (S (entering p)) n (executing p)
                           (exited p) (callers p) (blocked p) (accepted p) (started p)).

(** [runInThread] and [take]. *)
Inductive worker_step : Pool → Pool → Prop :=
  | w_loop p n : checking p = S n → running_ p = true →
      worker_step p (mkPool (queue_ p) true n (S (entering p)) (waiting p) (executing p)
                       (exited p) (callers p) (blocked p) (accepted p) (started p))
  | w_exit p n : checking p = S n → running_ p = false →
      worker_step p (mkPool (queue_ p) false n (entering p) (waiting p) (executing p)
                       (S (exited p)) (callers p) (blocked p) (accepted p) (started p))
  | w_wait p n : entering p = S n → queue_ p = [] → running_ p = true →
      worker_step p (mkPool [] true (checking p) n (S (waiting p)) (executing p)
                       (exited p) (callers p) (blocked p) (accepted p) (started p))
  | w_nothing p n : entering p = S n → queue_ p = [] → running_ p = false →
      worker_step p (mkPool [] false (S (checking p)) n (waiting p) (executing p)
                       (exited p) (callers p) (blocked p) (accepted p) (started p))
  | w_take p p' n x q : entering p = S n → queue_ p = x :: q →
      notify_notFull (mkPool q (running_ p) (checking p) n (waiting p) (x :: executing p)
                        (exited p) (callers p) (blocked p) (accepted p) (started p ++ [x])) p' →
      worker_step p p'
  | w_done p e1 x e2 : executing p = e1 ++ x :: e2 →
      worker_step p (mkPool (queue_ p) (running_ p) (S (checking p)) (entering p) (waiting p) (e1 ++ e2)
                       (exited p) (callers p) (blocked p) (accepted p) (started p)).

(** A worker that waits wakes up although nobody has called [notify]. *)
Inductive spurious_step : Pool → Pool → Prop :=
  | w_wake p n : waiting p = S n →
      spurious_step p (mkPool (queue_ p) (running_ p) (checking p) (S (entering p)) n (executing p)
                         (exited p) (callers p) (blocked p) (accepted p) (started p)).

(** [run] and [stop]. *)
Inductive client_step : Pool → Pool → Prop :=
  | c_call p x :
      client_step p (mkPool (queue_ p) (running_ p) (checking p) (entering p) (waiting p) (executing p)
                       (exited p) (x :: callers p) (blocked p) (accepted p) (started p))
  | c_wait p c1 x c2 : callers p = c1 ++ x :: c2 → isFull (queue_ p) = true →
      client_step p (mkPool (queue_ p) (running_ p) (checking p) (entering p) (waiting p) (executing p)
                       (exited p) (c1 ++ c2) (x :: blocked p) (accepted p) (started p))
  | c_run p p' c1 x c2 : callers p = c1 ++ x :: c2 → isFull (queue_ p) = false →
      notify_notEmpty (mkPool (queue_ p ++ [x]) (running_ p) (checking p) (entering p) (waiting p) (executing p)
                         (exited p) (c1 ++ c2) (blocked p) (accepted p ++ [x]) (started p)) p' →
      client_step p p'
  | c_wake p b1 x b2 : blocked p = b1 ++ x :: b2 →
      client_step p (mkPool (queue_ p) (running_ p) (checking p) (entering p) (waiting p) (executing p)
                       (exited p) (x :: callers p) (b1 ++ b2) (accepted p) (started p))
  | c_stop p :
      client_step p (mkPool (queue_ p) false (checking p) (entering p + waiting p) 0 (executing p)
                       (exited p) (callers p) (blocked p) (accepted p) (started p)).

Definition step (p p' : Pool) : Prop := worker_step p p' ∨ client_step p p' ∨ spurious_step p p'.
Definition reachable (p : Pool) : Prop := rtc step start p.

(** ** Invariant *)

Record inv (p : Pool) : Prop := Inv {
  inv_workers : (checking p + entering p + waiting p + length (executing p) + exited p)%nat = numThreads;
  inv_running : running_ p = true → exited p = 0%nat;
  inv_order : started p ++ queue_ p = accepted p;
  inv_bound : maxQueueSize_ ≠ 0%nat → (length (queue_ p) ≤ maxQueueSize_)%nat;
  inv_waiting : waiting p ≠ 0%nat → running_ p = true ∧ (length (queue_ p) ≤ entering p)%nat;
}.

Lemma isFull_false q : isFull q = false → maxQueueSize_ ≠ 0%nat → (length q < maxQueueSize_)%nat.
Proof.
  unfold isFull. intros H Hm. apply andb_false_iff in H as [H|H]; [apply Nat.ltb_ge in H; lia|by apply Nat.leb_gt in H].
Qed.

Lemma worker_step_inv p p' : worker_step p p' → inv p → inv p'.
Proof.
  intros Hs [H1 H2 H3 H4 H5].
  destruct Hs as [p n Hc Hr|p n Hc Hr|p n He Hq Hr|p n He Hq Hr|p p' n x q He Hq Hn|p e1 x e2 He].
  - split; cbn; [lia|auto|done|done|]. intros Hw. destruct (H5 Hw). split; [done|lia].
  - split; cbn; [lia|done|done|done|]. intros Hw. destruct (H5 Hw). congruence.
  - rewrite Hq in *. split; cbn; [lia|auto|done|lia|]. intros _. split; [done|lia].
  - rewrite Hq in *. split; cbn; [lia|done|done|lia|]. intros Hw. destruct (H5 Hw). congruence.
  - assert (inv (mkPool q (running_ p) (checking p) n (waiting p) (x :: executing p)
              (exited p) (callers p) (blocked p) (accepted p) (started p ++ [x]))) as Hi.
    { rewrite Hq in *. split; cbn in *; [lia|done|by rewrite <- app_assoc|intros Hm; specialize (H4 Hm); lia|].
      intros Hw. destruct (H5 Hw). split; [done|lia]. }
    destruct Hn; [done|]. by destruct Hi.
  - split; cbn; [|done..]. rewrite He in H1. rewrite length_app in *. cbn in *. lia.
Qed.

Lemma spurious_step_inv p p' : spurious_step p p' → inv p → inv p'.
Proof.
  intros [p1 n Hw] [H1 H2 H3 H4 H5]. split; cbn; [lia|done..|]. intros _. destruct H5 as [? ?]; [lia|]. split; [done|lia].
Qed.

Lemma client_step_inv p p' : client_step p p' → inv p → inv p'.
Proof.
  intros Hs [H1 H2 H3 H4 H5]. destruct Hs as [p x|p c1 x c2 Hc Hf|p p' c1 x c2 Hc Hf Hn|p b1 x b2 Hb|p]; try by split.
  - inversion Hn; subst; cbn in *; split; cbn; rewrite ?length_app; cbn; try done; try lia.
    all: try by rewrite app_assoc, H3.
    all: try (intros Hm; pose proof (isFull_false _ Hf Hm); lia).
    intros _. destruct H5 as [? ?]; [lia|]. split; [done|lia].
  - split; cbn; [lia|done..].
Qed.

Lemma step_inv p p' : step p p' → inv p → inv p'.
Proof. intros [H|[H|H]]; [by apply worker_step_inv|by apply client_step_inv|by apply spurious_step_inv]. Qed.

Lemma reachable_inv p : reachable p → inv p.
Proof.
  intros Hr. unfold reachable in Hr. remember start as p0 eqn:E.
  assert (inv p0) as H0 by (subst; split; cbn; [lia|done|done|lia|done]).
  clear E. induction Hr as [p|p1 p2 p3 H1 _ IH]; [done|]. apply IH. by apply (step_inv p1).
Qed.

(** ** What the pool promises *)

(** Tasks are started in the order they were accepted, each once, and a bounded
    queue never holds more than its bound; the threads are all accounted for. *)
Theorem pool_starts_in_order p : reachable p →
  started p ++ queue_ p = accepted p ∧ (maxQueueSize_ ≠ 0%nat → (length (queue_ p) ≤ maxQueueSize_)%nat) ∧
  (checking p + entering p + waiting p + length (executing p) + exited p)%nat = numThreads.
Proof. intros [? ? ? ? ?]%reachable_inv. done. Qed.

Lemma notify_some p : ∃ p', notify_notFull p p' ∧ queue_ p' = queue_ p ∧ running_ p' = running_ p ∧
  checking p' = checking p ∧ entering p' = entering p ∧ waiting p' = waiting p ∧ executing p' = executing p ∧
  exited p' = exited p ∧ started p' = started p.
Proof.
  destruct (decide (maxQueueSize_ = 0%nat)) as [Hm|Hm]; [by exists p; split; [apply notify_none; left|]|].
  destruct (blocked p) as [|x b] eqn:Hb; [exists p; split; [apply notify_none; by right|done]|].
  eexists. split; [by apply (notify_caller p [] x b)|done].
Qed.

(** Lets a worker at [take] take the first task. *)
Lemma take_first p x q : entering p ≠ 0%nat → queue_ p = x :: q →
  ∃ p', worker_step p p' ∧ started p' = started p ++ [x].
Proof.
  intros He Hq. destruct (entering p) as [|n] eqn:E; [done|].
  edestruct notify_some as (p' & Hn & _ & _ & _ & _ & _ & _ & _ & Hs).
  exists p'. split; [by eapply w_take|by rewrite Hs].
Qed.

Lemma loop_and_take p x q : checking p ≠ 0%nat → running_ p = true → queue_ p = x :: q →
  ∃ p', rtc worker_step p p' ∧ started p' = started p ++ [x].
Proof.
  intros Hc Hr Hq. destruct (checking p) as [|n] eqn:E; [done|].
  pose proof (w_loop p n E Hr) as H1. edestruct take_first as (p' & H2 & Hs); [| |exists p'].
  3: split; [eapply rtc_l; [exact H1|by apply rtc_once]|]. 3: exact Hs.
  all: done.
Qed.

(** C24: While the pool runs no wake-up is lost: from every state that any run reaches,
    steps of the workers alone, in which none wakes up without being notified, lead to a
    state where the first task of the queue has been started.  Tasks that are being
    executed are assumed to end. *)
Theorem queued_task_can_start p x q : (0 < numThreads)%nat → reachable p → running_ p = true → queue_ p = x :: q →
  ∃ p', rtc worker_step p p' ∧ started p' = started p ++ [x].
Proof.
  intros Hn [H1 H2 _ _ H5]%reachable_inv Hr Hq.
  destruct (decide (entering p = 0%nat)) as [He|He]; cycle 1.
  { destruct (take_first p x q He Hq) as (p' & Hs & Ho). exists p'. split; [by apply rtc_once|done]. }
  destruct (decide (checking p = 0%nat)) as [Hc|Hc]; [|by apply (loop_and_take p x q)].
  assert (waiting p = 0%nat) as Hw.
  { destruct (decide (waiting p = 0%nat)) as [|Hw]; [done|]. destruct (H5 Hw) as [_ Hle]. rewrite Hq in Hle. cbn in Hle. lia. }
  rewrite (H2 Hr), Hw, He, Hc in H1. destruct (executing p) as [|y e] eqn:Hex; [cbn in H1; lia|].
  pose proof (w_done p [] y e Hex) as Hs. edestruct loop_and_take as (p' & Hrtc & Ho); [| | |exists p'].
  4: split; [eapply rtc_l; [exact Hs|exact Hrtc]|exact Ho].
  all: done.
Qed.

(** The work the threads have left once the pool is stopped. *)
Definition rest (p : Pool) : nat :=
  (checking p + 2 * entering p + 2 * length (executing p) + length (queue_ p))%nat.

(** After [stop] the threads can always come to their end, so that [join]
    returns. *)
Theorem stop_ends p : reachable p → running_ p = false →
  ∃ p', rtc worker_step p p' ∧ exited p' = numThreads.
Proof.
  intros Hi%reachable_inv Hr. remember (rest p) as k eqn:Hk. revert p Hi Hr Hk.
  induction (lt_wf k) as [k _ IH]. intros p Hi Hr Hk. pose proof Hi as [H1 _ _ _ H5].
  assert (waiting p = 0%nat) as Hw.
  { destruct (decide (waiting p = 0%nat)) as [|Hw]; [done|]. destruct (H5 Hw). congruence. }
  assert (∀ p1, worker_step p p1 → running_ p1 = false → (rest p1 < k)%nat → ∃ p', rtc worker_step p p' ∧ exited p' = numThreads) as Hgo.
  { intros p1 Hs Hr1 Hlt. destruct (IH (rest p1) Hlt p1) as (p' & Hrtc & He); [by apply (worker_step_inv p)|done|done|].
    exists p'. split; [by eapply rtc_l|done]. }
  unfold rest in *. destruct (checking p) as [|n] eqn:Hc.
  2:{ eapply Hgo; [by apply (w_exit p n)|done|cbn; lia]. }
  destruct (executing p) as [|x e] eqn:He.
  2:{ eapply Hgo; [by apply (w_done p [] x e)|done|cbn in *; lia]. }
  destruct (entering p) as [|n] eqn:Hen; [exists p; split; [done|cbn in H1; lia]|].
  destruct (queue_ p) as [|x q] eqn:Hq.
  - eapply Hgo; [by apply (w_nothing p n)|done|cbn; rewrite ?Hc, ?He; cbn in *; lia].
  - edestruct notify_some as (p1 & Hn & Hq1 & Hr1 & Hc1 & He1 & _ & Hx1 & _ & _).
    eapply (Hgo p1); [by eapply w_take|by rewrite Hr1|]. rewrite Hc1, He1, Hx1, Hq1. cbn. rewrite ?He, ?Hc. cbn in *. lia.
Qed.

(** [stop] does not wake the callers of [run] that wait for room: when the
    threads have ended with a full queue, no call of [run] returns any more, and
    the queued tasks are never started. *)
Theorem stopped_pool_blocks_callers p p' : reachable p → running_ p = false → exited p = numThreads →
  isFull (queue_ p) = true → rtc step p p' →
  accepted p' = accepted p ∧ started p' = started p ∧ queue_ p' = queue_ p.
Proof.
  intros Hi%reachable_inv Hr He Hf Hs.
  assert (running_ p = false ∧ exited p = numThreads ∧ isFull (queue_ p) = true ∧ inv p) as H by done.
  clear Hi Hr He Hf. revert H. induction Hs as [p|p1 p2 p3 H12 _ IH]; [done|].
  intros (Hr & He & Hf & Hi).
  assert (running_ p2 = false ∧ exited p2 = numThreads ∧ accepted p2 = accepted p1 ∧ started p2 = started p1 ∧ queue_ p2 = queue_ p1)
    as (Hr2 & He2 & Ha & Hst & Hq).
  { destruct Hi as [H1 _ _ _ _]. rewrite He in H1. destruct H12 as [H12|[H12|H12]]; destruct H12; cbn; try lia; try congruence; try done. }
  rewrite <- Ha, <- Hst, <- Hq. apply IH. split_and!; [done|done|by rewrite Hq|by apply (step_inv p1)].
Qed.

End pool.
(** ** Examples: one thread, a queue of one task *)

(** A task is accepted, its worker woken. *)
Lemma one_task : reachable 1 1 (mkPool [7] true 0 1 0 [] 0 [] [] [7] []).
Proof.
  unfold reachable, start.
  eapply rtc_l; [left; by apply (w_loop _ _ 0)|]. cbn.
  eapply rtc_l; [left; by apply (w_wait _ _ 0)|]. cbn.
  eapply rtc_l; [right; left; apply (c_call _ _ 7)|]. cbn.
  eapply rtc_l; [right; left; eapply (c_run _ _ _ [] 7 []); [done|done|by apply (notify_worker _ 0)]|]. cbn.
  apply rtc_refl.
Qed.

(** The worker runs task 7, task 8 is queued, the caller of [run(9)] waits; then
    the pool is stopped and the worker ends. *)
Lemma stopped_full : reachable 1 1 (mkPool [8] false 0 0 0 [] 1 [] [9] [7; 8] [7]).
Proof.
  eapply rtc_trans; [exact one_task|].
  eapply rtc_l; [left; eapply (w_take _ _ _ 0 7 []); [done|done|apply notify_none; by right]|]. cbn.
  eapply rtc_l; [right; left; apply (c_call _ _ 8)|]. cbn.
  eapply rtc_l; [right; left; eapply (c_run _ _ _ [] 8 []); [done|done|by apply notify_nobody]|]. cbn.
  eapply rtc_l; [right; left; apply (c_call _ _ 9)|]. cbn.
  eapply rtc_l; [right; left; by apply (c_wait _ _ [] 9 [])|]. cbn.
  eapply rtc_l; [right; left; apply c_stop|]. cbn.
  eapply rtc_l; [left; by apply (w_done _ _ [] 7 [])|]. cbn.
  eapply rtc_l; [left; by apply (w_exit _ _ 0)|]. cbn. apply rtc_refl.
Qed.

Lemma pool_starts_in_order_witness : reachable 1 1 (mkPool [8] false 0 0 0 [] 1 [] [9] [7; 8] [7]) ∧ [7] ++ [8] = [7; 8].
Proof. split; [exact stopped_full|]. apply (pool_starts_in_order 1 1 _ stopped_full). Defined.

Lemma queued_task_can_start_witness :
  ∃ p', rtc (worker_step 1) (mkPool [7] true 0 1 0 [] 0 [] [] [7] []) p' ∧ started p' = [7].
Proof.
  exact (queued_task_can_start 1 1 (mkPool [7] true 0 1 0 [] 0 [] [] [7] []) 7 [] ltac:(lia) one_task eq_refl eq_refl).
Defined.

Lemma stop_ends_witness : ∃ p', rtc (worker_step 1) (mkPool [8] false 0 0 0 [] 1 [] [9] [7; 8] [7]) p' ∧ exited p' = 1%nat.
Proof. apply (stop_ends 1 1 _ stopped_full). reflexivity. Defined.

(** The waiting caller wakes up for no reason and waits again. *)
Lemma stopped_pool_blocks_callers_witness :
  let p := mkPool [8] false 0 0 0 [] 1 [] [9] [7; 8] [7] in
  let p' := mkPool [8] false 0 0 0 [] 1 [9] [] [7; 8] [7] in
  rtc (step 1) p p' ∧ accepted p' = accepted p ∧ queue_ p' = queue_ p.
Proof.
  cbn zeta. assert (rtc (step 1) (mkPool [8] false 0 0 0 [] 1 [] [9] [7; 8] [7]) (mkPool [8] false 0 0 0 [] 1 [9] [] [7; 8] [7])) as H.
  { apply rtc_once. right. left. by apply (c_wake _ (mkPool [8] false 0 0 0 [] 1 [] [9] [7; 8] [7]) [] 9 []). }
  split; [exact H|].
  destruct (stopped_pool_blocks_callers 1 1 _ _ stopped_full eq_refl eq_refl eq_refl H) as (H1 & _ & H2).
  split; [exact H1|exact H2].
Defined.

End ThreadPool.
