(* ===== verification/HttpServer.v ===== *)
(** * HttpServer: responses and the request loop (src/muduo-vip/muduo/net/http/HttpResponse.{h,cc}, HttpServer.cc)

    [onMessage] is the message callback of the server's connections: it feeds the
    connection's [HttpContext] and answers a complete request.  What it does with
    the connection is the list of its calls.  The user's [httpCallback_] is a
    parameter: it sees the request and changes the response. *)

From S2P Require Import Prelude BytesBuffer Buffer Http.
Import Buffer Http.

Module HttpServer.

(** ** Numbers as text: the %d and %zd of snprintf, for values that are not negative *)

Fixpoint dec_digits (fuel : nat) (n : Z) : bytes :=
  match fuel with
  | O => []
  | S fuel => if n <? 10 then [48 + n] else dec_digits fuel (n / 10) ++ [48 + n mod 10]
  end.

(** 20 digits are enough for 64 bits. *)
Definition dec (n : Z) : bytes := dec_digits 20 n.

(** [snprintf(buf, size, ...)] keeps what fits before the terminating zero. *)
Definition snprintf (size : Z) (text : bytes) : bytes := ztake (size - 1) text.

(** ** HttpResponse *)

Record HttpResponse : Type := mkResponse {
  resp_headers : list (bytes * bytes);
  statusCode_ : Z;
  statusMessage_ : bytes;
  closeConnection_ : bool;
  body_ : bytes;
}.

Definition HttpResponse_ctor (close : bool) : HttpResponse := mkResponse [] 0 [] close [].

Definition k400BadRequest : Z := 400.
Definition k404NotFound : Z := 404.
Definition k200Ok : Z := 200.

Definition setStatusCode (r : HttpResponse) (code : Z) : HttpResponse :=
  mkResponse (resp_headers r) code (statusMessage_ r) (closeConnection_ r) (body_ r).
Definition setStatusMessage (r : HttpResponse) (message : bytes) : HttpResponse :=
  mkResponse (resp_headers r) (statusCode_ r) message (closeConnection_ r) (body_ r).
Definition setCloseConnection (r : HttpResponse) (on : bool) : HttpResponse :=
  mkResponse (resp_headers r) (statusCode_ r) (statusMessage_ r) on (body_ r).
Definition setBody (r : HttpResponse) (body : bytes) : HttpResponse :=
  mkResponse (resp_headers r) (statusCode_ r) (statusMessage_ r) (closeConnection_ r) body.

(** The order of [std::string]. *)
Fixpoint bytes_ltb (a b : bytes) : bool :=
  match a, b with
  | _, [] => false
  | [], _ :: _ => true
  | x :: a, y :: b => (x <? y) || ((x =? y) && bytes_ltb a b)
  end.

(** [headers_[key] = value] of a [std::map]: sorted by key, one entry per key. *)
Fixpoint map_set (key value : bytes) (l : list (bytes * bytes)) : list (bytes * bytes) :=
  match l with
  | [] => [(key, value)]
  | (k, v) :: l' =>
      if bytes_ltb key k then (key, value) :: l
      else if bytes_ltb k key then (k, v) :: map_set key value l'
      else (k, value) :: l'
  end.

Definition addHeader (r : HttpResponse) (key value : bytes) : HttpResponse :=
  mkResponse (map_set key value (resp_headers r)) (statusCode_ r) (statusMessage_ r) (closeConnection_ r) (body_ r).
Definition setContentType (r : HttpResponse) (contentType : bytes) : HttpResponse :=
  addHeader r (str "Content-Type") contentType.

Fixpoint append_headers (output : Buffer) (l : list (bytes * bytes)) : outcome Buffer :=
  match l with
  | [] => Ret output
  | h :: l =>
      output ← append output h.1;
      output ← append output (str ": ");
      output ← append output h.2;
      output ← append output crlf;
      append_headers output l
  end.

Definition appendToBuffer (r : HttpResponse) (output : Buffer) : outcome Buffer :=
  output ← append output (snprintf 32 (str "HTTP/1.1 " ++ dec (statusCode_ r) ++ str " "));
  output ← append output (statusMessage_ r);
  output ← append output crlf;
  output ← (if closeConnection_ r then append output (str "Connection: close" ++ crlf)
            else
              output ← append output (snprintf 32 (str "Content-Length: " ++ dec (zlen (body_ r)) ++ crlf));
              append output (str "Connection: Keep-Alive" ++ crlf));
  output ← append_headers output (resp_headers r);
  output ← append output crlf;
  append output (body_ r).

(** ** HttpServer *)

Inductive conn_call : Type := CSend (data : bytes) | CShutdown.

Definition defaultHttpCallback (req : HttpRequest) (resp : HttpResponse) : HttpResponse :=
  setCloseConnection (setStatusMessage (setStatusCode resp k404NotFound) (str "Not Found")) true.

Definition wants_close (req : HttpRequest) : bool :=
  let connection := getHeader req (str "Connection") in
  bool_decide (connection = str "close") ||
  (bool_decide (version_ req = kHttp10) && negb (bool_decide (connection = str "Keep-Alive"))).

Section server.
Variable httpCallback_ : HttpRequest → HttpResponse → HttpResponse.

Definition onRequest (req : HttpRequest) : outcome (list conn_call) :=
  let close := wants_close req in
  let response := httpCallback_ req (HttpResponse_ctor close) in
  buf ← Buffer_ctor kInitialSize;
  buf ← appendToBuffer response buf;
  Ret (CSend (readable buf) :: if closeConnection_ response then [CShutdown] else []).

Definition onMessage {B} `{!IBytesBuffer B} (context : HttpContext) (buf : B) (receiveTime : Z) :
    outcome (list conn_call * HttpContext * B) :=
  '(ok, context, buf) ← parseRequest receiveTime context buf;
  let calls := if (ok : bool) then [] else [CSend (str "HTTP/1.1 400 Bad Request" ++ crlf ++ crlf); CShutdown] in
  if gotAll context then
    answer ← onRequest (request_ context);
    Ret (calls ++ answer, reset context, buf)
  else Ret (calls, context, buf).

End server.

(** ** What a response looks like *)

Definition response_text (r : HttpResponse) : bytes :=
  str "HTTP/1.1 " ++ dec (statusCode_ r) ++ str " " ++ statusMessage_ r ++ crlf ++
  (if closeConnection_ r then str "Connection: close" ++ crlf
   else str "Content-Length: " ++ dec (zlen (body_ r)) ++ crlf ++ str "Connection: Keep-Alive" ++ crlf) ++
  concat ((λ h, header_line h ++ crlf) <$> resp_headers r) ++ crlf ++ body_ r.

Record response_ok (r : HttpResponse) : Prop := ResponseOk {
  ok_status : 0 ≤ statusCode_ r < 1000;
  ok_message : Forall_byte (statusMessage_ r);
  ok_headers : Forall (λ h, Forall_byte h.1 ∧ Forall_byte h.2) (resp_headers r);
  ok_body : Forall_byte (body_ r) ∧ zlen (body_ r) < 10 ^ 13;
  ok_size : zlen (response_text r) ≤ kMaxSize - kCheapPrepend;
}.

Lemma dec_bytes fuel n : 0 ≤ n → Forall_byte (dec_digits fuel n).
Proof.
  revert n. induction fuel as [|fuel IH]; intros n Hn; cbn [dec_digits]; [constructor|].
  destruct (Z.ltb_spec n 10); [repeat constructor; unfold is_byte; lia|].
  apply Forall_app. split; [apply IH; dlia|]. repeat constructor; unfold is_byte; dlia.
Qed.

Lemma length_dec fuel n k : 0 ≤ n < 10 ^ Z.of_nat (S k) → zlen (dec_digits fuel n) ≤ Z.of_nat (S k).
Proof.
  revert n k. induction fuel as [|fuel IH]; intros n k Hn; cbn [dec_digits]; [cbn; lia|].
  destruct (Z.ltb_spec n 10); [cbn; lia|]. destruct k as [|k]; [cbn in Hn; lia|].
  rewrite length_app, Nat2Z.inj_add. cbn [length]. specialize (IH (n / 10) k). rewrite Nat2Z.inj_succ in *.
  rewrite Z.pow_succ_r in Hn by lia. assert (0 ≤ n / 10 < 10 ^ Z.of_nat (S k)) by (rewrite Nat2Z.inj_succ; dlia).
  rewrite Nat2Z.inj_succ in *. lia.
Qed.

(** ** Writing a response *)

Fixpoint append_all (b : Buffer) (l : list bytes) : outcome Buffer :=
  match l with
  | [] => Ret b
  | d :: l => b ← append b d; append_all b l
  end.

Lemma append_all_app b l1 l2 : append_all b (l1 ++ l2) = (b ← append_all b l1; append_all b l2).
Proof.
  revert b. induction l1 as [|d l1 IH]; intros b; [done|]. cbn [append_all app].
  rewrite bind_assoc. destruct (append b d); [apply IH|done].
Qed.

Lemma append_all_has b l :
  wf b → Forall Forall_byte l → zlen (concat l) ≤ room_of b →
  ∃ b', append_all b l = Ret b' ∧ readable b' = readable b ++ concat l.
Proof.
  revert b. induction l as [|d l IH]; intros b Hb Hl Hr; cbn [append_all concat] in *.
  - exists b. by rewrite app_nil_r.
  - apply Forall_cons in Hl as [Hd Hl]. rewrite length_app in Hr.
    destruct (append_has b d) as (b1 & -> & [H1 H2 H3]); [done|done|lia|]. orun.
    destruct (IH b1) as (b2 & -> & H4); [done|done|lia|].
    exists b2. by rewrite H4, H2, <- app_assoc.
Qed.

Definition header_pieces (h : bytes * bytes) : list bytes := [h.1; str ": "; h.2; crlf].

Definition response_pieces (r : HttpResponse) : list bytes :=
  [str "HTTP/1.1 " ++ dec (statusCode_ r) ++ str " "; statusMessage_ r; crlf] ++
  (if closeConnection_ r then [str "Connection: close" ++ crlf]
   else [str "Content-Length: " ++ dec (zlen (body_ r)) ++ crlf; str "Connection: Keep-Alive" ++ crlf]) ++
  concat (header_pieces <$> resp_headers r) ++ [crlf; body_ r].

Lemma append_headers_pieces l b : append_headers b l = append_all b (concat (header_pieces <$> l)).
Proof.
  revert b. induction l as [|h l IH]; intros b; [done|].
  cbn [append_headers fmap list_fmap concat header_pieces app append_all].
  repeat (destruct (append _ _); [rewrite !bind_ret|done]). apply IH.
Qed.

Lemma concat_header_pieces l :
  concat (concat (header_pieces <$> l)) = concat ((λ h, header_line h ++ crlf) <$> l).
Proof.
  induction l as [|h l IH]; [done|]. cbn [fmap list_fmap concat]. rewrite concat_app, IH. f_equal.
  unfold header_pieces, header_line. cbn [concat]. by rewrite app_nil_r, <- !app_assoc.
Qed.

Lemma concat_response_pieces r : concat (response_pieces r) = response_text r.
Proof.
  unfold response_pieces, response_text. rewrite !concat_app, concat_header_pieces.
  destruct (closeConnection_ r); cbn [concat]; rewrite ?app_nil_r, <- ?app_assoc; done.
Qed.

Lemma crlf_bytes : Forall_byte crlf.
Proof. repeat constructor; unfold is_byte; lia. Qed.

Lemma response_pieces_bytes r : response_ok r → Forall Forall_byte (response_pieces r).
Proof.
  intros [Hs Hm Hh [Hb Hl] _]. pose proof crlf_bytes. pose proof str_bytes.
  assert (∀ n, 0 ≤ n → Forall_byte (dec n)) as Hdec by (intros; by apply dec_bytes).
  unfold response_pieces. rewrite !Forall_app. split_and!.
  - rewrite !Forall_cons, !Forall_app, Forall_nil. auto with lia.
  - case_match; rewrite ?Forall_cons, ?Forall_app, Forall_nil; auto with lia.
  - induction Hh as [|h l [] _ IH]; [constructor|]. cbn [fmap list_fmap concat header_pieces app].
    rewrite !Forall_cons. auto.
  - by rewrite !Forall_cons, Forall_nil.
Qed.

(** The two buffers of 32 characters are long enough. *)
Lemma status_fits r : response_ok r →
  snprintf 32 (str "HTTP/1.1 " ++ dec (statusCode_ r) ++ str " ") = str "HTTP/1.1 " ++ dec (statusCode_ r) ++ str " ".
Proof.
  intros [Hs _ _ _ _]. apply ztake_all. rewrite !length_app.
  pose proof (length_dec 20 (statusCode_ r) 2 Hs) as H. fold (dec (statusCode_ r)) in H.
  change (length (str "HTTP/1.1 ")) with 9%nat. change (length (str " ")) with 1%nat. lia.
Qed.

Lemma length_fits r : response_ok r →
  snprintf 32 (str "Content-Length: " ++ dec (zlen (body_ r)) ++ crlf) = str "Content-Length: " ++ dec (zlen (body_ r)) ++ crlf.
Proof.
  intros [_ _ _ [_ Hl] _]. apply ztake_all. rewrite !length_app.
  pose proof (length_dec 20 (zlen (body_ r)) 12 ltac:(change (10 ^ Z.of_nat 13) with (10 ^ 13); lia)) as H.
  fold (dec (zlen (body_ r))) in H.
  change (length (str "Content-Length: ")) with 16%nat. change (length crlf) with 2%nat. lia.
Qed.

Lemma appendToBuffer_pieces r b : response_ok r → appendToBuffer r b = append_all b (response_pieces r).
Proof.
  intros Hr. unfold appendToBuffer, response_pieces. rewrite status_fits, length_fits by done.
  rewrite !append_all_app. cbn [append_all]. rewrite !bind_assoc.
  destruct (append b _) as [b1|]; [|done]. rewrite !bind_ret, !bind_assoc.
  destruct (append b1 _) as [b2|]; [|done]. rewrite !bind_ret, !bind_assoc.
  destruct (append b2 _) as [b3|]; [|done]. rewrite !bind_ret.
  assert ((if closeConnection_ r then append b3 (str "Connection: close" ++ crlf)
     else output ← append b3 (str "Content-Length: " ++ dec (zlen (body_ r)) ++ crlf);
       append output (str "Connection: Keep-Alive" ++ crlf)) =
    append_all b3 (if closeConnection_ r then [str "Connection: close" ++ crlf]
      else [str "Content-Length: " ++ dec (zlen (body_ r)) ++ crlf; str "Connection: Keep-Alive" ++ crlf])) as ->.
  { destruct (closeConnection_ r); cbn [append_all];
      repeat (destruct (append _ _); [rewrite ?bind_ret|done]); done. }
  rewrite append_all_app. destruct (append_all b3 _) as [b4|]; [|done].
  rewrite !bind_ret, append_all_app, append_headers_pieces.
  destruct (append_all b4 _) as [b5|]; [|done]. rewrite !bind_ret. cbn [append_all].
  destruct (append b5 _) as [b6|]; [|done]. rewrite !bind_ret. by destruct (append b6 _).
Qed.

Lemma appendToBuffer_new r : response_ok r →
  ∃ b0 b, Buffer_ctor kInitialSize = Ret b0 ∧ appendToBuffer r b0 = Ret b ∧ readable b = response_text r.
Proof.
  intros Hr. destruct (Buffer_ctor_ok kInitialSize) as (b0 & Hctor & [H1 H2 H3] & _);
    [unfold kInitialSize, kMaxSize, kCheapPrepend; lia|].
  destruct (append_all_has b0 (response_pieces r)) as (b & Hb & Hv); [done|by apply response_pieces_bytes| |].
  { rewrite concat_response_pieces. pose proof (ok_size r Hr). lia. }
  exists b0, b. rewrite appendToBuffer_pieces, Hv, H2, concat_response_pieces by done. done.
Qed.

Section answers.
Variable httpCallback_ : HttpRequest → HttpResponse → HttpResponse.

(** The response the user's callback makes of a request. *)
Definition response_to (req : HttpRequest) : HttpResponse :=
  httpCallback_ req (HttpResponse_ctor (wants_close req)).

(** What the peer of a connection is to see for it. *)
Definition answer_to (req : HttpRequest) : list conn_call :=
  let r := response_to req in
  CSend (response_text r) :: if closeConnection_ r then [CShutdown] else [].

Lemma onRequest_answers req : response_ok (response_to req) → onRequest httpCallback_ req = Ret (answer_to req).
Proof.
  intros Hr. unfold onRequest. fold (response_to req).
  destruct (appendToBuffer_new _ Hr) as (b0 & b & -> & Hb & Hv). orun. rewrite Hb. orun. by rewrite Hv.
Qed.
End answers.

(** ** A request that arrives in pieces *)

Lemma search_prefix_none line (v : bytes) w :
  13 ∉ line → v ++ w = line ++ [13] → search kCRLF v = None.
Proof.
  intros Hl Hv. destruct (search kCRLF v) as [i|] eqn:Hs; [|done]. exfalso.
  apply search_Some in Hs as (Hi & Hn & Ht). change (zlen kCRLF) with 2 in *.
  assert (v = ztake i v ++ 13 :: 10 :: zdrop 2 (zdrop i v)) as Hsplit.
  { rewrite <- (ztake_zdrop i v) at 1. f_equal. rewrite <- (ztake_zdrop 2 (zdrop i v)) at 1. by rewrite Ht. }
  rewrite Hsplit, <- app_assoc in Hv. cbn [app] in Hv.
  destruct (rev (zdrop 2 (zdrop i v) ++ w)) as [|x l] eqn:Hr; apply (f_equal (@rev Z)) in Hr;
    rewrite rev_involutive in Hr; rewrite Hr in Hv.
  - change (13 :: 10 :: rev []) with ([13] ++ [10] : bytes) in Hv. rewrite app_assoc in Hv.
    by apply app_inj_2 in Hv as [_ ?].
  - cbn [rev] in Hv. change (13 :: 10 :: rev l ++ [x]) with ((13 :: 10 :: rev l) ++ [x]) in Hv.
    rewrite app_assoc in Hv. apply app_inj_2 in Hv as [<- _]; [|done]. apply Hl. set_solver.
Qed.

Section pieces.
Context {B : Type} `{!IBytesBuffer B} `{!BytesBufferLaws B}.

(** The next line is complete, or there is nothing to find yet. *)
Lemma line_or_wait (v : bytes) line rest fut :
  13 ∉ line → v ++ fut = line ++ 13 :: 10 :: rest →
  (∃ v', v = line ++ 13 :: 10 :: v' ∧ v' ++ fut = rest) ∨
  zlen v < zlen line + 2 ∧ search kCRLF v = None.
Proof.
  intros Hl Hv. destruct (Z.lt_ge_cases (zlen v) (zlen line + 2)) as [Hlt|Hge].
  - right. split; [done|]. change (13 :: 10 :: rest) with ([13] ++ 10 :: rest) in Hv.
    rewrite app_assoc in Hv. symmetry in Hv.
    destruct (app_prefix v fut (line ++ [13]) (10 :: rest)) as (w & Hw & _);
      [by symmetry|rewrite length_app; cbn; lia|]. by apply (search_prefix_none line _ w).
  - left. change (13 :: 10 :: rest) with ([13; 10] ++ rest) in Hv. rewrite app_assoc in Hv.
    destruct (app_prefix (line ++ [13; 10]) rest v fut) as (w & Hw & Hr);
      [done|rewrite length_app; cbn; lia|].
    exists w. rewrite Hw, <- app_assoc. by rewrite Hr.
Qed.

(** Where the parser is inside the text of [q]; [T] is what it has not read yet. *)
Inductive expects (tm : Z → Prop) (q : request) : HttpContext → bytes → Prop :=
  | expects_line : expects tm q HttpContext_ctor (render q)
  | expects_headers hs1 hs2 t :
      tm t → rq_headers q = hs1 ++ hs2 →
      expects tm q
        (mkHttpContext kExpectHeaders
           (mkRequest (rq_method q) (if rq_11 q then kHttp11 else kHttp10) (rq_path q) (rq_query q) t
              (header_map hs1)))
        (concat ((λ h, header_line h ++ crlf) <$> hs2) ++ crlf).

Lemma expects_mono (tm tm' : Z → Prop) q c T : (∀ t, tm t → tm' t) → expects tm q c T → expects tm' q c T.
Proof. intros Hm []; by constructor; auto. Qed.

(** What one call leaves: the whole request, or a position further on. *)
Definition cut_post (tm : Z → Prop) (q : request) (buf : B) (T fut rest : bytes)
    (p : bool * HttpContext * B) : Prop :=
  buf_inv p.2 ∧ room buf ≤ room p.2 ∧
  if zlen T <=? zlen (view buf) then
    (∃ t, tm t ∧ p.1 = (true, mkHttpContext kGotAll (parsed q t))) ∧ view p.2 ++ fut = rest
  else ∃ c T', p.1 = (true, c) ∧ expects tm q c T' ∧ view p.2 ++ fut = T' ++ rest ∧
    zlen (view p.2) - zlen T' = zlen (view buf) - zlen T.

Lemma cut_post_line tm q (buf b : B) line T v fut rest p :
  view buf = line ++ 13 :: 10 :: v → buf_is b v (room buf) →
  cut_post tm q b T fut rest p → cut_post tm q buf (line ++ 13 :: 10 :: T) fut rest p.
Proof.
  intros Hv [_ Hb Hr] (H1 & H2 & H3). unfold cut_post. rewrite Hv, !length_app. cbn [length].
  rewrite Hb in H3. split_and!; [done|lia|].
  destruct (Z.leb_spec (zlen T) (zlen v)); [rewrite (proj2 (Z.leb_le _ _)) by lia; done|].
  rewrite (proj2 (Z.leb_gt _ _)) by lia. destruct H3 as (c & T' & ? & ? & ? & ?).
  exists c, T'. split_and!; [done..|]. lia.
Qed.

Lemma cut_post_wait tm q c (buf : B) line T fut rest :
  buf_inv buf → expects tm q c (line ++ 13 :: 10 :: T) →
  view buf ++ fut = (line ++ 13 :: 10 :: T) ++ rest → zlen (view buf) < zlen line + 2 →
  cut_post tm q buf (line ++ 13 :: 10 :: T) fut rest (true, c, buf).
Proof.
  intros Hb Hc Hv Hl. split_and!; [done|cbn; lia|]. rewrite (proj2 (Z.leb_gt _ _)).
  - by exists c, (line ++ 13 :: 10 :: T).
  - rewrite length_app. cbn [length]. lia.
Qed.

Lemma header_map_snoc hs h : header_map (hs ++ [h]) = <[h.1 := h.2]> (header_map hs).
Proof. unfold header_map. by rewrite foldl_app. Qed.

Lemma loop_cut (tm : Z → Prop) t fuel c (buf : B) q T fut rest :
  tm t → request_ok q → expects tm q c T → buf_inv buf →
  view buf ++ fut = T ++ rest → zlen (view buf) < Z.of_nat fuel →
  runs (parseRequest_loop t fuel c buf) (cut_post tm q buf T fut rest).
Proof.
  intros Ht Hq. revert c buf T. induction fuel as [|fuel IH]; intros c buf T Hc Hb Hv Hf; [lia|].
  cbn [parseRequest_loop]. pose proof Hc as Hc'. destruct Hc as [|hs1 [|h hs2] t' Ht' Hhs].
  - cbn [HttpContext_ctor state_ request_] in *. unfold render in *.
    set (T' := concat _ ++ crlf) in *. change (crlf ++ T') with (13 :: 10 :: T') in *.
    destruct (line_or_wait (view buf) (request_line q) (T' ++ rest) fut (request_line_cr q Hq))
      as [(v' & Hv1 & Hv2)|[Hlt Hn]]; [by rewrite Hv, <- app_assoc| |].
    2: { rewrite findCRLF_view, Hn by done. by apply runs_ret, cut_post_wait. }
    destruct (line_read buf (view buf) (room buf) (request_line q) v') as (-> & -> & Hret);
      [by split|done|by apply request_line_cr|]. orun.
    destruct (processRequestLine_correct q t Hq) as (r & -> & Hr). orun. rewrite Hr.
    eapply runs_bind; [exact Hret|]. intros b Hb'. pose proof Hb' as [Hbi Hbv _].
    eapply runs_mono; [apply (IH _ b T')|intros p; by apply cut_post_line with (v := v')]; [|done|by rewrite Hbv|].
    + by apply (expects_headers tm q [] (rq_headers q)).
    + rewrite Hbv. rewrite Hv1, length_app in Hf. cbn [length] in Hf. lia.
  - cbn [state_ request_ fmap list_fmap concat app] in *. change crlf with ([] ++ 13 :: 10 :: []) in *.
    destruct (line_or_wait (view buf) [] rest fut) as [(v' & Hv1 & Hv2)|[Hlt Hn]]; [apply not_elem_of_nil|done| |].
    2: { rewrite findCRLF_view, Hn by done. by apply runs_ret, cut_post_wait. }
    destruct (line_read buf (view buf) (room buf) [] v') as (-> & -> & Hret); [by split|done|apply not_elem_of_nil|].
    orun. cbn [length find_char Z.of_nat Z.eqb negb].
    eapply runs_bind; [exact Hret|]. intros b [Hbi Hbv Hbr]. apply runs_ret.
    apply cut_post_line with (v := v') (b := b); [done|by split|].
    split_and!; [done|cbn; lia|]. cbn [length snd fst]. rewrite (proj2 (Z.leb_le _ _)) by (cbn; lia).
    split; [|by rewrite Hbv]. exists t'. split; [done|]. unfold parsed. by rewrite Hhs, app_nil_r.
  - cbn [state_ request_]. cbn [fmap list_fmap concat] in *.
    set (T' := concat ((λ h, header_line h ++ crlf) <$> hs2) ++ crlf) in *.
    change (list_fmap _ _ _ hs2) with ((λ h, header_line h ++ crlf) <$> hs2) in *.
    assert ((((header_line h ++ crlf) ++ concat ((λ h, header_line h ++ crlf) <$> hs2)) ++ crlf) =
      header_line h ++ 13 :: 10 :: T') as HT by (unfold T'; by rewrite <- !app_assoc).
    rewrite HT in *. clear HT.
    assert (header_ok h) as Hh by (apply (proj1 (Forall_forall _ _) (ro_headers q Hq)); rewrite Hhs; set_solver).
    destruct (line_or_wait (view buf) (header_line h) (T' ++ rest) fut (header_line_cr h Hh))
      as [(v' & Hv1 & Hv2)|[Hlt Hn]]; [by rewrite Hv, <- app_assoc| |].
    2: { rewrite findCRLF_view, Hn by done. by apply runs_ret, cut_post_wait. }
    destruct (line_read buf (view buf) (room buf) (header_line h) v') as (-> & -> & Hret);
      [by split|done|by apply header_line_cr|]. orun.
    destruct (header_line_read (mkRequest (rq_method q) (if rq_11 q then kHttp11 else kHttp10) (rq_path q) (rq_query q) t' (header_map hs1)) h Hh) as [-> ->].
    assert ((zlen (fst h) =? zlen (header_line h)) = false) as -> by apply zlen_app_neqb.
    cbn [negb]. eapply runs_bind; [exact Hret|]. intros b Hb'. pose proof Hb' as [Hbi Hbv _].
    eapply runs_mono; [apply (IH _ b T')|intros p; by apply cut_post_line with (v := v')]; [|done|by rewrite Hbv|].
    + cbn [method_ version_ path_ query_ receiveTime_ headers_]. rewrite <- header_map_snoc.
      apply expects_headers; [done|]. by rewrite <- app_assoc.
    + rewrite Hbv. rewrite Hv1, length_app in Hf. cbn [length] in Hf. lia.
Qed.
End pieces.

(** ** A connection of the server *)

Section connection.
Context {B : Type} `{!IBytesBuffer B} `{!BytesBufferLaws B}.
Variable httpCallback_ : HttpRequest → HttpResponse → HttpResponse.

(** Each read puts its bytes into the input buffer and calls the message callback. *)
Fixpoint serve (context : HttpContext) (buf : B) (reads : list (Z * bytes)) :
    outcome (list conn_call * HttpContext * B) :=
  match reads with
  | [] => Ret ([], context, buf)
  | (t, data) :: reads =>
      buf ← b_append buf data;
      '(calls, context, buf) ← onMessage httpCallback_ context buf t;
      '(calls', context, buf) ← serve context buf reads;
      Ret (calls ++ calls', context, buf)
  end.

(** How many of the requests [qs] are answered, when [have] bytes of the first one
    are in the buffer: a read answers one request at most. *)
Fixpoint answered (qs : list request) (have : Z) (reads : list (Z * bytes)) : nat :=
  match reads, qs with
  | (_, data) :: reads, q :: qs' =>
      let have := have + zlen data in
      if zlen (render q) <=? have then S (answered qs' (have - zlen (render q)) reads)
      else answered qs have reads
  | _, _ => 0%nat
  end.

Lemma onMessage_cut tm t q c (buf : B) T fut rest :
  tm t → request_ok q → (∀ t, response_ok (response_to httpCallback_ (parsed q t))) →
  expects tm q c T → buf_inv buf → view buf ++ fut = T ++ rest →
  runs (onMessage httpCallback_ c buf t) (λ p,
    buf_inv p.2 ∧ room buf ≤ room p.2 ∧
    if zlen T <=? zlen (view buf) then
      ∃ t', tm t' ∧ p.1 = (answer_to httpCallback_ (parsed q t'), HttpContext_ctor) ∧ view p.2 ++ fut = rest
    else ∃ c' T', p.1 = ([], c') ∧ expects tm q c' T' ∧ view p.2 ++ fut = T' ++ rest ∧
      zlen (view p.2) - zlen T' = zlen (view buf) - zlen T).
Proof.
  intros Ht Hq Hr Hc Hb Hv. unfold onMessage.
  destruct (loop_cut tm t (parse_fuel buf) c buf q T fut rest) as ([[ok c'] b] & Hrun & Hi & Hrm & Hpost); [done..| |].
  { unfold parse_fuel. rewrite readableBytes_view by done. lia. }
  unfold parseRequest. rewrite Hrun. orun. cbn [fst snd] in *. case_match.
  - destruct Hpost as [(t' & Ht' & [= -> ->]) Hrest]. change (gotAll _) with true. cbn [request_].
    rewrite onRequest_answers by done. orun. apply runs_ret.
    split_and!; [done..|]. by exists t'.
  - destruct Hpost as (c1 & T' & [= -> ->] & Hc1 & Hrest & Hl).
    assert (gotAll c1 = false) as -> by (by destruct Hc1). apply runs_ret.
    split_and!; [done..|]. by exists c1, T'.
Qed.

(** The text of the requests that are not answered yet: [T] of the first one. *)
Definition pending_text (T : bytes) (qs : list request) : bytes :=
  match qs with [] => [] | _ :: qs => T ++ concat (render <$> qs) end.

Lemma serve_cut (tm : Z → Prop) reads qs c (buf : B) T fut have :
  Forall (λ r, tm r.1 ∧ Forall_byte r.2 ∧ r.2 ≠ []) reads →
  Forall (λ q, request_ok q ∧ ∀ t, response_ok (response_to httpCallback_ (parsed q t))) qs →
  zlen (concat reads.*2) ≤ room buf → buf_inv buf →
  (∀ q, head qs = Some q → expects tm q c T ∧ have = zlen (render q) - zlen T + zlen (view buf)) →
  view buf ++ concat reads.*2 ++ fut = pending_text T qs →
  ∃ answers c' buf', serve c buf reads = Ret (concat answers, c', buf') ∧
    Forall2 (λ q a, ∃ t, tm t ∧ a = answer_to httpCallback_ (parsed q t)) (take (answered qs have reads) qs) answers.
Proof.
  revert qs c buf T have. induction reads as [|[t data] reads IH]; intros qs c buf T have Hreads Hqs Hroom Hb Hc Hv.
  { exists [], c, buf. by destruct qs. }
  apply Forall_cons in Hreads as [(Ht & Hd & Hne) Hreads].
  cbn [fmap list_fmap concat fst snd] in *. rewrite length_app in Hroom. rewrite <- app_assoc in Hv.
  destruct qs as [|q qs]; [by apply app_nil in Hv as [_ [??]%app_nil]|].
  apply Forall_cons in Hqs as [[Hq Hr] Hqs]. destruct (Hc q eq_refl) as [Hexp ->]. cbn [pending_text] in Hv.
  destruct (append_view buf data) as (b1 & Hb1 & [Hi1 Hv1 Hr1]); [done|done|lia|].
  cbn [serve]. rewrite Hb1. orun. rewrite app_assoc, <- Hv1 in Hv.
  destruct (onMessage_cut tm t q c b1 T (concat reads.*2 ++ fut) (concat (render <$> qs)))
    as ([[calls c2] b2] & -> & Hi2 & Hr2 & Hpost); [done..|]. orun. cbn [fst snd] in *.
  assert (zlen (view b1) = zlen (view buf) + zlen data) as Hl1 by (rewrite Hv1, length_app; lia).
  cbn [answered]. destruct (Z.leb_spec (zlen T) (zlen (view b1))) as [Hle|Hlt].
  - destruct Hpost as (t' & Ht' & [= -> ->] & Hrest). rewrite (proj2 (Z.leb_le _ _)) by lia.
    destruct (IH qs HttpContext_ctor b2 (match qs with [] => [] | q :: _ => render q end)
      (zlen (render q) - zlen T + zlen (view buf) + zlen data - zlen (render q)))
      as (answers & c' & buf' & -> & Hans); [done|done|lia|done| | |].
    + intros q' Hq'. destruct qs; cbn in *; simplify_eq. split; [constructor|].
      assert (zlen (view b2) = zlen (view b1) - zlen T); [|lia].
      apply (f_equal length) in Hv, Hrest. rewrite !length_app in *. lia.
    + rewrite Hrest. by destruct qs.
    + orun. exists (answer_to httpCallback_ (parsed q t') :: answers), c', buf'. split; [done|].
      cbn [take]. constructor; [by exists t'|done].
  - destruct Hpost as (c1 & T' & [= -> ->] & Hexp' & Hrest & Hl). rewrite (proj2 (Z.leb_gt _ _)) by lia.
    destruct (IH (q :: qs) c1 b2 T' (zlen (render q) - zlen T + zlen (view buf) + zlen data))
      as (answers & c' & buf' & -> & Hans); [done|by constructor|lia|done| |done|].
    + intros q' [= <-]. split; [done|lia].
    + orun. by exists answers, c', buf'.
Qed.
End connection.

(** C10: Well-formed requests that arrive one after the other, cut into reads
    anywhere, are answered in their order: each answer is the text of the response
    the user's callback makes, with its status line, its length when the
    connection is kept, its headers and its body, followed by a shutdown when the
    response closes the connection.  A request is answered by the read that
    completes it, or by a later one when that read has answered another. *)
Theorem http_server_answers {B} `{!IBytesBuffer B, !BytesBufferLaws B} httpCallback_
    (buf : B) (reads : list (Z * bytes)) qs fut :
  Forall (λ q, request_ok q ∧ ∀ t, response_ok (response_to httpCallback_ (parsed q t))) qs →
  Forall (λ r, Forall_byte r.2 ∧ r.2 ≠ []) reads →
  buf_inv buf → view buf = [] → zlen (concat reads.*2) ≤ room buf →
  concat reads.*2 ++ fut = concat (render <$> qs) →
  ∃ answers c' buf', serve httpCallback_ HttpContext_ctor buf reads = Ret (concat answers, c', buf') ∧
    Forall2 (λ q a, ∃ t, t ∈ reads.*1 ∧ a = answer_to httpCallback_ (parsed q t))
      (take (answered qs 0 reads) qs) answers.
Proof.
  intros Hqs Hreads Hb Hv Hroom Htext.
  apply (serve_cut httpCallback_ (.∈ reads.*1) reads qs HttpContext_ctor buf
    (match qs with [] => [] | q :: _ => render q end) fut 0); try done.
  - apply Forall_forall. intros r Hr. rewrite Forall_forall in Hreads. split; [|by apply Hreads].
    by apply list_elem_of_fmap_2.
  - intros q Hq. destruct qs; cbn in *; simplify_eq. split; [constructor|]. rewrite Hv. cbn. lia.
  - rewrite Hv. cbn [app]. rewrite Htext. by destruct qs.
Qed.

(** One call of the message callback answers one request: what follows the
    first request stays in the buffer, even when it is a complete request. *)
Theorem one_answer_per_read {B} `{!IBytesBuffer B, !BytesBufferLaws B} httpCallback_ t (buf : B) q tail :
  request_ok q → response_ok (response_to httpCallback_ (parsed q t)) →
  buf_inv buf → view buf = render q ++ tail →
  ∃ buf', onMessage httpCallback_ HttpContext_ctor buf t =
      Ret (answer_to httpCallback_ (parsed q t), HttpContext_ctor, buf') ∧ view buf' = tail.
Proof.
  intros Hq Hr Hb Hv. destruct (parseRequest_render t buf q (room buf) tail) as (p & Hrun & b & -> & [_ Hbv _]);
    [done|by split|].
  exists b. unfold onMessage. rewrite Hrun. orun. change (gotAll _) with true. cbn [request_].
  rewrite onRequest_answers by done. orun. done.
Qed.

(** A request line with a known method whose version is none of the two. *)
Definition bad_version_line (m : Method) (uri version : bytes) : bytes :=
  methodString m ++ 32 :: uri ++ 32 :: version.

Lemma bad_version_parsed r m uri version :
  method_ r = kInvalid → m ≠ kInvalid → 32 ∉ uri →
  version ≠ str "HTTP/1.1" → version ≠ str "HTTP/1.0" →
  ∃ r', processRequestLine r (bad_version_line m uri version) = Ret (false, r') ∧ method_ r' = m.
Proof.
  intros Hr Hm Hu H1 H0. unfold processRequestLine, bad_version_line.
  rewrite find_char_app, zlen_app_neqb, ztake_app by (done || apply methodString_no; auto).
  unfold setMethod. rewrite Hr, assert_true by done. orun. rewrite method_of_string by done.
  rewrite bool_decide_false by done. cbn [negb].
  assert (∀ (l : bytes) x r, zdrop (zlen l + 1) (l ++ x :: r) = r) as Hdrop.
  { intros l x l'. rewrite cons_middle, app_assoc. apply zdrop_app. rewrite length_app. cbn. lia. }
  rewrite Hdrop, find_char_app, zlen_app_neqb, ztake_app, Hdrop by done.
  destruct (Z.eqb_spec (zlen version) 8) as [Hl|Hl]; [|eexists; split; [done|by case_match]].
  cbn [andb]. case_bool_decide as H7; [|eexists; split; [done|by case_match]].
  rewrite <- (ztake_zdrop 7 version), H7 in H1, H0.
  rewrite !bool_decide_false; [eexists; split; [done|by case_match]|by intros Hz; rewrite Hz in *..].
Qed.

(** A request line with a known method and an unknown version is answered with
    400 and a shutdown, but it stays in the buffer and its method stays set: when
    the peer sends anything more, the process stops at the assertion of [setMethod]. *)
Theorem bad_version_then_data_stops_the_process {B} `{!IBytesBuffer B, !BytesBufferLaws B} httpCallback_
    t t' (buf : B) m uri version tail more :
  m ≠ kInvalid → 32 ∉ uri → 13 ∉ uri → 13 ∉ version →
  version ≠ str "HTTP/1.1" → version ≠ str "HTTP/1.0" → 
  buf_inv buf → view buf = bad_version_line m uri version ++ crlf ++ tail →
  Forall_byte more → zlen more ≤ room buf →
  ∃ c, onMessage httpCallback_ HttpContext_ctor buf t =
      Ret ([CSend (str "HTTP/1.1 400 Bad Request" ++ crlf ++ crlf); CShutdown], c, buf) ∧
    (buf' ← b_append buf more; onMessage httpCallback_ c buf' t') = Abort AssertFailed.
Proof.
  intros Hm Hu Hcr Hcr' H1 H0 Hb Hv Hmore Hroom.
  assert (13 ∉ bad_version_line m uri version) as Hline.
  { unfold bad_version_line. rewrite not_elem_of_app, not_elem_of_cons, not_elem_of_app, not_elem_of_cons.
    split_and!; try done. apply methodString_no; auto. }
  destruct (bad_version_parsed HttpRequest_ctor m uri version) as (r & Hr & Hrm); [done..|].
  exists (mkHttpContext kExpectRequestLine r). split.
  - destruct (line_read buf (view buf) (room buf) (bad_version_line m uri version) tail) as (Hf & Hp & _);
      [by split|done|done|].
    unfold onMessage, parseRequest, parse_fuel. rewrite readableBytes_view by done.
    replace (Z.to_nat (zlen (view buf) + 1)) with (S (length (view buf))) by lia.
    cbn [parseRequest_loop HttpContext_ctor state_ request_]. rewrite Hf, Hp. orun. rewrite Hr. orun. done.
  - destruct (append_view buf more) as (b & -> & [Hi Hbv _]); [done..|]. orun.
    destruct (line_read b (view b) (room b) (bad_version_line m uri version) (tail ++ more)) as (Hf & Hp & _);
      [by split|rewrite Hbv, Hv; by rewrite <- !app_assoc|done|].
    unfold onMessage, parseRequest, parse_fuel. rewrite readableBytes_view by done.
    replace (Z.to_nat (zlen (view b) + 1)) with (S (length (view b))) by lia.
    cbn [parseRequest_loop state_ request_]. rewrite Hf, Hp. orun.
    unfold processRequestLine at 1, bad_version_line.
    rewrite find_char_app, zlen_app_neqb by (apply methodString_no; auto).
    unfold setMethod. rewrite Hrm, assert_false by (by rewrite bool_decide_false). done.
Qed.

End HttpServer.

(** ** Witnesses *)

Module HttpServerSample.
Import HttpServer.

(** The callback of a server that greets everybody. *)
Definition hello (req : HttpRequest) (resp : HttpResponse) : HttpResponse :=
  setBody (setContentType (setStatusMessage (setStatusCode resp k200Ok) (str "OK")) (str "text/plain")) (str "hello").

Lemma Forall_byte_dec (l : bytes) : forallb (λ b, (0 <=? b) && (b <? 256)) l = true → Forall_byte l.
Proof.
  intros H. apply Forall_forall. intros x Hx. rewrite forallb_forall in H.
  specialize (H x (proj1 (list_elem_of_In _ _) Hx)). unfold is_byte. lia.
Qed.

Lemma hello_ok req : response_ok (response_to hello req).
Proof.
  unfold response_to. destruct (wants_close req); split; try (by vm_compute).
  all: try by apply Forall_byte_dec.
  all: try (apply Forall_singleton; split; by apply Forall_byte_dec).
  all: split; [by apply Forall_byte_dec|by vm_compute].
Qed.

Definition get (path : bytes) : request := mkReq kGet path [] true [(str "Host", str "a")].

Lemma get_ok path : bool_decide (32 ∉ path ∧ 63 ∉ path ∧ 13 ∉ path) = true → request_ok (get path).
Proof.
  intros H%bool_decide_eq_true. split; cbn; [done|done|by left|].
  apply Forall_cons. split; [by apply HttpSample.header_ok_dec|constructor].
Qed.

(** One request in two reads, then two requests in one read. *)
Definition reads : list (Z * bytes) :=
  [(1, ztake 9 (render (get (str "/1")))); (2, zdrop 9 (render (get (str "/1"))));
   (3, render (get (str "/2")) ++ ztake 20 (render (get (str "/3")))); (4, zdrop 20 (render (get (str "/3"))))].
End HttpServerSample.

Lemma http_server_answers_witness :
  let qs := HttpServerSample.get <$> [str "/1"; str "/2"; str "/3"] in
  let reads := HttpServerSample.reads in
  HttpServer.answered qs 0 reads = 3%nat ∧
  ∃ answers c' buf', HttpServer.serve HttpServerSample.hello Http.HttpContext_ctor (HttpSample.buffer []) reads =
      Ret (concat answers, c', buf') ∧
    Forall2 (λ q a, ∃ t, t ∈ reads.*1 ∧ a = HttpServer.answer_to HttpServerSample.hello (Http.parsed q t))
      (take (HttpServer.answered qs 0 reads) qs) answers.
Proof.
  split; [by vm_compute|]. apply (HttpServer.http_server_answers _ _ _ _ []).
  - repeat (apply Forall_cons; split; [split; [by apply HttpServerSample.get_ok|intros; apply HttpServerSample.hello_ok]|]).
    constructor.
  - repeat (apply Forall_cons; split; [split; [by apply HttpServerSample.Forall_byte_dec|done]|]). constructor.
  - apply (bool_decide_unpack (Buffer.wf _)). by vm_compute.
  - done.
  - by vm_compute.
  - by vm_compute.
Defined.

(** Two requests in one read: the second one is left. *)
Lemma one_answer_per_read_witness :
  let q1 := HttpServerSample.get (str "/1") in
  let q2 := HttpServerSample.get (str "/2") in
  ∃ buf', HttpServer.onMessage HttpServerSample.hello Http.HttpContext_ctor
      (HttpSample.buffer (Http.render q1 ++ Http.render q2)) 7 =
      Ret (HttpServer.answer_to HttpServerSample.hello (Http.parsed q1 7), Http.HttpContext_ctor, buf') ∧
    view buf' = Http.render q2.
Proof.
  apply HttpServer.one_answer_per_read.
  - by apply HttpServerSample.get_ok.
  - apply HttpServerSample.hello_ok.
  - apply (bool_decide_unpack (Buffer.wf _)). by vm_compute.
  - by vm_compute.
Defined.

(** [GET / HTTP/2.0], and then any line. *)
Lemma bad_version_then_data_stops_the_process_witness :
  let buf := HttpSample.buffer (HttpServer.bad_version_line Http.kGet (str "/") (str "HTTP/2.0") ++ Http.crlf ++ []) in
  ∃ c, HttpServer.onMessage HttpServerSample.hello Http.HttpContext_ctor buf 1 =
      Ret ([HttpServer.CSend (str "HTTP/1.1 400 Bad Request" ++ Http.crlf ++ Http.crlf); HttpServer.CShutdown], c, buf) ∧
    (buf' ← b_append buf (str "x"); HttpServer.onMessage HttpServerSample.hello c buf' 2) = Abort AssertFailed.
Proof.
  apply (HttpServer.bad_version_then_data_stops_the_process HttpServerSample.hello 1 2 _ Http.kGet (str "/") (str "HTTP/2.0") []
    (str "x")); try done.
  1, 2, 3: by apply (bool_decide_unpack (_ ∉ _)).
  - apply (bool_decide_unpack (Buffer.wf _)). by vm_compute.
  - by apply HttpServerSample.Forall_byte_dec.
Defined.
