(* ===== verification/Connector.v ===== *)
(** * Connector: outgoing connections (src/muduo-vip/muduo/net/Connector.{h,cc})

    A connector makes a socket, waits until it is writable, and hands it to its
    owner or tries again later.  Its state is that of the class with the poller
    and the pending functors of its loop, the number of its timers that have not
    fired, and the history [log] of what it did that others see.  [net k] is what
    the kernel answers to the k-th attempt: the descriptor of [socket] and the
    errno of [connect], 0 for success.  The connection callback takes the
    descriptor over and makes no call of the connector itself. *)

From S2P Require Import Prelude Channel.
Import Channel.

Module Connector.

Inductive States : Type := kDisconnected | kConnecting | kConnected.

#[global] Instance States_eq_dec : EqDecision States.
Proof. solve_decision. Defined.

Definition kMaxRetryDelayMs : Z := 30 * 1000.
Definition kInitRetryDelayMs : Z := 500.

Inductive functor : Type := FStartInLoop | FStopInLoop | FResetChannel.

#[global] Instance functor_eq_dec : EqDecision functor.
Proof. solve_decision. Defined.

(** What others see: a new socket, a closed one, one given to the owner, a timer
    after so many milliseconds; and the calls of [restart]. *)
Inductive call : Type :=
  | CSocket (fd : Z)
  | CClose (fd : Z)
  | CNewConnection (fd : Z)
  | CRunAfter (ms : Z)
  | CRestart.

Record Connector : Type := mkConnector {
  connect_ : bool;
  state_ : States;
  channel_ : option Channel;
  retryDelayMs_ : Z;
  poller_ : Poller;
  pending : list functor;
  timers : nat;
  created : nat;
  log : list call;
}.

Definition Connector_ctor : Connector :=
  mkConnector false kDisconnected None kInitRetryDelayMs Poller_ctor [] 0 0 [].

Definition set_connect (c : Connector) (b : bool) : Connector :=
  mkConnector b (state_ c) (channel_ c) (retryDelayMs_ c) (poller_ c) (pending c) (timers c) (created c) (log c).
Definition setState (c : Connector) (s : States) : Connector :=
  mkConnector (connect_ c) s (channel_ c) (retryDelayMs_ c) (poller_ c) (pending c) (timers c) (created c) (log c).
Definition set_channel (c : Connector) (p : Poller) (ch : option Channel) : Connector :=
  mkConnector (connect_ c) (state_ c) ch (retryDelayMs_ c) p (pending c) (timers c) (created c) (log c).
Definition set_retryDelay (c : Connector) (ms : Z) : Connector :=
  mkConnector (connect_ c) (state_ c) (channel_ c) ms (poller_ c) (pending c) (timers c) (created c) (log c).
Definition set_pending (c : Connector) (fs : list functor) : Connector :=
  mkConnector (connect_ c) (state_ c) (channel_ c) (retryDelayMs_ c) (poller_ c) fs (timers c) (created c) (log c).
Definition set_timers (c : Connector) (n : nat) : Connector :=
  mkConnector (connect_ c) (state_ c) (channel_ c) (retryDelayMs_ c) (poller_ c) (pending c) n (created c) (log c).
Definition set_created (c : Connector) (n : nat) : Connector :=
  mkConnector (connect_ c) (state_ c) (channel_ c) (retryDelayMs_ c) (poller_ c) (pending c) (timers c) n (log c).
Definition record_call (c : Connector) (e : call) : Connector :=
  mkConnector (connect_ c) (state_ c) (channel_ c) (retryDelayMs_ c) (poller_ c) (pending c) (timers c) (created c)
    (log c ++ [e]).

Definition queueInLoop (c : Connector) (f : functor) : Connector := set_pending c (pending c ++ [f]).

Definition is_state (c : Connector) (s : States) : bool := bool_decide (state_ c = s).

(** ** Errors of connect(2) *)

Definition EPERM : Z := 1.
Definition EINTR : Z := 4.
Definition EBADF : Z := 9.
Definition EAGAIN : Z := 11.
Definition EACCES : Z := 13.
Definition EADDRINUSE : Z := 98.
Definition EADDRNOTAVAIL : Z := 99.
Definition ENETUNREACH : Z := 101.
Definition EISCONN : Z := 106.
Definition ECONNREFUSED : Z := 111.
Definition EINPROGRESS : Z := 115.

Inductive connect_result : Type := InProgress | TryAgain | GiveUp.

(** The cases of the switch; those that only differ in the message they log are one. *)
Definition classify (savedErrno : Z) : connect_result :=
  if bool_decide (savedErrno ∈ [0; EINPROGRESS; EINTR; EISCONN]) then InProgress
  else if bool_decide (savedErrno ∈ [EAGAIN; EADDRINUSE; EADDRNOTAVAIL; ECONNREFUSED; ENETUNREACH]) then TryAgain
  else GiveUp.

Section connector.
Variable net : nat → Z * Z.

Definition retry (c : Connector) (sockfd : Z) : Connector :=
  let c := record_call c (CClose sockfd) in
  let c := setState c kDisconnected in
  if connect_ c then
    let c := set_timers (record_call c (CRunAfter (retryDelayMs_ c))) (S (timers c)) in
    set_retryDelay c (Z.min (retryDelayMs_ c * 2) kMaxRetryDelayMs)
  else c.

Definition connecting (c : Connector) (sockfd : Z) : outcome Connector :=
  let c := setState c kConnecting in
  assert (bool_decide (channel_ c = None)) ;;
  '(p, ch) ← enableWriting (poller_ c) (Channel_ctor (Z.of_nat (created c)) sockfd) false;
  Ret (set_channel c p (Some ch)).

Definition connect (c : Connector) : outcome Connector :=
  let '(sockfd, savedErrno) := net (created c) in
  let c := set_created (record_call c (CSocket sockfd)) (S (created c)) in
  match classify savedErrno with
  | InProgress => connecting c sockfd
  | TryAgain => Ret (retry c sockfd)
  | GiveUp => Ret (record_call c (CClose sockfd))
  end.

Definition startInLoop (c : Connector) : outcome Connector :=
  assert (is_state c kDisconnected) ;;
  if connect_ c then connect c else Ret c.

Definition start (c : Connector) (inLoop : bool) : outcome Connector :=
  let c := set_connect c true in
  if inLoop then startInLoop c else Ret (queueInLoop c FStartInLoop).

(** Called by the handler of the channel itself, or while the loop handles no events of
    the channel. *)
Definition removeAndResetChannel (c : Connector) : outcome (Z * Connector) :=
  match channel_ c with
  | None => Abort NullPointer
  | Some ch =>
      '(p, ch) ← disableAll (poller_ c) ch;
      '(p, ch) ← remove (if eventHandling_ ch then Some (Some (ptr ch), [ptr ch]) else None) p ch;
      Ret (fd_ ch, queueInLoop (set_channel c p (Some ch)) FResetChannel)
  end.

Definition stopInLoop (c : Connector) : outcome Connector :=
  if is_state c kConnecting then
    let c := setState c kDisconnected in
    '(sockfd, c) ← removeAndResetChannel c;
    Ret (retry c sockfd)
  else if is_state c kConnected then
    let c := setState c kDisconnected in
    '(_, c) ← removeAndResetChannel c;
    Ret c
  else Ret c.

Definition stop (c : Connector) (inLoop : bool) : outcome Connector :=
  let c := set_connect c false in
  if inLoop then stopInLoop c else Ret (queueInLoop c FStopInLoop).

Definition restart (c : Connector) : outcome Connector :=
  let c := record_call (setState c kDisconnected) CRestart in
  let c := set_connect (set_retryDelay c kInitRetryDelayMs) true in
  startInLoop c.

(** The channel is destroyed; its destructor checks that nobody uses it. *)
Definition resetChannel (c : Connector) : outcome Connector :=
  match channel_ c with
  | None => Ret c
  | Some ch =>
      assert (negb (eventHandling_ ch)) ;;
      assert (negb (addedToLoop_ ch)) ;;
      assert (negb (is_mine (poller_ c) ch)) ;;
      Ret (set_channel c (poller_ c) None)
  end.

(** [err] is the pending error of the socket, [self] the result of [isSelfConnect]. *)
Definition handleWrite (c : Connector) (err : Z) (self : bool) : outcome Connector :=
  if is_state c kConnecting then
    '(sockfd, c) ← removeAndResetChannel c;
    if negb (err =? 0) then Ret (retry c sockfd)
    else if self then Ret (retry c sockfd)
    else
      let c := setState c kConnected in
      if connect_ c then Ret (record_call c (CNewConnection sockfd))
      else Ret (record_call c (CClose sockfd))
  else assert (is_state c kDisconnected) ;; Ret c.

Definition handleError (c : Connector) : outcome Connector :=
  if is_state c kConnecting then
    '(sockfd, c) ← removeAndResetChannel c;
    Ret (retry c sockfd)
  else Ret c.

(** The connector sets the write and the error callback of its channel. *)
Definition handleEvent (c : Connector) (revents err : Z) (self : bool) : outcome Connector :=
  let mark b c := set_channel c (poller_ c) ((λ ch, set_eventHandling ch b) <$> channel_ c) in
  let c := mark true c in
  c ← (if has_bits revents (Z.lor POLLERR POLLNVAL) then handleError c else Ret c);
  c ← (if has_bits revents POLLOUT then handleWrite c err self else Ret c);
  Ret (mark false c).

Definition run_functor (c : Connector) (f : functor) : outcome Connector :=
  match f with
  | FStartInLoop => startInLoop c
  | FStopInLoop => stopInLoop c
  | FResetChannel => resetChannel c
  end.

(** ** Runs

    Calls of the owner in the loop's thread or another one, an event of the
    socket, the first pending functor, a timer that fires. *)
Inductive action : Type :=
  | AStart (inLoop : bool)
  | AStop (inLoop : bool)
  | ARestart
  | AEvent (revents err : Z) (self : bool)
  | AFunctor
  | ATimer.

Definition act (c : Connector) (a : action) : outcome Connector :=
  match a with
  | AStart inLoop => start c inLoop
  | AStop inLoop => stop c inLoop
  | ARestart => restart c
  | AEvent revents err self => handleEvent c revents err self
  | AFunctor =>
      match pending c with
      | f :: fs => run_functor (set_pending c fs) f
      | [] => Ret c
      end
  | ATimer => startInLoop (set_timers c (pred (timers c)))
  end.

(** The loop reports events of registered channels and timers that are set.  The
    functor that frees a channel runs in the iteration that queued it, a timer fires
    in a later one. *)
Definition possible (c : Connector) (a : action) : bool :=
  match a with
  | AEvent _ _ _ =>
      match channel_ c, interest (ctl (poller_ c)) with
      | Some ch, Some m => bool_decide (is_Some (m !! fd_ ch))
      | _, _ => false
      end
  | ATimer => (0 <? timers c)%nat && negb (bool_decide (FResetChannel ∈ pending c))
  | _ => true
  end.

Definition can_start (c : Connector) : bool := is_state c kDisconnected && bool_decide (channel_ c = None).

(** Nothing is under way: no attempt, no channel, no functor, no timer. *)
Definition idle (c : Connector) : bool :=
  negb (is_state c kConnecting) && bool_decide (channel_ c = None) && bool_decide (pending c = []) && (timers c =? 0)%nat.

(** What the owner must respect, in its own calls and nothing else: it starts a
    connector that is idle and disconnected, starts it over when it is idle, and stops it
    in the loop's thread while it is not connected. *)
Definition allowed (c : Connector) (a : action) : bool :=
  match a with
  | AStart _ => idle c && is_state c kDisconnected
  | AStop inLoop => inLoop && negb (is_state c kConnected)
  | ARestart => idle c
  | _ => true
  end.

(** The states of a connector whose owner does so. *)
Inductive used : Connector → Prop :=
  | used_ctor : used Connector_ctor
  | used_act c a c' : used c → possible c a = true → allowed c a = true → act c a = Ret c' → used c'.

(** For the proofs: the conditions that the source asserts in an action, and the states
    of all runs in which they hold. *)
Definition checks (c : Connector) (a : action) : bool :=
  match a with
  | AStart true => can_start c
  | AStop true => negb (is_state c kConnected)
  | ARestart => bool_decide (channel_ c = None)
  | AFunctor =>
      match pending c with
      | FStartInLoop :: _ => is_state c kDisconnected && (negb (connect_ c) || can_start c)
      | FStopInLoop :: _ => negb (is_state c kConnected)
      | _ => true
      end
  | ATimer => is_state c kDisconnected && (negb (connect_ c) || can_start c)
  | _ => true
  end.

Inductive reachable : Connector → Prop :=
  | reachable_ctor : reachable Connector_ctor
  | reachable_act c a c' :
      reachable c → possible c a = true → checks c a = true → act c a = Ret c' → reachable c'.

(** ** What the history says *)

(** The socket the connector has after the calls, at most one at a time; [None] if
    one was lost, closed twice or closed after it was given away. *)
Definition held_step (h : option (option Z)) (e : call) : option (option Z) :=
  match e, h with
  | CSocket fd, Some None => Some (Some fd)
  | CClose fd, Some (Some fd') => if fd =? fd' then Some None else None
  | CNewConnection fd, Some (Some fd') => if fd =? fd' then Some None else None
  | CRunAfter _, h => h
  | CRestart, h => h
  | _, _ => None
  end.
Definition held (l : list call) : option (option Z) := foldl held_step (Some None) l.

(** The delays since the last [restart]. *)
Definition delays_step (ds : list Z) (e : call) : list Z :=
  match e with CRunAfter ms => ds ++ [ms] | CRestart => [] | _ => ds end.
Definition delays (l : list call) : list Z := foldl delays_step [] l.

(** The i-th delay: doubled each time, at most 30 seconds. *)
Definition backoff (i : nat) : Z := Z.min (kInitRetryDelayMs * 2 ^ Z.of_nat i) kMaxRetryDelayMs.

(** ** Invariant *)

(** While it connects the channel waits for writability, and nothing else is
    registered; afterwards it is removed and its destruction is queued. *)
Definition chan_ok (handling busy : bool) (c : Connector) : Prop :=
  match channel_ c with
  | None => busy = false ∧ channels_ (poller_ c) = ∅ ∧ interest (ctl (poller_ c)) = Some ∅ ∧
      FResetChannel ∉ pending c
  | Some ch =>
      eventHandling_ ch = handling ∧
      if busy then
        index_ ch = kAdded ∧ FResetChannel ∉ pending c ∧
        channels_ (poller_ c) = {[fd_ ch := ptr ch]} ∧ interest (ctl (poller_ c)) = Some {[fd_ ch := kWriteEvent]}
      else
        addedToLoop_ ch = false ∧ channels_ (poller_ c) = ∅ ∧ interest (ctl (poller_ c)) = Some ∅ ∧
        ∃ fs1 fs2, pending c = fs1 ++ FResetChannel :: fs2 ∧ FResetChannel ∉ fs1 ++ fs2
  end.

Record log_ok (h : option Z) (c : Connector) : Prop := LogOk {
  log_held : held (log c) = Some h;
  log_delays : delays (log c) = backoff <$> seq 0 (length (delays (log c)));
  log_delay : retryDelayMs_ c = backoff (length (delays (log c)));
}.

(** A connector that shall connect, and does not, has a reason. *)
Definition wants_ok (c : Connector) : Prop :=
  connect_ c = true → state_ c = kDisconnected →
  (0 < timers c)%nat ∨ FStartInLoop ∈ pending c ∨ ∃ fd, last (log c) = Some (CClose fd).

Definition socket_of (c : Connector) : option Z :=
  if is_state c kConnecting then fd_ <$> channel_ c else None.

Record inv (handling : bool) (c : Connector) : Prop := Inv {
  inv_channel : chan_ok handling (is_state c kConnecting) c;
  inv_log : log_ok (socket_of c) c;
  inv_wants : wants_ok c;
}.

Lemma backoff_next n : Z.min (backoff n * 2) kMaxRetryDelayMs = backoff (S n).
Proof.
  unfold backoff, kInitRetryDelayMs, kMaxRetryDelayMs. rewrite Nat2Z.inj_succ, Z.pow_succ_r by lia.
  pose proof (Z.pow_pos_nonneg 2 (Z.of_nat n)). lia.
Qed.

Lemma held_snoc l e : held (l ++ [e]) = held_step (held l) e.
Proof. unfold held. by rewrite foldl_app. Qed.
Lemma delays_snoc l e : delays (l ++ [e]) = delays_step (delays l) e.
Proof. unfold delays. by rewrite foldl_app. Qed.

Lemma log_ok_socket c fd : log_ok None c → log_ok (Some fd) (record_call c (CSocket fd)).
Proof.
  intros [H1 H2 H3]. split; cbn [record_call log retryDelayMs_]; rewrite ?held_snoc, ?delays_snoc; [by rewrite H1|done..].
Qed.
Lemma log_ok_close c fd : log_ok (Some fd) c → log_ok None (record_call c (CClose fd)).
Proof.
  intros [H1 H2 H3]. split; cbn [record_call log retryDelayMs_]; rewrite ?held_snoc, ?delays_snoc; [|done..].
  rewrite H1. cbn. by rewrite Z.eqb_refl.
Qed.
Lemma log_ok_give c fd : log_ok (Some fd) c → log_ok None (record_call c (CNewConnection fd)).
Proof.
  intros [H1 H2 H3]. split; cbn [record_call log retryDelayMs_]; rewrite ?held_snoc, ?delays_snoc; [|done..].
  rewrite H1. cbn. by rewrite Z.eqb_refl.
Qed.
Lemma log_ok_restart h c : log_ok h c → log_ok h (set_retryDelay (record_call c CRestart) kInitRetryDelayMs).
Proof.
  intros [H1 H2 H3]. split; cbn [record_call set_retryDelay log retryDelayMs_]; rewrite ?held_snoc, ?delays_snoc; [|done..].
  by rewrite H1.
Qed.

Lemma log_ok_retry c fd : log_ok (Some fd) c → log_ok None (retry c fd).
Proof.
  intros H%log_ok_close. unfold retry. cbn [connect_ setState record_call]. destruct H as [H1 H2 H3].
  destruct (connect_ c); [|by split].
  cbn [record_call setState log retryDelayMs_] in *.
  split; cbn [set_retryDelay set_timers record_call setState log retryDelayMs_]; rewrite ?held_snoc, ?delays_snoc in *;
    cbn [delays_step held_step] in *.
  - done.
  - rewrite length_app, seq_app, fmap_app. cbn [length seq fmap list_fmap]. by rewrite <- H2, H3.
  - rewrite length_app, Nat.add_1_r. by rewrite <- backoff_next, H3.
Qed.

Lemma retry_wants c fd : wants_ok (retry c fd).
Proof.
  unfold retry, wants_ok. cbn [connect_ setState record_call]. destruct (connect_ c) eqn:E; cbn; [left; lia|congruence].
Qed.

Lemma retry_state c fd : state_ (retry c fd) = kDisconnected ∧ channel_ (retry c fd) = channel_ c ∧
  poller_ (retry c fd) = poller_ c ∧ pending (retry c fd) = pending c.
Proof. unfold retry. cbn [connect_ setState record_call]. by destruct (connect_ c). Qed.

Lemma chan_ok_eq h b c c' : channel_ c' = channel_ c → poller_ c' = poller_ c → pending c' = pending c →
  chan_ok h b c → chan_ok h b c'.
Proof. unfold chan_ok. by intros -> -> ->. Qed.

Lemma retry_inv h c fd : chan_ok h false c → log_ok (Some fd) c → inv h (retry c fd).
Proof.
  intros Hc Hl. destruct (retry_state c fd) as (Hs & H1 & H2 & H3). split.
  - unfold is_state. rewrite Hs. by apply (chan_ok_eq h false c).
  - unfold socket_of, is_state. rewrite Hs. by apply log_ok_retry.
  - apply retry_wants.
Qed.

Lemma log_ok_eq h c c' : log c' = log c → retryDelayMs_ c' = retryDelayMs_ c → log_ok h c → log_ok h c'.
Proof. intros E1 E2 [H1 H2 H3]. split; by rewrite ?E1, ?E2. Qed.

(** The new channel is registered. *)
Lemma connecting_inv c fd : channel_ c = None → chan_ok false false c → log_ok (Some fd) c →
  ∃ c', connecting c fd = Ret c' ∧ inv false c'.
Proof.
  unfold chan_ok. intros E. rewrite E. intros (_ & Hch & Hm & Hp) Hl. unfold connecting.
  cbn [channel_ setState poller_ created]. rewrite E, assert_true by done. orun.
  unfold enableWriting, channel_update, updateChannel, found. cbn. rewrite Hch, lookup_empty. orun.
  eexists. split; [done|]. split.
  - unfold chan_ok. cbn. split_and!; try done. rewrite Hm. cbn. by rewrite lookup_empty.
  - by apply (log_ok_eq _ c).
  - by intros _ ?.
Qed.

Lemma connect_inv c : channel_ c = None → state_ c = kDisconnected → chan_ok false false c → log_ok None c →
  ∃ c', connect c = Ret c' ∧ inv false c'.
Proof.
  intros E Hs Hc Hl. unfold connect. destruct (net (created c)) as [fd err]. apply (log_ok_socket c fd) in Hl.
  set (c1 := set_created _ _).
  assert (chan_ok false false c1) as Hc1 by (by apply (chan_ok_eq _ _ c)).
  assert (log_ok (Some fd) c1) as Hl1 by (by apply (log_ok_eq _ (record_call c (CSocket fd)))).
  destruct (classify err).
  - by apply connecting_inv.
  - eexists. split; [done|]. by apply retry_inv.
  - eexists. split; [done|]. split.
    + unfold is_state. cbn. rewrite Hs. by apply (chan_ok_eq _ _ c).
    + unfold socket_of, is_state. cbn. rewrite Hs. by apply log_ok_close.
    + intros _ _. right. right. exists fd. cbn [record_call log]. apply last_snoc.
Qed.

Lemma is_state_true c s : is_state c s = true → state_ c = s.
Proof. apply bool_decide_eq_true_1. Qed.

Lemma idle_inv c : state_ c = kDisconnected → chan_ok false false c → log_ok None c → wants_ok c → inv false c.
Proof. intros Hs Hc Hl Hw. split; unfold socket_of, is_state; by rewrite ?Hs. Qed.

Lemma startInLoop_inv c : is_state c kDisconnected && (negb (connect_ c) || can_start c) = true →
  chan_ok false false c → log_ok None c → ∃ c', startInLoop c = Ret c' ∧ inv false c'.
Proof.
  intros [Hs Ha]%andb_true_iff Hc Hl. unfold startInLoop. rewrite Hs, assert_true by done. orun.
  apply is_state_true in Hs. destruct (connect_ c) eqn:Hcon; cbn in Ha.
  - apply andb_true_iff in Ha as [_ E%bool_decide_eq_true]. by apply connect_inv.
  - exists c. split; [done|]. apply idle_inv; [done..|]. intros ?. congruence.
Qed.

(** The channel that waits is removed, and its destruction queued. *)
Lemma removeAndResetChannel_ok h c : chan_ok h true c →
  ∃ ch p ch', channel_ c = Some ch ∧ fd_ ch' = fd_ ch ∧
    removeAndResetChannel c = Ret (fd_ ch, queueInLoop (set_channel c p (Some ch')) FResetChannel) ∧
    chan_ok h false (queueInLoop (set_channel c p (Some ch')) FResetChannel).
Proof.
  unfold chan_ok, removeAndResetChannel. destruct (channel_ c) as [ch|]; [|by intros [? _]].
  intros (Hh & Hi & Hp & Hch & Hm). exists ch.
  unfold disableAll, channel_update, updateChannel, found, is_mine. cbn. rewrite Hi, Hch, lookup_singleton_eq. cbn.
  rewrite Z.eqb_refl. orun.
  unfold remove. rewrite (assert_true (may_remove _ _)) by apply may_remove_self.
  unfold removeChannel, found, is_mine. cbn. rewrite Hch, lookup_singleton_eq, Z.eqb_refl. orun. cbn.
  eexists _, _. split; [done|]. split; cycle 1; [split; [done|]|done].
  cbn. split_and!; try done.
  - apply delete_singleton_eq.
  - rewrite Hm. cbn. rewrite lookup_singleton_eq. cbn. by rewrite delete_singleton_eq.
  - exists (pending c), []. by rewrite app_nil_r.
Qed.

(** A connector that connects stops doing so and tries again. *)
Lemma remove_retry_inv h c c0 : chan_ok h true c → log_ok (fd_ <$> channel_ c) c →
  channel_ c0 = channel_ c → poller_ c0 = poller_ c → pending c0 = pending c → log c0 = log c →
  retryDelayMs_ c0 = retryDelayMs_ c →
  ∃ c', ('(fd, c1) ← removeAndResetChannel c0; Ret (retry c1 fd)) = Ret c' ∧ inv h c'.
Proof.
  intros Hc Hl E1 E2 E3 E4 E5. apply (chan_ok_eq _ _ _ c0) in Hc; [|done..].
  destruct (removeAndResetChannel_ok h c0 Hc) as (ch & p & ch' & Ech & Efd & -> & Hc'). orun.
  eexists. split; [done|]. apply retry_inv; [done|]. apply (log_ok_eq _ c); [done..|]. by rewrite <- E1, Ech in Hl.
Qed.

Lemma stopInLoop_inv c : inv false c → negb (is_state c kConnected) = true →
  ∃ c', stopInLoop c = Ret c' ∧ inv false c'.
Proof.
  intros Hi Ha. unfold stopInLoop. pose proof Hi as [Hc Hl Hw]. unfold socket_of in Hl.
  destruct (is_state c kConnecting) eqn:Hs.
  - by apply (remove_retry_inv false c).
  - apply negb_true_iff in Ha. rewrite Ha. by exists c.
Qed.

Lemma handleError_inv h c : inv h c → ∃ c', handleError c = Ret c' ∧ inv h c' ∧
  (is_state c kConnecting = true → state_ c' = kDisconnected).
Proof.
  intros Hi. unfold handleError. pose proof Hi as [Hc Hl Hw]. unfold socket_of in Hl.
  destruct (is_state c kConnecting) eqn:Hs; [|by exists c].
  destruct (removeAndResetChannel_ok h c Hc) as (ch & p & ch' & Ech & Efd & E & Hc').
  destruct (remove_retry_inv h c c) as (c' & Hr & Hi'); [done..|]. rewrite Hr. exists c'. split_and!; [done..|].
  intros _. rewrite E in Hr. cbn in Hr. simplify_eq. apply retry_state.
Qed.

Lemma handleWrite_inv h c err self : inv h c → state_ c ≠ kConnected →
  ∃ c', handleWrite c err self = Ret c' ∧ inv h c'.
Proof.
  intros Hi Hn. unfold handleWrite. pose proof Hi as [Hc Hl Hw]. unfold socket_of in Hl.
  destruct (is_state c kConnecting) eqn:Hs.
  2: { exists c. unfold is_state in *. destruct (state_ c); try done. }
  destruct (removeAndResetChannel_ok h c Hc) as (ch & p & ch' & Ech & Efd & E & Hc'). rewrite E. orun.
  set (c1 := queueInLoop _ _) in *. rewrite Ech in Hl. cbn in Hl.
  assert (log_ok (Some (fd_ ch)) c1) as Hl1 by (by apply (log_ok_eq _ c)).
  assert (∀ c2, state_ c2 = kConnected → channel_ c2 = channel_ c1 → poller_ c2 = poller_ c1 → pending c2 = pending c1 →
    log_ok None c2 → inv h c2) as Hdone.
  { intros c2 H1 H2 H3 H4 H5. split.
    - unfold is_state. rewrite H1. by apply (chan_ok_eq _ _ c1).
    - unfold socket_of, is_state. by rewrite H1.
    - intros _ ?. congruence. }
  destruct (negb (err =? 0)); [eexists; split; [done|]; by apply retry_inv|].
  destruct self; [eexists; split; [done|]; by apply retry_inv|].
  assert (log_ok (Some (fd_ ch)) (setState c1 kConnected)) as Hl2 by (by apply (log_ok_eq _ c1)).
  cbn [connect_ setState]. destruct (connect_ c1); (eexists; split; [done|]; apply Hdone; [done..|]).
  - by apply log_ok_give.
  - by apply log_ok_close.
Qed.
Lemma connector_mark_inv h b c :
  inv h c → inv b (set_channel c (poller_ c) ((λ ch, set_eventHandling ch b) <$> channel_ c)).
Proof.
  intros [Hc Hl Hw]. split.
  - unfold chan_ok, is_state in *. cbn. destruct (channel_ c) as [ch|]; [|done]. cbn. by destruct Hc.
  - apply (log_ok_eq _ c); [done..|]. unfold socket_of, is_state in *. cbn. by destruct (channel_ c).
  - exact Hw.
Qed.

Lemma connector_event_inv c revents err self : inv false c → possible c (AEvent revents err self) = true →
  ∃ c', handleEvent c revents err self = Ret c' ∧ inv false c'.
Proof.
  intros Hi Hp. assert (is_state c kConnecting = true) as Hs.
  { destruct Hi as [Hc _ _]. unfold chan_ok in Hc. cbn in Hp. destruct (channel_ c) as [ch|]; [|done].
    destruct (is_state c kConnecting); [done|]. destruct Hc as (_ & _ & _ & Hm & _). rewrite Hm in Hp. done. }
  unfold handleEvent. apply (connector_mark_inv false true) in Hi. set (c1 := set_channel _ _ _) in *.
  change (is_state c1 kConnecting = true) in Hs.
  assert (∃ c2, (if has_bits revents (Z.lor POLLERR POLLNVAL) then handleError c1 else Ret c1) = Ret c2 ∧ inv true c2 ∧
    state_ c2 ≠ kConnected) as (c2 & -> & Hi2 & Hs2).
  { destruct (has_bits revents _).
    - destruct (handleError_inv true c1 Hi) as (c2 & Hr & Hi2 & Hst). exists c2. split_and!; [done..|].
      by rewrite Hst.
    - exists c1. apply is_state_true in Hs. split_and!; [done..|congruence]. }
  orun. assert (∃ c3, (if has_bits revents POLLOUT then handleWrite c2 err self else Ret c2) = Ret c3 ∧ inv true c3)
    as (c3 & -> & Hi3) by (destruct (has_bits revents POLLOUT); [by apply handleWrite_inv|by exists c2]).
  orun. eexists. split; [done|]. by apply (connector_mark_inv true).
Qed.

(** Taking a functor that does not destroy the channel from the queue, or adding one. *)
Lemma chan_ok_queue b c f fs : pending c = f :: fs → f ≠ FResetChannel →
  chan_ok false b c → chan_ok false b (set_pending c fs).
Proof.
  unfold chan_ok. cbn. intros -> Hf Hc. destruct (channel_ c) as [ch|]; [destruct b|].
  - destruct Hc as (? & ? & Hn & ?). rewrite not_elem_of_cons in Hn. by destruct Hn.
  - destruct Hc as (? & ? & ? & ? & fs1 & fs2 & E & Hn). split_and!; try done.
    destruct fs1 as [|g fs1]; cbn in E; simplify_eq. exists fs1, fs2. split; [done|].
    cbn in Hn. rewrite not_elem_of_cons in Hn. by destruct Hn.
  - rewrite not_elem_of_cons in Hc. naive_solver.
Qed.

Lemma chan_ok_enqueue b c f c' : f ≠ FResetChannel → channel_ c' = channel_ c → poller_ c' = poller_ c →
  pending c' = pending c ++ [f] → chan_ok false b c → chan_ok false b c'.
Proof.
  unfold chan_ok. intros Hf -> -> -> Hc. assert (∀ fs, FResetChannel ∉ fs → FResetChannel ∉ fs ++ [f]) as Hnot.
  { intros fs ?. rewrite not_elem_of_app, list_elem_of_singleton. by split; [|intros ?; subst]. }
  destruct (channel_ c) as [ch|]; [destruct b|].
  - destruct Hc as (? & ? & ? & ? & ?). split_and!; auto.
  - destruct Hc as (? & ? & ? & ? & fs1 & fs2 & -> & Hn). split_and!; try done.
    exists fs1, (fs2 ++ [f]). rewrite <- app_assoc. split; [done|]. rewrite app_assoc. auto.
  - destruct Hc as (? & ? & ? & ?). split_and!; auto.
Qed.

Lemma resetChannel_inv c fs : inv false c → pending c = FResetChannel :: fs →
  ∃ c', resetChannel (set_pending c fs) = Ret c' ∧ inv false c'.
Proof.
  intros [Hc Hl Hw] Hp. unfold chan_ok in Hc. rewrite Hp in Hc. unfold resetChannel. cbn [channel_ set_pending poller_].
  destruct (channel_ c) as [ch|] eqn:Ech; [destruct (is_state c kConnecting) eqn:Hs|].
  - destruct Hc as (_ & _ & Hn & _). by rewrite not_elem_of_cons in Hn; destruct Hn.
  - destruct Hc as (Hh & Ha & Hch & Hm & fs1 & fs2 & E & Hn).
    assert (fs1 = [] ∧ fs2 = fs) as [-> ->].
    { destruct fs1; cbn in E; simplify_eq; [done|]. cbn in Hn. by rewrite not_elem_of_cons in Hn; destruct Hn. }
    unfold is_mine. rewrite Hh, Ha, Hch, lookup_empty. orun. eexists. split; [done|]. split.
    + unfold is_state in *. cbn. rewrite Hs. by split_and!.
    + unfold socket_of, is_state in *. cbn. rewrite Hs in *. by apply (log_ok_eq _ c).
    + intros H1 H2. destruct (Hw H1 H2) as [?|[Hin|?]]; [by left| |by right; right].
      right. left. cbn. rewrite Hp in Hin. apply elem_of_cons in Hin as [?|?]; done.
  - destruct Hc as (_ & _ & _ & Hn). by rewrite not_elem_of_cons in Hn; destruct Hn.
Qed.

Lemma functor_inv c : inv false c → checks c AFunctor = true → ∃ c', act c AFunctor = Ret c' ∧ inv false c'.
Proof.
  intros Hi Ha. cbn in *. destruct (pending c) as [|f fs] eqn:Hp; [by exists c|]. pose proof Hi as [Hc Hl Hw].
  destruct f; cbn [run_functor].
  - pose proof Ha as [Hs%is_state_true _]%andb_true_iff.
    unfold socket_of, is_state in Hl, Hc. rewrite Hs in Hl, Hc.
    apply startInLoop_inv; [done|by apply (chan_ok_queue _ c FStartInLoop)|by apply (log_ok_eq _ c)].
  - apply stopInLoop_inv; [|done]. split.
    + by apply (chan_ok_queue _ c FStopInLoop).
    + by apply (log_ok_eq _ c).
    + intros H1 H2. destruct (Hw H1 H2) as [?|[Hin|?]]; [by left| |by right; right].
      right. left. cbn. rewrite Hp in Hin. apply elem_of_cons in Hin as [?|?]; done.
  - by apply (resetChannel_inv c fs).
Qed.

Lemma act_inv c a : inv false c → possible c a = true → checks c a = true → ∃ c', act c a = Ret c' ∧ inv false c'.
Proof.
  intros Hi Hp Ha. pose proof Hi as [Hc Hl Hw]. destruct a as [[]|[]| |r e s| |].
  - cbn [act start checks] in *. pose proof Ha as [Hs%is_state_true _]%andb_true_iff.
    unfold socket_of, is_state in Hl, Hc. rewrite Hs in Hl, Hc. apply startInLoop_inv.
    + unfold can_start, is_state in *. cbn in *. by rewrite Ha, bool_decide_true.
    + by apply (chan_ok_eq _ _ c).
    + by apply (log_ok_eq _ c).
  - cbn. eexists. split; [done|]. split.
    + by apply (chan_ok_enqueue _ c FStartInLoop).
    + by apply (log_ok_eq _ c).
    + intros _ _. right. left. cbn. apply elem_of_app. right. by left.
  - cbn [act stop checks] in *. apply stopInLoop_inv; [|done]. split.
    + by apply (chan_ok_eq _ _ c).
    + by apply (log_ok_eq _ c).
    + intros ?. done.
  - cbn. eexists. split; [done|]. split.
    + by apply (chan_ok_enqueue _ c FStopInLoop).
    + by apply (log_ok_eq _ c).
    + intros ?. done.
  - cbn [act checks] in *. apply bool_decide_eq_true in Ha. unfold restart.
    assert (is_state c kConnecting = false) as Hs by (unfold chan_ok in Hc; rewrite Ha in Hc; apply Hc).
    unfold socket_of in Hl. rewrite Hs in *. apply startInLoop_inv.
    + unfold can_start. cbn. by rewrite Ha.
    + by apply (chan_ok_eq _ _ c).
    + apply log_ok_restart in Hl. by eapply log_ok_eq; [..|exact Hl].
  - by apply connector_event_inv.
  - by apply functor_inv.
  - cbn [act checks] in *. pose proof Ha as [Hs%is_state_true _]%andb_true_iff.
    unfold socket_of, is_state in Hl, Hc. rewrite Hs in Hl, Hc.
    apply startInLoop_inv; [done|by apply (chan_ok_eq _ _ c)|by apply (log_ok_eq _ c)].
Qed.

Lemma connector_inv c : reachable c → inv false c.
Proof.
  induction 1 as [|c a c' _ IH Hp Ha Hr].
  - split; [by split_and!; [..|apply not_elem_of_nil]|by split|by intros ?].
  - destruct (act_inv c a IH Hp Ha) as (c1 & H1 & Hi). congruence.
Qed.
(** ** What the connector promises *)


(** The pauses between the attempts since the last restart are 500 ms doubled each
    time, at most 30 seconds; the next one is always between these bounds. *)
Theorem connector_backoff c : reachable c →
  delays (log c) = backoff <$> seq 0 (length (delays (log c))) ∧
  kInitRetryDelayMs ≤ retryDelayMs_ c ≤ kMaxRetryDelayMs.
Proof.
  intros [_ [_ Hd Hn] _]%connector_inv. split; [done|]. rewrite Hn.
  unfold backoff, kInitRetryDelayMs, kMaxRetryDelayMs.
  pose proof (Z.pow_pos_nonneg 2 (Z.of_nat (length (delays (log c))))). lia.
Qed.

Lemma idle_channel c : inv false c → state_ c ≠ kConnecting → FResetChannel ∉ pending c → channel_ c = None.
Proof.
  intros [Hc _ _] Hs Hn. unfold chan_ok, is_state in Hc. rewrite bool_decide_false in Hc by done.
  destruct (channel_ c); [|done]. destruct Hc as (_ & _ & _ & _ & fs1 & fs2 & E & _). rewrite E in Hn. set_solver.
Qed.

(** Stopping a connector that has made its connection stops the process: its
    channel is gone, and [stopInLoop] uses it all the same. *)
Theorem stop_when_connected_stops_the_process c : reachable c →
  state_ c = kConnected → FResetChannel ∉ pending c → act c (AStop true) = Abort NullPointer.
Proof.
  intros Hi%connector_inv Hs Hn. pose proof (idle_channel c Hi) as E. cbn. unfold stopInLoop, is_state. cbn.
  rewrite Hs. cbn. unfold removeAndResetChannel. cbn. by rewrite E; [|congruence|].
Qed.

(** The timer of a retry survives [stop]: started again before it fires, a connector
    stops the process when it does. *)
Theorem retry_timer_survives_stop c : reachable c →
  state_ c = kDisconnected → FResetChannel ∉ pending c → (0 < timers c)%nat →
  classify (net (created c)).2 = InProgress →
  ∃ c1 c2, act c (AStop true) = Ret c1 ∧ act c1 (AStart true) = Ret c2 ∧
    possible c2 ATimer = true ∧ act c2 ATimer = Abort AssertFailed.
Proof.
  intros Hi%connector_inv Hs Hn Ht Hnet. pose proof (idle_channel c Hi) as E.
  destruct (net (created c)) as [fd err] eqn:Hfd. cbn in Hnet.
  exists (set_connect c false). eexists. split; [cbn; unfold stopInLoop, is_state; cbn; by rewrite Hs|].
  cbn [act start]. unfold startInLoop, is_state. cbn. rewrite Hs, assert_true by done. orun.
  unfold connect. cbn. rewrite Hfd, Hnet. unfold connecting. cbn. rewrite E by (done || congruence). rewrite (assert_true (bool_decide _)) by (by apply bool_decide_eq_true_2). orun.
  unfold enableWriting, channel_update, updateChannel, found. cbn.
  destruct Hi as [Hc _ _]. unfold chan_ok in Hc. rewrite E in Hc by (done || congruence).
  destruct Hc as (_ & -> & _). rewrite lookup_empty. orun. split_and!; [done|..].
  - cbn. rewrite bool_decide_false by done. destruct (timers c); [lia|done].
  - done.
Qed.

(** ** The connector, seen by its owner *)

(** The sockets a connector gave to its owner in a part of its history. *)
Definition given (l : list call) : list Z :=
  omap (λ e, match e with CNewConnection fd => Some fd | _ => None end) l.

(** What one attempt leaves: a socket that connects, or none, and perhaps a timer. *)
Record attempt (c c' : Connector) : Prop := Attempt {
  at_pending : pending c' = pending c;
  at_log : ∃ l, log c' = log c ++ l ∧ given l = [];
  at_state :
    state_ c' = kConnecting ∧ timers c' = timers c ∨
    state_ c' = kDisconnected ∧ channel_ c' = None ∧ (timers c' ≤ S (timers c))%nat;
}.

Lemma given_app l1 l2 : given (l1 ++ l2) = given l1 ++ given l2.
Proof. apply omap_app. Qed.

Lemma retry_attempt c fd : channel_ c = None → attempt c (retry c fd).
Proof.
  intros Hc. unfold retry. cbn. destruct (connect_ c); split; cbn; rewrite <- ?app_assoc.
  - done.
  - by eexists.
  - right. split_and!; [done..|lia].
  - done.
  - by eexists.
  - right. split_and!; [done..|lia].
Qed.

Lemma startInLoop_attempt c c' : startInLoop c = Ret c' → channel_ c = None → attempt c c'.
Proof.
  unfold startInLoop. intros H Hc. apply bind_ret_inv in H as (? & Hs%assert_inv%is_state_true & H).
  destruct (connect_ c); [|simplify_eq; split; [done|by exists []; rewrite app_nil_r|right; split_and!; [done..|lia]]].
  unfold connect in H. destruct (net _) as [fd e]. destruct (classify e).
  - unfold connecting in H. apply bind_ret_inv in H as (? & _ & H).
    apply bind_ret_inv in H as ([p ch] & _ & [= <-]). split; [done|by eexists|by left].
  - simplify_eq. destruct (retry_attempt (set_created (record_call c (CSocket fd)) (S (created c))) fd Hc)
      as [H1 (l & H2 & H3) H4]. split; [done| |done].
    exists (CSocket fd :: l). rewrite H2. cbn. by rewrite <- app_assoc.
  - simplify_eq. cbn. split; cbn; [done|rewrite <- app_assoc; by eexists|right; split_and!; [done..|lia]].
Qed.

Lemma restart_attempt c c' : restart c = Ret c' → channel_ c = None → attempt c c'.
Proof.
  intros H Hc. apply startInLoop_attempt in H as [H1 (l & H2 & H3) H4]; [|done]. split; [done| |done].
  exists (CRestart :: l). rewrite H2. cbn. by rewrite <- app_assoc.
Qed.

Lemma removeAndReset_fields c fd c' : removeAndResetChannel c = Ret (fd, c') →
  pending c' = pending c ++ [FResetChannel] ∧ log c' = log c ∧ state_ c' = state_ c ∧
  timers c' = timers c ∧ connect_ c' = connect_ c.
Proof.
  unfold removeAndResetChannel. destruct (channel_ c) as [ch|]; [|done]. intros H.
  apply bind_ret_inv in H as ([p1 ch1] & _ & H). apply bind_ret_inv in H as ([p2 ch2] & _ & [= <- <-]). done.
Qed.

(** A connecting connector that stops, fails or succeeds. *)
Record ended (c c' : Connector) (fds : list Z) : Prop := Ended {
  en_pending : pending c' = pending c ++ [FResetChannel];
  en_log : ∃ l, log c' = log c ++ l ∧ given l = fds;
  en_state :
    fds = [] ∧ state_ c' = kDisconnected ∧ (timers c' ≤ S (timers c))%nat ∨
    (length fds ≤ 1)%nat ∧ state_ c' = kConnected ∧ timers c' = timers c;
}.

Lemma retry_ended c c1 fd : pending c1 = pending c ++ [FResetChannel] → log c1 = log c →
  timers c1 = timers c → ended c (retry c1 fd) [].
Proof.
  intros Hp Hl Ht. unfold retry. cbn. destruct (connect_ c1); split; cbn; rewrite ?Hp, ?Hl, ?Ht, <- ?app_assoc; try done.
  all: try (by eexists). all: left; split_and!; [done..|lia].
Qed.

Lemma remove_retry_ended c fd c1 : removeAndResetChannel c = Ret (fd, c1) → ended c (retry c1 fd) [].
Proof. intros (? & ? & _ & ? & _)%removeAndReset_fields. by apply retry_ended. Qed.

Lemma stopInLoop_ended c c' : stopInLoop c = Ret c' → state_ c = kConnecting → ended c c' [].
Proof.
  unfold stopInLoop, is_state. intros H Hs. rewrite Hs in H. cbn in H.
  apply bind_ret_inv in H as ([fd c1] & H & [= <-]). apply removeAndReset_fields in H as (? & ? & _ & ? & _).
  by apply retry_ended.
Qed.

Lemma handleWrite_ended c c' err self : handleWrite c err self = Ret c' → state_ c = kConnecting →
  ∃ fds, ended c c' fds.
Proof.
  unfold handleWrite, is_state. intros H Hs. rewrite Hs in H. cbn in H.
  apply bind_ret_inv in H as ([fd c1] & H & H2). pose proof H as (Hp & Hl & _ & Ht & _)%removeAndReset_fields.
  destruct (negb (err =? 0)); [simplify_eq; exists []; by apply remove_retry_ended|].
  destruct self; [simplify_eq; exists []; by apply remove_retry_ended|].
  cbn in H2. destruct (connect_ c1); simplify_eq.
  - exists [fd]. split; cbn; rewrite ?Hl; [done|by eexists|by right].
  - exists []. split; cbn; rewrite ?Hl; [done|by eexists|]. right. split_and!; [cbn; lia|done..].
Qed.

Lemma handleEvent_ended c c' revents err self : handleEvent c revents err self = Ret c' →
  state_ c = kConnecting →
  (state_ c' = kConnecting ∧ pending c' = pending c ∧ log c' = log c ∧ timers c' = timers c) ∨
  ∃ fds, ended c c' fds.
Proof.
  unfold handleEvent. intros H Hs. apply bind_ret_inv in H as (c1 & H1 & H). apply bind_ret_inv in H as (c2 & H2 & [= <-]).
  destruct (Channel.has_bits revents (Z.lor Channel.POLLERR Channel.POLLNVAL)).
  - right. unfold handleError, is_state in H1. cbn in H1. rewrite Hs in H1. cbn in H1.
    apply bind_ret_inv in H1 as ([fd c0] & H1 & [= <-]). apply remove_retry_ended in H1. exists [].
    assert (c2 = retry c0 fd) as ->.
    { destruct (Channel.has_bits revents Channel.POLLOUT); [|by simplify_eq]. unfold handleWrite, is_state in H2.
      rewrite (proj1 (retry_state c0 fd)) in H2. by apply bind_ret_inv in H2 as (? & _ & [= <-]). }
    destruct H1 as [? ? ?]. by split.
  - simplify_eq. destruct (Channel.has_bits revents Channel.POLLOUT).
    + right. apply handleWrite_ended in H2 as [fds [? ? ?]]; [|done]. exists fds. by split.
    + simplify_eq. by left.
Qed.

(** ** The owner's discipline is enough *)

Definition starting (c : Connector) : nat := length (filter (λ f, f = FStartInLoop) (pending c)).

Lemma starting_queued c : pending c = [FStartInLoop] → starting c = 1%nat.
Proof. unfold starting. by intros ->. Qed.
Lemma starting_not c : FStartInLoop ∉ pending c → starting c = 0%nat.
Proof.
  unfold starting. intros Hn. destruct (filter _ _) as [|f fs] eqn:E; [done|]. destruct Hn.
  assert (f ∈ filter (λ f, f = FStartInLoop) (pending c)) as [-> ?]%list_elem_of_filter by (rewrite E; by left). done.
Qed.

(** At most one timer, queued start or attempt is under way. *)
Record used_inv (c : Connector) : Prop := UsedInv {
  ui_reachable : reachable c;
  ui_pending : pending c ∈ [[]; [FStartInLoop]; [FResetChannel]];
  ui_one : (timers c + starting c + (if is_state c kConnecting then 1 else 0) ≤ 1)%nat;
  ui_idle : (0 < timers c)%nat ∨ pending c = [FStartInLoop] → state_ c = kDisconnected;
  ui_free : pending c = [FStartInLoop] → channel_ c = None;
}.

Lemma used_channel c : used_inv c → state_ c ≠ kConnecting → (is_Some (channel_ c) ↔ pending c = [FResetChannel]).
Proof.
  intros [Hr Hp _ _ _] Hs. pose proof (connector_inv c Hr) as [Hc _ _]. unfold chan_ok, is_state in Hc.
  rewrite bool_decide_false in Hc by done. destruct (channel_ c) as [ch|].
  - destruct Hc as (_ & _ & _ & _ & fs1 & fs2 & E & Hn). split; [|by eexists]. intros _.
    rewrite !elem_of_cons in Hp. destruct Hp as [Hp|[Hp|[Hp|[]%not_elem_of_nil]]]; rewrite Hp in E.
    + by destruct fs1.
    + destruct fs1 as [|? []]; by simplify_eq.
    + done.
  - destruct Hc as (_ & _ & _ & Hn). split; [by intros []|]. intros E. rewrite E in Hn. set_solver.
Qed.

Lemma used_connecting c : used_inv c → state_ c = kConnecting → pending c = [] ∧ timers c = 0%nat.
Proof.
  intros [Hr Hp H1 _ _] Hs. pose proof (connector_inv c Hr) as [Hc _ _]. unfold chan_ok, is_state in *.
  rewrite bool_decide_true in Hc, H1 by done. split; [|lia]. rewrite !elem_of_cons in Hp.
  destruct Hp as [Hp|[Hp|[Hp|[]%not_elem_of_nil]]]; [done|apply starting_queued in Hp; lia|].
  destruct (channel_ c) as [ch|]; [|by destruct Hc]. destruct Hc as (_ & _ & Hn & _). rewrite Hp in Hn. set_solver.
Qed.

Lemma event_connecting c revents err self : reachable c → possible c (AEvent revents err self) = true → state_ c = kConnecting.
Proof.
  intros Hr Hp. pose proof (connector_inv c Hr) as [Hc _ _]. unfold chan_ok in Hc. cbn in Hp.
  destruct (channel_ c) as [ch|]; [|done]. destruct (is_state _ _) eqn:E; [by apply is_state_true|].
  destruct Hc as (_ & _ & _ & Hc & _). rewrite Hc, lookup_empty in Hp. by apply bool_decide_eq_true in Hp as [].
Qed.

Lemma attempt_used c c' : reachable c' → attempt c c' → pending c = [] → timers c = 0%nat → used_inv c'.
Proof.
  intros Hr [Hp _ Hs] Hp0 Ht. rewrite Hp0 in Hp. split; rewrite ?Hp; [done|by left| |intros [?|?]; [|done]|done].
  - rewrite starting_not by (rewrite Hp; apply not_elem_of_nil). unfold is_state.
    destruct Hs as [[-> ?]|(-> & _ & ?)]; case_bool_decide; try done; lia.
  - destruct Hs as [[_ ?]|[? _]]; [lia|done].
Qed.

Lemma ended_used c c' fds : reachable c' → ended c c' fds → pending c = [] → timers c = 0%nat → used_inv c'.
Proof.
  intros Hr [Hp _ Hs] Hp0 Ht. rewrite Hp0 in Hp. split; rewrite ?Hp; [done|set_solver| |intros [?|?]; [|done]|done].
  - rewrite starting_not by (rewrite Hp; set_solver). unfold is_state.
    destruct Hs as [(_ & -> & ?)|(_ & -> & ?)]; rewrite bool_decide_false by done; lia.
  - destruct Hs as [(_ & ? & _)|(_ & _ & ?)]; [done|lia].
Qed.

Lemma idle_spec c : idle c = true →
  state_ c ≠ kConnecting ∧ channel_ c = None ∧ pending c = [] ∧ timers c = 0%nat.
Proof.
  unfold idle, is_state. rewrite !andb_true_iff. intros [[[H1 H2] H3] H4].
  apply negb_true_iff, bool_decide_eq_false in H1. apply bool_decide_eq_true in H2, H3. by apply Nat.eqb_eq in H4.
Qed.

Lemma used_checks c a : used_inv c → possible c a = true → allowed c a = true → checks c a = true.
Proof.
  intros Hi Hp Ha. pose proof Hi as [_ Hpe H1 Hd Hf]. destruct a as [[]|[]| |r e s| |]; cbn [possible allowed checks] in *; try done.
  - apply andb_true_iff in Ha as [(_ & Hch & _)%idle_spec Hs]. unfold can_start. by rewrite Hs, Hch.
  - by apply idle_spec in Ha as (_ & -> & _).
  - rewrite !elem_of_cons in Hpe. destruct Hpe as [->|[E|[->|[]%not_elem_of_nil]]]; [done| |done].
    rewrite E. unfold can_start, is_state. rewrite (Hd (or_intror E)), (Hf E). cbn. by rewrite orb_true_r.
  - apply andb_true_iff in Hp as [Ht%Nat.ltb_lt Hn%negb_true_iff%bool_decide_eq_false].
    pose proof (Hd (or_introl Ht)) as Hs. unfold can_start, is_state. rewrite Hs.
    destruct (channel_ c) eqn:E; [|cbn; by rewrite orb_true_r].
    destruct (used_channel c Hi) as [Hc _]; [congruence|]. rewrite Hc in Hn by (by eexists). set_solver.
Qed.

Lemma used_act_inv c a : used_inv c → possible c a = true → allowed c a = true → ∃ c', act c a = Ret c' ∧ used_inv c'.
Proof.
  intros Hi Hp Ha. pose proof (used_checks c a Hi Hp Ha) as Hk. pose proof Hi as [Hr Hpe H1 Hd Hf].
  destruct (act_inv c a (connector_inv c Hr) Hp Hk) as (c' & E & _). exists c'. split; [done|].
  assert (reachable c') as Hr' by (by eapply reachable_act).
  destruct a as [[]|[]| |re er self| |]; cbn [act allowed] in *.
  - apply andb_true_iff in Ha as [(_ & Hch & Hpn & Ht)%idle_spec _].
    eapply (attempt_used (set_connect c true)); [done|by eapply startInLoop_attempt|done|done].
  - apply andb_true_iff in Ha as [(_ & Hch & Hpn & Ht)%idle_spec Hs%is_state_true]. cbn in E. simplify_eq.
    split; cbn; rewrite ?Hpn; cbn; [done|set_solver| |done|done].
    unfold is_state. cbn. rewrite Hs. cbn. unfold starting. cbn. rewrite ?Hpn, Ht. done.
  - destruct (decide (state_ c = kConnecting)) as [Hs|Hs].
    + destruct (used_connecting c Hi Hs). apply (ended_used (set_connect c false) c' []); [done| |done|done].
      by apply stopInLoop_ended.
    + unfold stop, stopInLoop, is_state in E. cbn in E. apply negb_true_iff, bool_decide_eq_false in Ha.
      rewrite !bool_decide_false in E by done. injection E as <-. by split.
  - done.
  - apply idle_spec in Ha as (_ & Hch & Hpn & Ht). eapply (attempt_used c); [done|by apply restart_attempt|done|done].
  - pose proof (event_connecting c _ _ _ Hr Hp) as Hs. destruct (used_connecting c Hi Hs) as [Hpn Ht].
    destruct (handleEvent_ended c c' re er self E Hs) as [(Hs' & Hp' & Hl' & Ht')|[fds He]]; [|by eapply ended_used].
    apply (attempt_used c); [done| |done|done]. split; [done|exists []; by rewrite app_nil_r|by left].
  - rewrite !elem_of_cons in Hpe. destruct Hpe as [Hpn|[Hpn|[Hpn|[]%not_elem_of_nil]]]; rewrite Hpn in E.
    + by simplify_eq.
    + apply starting_queued in Hpn as Hn. eapply (attempt_used (set_pending c [])); [done| |done|cbn; lia].
      apply startInLoop_attempt; [done|by apply Hf].
    + cbn in E. unfold resetChannel in E. cbn in E.
      assert (state_ c ≠ kConnecting) as Hnc by (intros Hs; apply used_connecting in Hs as [? _]; [congruence|done]).
      destruct (used_channel c Hi Hnc) as [_ [ch Hch]]; [done|]. rewrite Hch in E.
      do 3 apply bind_ret_inv in E as (? & _ & E). injection E as <-.
      rewrite starting_not in H1 by (rewrite Hpn; set_solver). split; cbn; [done|by left|done|intros [?|?]; [|done]|done].
      apply Hd. by left.
  - apply andb_true_iff in Hp as [Ht%Nat.ltb_lt Hn%negb_true_iff%bool_decide_eq_false].
    assert (pending c = []) as Hpn.
    { rewrite !elem_of_cons in Hpe. destruct Hpe as [Hpn|[Hpn|[Hpn|[]%not_elem_of_nil]]]; [done|apply starting_queued in Hpn; lia|].
      rewrite Hpn in Hn. set_solver. }
    eapply (attempt_used (set_timers c (pred (timers c)))); [done| |done|cbn; lia]. apply startInLoop_attempt; [done|].
    destruct (channel_ c) eqn:Ec; [|done]. pose proof (Hd (or_introl Ht)).
    destruct (used_channel c Hi) as [Hc _]; [congruence|]. rewrite Hpn in Hc. by specialize (Hc ltac:(by eexists)).
Qed.

Lemma used_is_used_inv c : used c → used_inv c.
Proof.
  induction 1 as [|c a c' _ IH Hp Ha E].
  - split; cbn; [constructor|by left|vm_compute; lia|intros [?|?]; [lia|done]|done].
  - destruct (used_act_inv c a IH Hp Ha) as (c1 & E1 & Hu). rewrite E in E1. injection E1 as <-. exact Hu.
Qed.


(** ** Running a list of actions *)

Fixpoint run (c : Connector) (l : list action) : option Connector :=
  match l with
  | [] => Some c
  | a :: l =>
      if possible c a && allowed c a then match act c a with Ret c' => run c' l | Abort _ => None end else None
  end.

Lemma run_used l c c' : used c → run c l = Some c' → used c'.
Proof.
  revert c. induction l as [|a l IH]; cbn; intros c Hc Hr; [by simplify_eq|].
  destruct (possible c a && allowed c a) eqn:E; [|done]. apply andb_true_iff in E as [? ?].
  destruct (act c a) as [c1|] eqn:Ha; [|done]. apply (IH c1); [|done]. by eapply used_act.
Qed.

End connector.

(** ** Examples *)

(** The first attempt is refused at once, the second later, the third succeeds. *)
Definition sample_net (k : nat) : Z * Z :=
  match k with O => (7, ECONNREFUSED) | S O => (7, EINPROGRESS) | _ => (8, EINPROGRESS) end.

Definition sample_retry : list action :=
  [AStart false; AFunctor; ATimer; AEvent (Z.lor POLLERR POLLOUT) ECONNREFUSED false; AFunctor].
Definition sample_success : list action := sample_retry ++ [ATimer; AEvent POLLOUT 0 false; AFunctor].

Definition after (l : list action) : Connector := default Connector_ctor (run sample_net Connector_ctor l).

Lemma after_retry_reachable : reachable sample_net (after sample_retry).
Proof. apply ui_reachable, used_is_used_inv. eapply (run_used _ sample_retry); [constructor|by vm_compute]. Qed.

Lemma after_success_used : used sample_net (after sample_success).
Proof. eapply (run_used _ sample_success); [constructor|by vm_compute]. Qed.

Lemma after_success_reachable : reachable sample_net (after sample_success).
Proof. apply ui_reachable, used_is_used_inv, after_success_used. Qed.


Lemma connector_backoff_witness : delays (log (after sample_retry)) = [500; 1000].
Proof.
  destruct (connector_backoff sample_net (after sample_retry)) as [H _]; [exact after_retry_reachable|].
  rewrite H. vm_compute. reflexivity.
Defined.

Lemma stop_when_connected_stops_the_process_witness :
  act sample_net (after sample_success) (AStop true) = Abort NullPointer.
Proof.
  apply stop_when_connected_stops_the_process.
  - exact after_success_reachable.
  - vm_compute. reflexivity.
  - replace (pending (after sample_success)) with (@nil functor) by (vm_compute; reflexivity). apply not_elem_of_nil.
Defined.

Lemma retry_timer_survives_stop_witness :
  ∃ c1 c2, act sample_net (after sample_retry) (AStop true) = Ret c1 ∧ act sample_net c1 (AStart true) = Ret c2 ∧
    possible c2 ATimer = true ∧ act sample_net c2 ATimer = Abort AssertFailed.
Proof.
  apply retry_timer_survives_stop.
  - exact after_retry_reachable.
  - vm_compute. reflexivity.
  - replace (pending (after sample_retry)) with (@nil functor) by (vm_compute; reflexivity). apply not_elem_of_nil.
  - vm_compute. lia.
  - vm_compute. reflexivity.
Defined.

End Connector.
