(* ===== verification/UrlCodec.v ===== *)
(** * UrlCodec: percent-encoding (src/https/urlcodec.cpp)

    Strings are byte sequences.  [Encode] and [Decode] are the plain codec;
    [MultipleEncode] and [MultipleDecode] are meant to undo repeated encodings. *)

From S2P Require Import Prelude BytesBuffer Buffer Http.
Import Http.

Module UrlCodec.

(** [isalnum] in the C locale. *)
Definition isalnum (c : Z) : bool :=
  ((48 <=? c) && (c <=? 57)) || ((65 <=? c) && (c <=? 90)) || ((97 <=? c) && (c <=? 122)).

(** [_INLINE_C_2_H] and [__INLINE_H_2_C]. *)
Definition C_2_H (x : Z) : Z := if 9 <? x then x + 55 else x + 48.
Definition H_2_C (x : Z) : Z :=
  if (65 <=? x) && (x <=? 90) then x - 65 + 10
  else if (97 <=? x) && (x <=? 122) then x - 97 + 10
  else if (48 <=? x) && (x <=? 57) then x - 48
  else x.

Definition unreserved (c : Z) : bool :=
  isalnum c || (c =? 45) || (c =? 95) || (c =? 46) || (c =? 126).

Definition encode_char (c : Z) : bytes :=
  if unreserved c then [c]
  else if c =? 32 then [43]
  else [37; C_2_H (Z.shiftr c 4); C_2_H (c mod 16)].

Definition Encode_1 (d : bytes) : bytes := concat (encode_char <$> d).

(** The loop over the encoded text; a percent sign without two characters after it
    and all that follows is copied. *)
Fixpoint Decode_1 (e : bytes) : bytes :=
  match e with
  | [] => []
  | c :: e' =>
      if c =? 43 then 32 :: Decode_1 e'
      else if c =? 37 then
        match e' with
        | a :: b :: e'' => u8 (H_2_C a * 16 + H_2_C b) :: Decode_1 e''
        | _ => e
        end
      else c :: Decode_1 e'
  end.

Definition Encode (str : bytes) : bytes := Encode_1 str.
Definition Decode (str : bytes) : bytes := Decode_1 str.

(** ** Multiple encodings *)

(** [char] results: -1 for a character that is no hexadecimal digit. *)
Definition CharToInt (ch : Z) : Z :=
  if (48 <=? ch) && (ch <=? 57) then ch - 48
  else if (97 <=? ch) && (ch <=? 102) then ch - 97 + 10
  else if (65 <=? ch) && (ch <=? 70) then ch - 65 + 10
  else -1.

Definition StrToBin (p0 p1 : Z) : Z := u8 (Z.lor (Z.shiftl (CharToInt p0) 4) (CharToInt p1)).

Definition hex_upper (x : Z) : Z := if 9 <? x then x + 55 else x + 48.

Definition encode_char_2 (c : Z) : bytes :=
  if isalnum c then [c]
  else if isspace c then [43]
  else [37; hex_upper (Z.shiftr c 4); hex_upper (c mod 16)].

Definition Encode_2 (str : bytes) : bytes := concat (encode_char_2 <$> str).

(** [str[i]] of a [std::string]: the character after the last one is 0, those
    further on do not exist. *)
Definition str_at (s : bytes) (i : Z) : outcome Z :=
  in_bounds ((0 <=? i) && (i <=? zlen s)) ;; Ret (nth (Z.to_nat i) s 0).

(** The loop of [Decode_]; the second result is its return value. *)
Fixpoint Decode_loop (fuel : nat) (str : bytes) (i : Z) (result : bytes) (ret : Z) : outcome (bytes * Z) :=
  match fuel with
  | O => Abort OutOfFuel
  | S fuel =>
      if i <? zlen str then
        c ← str_at str i;
        if c =? 37 then
          a ← str_at str (i + 1);
          b ← str_at str (i + 2);
          let ch := StrToBin a b in
          if ch =? 37 then
            a ← str_at str (i + 3);
            b ← str_at str (i + 4);
            let ch := StrToBin a b in
            Decode_loop fuel str (i + 5) (result ++ [ch]) (if ch =? 37 then 1 else ret)
          else Decode_loop fuel str (i + 3) (result ++ [StrToBin a b]) ret
        else if c =? 43 then Decode_loop fuel str (i + 1) (result ++ [32]) ret
        else Decode_loop fuel str (i + 1) (result ++ [c]) ret
      else Ret (result, ret)
  end.

Definition Decode_ (str : bytes) : outcome (bytes * Z) := Decode_loop (S (length str)) str 0 [] 0.

(** [do { temp = result; } while (Decode_(temp, result) == 1)], entered with 1. *)
Fixpoint Decode_2_loop (fuel : nat) (result : bytes) : outcome bytes :=
  match fuel with
  | O => Abort OutOfFuel
  | S fuel =>
      '(result, ret) ← Decode_ result;
      if ret =? 1 then Decode_2_loop fuel result else Ret result
  end.

Definition Decode_2 (str : bytes) : outcome bytes :=
  '(result, ret) ← Decode_ str;
  if ret =? 1 then Decode_2_loop (S (length str)) result else Ret result.

Definition MultipleEncode (str : bytes) : bytes := Encode_2 str.
Definition MultipleDecode (str : bytes) : outcome bytes := Decode_2 str.

(** ** The plain codec *)

Lemma decode_encode_char c e : is_byte c → Decode_1 (encode_char c ++ e) = c :: Decode_1 e.
Proof.
  intros Hc.
  assert (∀ c, is_byte c → (unreserved c = true → (c =? 43) = false ∧ (c =? 37) = false) ∧
    u8 (H_2_C (C_2_H (Z.shiftr c 4)) * 16 + H_2_C (C_2_H (c mod 16))) = c) as Hall.
  { clear. intros c Hc. split.
    - unfold unreserved, isalnum. lia.
    - revert c Hc. apply (range_forall_eq 256 (λ c, u8 (H_2_C (C_2_H (Z.shiftr c 4)) * 16 + H_2_C (C_2_H (c mod 16)))) id).
      by vm_compute. }
  destruct (Hall c Hc) as [H1 H2]. unfold encode_char. destruct (unreserved c) eqn:Hu.
  - destruct (H1 eq_refl) as [E1 E2]. cbn. by rewrite E1, E2.
  - destruct (Z.eqb_spec c 32) as [->|]; [done|]. cbn [app Decode_1]. rewrite H2. done.
Qed.

Lemma encode_char_safe c : is_byte c → Forall (λ x, unreserved x = true ∨ x = 43 ∨ x = 37) (encode_char c).
Proof.
  intros Hc. unfold encode_char. destruct (unreserved c) eqn:Hu; [apply Forall_singleton; by left|].
  destruct (c =? 32); [apply Forall_singleton; auto|].
  assert (∀ x, 0 ≤ x < 16 → unreserved (C_2_H x) = true) as Hx.
  { intros x Hx. unfold C_2_H, unreserved, isalnum. destruct (Z.ltb_spec 9 x); lia. }
  unfold is_byte in Hc. rewrite Z.shiftr_div_pow2 by lia. change (2 ^ 4) with 16.
  rewrite !Forall_cons, Forall_nil. split_and!; [auto|left; apply Hx; dlia..|done].
Qed.

(** Decoding inverts encoding on every byte string, and the encoded text consists
    of unreserved characters, plus signs and percent signs. *)
Theorem url_roundtrip s : Forall_byte s →
  Decode (Encode s) = s ∧ Forall (λ x, unreserved x = true ∨ x = 43 ∨ x = 37) (Encode s).
Proof.
  unfold Decode, Encode, Encode_1. induction 1 as [|c s Hc _ [IH1 IH2]]; [split; [done|constructor]|].
  cbn [fmap list_fmap concat]. rewrite decode_encode_char by done. rewrite Forall_app. split_and!; [by f_equal|by apply encode_char_safe|done].
Qed.

(** ** Multiple encodings *)

(** Characters that [MultipleEncode] keeps apart and that do not look encoded. *)
Definition plain (c : Z) : Prop := is_byte c ∧ c ≠ 37 ∧ (isspace c = true → c = 32).

Lemma str_at_app pre suf k c : suf !! Z.to_nat k = Some c → 0 ≤ k → str_at (pre ++ suf) (zlen pre + k) = Ret c.
Proof.
  intros Hs Hk. apply lookup_lt_Some in Hs as Hl. unfold str_at. rewrite length_app, Nat2Z.inj_add.
  rewrite in_bounds_true by (apply andb_true_iff; split; apply Z.leb_le; lia). orun. f_equal.
  rewrite nth_lookup, lookup_app_r by lia. replace (Z.to_nat (zlen pre + k) - length pre)%nat with (Z.to_nat k) by lia.
  by rewrite Hs.
Qed.

Lemma hex_pair c : is_byte c → StrToBin (hex_upper (Z.shiftr c 4)) (hex_upper (c mod 16)) = c.
Proof.
  revert c. apply (range_forall_eq 256 (λ c, StrToBin (hex_upper (Z.shiftr c 4)) (hex_upper (c mod 16))) id).
  by vm_compute.
Qed.

Lemma Decode_loop_char fuel pre c suf res ret : plain c →
  Decode_loop (S fuel) (pre ++ encode_char_2 c ++ suf) (zlen pre) res ret =
  Decode_loop fuel (pre ++ encode_char_2 c ++ suf) (zlen (pre ++ encode_char_2 c)) (res ++ [c]) ret.
Proof.
  intros (Hb & Hp & Hs). cbn [Decode_loop]. set (str := pre ++ _).
  assert (zlen pre < zlen str) as Hlt.
  { unfold str, encode_char_2. rewrite length_app. repeat case_match; cbn [app length]; lia. }
  rewrite (proj2 (Z.ltb_lt _ _) Hlt). unfold str. rewrite length_app, Nat2Z.inj_add.
  pose proof (str_at_app pre (encode_char_2 c ++ suf)) as Hat.
  replace (zlen pre) with (zlen pre + 0) at 1 by lia. unfold encode_char_2 in *.
  destruct (isalnum c) eqn:Ha; [|destruct (isspace c) eqn:Hsp].
  - rewrite (Hat 0 c) by done. orun. unfold isalnum in Ha.
    rewrite (proj2 (Z.eqb_neq c 37)), (proj2 (Z.eqb_neq c 43)) by lia. done.
  - rewrite (Hat 0 43) by done. orun. cbn [Z.eqb Pos.eqb]. by rewrite (Hs eq_refl).
  - rewrite (Hat 0 37) by done. orun. cbn [Z.eqb Pos.eqb].
    rewrite (Hat 1 _ eq_refl), (Hat 2 _ eq_refl) by lia. orun. rewrite hex_pair by done.
    rewrite (proj2 (Z.eqb_neq c 37)) by done. done.
Qed.

Lemma Decode_loop_text s fuel pre suf res ret : Forall plain s →
  Decode_loop (length s + fuel) (pre ++ Encode_2 s ++ suf) (zlen pre) res ret =
  Decode_loop fuel (pre ++ Encode_2 s ++ suf) (zlen (pre ++ Encode_2 s)) (res ++ s) ret.
Proof.
  intros Hs. revert pre res. induction Hs as [|c s Hc _ IH]; intros pre res.
  - cbn. by rewrite !app_nil_r.
  - unfold Encode_2 in *. cbn [fmap list_fmap concat length Nat.add]. rewrite <- !app_assoc, Decode_loop_char by done.
    rewrite (app_assoc pre), IH. by rewrite <- !app_assoc.
Qed.

Lemma length_Encode_2 s : (length s ≤ length (Encode_2 s))%nat.
Proof.
  unfold Encode_2. induction s as [|c s IH]; cbn [fmap list_fmap concat length]; [lia|]. rewrite length_app.
  assert (1 ≤ length (encode_char_2 c))%nat by (unfold encode_char_2; repeat case_match; cbn; lia). lia.
Qed.

(** [MultipleDecode] inverts [MultipleEncode] on texts without percent signs and
    without white space other than blanks. *)
Theorem multiple_roundtrip s : Forall plain s → MultipleDecode (MultipleEncode s) = Ret s.
Proof.
  intros Hs. unfold MultipleDecode, Decode_2, Decode_, MultipleEncode. pose proof (length_Encode_2 s).
  replace (S (length (Encode_2 s))) with (length s + S (length (Encode_2 s) - length s))%nat at 1 by lia.
  pose proof (Decode_loop_text s (S (length (Encode_2 s) - length s)) [] [] [] 0 Hs) as E.
  cbn [app length] in E. rewrite app_nil_r in E. change (Z.of_nat 0) with 0 in E. rewrite E.
  cbn [Decode_loop]. rewrite Z.ltb_irrefl. done.
Qed.

(** A percent sign at the end is encoded as %25, which [Decode_] takes for the start
    of a second encoding: it reads past the end of the string. *)
Theorem trailing_percent_overrun s : Forall plain s →
  MultipleDecode (MultipleEncode (s ++ [37])) = Abort OutOfBounds.
Proof.
  intros Hs. unfold MultipleDecode, Decode_2, Decode_, MultipleEncode.
  assert (Encode_2 (s ++ [37]) = Encode_2 s ++ [37; 50; 53]) as ->
    by (unfold Encode_2; rewrite fmap_app, concat_app; done).
  set (str := Encode_2 s ++ [37; 50; 53]). assert (length str = (length (Encode_2 s) + 3)%nat) as Hl
    by (unfold str; by rewrite length_app).
  pose proof (length_Encode_2 s).
  replace (S (length str)) with (length s + S (length str - length s))%nat at 1 by lia.
  pose proof (Decode_loop_text s (S (length str - length s)) [] [37; 50; 53] [] 0 Hs) as E.
  cbn [app length] in E. fold str in E. change (Z.of_nat 0) with 0 in E. rewrite E. clear E.
  pose proof (str_at_app (Encode_2 s) [37; 50; 53]) as Hat. fold str in Hat. cbn [Decode_loop].
  rewrite (proj2 (Z.ltb_lt _ _)) by lia. replace (zlen (Encode_2 s)) with (zlen (Encode_2 s) + 0) at 1 by lia.
  rewrite (Hat 0 37) by done. orun. cbn [Z.eqb Pos.eqb].
  rewrite (Hat 1 50), (Hat 2 53) by done. orun. change (StrToBin 50 53 =? 37) with true. cbv iota.
  assert (str_at str (zlen (Encode_2 s) + 3) = Ret 0) as ->.
  { unfold str_at. rewrite in_bounds_true by (apply andb_true_iff; split; apply Z.leb_le; lia). orun.
    rewrite nth_overflow by lia. done. }
  orun. assert (str_at str (zlen (Encode_2 s) + 4) = Abort OutOfBounds) as ->; [|done].
  unfold str_at, in_bounds. by rewrite (proj2 (Z.leb_gt _ (zlen str))), andb_false_r by lia.
Qed.

Lemma str_at_ok s i v : str_at s i = Ret v → 0 ≤ i ≤ zlen s.
Proof. unfold str_at, in_bounds. destruct (_ && _) eqn:E; [|done]. intros _. lia. Qed.

Lemma str_at_fault s i f : str_at s i = Abort f → f = OutOfBounds.
Proof. unfold str_at, in_bounds. destruct (_ && _); [done|]. by intros [= <-]. Qed.

(** What a run of the loop yields: not more than was left, and less if an encoded
    percent sign was found. *)
Definition loop_post (str : bytes) (i : Z) (res : bytes) (ret : Z) (m : outcome (bytes * Z)) : Prop :=
  match m with
  | Abort f => f = OutOfBounds
  | Ret (r, k) => zlen r ≤ zlen res + Z.max 0 (zlen str - i) ∧
      (k = 1 → ret = 1 ∨ zlen r < zlen res + Z.max 0 (zlen str - i))
  end.

Lemma Decode_loop_post fuel str i res ret : 0 ≤ i → Z.max 0 (zlen str - i) < Z.of_nat fuel →
  loop_post str i res ret (Decode_loop fuel str i res ret).
Proof.
  revert i res ret. induction fuel as [|fuel IH]; intros i res ret Hi Hf; [lia|]. cbn [Decode_loop].
  destruct (Z.ltb_spec i (zlen str)) as [Hlt|Hge]; [|split; [lia|by left]].
  assert (∀ j x ret', i < j → j - i - 1 ≤ zlen str - i → ret' = ret ∨ 5 ≤ j - i →
    loop_post str i res ret (Decode_loop fuel str j (res ++ [x]) ret')) as Hnext.
  { intros j x ret' Hj Hl Hr. specialize (IH j (res ++ [x]) ret'). unfold loop_post in *.
    destruct (Decode_loop fuel str j (res ++ [x]) ret') as [[r k]|f]; [|apply IH; lia].
    destruct IH as [H1 H2]; [lia..|]. rewrite length_app in H1, H2. cbn [length] in H1, H2. split; [lia|].
    intros Hk. destruct (H2 Hk) as [Hr'|?]; [|right; lia]. destruct Hr as [->|?]; [by left|right; lia]. }
  assert (∀ j (k : Z → outcome (bytes * Z)), (∀ v, 0 ≤ j ≤ zlen str → loop_post str i res ret (k v)) →
    loop_post str i res ret (v ← str_at str j; k v)) as Hread.
  { intros j k Hk. destruct (str_at str j) as [v|f] eqn:E; [apply Hk; by apply str_at_ok in E|].
    apply str_at_fault in E. by subst. }
  apply Hread. intros c _. destruct (c =? 37); [|destruct (c =? 43); apply Hnext; lia].
  apply Hread. intros a _. apply Hread. intros b Hb. destruct (StrToBin a b =? 37); [|apply Hnext; lia].
  apply Hread. intros a' _. apply Hread. intros b' Hb'. apply Hnext; lia.
Qed.

Lemma Decode_ends s :
  match Decode_ s with
  | Ret (r, k) => zlen r ≤ zlen s ∧ (k = 1 → zlen r < zlen s)
  | Abort f => f = OutOfBounds
  end.
Proof.
  pose proof (Decode_loop_post (S (length s)) s 0 [] 0) as Hp. unfold Decode_, loop_post in *.
  destruct (Decode_loop _ s 0 [] 0) as [[r k]|f]; [|by apply Hp; lia].
  cbn [length] in Hp. destruct Hp as [H1 H2]; [lia..|]. split; [lia|]. intros Hk. destruct (H2 Hk); lia.
Qed.

Definition ends {A} (m : outcome A) : Prop := (∃ r, m = Ret r) ∨ m = Abort OutOfBounds.

Lemma Decode_2_loop_ends fuel s : (length s < fuel)%nat → ends (Decode_2_loop fuel s).
Proof.
  revert s. induction fuel as [|fuel IH]; intros s Hf; [lia|]. cbn [Decode_2_loop].
  pose proof (Decode_ends s) as Hp. destruct (Decode_ s) as [[r k]|f]; cbn; [|subst; by right].
  destruct Hp as [H1 H2]. destruct (Z.eqb_spec k 1) as [->|]; [|left; by exists r].
  apply IH. specialize (H2 eq_refl). lia.
Qed.

(** [MultipleDecode] ends on every string, by returning or by reading past its end:
    every further round of its loop works on a shorter string. *)
Theorem multiple_decode_terminates s :
  (∃ r, MultipleDecode s = Ret r) ∨ MultipleDecode s = Abort OutOfBounds.
Proof.
  unfold MultipleDecode, Decode_2. pose proof (Decode_ends s) as Hp.
  destruct (Decode_ s) as [[r k]|f]; [rewrite bind_ret|subst; by right].
  destruct Hp as [H1 H2]. destruct (k =? 1); [|left; by exists r]. apply Decode_2_loop_ends. lia.
Qed.

(** ** Examples *)

Lemma plain_dec s : forallb (λ c, (0 <=? c) && (c <? 256) && negb (c =? 37) && (negb (isspace c) || (c =? 32))) s = true →
  Forall plain s.
Proof.
  intros H. apply Forall_forall. intros c Hc. rewrite forallb_forall in H.
  specialize (H c (proj1 (list_elem_of_In _ _) Hc)). unfold plain, is_byte.
  destruct (isspace c); cbn in H; lia.
Qed.

Lemma url_roundtrip_witness :
  Decode (Encode (str "a b&c=100%")) = str "a b&c=100%" ∧ Encode (str "a b&c=100%") = str "a+b%26c%3D100%25".
Proof.
  split; [|by vm_compute]. apply (url_roundtrip (str "a b&c=100%")). apply str_bytes.
Defined.

Lemma multiple_roundtrip_witness : MultipleDecode (MultipleEncode (str "a b&c")) = Ret (str "a b&c").
Proof. apply multiple_roundtrip. apply plain_dec. vm_compute. reflexivity. Defined.

Lemma trailing_percent_overrun_witness : MultipleDecode (MultipleEncode (str "100" ++ [37])) = Abort OutOfBounds.
Proof. apply trailing_percent_overrun. apply plain_dec. vm_compute. reflexivity. Defined.

End UrlCodec.
