(* ===== verification/LogStream.v ===== *)
(** * LogStream: the text of log lines (src/muduo-vip/muduo/base/LogStream.{h,cc})

    Numbers are written by [convert] and [convertHex] straight into the free part
    of a buffer of fixed size; every write is checked here.  Left out: floating
    point numbers, which [snprintf] formats, and the formats of [Fmt]. *)

From S2P Require Import Prelude.

Module LogStream.

(** ** Integers to text *)

Definition digits : bytes := str "9876543210123456789".
Definition digitsHex : bytes := str "0123456789ABCDEF".

(** [table[i]]. *)
Definition char_at (table : bytes) (i : Z) : outcome Z :=
  in_bounds ((0 <=? i) && (i <? zlen table)) ;; Ret (nth (Z.to_nat i) table 0).

(** The do-while loop; the remainder has the sign of [i]. *)
Fixpoint convert_loop (fuel : nat) (i : Z) (p : bytes) : outcome bytes :=
  match fuel with
  | O => Abort OutOfFuel
  | S fuel =>
      let lsd := Z.rem i 10 in
      let i := Z.quot i 10 in
      c ← char_at digits (9 + lsd);
      let p := p ++ [c] in
      if negb (i =? 0) then convert_loop fuel i p else Ret p
  end.

(** The text without its terminating zero; 64 bits have 20 digits at most. *)
Definition convert (value : Z) : outcome bytes :=
  p ← convert_loop 20 value [];
  let p := if value <? 0 then p ++ [45] else p in
  Ret (rev p).

Fixpoint convertHex_loop (fuel : nat) (i : Z) (p : bytes) : outcome bytes :=
  match fuel with
  | O => Abort OutOfFuel
  | S fuel =>
      let lsd := i mod 16 in
      let i := i / 16 in
      c ← char_at digitsHex lsd;
      let p := p ++ [c] in
      if negb (i =? 0) then convertHex_loop fuel i p else Ret p
  end.

Definition convertHex (value : Z) : outcome bytes :=
  p ← convertHex_loop 16 value [];
  Ret (rev p).

(** ** FixedBuffer<SIZE> *)

Section stream.
Variable SIZE : Z.

Record FixedBuffer : Type := mkFixedBuffer {
  data_ : bytes;
  cur_ : Z;
}.

(** The characters are not initialised. *)
Definition FixedBuffer_ctor (garbage : bytes) : FixedBuffer := mkFixedBuffer garbage 0.

Definition avail (b : FixedBuffer) : Z := zlen (data_ b) - cur_ b.

(** Writing [text] at the index [i] of the array. *)
Definition write_at (b : FixedBuffer) (i : Z) (text : bytes) : outcome FixedBuffer :=
  in_bounds ((0 <=? i) && (i + zlen text <=? zlen (data_ b))) ;;
  Ret (mkFixedBuffer (ztake i (data_ b) ++ text ++ zdrop (i + zlen text) (data_ b)) (cur_ b)).

Definition add (b : FixedBuffer) (len : Z) : FixedBuffer := mkFixedBuffer (data_ b) (cur_ b + len).

Definition append (b : FixedBuffer) (text : bytes) : outcome FixedBuffer :=
  if zlen text <? avail b then
    b' ← write_at b (cur_ b) text;
    Ret (add b' (zlen text))
  else Ret b.

Definition reset (b : FixedBuffer) : FixedBuffer := mkFixedBuffer (data_ b) 0.
Definition toString (b : FixedBuffer) : bytes := ztake (cur_ b) (data_ b).

(** ** LogStream *)

Definition kMaxNumericSize : Z := 32.

Definition formatInteger (b : FixedBuffer) (v : Z) : outcome FixedBuffer :=
  if kMaxNumericSize <=? avail b then
    text ← convert v;
    b' ← write_at b (cur_ b) (text ++ [0]);
    Ret (add b' (zlen text))
  else Ret b.

Definition formatPointer (b : FixedBuffer) (v : Z) : outcome FixedBuffer :=
  if kMaxNumericSize <=? avail b then
    b' ← write_at b (cur_ b) (str "0x");
    text ← convertHex v;
    b' ← write_at b' (cur_ b + 2) (text ++ [0]);
    Ret (add b' (zlen text + 2))
  else Ret b.

(** The overloads of [operator<<]: integers of all types, pointers, truth values,
    characters, C strings, strings, and other buffers through their text. *)
Inductive item : Type :=
  | Integer (v : Z)
  | Pointer (v : Z)
  | Bool (v : bool)
  | Char (v : Z)
  | CString (s : option bytes)
  | Text (s : bytes).

(** The overloads defined in the class. *)
Definition put_inline (b : FixedBuffer) (x : item) : outcome FixedBuffer :=
  match x with
  | Bool v => append b (if v then str "1" else str "0")
  | Char v => append b [v]
  | CString (Some s) => append b s
  | CString None => append b (str "(null)")
  | Text s => append b s
  | _ => Ret b
  end.

Definition put (b : FixedBuffer) (x : item) : outcome FixedBuffer :=
  match x with
  | Integer v => formatInteger b v
  | Pointer v => formatPointer b v
  | _ => put_inline b x
  end.

Fixpoint put_all (b : FixedBuffer) (l : list item) : outcome FixedBuffer :=
  match l with
  | [] => Ret b
  | x :: l => b ← put b x; put_all b l
  end.

(** ** Specification *)

(** The digits of [n] in a base, the least significant one last. *)
Fixpoint digits_of (fuel : nat) (base n : Z) : list Z :=
  match fuel with
  | O => []
  | S fuel => if n <? base then [n] else digits_of fuel base (n / base) ++ [n mod base]
  end.

Definition hex_char (d : Z) : Z := if d <? 10 then 48 + d else 55 + d.

Definition decimal (v : Z) : bytes :=
  let text := (λ d, 48 + d) <$> digits_of 20 10 (Z.abs v) in
  if v <? 0 then 45 :: text else text.
Definition hexadecimal (v : Z) : bytes := hex_char <$> digits_of 16 16 v.

Definition item_text (x : item) : bytes :=
  match x with
  | Integer v => decimal v
  | Pointer v => str "0x" ++ hexadecimal v
  | Bool v => if v then str "1" else str "0"
  | Char v => [v]
  | CString (Some s) => s
  | CString None => str "(null)"
  | Text s => s
  end.

(** How much room an item asks for. *)
Definition item_room (x : item) : Z :=
  match x with
  | Integer _ | Pointer _ => kMaxNumericSize
  | _ => zlen (item_text x) + 1
  end.

(** An item is written whole or not at all. *)
Definition spec_put (l : bytes) (x : item) : bytes :=
  if item_room x <=? SIZE - zlen l then l ++ item_text x else l.

(** Values of the integer types, 64-bit pointers. *)
Definition item_ok (x : item) : Prop :=
  match x with
  | Integer v => - 2 ^ 63 ≤ v < 2 ^ 64
  | Pointer v => 0 ≤ v < 2 ^ 64
  | _ => True
  end.

(** ** Conversion *)

Lemma digit_char d : 0 ≤ d < 10 → char_at digits (9 + d) = Ret (48 + d) ∧ char_at digits (9 - d) = Ret (48 + d).
Proof.
  intros Hd. assert (d = 0 ∨ d = 1 ∨ d = 2 ∨ d = 3 ∨ d = 4 ∨ d = 5 ∨ d = 6 ∨ d = 7 ∨ d = 8 ∨ d = 9) as H by lia.
  repeat destruct H as [->|H]; [done..|]. by subst.
Qed.

Lemma hex_digit_char d : 0 ≤ d < 16 → char_at digitsHex d = Ret (hex_char d).
Proof.
  intros Hd. assert (d = 0 ∨ d = 1 ∨ d = 2 ∨ d = 3 ∨ d = 4 ∨ d = 5 ∨ d = 6 ∨ d = 7 ∨ d = 8 ∨ d = 9 ∨
    d = 10 ∨ d = 11 ∨ d = 12 ∨ d = 13 ∨ d = 14 ∨ d = 15) as H by lia.
  repeat destruct H as [->|H]; [done..|]. by subst.
Qed.

(** Towards zero, a number and its negation have the same digits. *)
Lemma rem_quot_abs i : Z.quot i 10 = Z.sgn i * (Z.abs i / 10) ∧ Z.rem i 10 = Z.sgn i * (Z.abs i mod 10).
Proof. Z.to_euclidean_division_equations. lia. Qed.

Lemma last_digit i : char_at digits (9 + Z.rem i 10) = Ret (48 + Z.abs i mod 10).
Proof.
  destruct (rem_quot_abs i) as [_ ->]. destruct (digit_char (Z.abs i mod 10)) as [H1 H2]; [dlia|].
  destruct (Z.lt_trichotomy i 0) as [Hi|[->|Hi]]; [|done|].
  - rewrite Z.sgn_neg by done. by replace (9 + -1 * (Z.abs i mod 10)) with (9 - Z.abs i mod 10) by lia.
  - rewrite Z.sgn_pos by done. by replace (9 + 1 * (Z.abs i mod 10)) with (9 + Z.abs i mod 10) by lia.
Qed.

Lemma convert_loop_eq fuel i p : Z.abs i < 10 ^ Z.of_nat fuel → (0 < fuel)%nat →
  convert_loop fuel i p = Ret (p ++ rev ((λ d, 48 + d) <$> digits_of fuel 10 (Z.abs i))).
Proof.
  revert i p. induction fuel as [|fuel IH]; intros i p Hi Hf; [lia|]. cbn [convert_loop digits_of].
  rewrite last_digit. orun. destruct (rem_quot_abs i) as [Hq _].
  assert (Z.abs (Z.quot i 10) = Z.abs i / 10) as Ha by (rewrite Hq; destruct (Z.lt_trichotomy i 0) as [|[->|]];
    [rewrite Z.sgn_neg by done; dlia|done|rewrite Z.sgn_pos by done; dlia]).
  destruct (Z.ltb_spec (Z.abs i) 10) as [Hlt|Hge].
  - rewrite (proj2 (Z.eqb_eq (Z.quot i 10) 0)) by dlia. cbn [negb fmap list_fmap rev app].
    by rewrite Z.mod_small by lia.
  - rewrite (proj2 (Z.eqb_neq (Z.quot i 10) 0)) by dlia. cbn [negb].
    assert (0 < fuel)%nat by (destruct fuel; [cbn in Hi; lia|lia]).
    rewrite Nat2Z.inj_succ, Z.pow_succ_r in Hi by lia. rewrite IH by (rewrite ?Ha; dlia || done).
    rewrite Ha, fmap_app, rev_app_distr, <- app_assoc. done.
Qed.

Lemma convert_eq v : - 10 ^ 20 < v < 10 ^ 20 → convert v = Ret (decimal v).
Proof.
  intros Hv. unfold convert, decimal. rewrite convert_loop_eq by (cbn in *; lia). orun. cbn [app].
  destruct (v <? 0); rewrite ?rev_app_distr, rev_involutive; done.
Qed.

Lemma convertHex_loop_eq fuel i p : 0 ≤ i < 16 ^ Z.of_nat fuel → (0 < fuel)%nat →
  convertHex_loop fuel i p = Ret (p ++ rev (hex_char <$> digits_of fuel 16 i)).
Proof.
  revert i p. induction fuel as [|fuel IH]; intros i p Hi Hf; [lia|]. cbn [convertHex_loop digits_of].
  rewrite hex_digit_char by dlia. orun. destruct (Z.ltb_spec i 16) as [Hlt|Hge].
  - rewrite (proj2 (Z.eqb_eq (i / 16) 0)) by dlia. cbn [negb fmap list_fmap rev app]. by rewrite Z.mod_small by lia.
  - rewrite (proj2 (Z.eqb_neq (i / 16) 0)) by dlia. cbn [negb].
    assert (0 < fuel)%nat by (destruct fuel; [cbn in Hi; lia|lia]).
    rewrite Nat2Z.inj_succ, Z.pow_succ_r in Hi by lia. rewrite IH by (done || dlia).
    rewrite fmap_app, rev_app_distr, <- app_assoc. done.
Qed.

Lemma convertHex_eq v : 0 ≤ v < 2 ^ 64 → convertHex v = Ret (hexadecimal v).
Proof.
  intros Hv. unfold convertHex, hexadecimal. rewrite convertHex_loop_eq by (cbn in *; lia). orun.
  cbn [app]. by rewrite rev_involutive.
Qed.

Lemma length_digits fuel base n : (length (digits_of fuel base n) ≤ fuel)%nat.
Proof.
  revert n. induction fuel as [|fuel IH]; intros n; cbn [digits_of]; [done|].
  destruct (n <? base); cbn [length]; [lia|]. rewrite length_app. cbn [length]. specialize (IH (n / base)). lia.
Qed.

Lemma length_digits_lt fuel base n k : 1 < base → 0 ≤ n < base ^ Z.of_nat (S k) →
  (length (digits_of fuel base n) ≤ S k)%nat.
Proof.
  intros Hb. revert n k. induction fuel as [|fuel IH]; intros n k Hn; cbn [digits_of]; [cbn; lia|].
  destruct (Z.ltb_spec n base); [cbn; lia|]. destruct k as [|k]; [cbn in Hn; lia|].
  rewrite length_app. cbn [length]. rewrite Nat2Z.inj_succ, Z.pow_succ_r in Hn by lia.
  specialize (IH (n / base) k). assert (0 ≤ n / base < base ^ Z.of_nat (S k)); [|lia].
  split; [apply Z.div_pos; lia|apply Z.div_lt_upper_bound; lia].
Qed.

(** ** Reading the numbers back *)

Definition value_of (base : Z) (l : list Z) : Z := foldl (λ n d, n * base + d) 0 l.

Lemma value_digits fuel base n : 1 < base → 0 ≤ n < base ^ Z.of_nat fuel → value_of base (digits_of fuel base n) = n.
Proof.
  intros Hb. revert n. induction fuel as [|fuel IH]; intros n Hn; cbn [digits_of].
  - cbn in *. lia.
  - destruct (Z.ltb_spec n base); [cbn; lia|]. unfold value_of. rewrite foldl_app. fold (value_of base (digits_of fuel base (n / base))).
    rewrite Nat2Z.inj_succ, Z.pow_succ_r in Hn by lia.
    rewrite IH by (split; [apply Z.div_pos; lia|apply Z.div_lt_upper_bound; lia]). cbn.
    pose proof (Z.div_mod n base). lia.
Qed.

(** [strtol] of a decimal number. *)
Definition parse_decimal (text : bytes) : Z :=
  match text with
  | c :: l => if c =? 45 then - value_of 10 ((λ c, c - 48) <$> l) else value_of 10 ((λ c, c - 48) <$> text)
  | [] => 0
  end.

Lemma digits_range fuel base n : 1 < base → 0 ≤ n → Forall (λ d, 0 ≤ d < base) (digits_of fuel base n).
Proof.
  intros Hb. revert n. induction fuel as [|fuel IH]; intros n Hn; cbn [digits_of]; [constructor|].
  destruct (Z.ltb_spec n base); [repeat constructor; lia|]. apply Forall_app. split; [apply IH, Z.div_pos; lia|].
  repeat constructor; apply Z.mod_pos_bound; lia.
Qed.

Lemma parse_decimal_eq v : - 10 ^ 20 < v < 10 ^ 20 → parse_decimal (decimal v) = v.
Proof.
  intros Hv. unfold decimal. set (ds := digits_of 20 10 (Z.abs v)).
  assert (value_of 10 ds = Z.abs v) as Hds by (apply value_digits; cbn in *; lia).
  assert ((λ c, c - 48) <$> ((λ d, 48 + d) <$> ds) = ds) as Hinv.
  { rewrite <- list_fmap_compose. rewrite <- (list_fmap_id ds) at 2. apply list_fmap_ext. intros _ d _. cbn. lia. }
  destruct (Z.ltb_spec v 0); [unfold parse_decimal; cbn [Z.eqb Pos.eqb]; rewrite Hinv; lia|].
  assert (Forall (λ d, 0 ≤ d < 10) ds) as Hr by (apply digits_range; lia).
  destruct ds as [|d ds]; [cbn in *; lia|]. apply Forall_cons in Hr as [Hd _].
  unfold parse_decimal. rewrite Hinv. cbn [fmap list_fmap]. rewrite (proj2 (Z.eqb_neq (48 + d) 45)) by lia. lia.
Qed.

(** ** Buffers *)

Record wf (b : FixedBuffer) : Prop := Wf {
  wf_size : zlen (data_ b) = SIZE;
  wf_cur : 0 ≤ cur_ b ≤ SIZE;
}.

Lemma length_decimal v : zlen (decimal v) ≤ 21.
Proof.
  unfold decimal. pose proof (length_digits 20 10 (Z.abs v)).
  destruct (v <? 0); cbn [length]; rewrite length_fmap; lia.
Qed.

Lemma length_hexadecimal v : zlen (hexadecimal v) ≤ 16.
Proof. unfold hexadecimal. rewrite length_fmap. pose proof (length_digits 16 16 v). lia. Qed.

(** A write of [text] and perhaps more, of which [text] is kept. *)
Lemma write_keeps b text more : wf b → cur_ b + zlen (text ++ more) ≤ SIZE →
  ∃ b', write_at b (cur_ b) (text ++ more) = Ret b' ∧ wf (add b' (zlen text)) ∧ cur_ b' = cur_ b ∧
    toString (add b' (zlen text)) = toString b ++ text.
Proof.
  intros [Hs Hc] Hl. unfold write_at. rewrite in_bounds_true by (rewrite andb_true_iff, !Z.leb_le; lia). orun.
  eexists. split; [done|]. rewrite length_app in Hl. 
  assert (zlen (ztake (cur_ b) (data_ b)) = cur_ b) as Ht by (apply length_ztake; lia).
  split_and!.
  - split; cbn; [|lia]. rewrite !length_app, !Nat2Z.inj_add, Ht.
    rewrite length_zdrop; rewrite ?length_app; lia.
  - done.
  - unfold toString. cbn. rewrite <- !app_assoc, app_assoc. apply ztake_app. rewrite length_app. lia.
Qed.

Lemma write_at_add b k i text : write_at (add b k) i text = (b' ← write_at b i text; Ret (add b' k)).
Proof. unfold write_at. cbn. by destruct (in_bounds _). Qed.

Lemma append_spec b text : wf b → ∃ b', append b text = Ret b' ∧ wf b' ∧
  toString b' = if zlen text + 1 <=? SIZE - zlen (toString b) then toString b ++ text else toString b.
Proof.
  intros Hb. pose proof Hb as [Hs Hc]. unfold append, avail.
  assert (zlen (toString b) = cur_ b) as -> by (apply length_ztake; lia). rewrite Hs.
  destruct (Z.ltb_spec (zlen text) (SIZE - cur_ b)) as [Hlt|Hge].
  - destruct (write_keeps b text [] Hb) as (b' & Hw & Hwf & _ & Ht); [rewrite app_nil_r; lia|].
    rewrite app_nil_r in Hw. rewrite Hw. orun. eexists. split_and!; [done..|].
    by rewrite (proj2 (Z.leb_le _ _)) by lia.
  - exists b. split_and!; [done..|]. by rewrite (proj2 (Z.leb_gt _ _)) by lia.
Qed.

Lemma put_spec b x : wf b → item_ok x →
  ∃ b', put b x = Ret b' ∧ wf b' ∧ toString b' = spec_put (toString b) x.
Proof.
  intros Hb Hx. pose proof Hb as [Hs Hc]. assert (zlen (toString b) = cur_ b) as Hcur by (apply length_ztake; lia).
  destruct x as [v|v|v|v|[t|]|t]; try by apply append_spec.
  all: unfold put, formatInteger, formatPointer, avail, spec_put, item_room; rewrite Hs, Hcur; cbn [item_ok item_text] in *.
  - destruct (Z.leb_spec kMaxNumericSize (SIZE - cur_ b)) as [Hle|]; [|by exists b]. unfold kMaxNumericSize in Hle.
    rewrite convert_eq by lia. orun. pose proof (length_decimal v).
    destruct (write_keeps b (decimal v) [0] Hb) as (b' & -> & Hwf & _ & Ht); [rewrite length_app; cbn [length]; lia|].
    orun. by eexists.
  - destruct (Z.leb_spec kMaxNumericSize (SIZE - cur_ b)) as [Hle|]; [|by exists b]. unfold kMaxNumericSize in Hle.
    destruct (write_keeps b (str "0x") [] Hb) as (b1 & Hw & Hwf & Hc1 & Ht); [cbn; lia|].
    rewrite app_nil_r in Hw. rewrite Hw. orun. rewrite convertHex_eq by done. orun. pose proof (length_hexadecimal v).
    destruct (write_keeps (add b1 2) (hexadecimal v) [0] Hwf) as (b2 & Hw2 & Hwf2 & Hc2 & Ht2).
    { rewrite length_app. cbn [add cur_ length]. rewrite Hc1. lia. }
    rewrite write_at_add in Hw2. cbn [add cur_] in Hw2. rewrite Hc1 in Hw2.
    destruct (write_at b1 _ _) as [b3|]; [|done]. cbn in Hw2. simplify_eq. orun.
    replace (zlen (hexadecimal v) + 2) with (2 + zlen (hexadecimal v)) by lia.
    assert (add b3 (2 + zlen (hexadecimal v)) = add (add b3 2) (zlen (hexadecimal v))) as ->
      by (unfold add; cbn; f_equal; lia).
    eexists. split_and!; [done..|]. rewrite Ht2. change (add b1 2) with (add b1 (zlen (str "0x"))).
    by rewrite Ht, <- app_assoc.
Qed.

Lemma put_all_spec b l : wf b → Forall item_ok l →
  ∃ b', put_all b l = Ret b' ∧ wf b' ∧ toString b' = foldl spec_put (toString b) l.
Proof.
  intros Hb Hl. revert b Hb. induction Hl as [|x l Hx _ IH]; intros b Hb; [by exists b|].
  cbn [put_all foldl]. destruct (put_spec b x Hb Hx) as (b1 & -> & Hb1 & Ht). orun.
  destruct (IH b1 Hb1) as (b2 & -> & Hb2 & Ht2). exists b2. by rewrite Ht2, Ht.
Qed.

End stream.

(** Integers of all types are written in decimal: the text is the shortest one and
    reads back as the number, the most negative ones included, and it fits with its
    terminating zero into the room that is asked for. *)
Theorem convert_correct v : - 2 ^ 63 ≤ v < 2 ^ 64 →
  convert v = Ret (decimal v) ∧ parse_decimal (decimal v) = v ∧ zlen (decimal v) + 1 ≤ kMaxNumericSize.
Proof.
  intros Hv. pose proof (length_decimal v). unfold kMaxNumericSize.
  split_and!; [apply convert_eq; lia|apply parse_decimal_eq; lia|lia].
Qed.

(** C30: A log line: whatever is written to a stream of any size, nothing is written
    outside its buffer, and its text consists of the texts of the items in their
    order, each whole or, when there was no room for it, not at all. *)
Theorem log_stream_text SIZE garbage l :
  0 ≤ SIZE → zlen garbage = SIZE → Forall item_ok l →
  ∃ b, put_all (FixedBuffer_ctor garbage) l = Ret b ∧
    toString b = foldl (spec_put SIZE) [] l ∧ zlen (toString b) ≤ SIZE.
Proof.
  intros Hs Hg Hl. destruct (put_all_spec SIZE (FixedBuffer_ctor garbage) l) as (b & -> & [Hb Hc] & Ht);
    [split; cbn; lia|done|].
  exists b. split_and!; [done|done|]. unfold toString. rewrite length_ztake by lia. lia.
Qed.

(** ** Examples *)

Lemma convert_correct_witness :
  convert (- 2 ^ 63) = Ret (str "-9223372036854775808") ∧ parse_decimal (str "-9223372036854775808") = - 2 ^ 63.
Proof.
  destruct (convert_correct (- 2 ^ 63)) as (H1 & H2 & _); [lia|].
  split; [rewrite H1; vm_compute; reflexivity|exact H2].
Defined.

(** The second number has no room any more. *)
Lemma log_stream_text_witness :
  ∃ b, put_all (FixedBuffer_ctor (replicate 40 0))
      [Text (str "n = "); Integer (-12); CString None; Pointer 255; Char 33] = Ret b ∧
    toString b = str "n = -12(null)!".
Proof.
  destruct (log_stream_text 40 (replicate 40 0)
    [Text (str "n = "); Integer (-12); CString None; Pointer 255; Char 33]) as (b & H1 & H2 & _).
  - lia.
  - reflexivity.
  - repeat constructor; cbn; lia.
  - exists b. split; [exact H1|]. rewrite H2. vm_compute. reflexivity.
Defined.

End LogStream.
