(* ===== verification/EventLoop.v ===== *)
(** * EventLoop: the loop and the functors other threads give it
    (src/muduo-vip/muduo/net/EventLoop.{h,cc})

    A transition system: a step is what the loop's thread or another one does
    between two points where others can run.  [F] are the functors; running [f] in
    the loop queues the functors [effect f] there.  [wakeups] is the counter of the
    eventfd, [waking] the number of threads that have changed the loop and are
    about to write to it.  The handlers of the other channels may do what code in
    the loop's thread may do.  The history: [queued] in the order of the queue,
    [executed] in the order of execution. *)

From stdpp Require Export relations.
From S2P Require Import Prelude.

Module EventLoop.

Section loop.
Context {F : Type} (effect : F → list F).

(** Where the loop's thread is: before the first call of [loop()], at [while (!quit_)], in
    [poller_->poll], among the active channels (with the one of the eventfd still
    to come or not), in [doPendingFunctors], behind the loop, which may be started again. *)
Inductive place : Type := NotStarted | Test | Polling | Handling (woken : bool) | Calling | Done.

Record EventLoop : Type := mkLoop {
  pc : place;
  quit_ : bool;
  pendingFunctors_ : list F;
  functors : list F;
  wakeups : nat;
  waking : nat;
  early : bool;
  queued : list F;
  executed : list F;
}.

Definition EventLoop_ctor : EventLoop := mkLoop NotStarted false [] [] 0 0 false [] [].

Definition callingPendingFunctors_ (s : EventLoop) : bool := match pc s with Calling => true | _ => false end.
Definition looping_ (s : EventLoop) : bool := match pc s with NotStarted | Done => false | _ => true end.

(** [queueInLoop] in the loop's thread: it wakes the loop up only while functors run.
    [early] records that a functor was queued in that thread while no loop ran. *)
Definition queue_here (s : EventLoop) (fs : list F) : EventLoop :=
  mkLoop (pc s) (quit_ s) (pendingFunctors_ s ++ fs) (functors s)
    (if callingPendingFunctors_ s then length fs + wakeups s else wakeups s)%nat (waking s)
    (early s || match fs with [] => false | _ => negb (looping_ s) end)
    (queued s ++ fs) (executed s).

Definition goto (s : EventLoop) (p : place) : EventLoop :=
  mkLoop p (quit_ s) (pendingFunctors_ s) (functors s) (wakeups s) (waking s) (early s) (queued s) (executed s).
Definition set_quit (s : EventLoop) (b : bool) : EventLoop :=
  mkLoop (pc s) b (pendingFunctors_ s) (functors s) (wakeups s) (waking s) (early s) (queued s) (executed s).

(** [functors.swap(pendingFunctors_)]. *)
Definition swap_functors (s : EventLoop) : EventLoop :=
  mkLoop Calling (quit_ s) [] (pendingFunctors_ s) (wakeups s) (waking s) (early s) (queued s) (executed s).

(** The loop's thread, without the handlers of other channels. *)
Inductive loop_step : EventLoop → EventLoop → Prop :=
  | l_start s : looping_ s = false → loop_step s (set_quit (goto s Test) false)
  | l_exit s : pc s = Test → quit_ s = true → loop_step s (goto s Done)
  | l_again s : pc s = Test → quit_ s = false → loop_step s (goto s Polling)
  | l_woken s : pc s = Polling → (0 < wakeups s)%nat → loop_step s (goto s (Handling true))
  | l_read s : pc s = Handling true →
      loop_step s (mkLoop (Handling false) (quit_ s) (pendingFunctors_ s) (functors s) 0 (waking s) (early s) (queued s) (executed s))
  | l_swap s : pc s = Handling false → loop_step s (swap_functors s)
  | l_call s f fs : pc s = Calling → functors s = f :: fs →
      loop_step s (queue_here (mkLoop Calling (quit_ s) (pendingFunctors_ s) fs (wakeups s) (waking s) (early s)
                                 (queued s) (executed s ++ [f])) (effect f))
  | l_called s : pc s = Calling → functors s = [] → loop_step s (goto s Test).

(** The second half of [queueInLoop] and [quit] in another thread. *)
Inductive wakeup_step : EventLoop → EventLoop → Prop :=
  | wakeup s n : waking s = S n →
      wakeup_step s (mkLoop (pc s) (quit_ s) (pendingFunctors_ s) (functors s) (S (wakeups s)) n (early s) (queued s) (executed s)).

(** What others do: poll returns for another channel or after its time, handlers
    and code before the loop queue functors or quit, other threads do. *)
Inductive other_step : EventLoop → EventLoop → Prop :=
  | o_polled s : pc s = Polling → other_step s (goto s (Handling (bool_decide (0 < wakeups s)%nat)))
  | o_queue_here s f : pc s ≠ Polling ∧ pc s ≠ Test →
      other_step s (queue_here s [f])
  | o_quit_here s : pc s ≠ Polling ∧ pc s ≠ Test → other_step s (set_quit s true)
  | o_queue s f :
      other_step s (mkLoop (pc s) (quit_ s) (pendingFunctors_ s ++ [f]) (functors s) (wakeups s) (S (waking s))
                      (early s) (queued s ++ [f]) (executed s))
  | o_quit s :
      other_step s (mkLoop (pc s) true (pendingFunctors_ s) (functors s) (wakeups s) (S (waking s)) (early s) (queued s) (executed s)).

Definition step (s s' : EventLoop) : Prop := loop_step s s' ∨ wakeup_step s s' ∨ other_step s s'.
Definition reachable (s : EventLoop) : Prop := rtc step EventLoop_ctor s.

(** Steps that happen by themselves: nothing needs to arrive or to time out. *)
Definition auto_step (s s' : EventLoop) : Prop := loop_step s s' ∨ wakeup_step s s'.

(** ** Invariant *)

Definition signalled (s : EventLoop) : Prop := (0 < wakeups s)%nat ∨ (0 < waking s)%nat.

Record inv (s : EventLoop) : Prop := Inv {
  inv_fifo : executed s ++ functors s ++ pendingFunctors_ s = queued s;
  inv_functors : pc s ≠ Calling → functors s = [];
  inv_pending : match pc s with Handling _ => True | _ => early s = false → pendingFunctors_ s ≠ [] → signalled s end;
  inv_quit : match pc s with Polling => quit_ s = true → signalled s | _ => True end;
}.

Lemma queue_here_inv s fs : inv s → pc s ≠ Polling → pc s ≠ Test → inv (queue_here s fs).
Proof.
  intros [H1 H2 H3 H4] Hp Ht. destruct s as [p q pf bs w wk e qd ex]. cbn in *. split; cbn.
  - by rewrite <- H1, <- !app_assoc.
  - done.
  - unfold signalled in *. cbn in *. destruct p; try done.
    1,3: destruct fs as [|f fs]; cbn; [by rewrite app_nil_r, orb_false_r|by rewrite orb_true_r].
    intros He Hn. destruct fs as [|f fs]; [|left; cbn; lia]. rewrite app_nil_r, orb_false_r in *. cbn. by apply H3.
  - by destruct p.
Qed.

Lemma loop_step_inv s s' : loop_step s s' → inv s → inv s'.
Proof.
  intros Hs Hi. pose proof Hi as [H1 H2 H3 H4].
  destruct Hs as [s Hpc|s Hpc Hq|s Hpc Hq|s Hpc Hw|s Hpc|s Hpc|s f fs Hpc Hf|s Hpc Hf];
    [|rewrite Hpc in *..].
  - unfold looping_ in Hpc. split; cbn; [done|intros _; apply H2; by intros E; rewrite E in Hpc|by destruct (pc s)|done].
  - split; cbn; try done. intros _. by apply H2.
  - split; cbn; try done; [intros _; by apply H2|congruence].
  - split; cbn; try done. intros _. by apply H2.
  - split; cbn; try done. intros _. by apply H2.
  - split; cbn; try done. rewrite app_nil_r, <- H1, (H2 ltac:(done)). done.
  - apply queue_here_inv; [|done..]. split; cbn; try done. rewrite <- H1, Hf, <- !app_assoc. done.
  - split; cbn; try done.
Qed.

Lemma loop_inv s s' : step s s' → inv s → inv s'.
Proof.
  intros [Hs|[Hs|Hs]] Hi; [by apply (loop_step_inv s)| |].
  - destruct Hs as [s n Hn]. destruct Hi as [H1 H2 H3 H4]. split; cbn; try done.
    + destruct (pc s); try done; intros; left; cbn; lia.
    + destruct (pc s); try done. intros. left. cbn. lia.
  - destruct Hs as [s Hpc|s f Hh|s Hh|s f|s].
    + destruct Hi as [H1 H2 H3 H4]. rewrite Hpc in *. split; cbn; try done. intros _. by apply H2.
    + destruct Hh. by apply queue_here_inv.
    + destruct Hi as [H1 H2 H3 H4], Hh. split; cbn; try done. by destruct (pc s).
    + destruct Hi as [H1 H2 H3 H4]. split; cbn; try done.
      * by rewrite <- H1, <- !app_assoc.
      * destruct (pc s); try done; intros; right; cbn; lia.
      * destruct (pc s); try done. intros. right. cbn. lia.
    + destruct Hi as [H1 H2 H3 H4]. split; cbn; try done.
      * destruct (pc s); try done; intros; right; cbn; lia.
      * destruct (pc s); try done. intros. right. cbn. lia.
Qed.

Lemma loop_reachable s : reachable s → inv s.
Proof.
  intros Hr. unfold reachable in Hr. remember EventLoop_ctor as s0 eqn:E.
  assert (inv s0) as H0 by (subst; split; cbn; [done..|by intros _ []|done]).
  clear E. induction Hr as [s|s1 s2 s3 H1 _ IH]; [done|]. apply IH. by apply (loop_inv s1).
Qed.

(** ** What the loop promises *)

(** C13: Functors run in the order in which they were queued, whatever threads queued
    them, each once. *)
Theorem functors_in_order s : reachable s →
  executed s ++ functors s ++ pendingFunctors_ s = queued s.
Proof. intros Hi%loop_reachable. apply Hi. Qed.

(** The steps of the loop's own thread and of the threads about to wake it. *)
Lemma auto_inv s s' : rtc auto_step s s' → inv s → inv s'.
Proof.
  induction 1 as [|s1 s2 s3 H1 _ IH]; [done|]. intros Hi. apply IH, (loop_inv s1); [|done].
  destruct H1; [by left|right; by left].
Qed.

Lemma auto_loop s s' : loop_step s s' → rtc auto_step s s'.
Proof. intros. apply rtc_once. by left. Qed.

(** [doPendingFunctors] runs its functors to the end. *)
Lemma calling_ends s : pc s = Calling →
  ∃ s', rtc auto_step s s' ∧ pc s' = Test ∧ quit_ s' = quit_ s ∧ early s' = early s ∧ functors s' = [] ∧
    executed s' = executed s ++ functors s ∧ pendingFunctors_ s `prefix_of` pendingFunctors_ s'.
Proof.
  remember (functors s) as fs eqn:E. revert s E. induction fs as [|f fs IH]; intros s E Hpc.
  - exists (goto s Test). split_and!; try done; [|by rewrite app_nil_r]. apply auto_loop. by apply l_called.
  - pose proof (l_call s f fs Hpc (eq_sym E)) as Hs. set (s1 := queue_here _ _) in Hs.
    destruct (IH s1) as (s' & Hr & H1 & H2 & H3 & H4 & H5 & H6); [done..|].
    exists s'. rewrite H2, H3, H5. split_and!; try done.
    + by eapply rtc_l; [left; exact Hs|].
    + cbn. destruct (effect f); cbn; by rewrite orb_false_r.
    + cbn. by rewrite <- app_assoc.
    + etrans; [|exact H6]. cbn. by apply prefix_app_r.
Qed.

(** A loop that is to go on and has been signalled comes to [doPendingFunctors]. *)
Lemma polling_wakes s : pc s = Polling → signalled s →
  ∃ s', rtc auto_step s s' ∧ pc s' = Calling ∧ quit_ s' = quit_ s ∧ executed s' = executed s ∧
    functors s' = pendingFunctors_ s.
Proof.
  intros Hpc Hsig.
  assert (∃ s1, rtc auto_step s s1 ∧ pc s1 = Polling ∧ (0 < wakeups s1)%nat ∧ quit_ s1 = quit_ s ∧
    executed s1 = executed s ∧ pendingFunctors_ s1 = pendingFunctors_ s) as (s1 & Hr & Hpc1 & Hw & H1 & H2 & H3).
  { destruct (decide (0 < wakeups s)%nat) as [Hw|Hw]; [by exists s|]. destruct Hsig as [?|Hk]; [done|].
    destruct (waking s) as [|n] eqn:En; [lia|]. eexists. split; [apply rtc_once; right; by apply (wakeup s n)|].
    cbn. split_and!; [done|lia|done..]. }
  eexists. split.
  - etrans; [exact Hr|]. eapply rtc_l; [left; by apply l_woken|].
    eapply rtc_l; [left; by apply l_read|]. apply rtc_once. left. by apply l_swap.
  - cbn. by rewrite H1, H2, H3.
Qed.

Lemma test_to_calling s : inv s → pc s = Test → quit_ s = false → early s = false → pendingFunctors_ s ≠ [] →
  ∃ s', rtc auto_step s s' ∧ pc s' = Calling ∧ executed s' = executed s ∧ functors s' = pendingFunctors_ s.
Proof.
  intros Hi Hpc Hq He Hp. pose proof (l_again s Hpc Hq) as Hs.
  destruct (polling_wakes (goto s Polling)) as (s' & Hr & H1 & _ & H2 & H3); [done| |].
  { destruct Hi as [_ _ H _]. rewrite Hpc in H. by apply H. }
  exists s'. split_and!; try done. eapply rtc_l; [left; exact Hs|exact Hr].
Qed.

Lemma handling_swaps s w : pc s = Handling w →
  ∃ s1, rtc auto_step s s1 ∧ pc s1 = Calling ∧ quit_ s1 = quit_ s ∧ functors s1 = pendingFunctors_ s.
Proof.
  intros Hpc. destruct w; eexists; split.
  - eapply rtc_l; [left; by apply l_read|]. apply rtc_once. left. by apply l_swap.
  - done.
  - apply rtc_once. left. by apply l_swap.
  - done.
Qed.

(** C12: Every functor that is queued while the loop runs is executed: from every state
    in which a functor waits and nobody has asked the loop to quit, the loop's
    thread and the threads that are about to wake it up get to its execution,
    without waiting for an event or a time-out. *)
Theorem queued_functor_runs s f : reachable s → looping_ s = true → early s = false → quit_ s = false →
  f ∈ functors s ++ pendingFunctors_ s →
  ∃ s', rtc auto_step s s' ∧ f ∈ executed s'.
Proof.
  intros Hi%loop_reachable Hl He Hq Hf.
  assert (∀ s1, rtc auto_step s s1 → pc s1 = Calling → f ∈ functors s1 → ∃ s', rtc auto_step s s' ∧ f ∈ executed s') as Hcall.
  { intros s1 Hr Hpc Hin. destruct (calling_ends s1 Hpc) as (s' & Hr' & _ & _ & _ & _ & Hex & _).
    exists s'. split; [by etrans|]. rewrite Hex. set_solver. }
  assert (∀ s1, rtc auto_step s s1 → pc s1 = Test → quit_ s1 = false → early s1 = false → f ∈ pendingFunctors_ s1 →
    ∃ s', rtc auto_step s s' ∧ f ∈ executed s') as Htest.
  { intros s1 Hr Hpc Hq1 He1 Hin. pose proof (auto_inv s s1 Hr Hi) as Hi1.
    destruct (test_to_calling s1 Hi1 Hpc Hq1 He1) as (s2 & Hr2 & Hpc2 & _ & Hf2); [by destruct (pendingFunctors_ s1); [set_solver|]|].
    apply (Hcall s2); [by etrans|done|by rewrite Hf2]. }
  assert (pc s ≠ Calling → f ∈ pendingFunctors_ s) as Hpend.
  { intros Hn. by rewrite (inv_functors s Hi Hn) in Hf. }
  unfold looping_ in Hl. destruct (pc s) as [| | |w| |] eqn:Hpc; try done.
  - by apply (Htest s); auto.
  - destruct (polling_wakes s Hpc) as (s1 & Hr & Hpc1 & _ & _ & Hf1).
    { pose proof (inv_pending s Hi) as H. rewrite Hpc in H. apply H; [done|].
      destruct (pendingFunctors_ s); [set_solver|done]. }
    apply (Hcall s1); [done..|]. rewrite Hf1. by apply Hpend.
  - destruct (handling_swaps s w Hpc) as (s1 & Hr & Hpc1 & _ & Hf1).
    apply (Hcall s1); [done..|]. rewrite Hf1. by apply Hpend.
  - apply elem_of_app in Hf as [Hf|Hf]; [by apply (Hcall s)|].
    destruct (calling_ends s Hpc) as (s1 & Hr & Hpc1 & Hq1 & He1 & _ & _ & Hpre). apply (Htest s1); [done|done|congruence..|].
    destruct Hpre as [l ->]. set_solver.
Qed.

(** A loop that was asked to quit while it runs comes to its end. *)
Theorem quit_ends_loop s : reachable s → looping_ s = true → quit_ s = true →
  ∃ s', rtc auto_step s s' ∧ pc s' = Done.
Proof.
  intros Hi%loop_reachable Hl Hq.
  assert (∀ s1, rtc auto_step s s1 → pc s1 = Test → quit_ s1 = true → ∃ s', rtc auto_step s s' ∧ pc s' = Done) as Htest.
  { intros s1 Hr Hpc Hq1. exists (goto s1 Done). split; [|done]. eapply rtc_r; [exact Hr|]. left. by apply l_exit. }
  assert (∀ s1, rtc auto_step s s1 → pc s1 = Calling → quit_ s1 = true → ∃ s', rtc auto_step s s' ∧ pc s' = Done) as Hcall.
  { intros s1 Hr Hpc Hq1. destruct (calling_ends s1 Hpc) as (s2 & Hr2 & Hpc2 & Hq2 & _).
    apply (Htest s2); [by etrans|done|congruence]. }
  unfold looping_ in Hl. destruct (pc s) as [| | |w| |] eqn:Hpc; try done.
  - by apply (Htest s).
  - destruct (polling_wakes s Hpc) as (s1 & Hr & Hpc1 & Hq1 & _).
    { pose proof (inv_quit s Hi) as H. rewrite Hpc in H. by apply H. }
    apply (Hcall s1); [done|done|congruence].
  - destruct (handling_swaps s w Hpc) as (s1 & Hr & Hpc1 & Hq1 & _).
    apply (Hcall s1); [done|done|congruence].
  - by apply (Hcall s).
Qed.

(** A functor that is queued in the loop's thread before [loop()] is called does not
    wake the loop up: it waits in [poll] until something else happens. *)
Theorem early_functor_waits f :
  ∃ s, reachable s ∧ pc s = Polling ∧ pendingFunctors_ s = [f] ∧ quit_ s = false ∧ ∀ s', ¬ auto_step s s'.
Proof.
  set (s1 := queue_here EventLoop_ctor [f]). set (s2 := set_quit (goto s1 Test) false). exists (goto s2 Polling).
  split_and!; try done.
  - eapply rtc_l; [right; right; by apply (o_queue_here _ f)|].
    eapply rtc_l; [left; by apply (l_start s1)|]. apply rtc_once. left. by apply (l_again s2).
  - intros s' [Hs|Hs]; inversion Hs; cbn in *; try done; lia.
Qed.

(** [quit] before [loop] is forgotten. *)
Theorem early_quit_is_lost : ∃ s s', reachable s ∧ quit_ s = true ∧ loop_step s s' ∧ looping_ s' = true ∧ quit_ s' = false.
Proof.
  exists (set_quit EventLoop_ctor true), (set_quit (goto (set_quit EventLoop_ctor true) Test) false). split_and!; try done.
  - apply rtc_once. right. right. by apply o_quit_here.
  - by apply l_start.
Qed.

End loop.

(** ** Examples *)

Definition no_effect (f : nat) : list nat := [].

(** A thread has queued a functor and not yet written to the eventfd. *)
Definition waiting : EventLoop := mkLoop Polling false [7%nat] [] 0 1 false [7%nat] [].
Definition quitting : EventLoop (F := nat) := mkLoop Polling true [] [] 0 1 false [] [].

Lemma polling_reachable : reachable no_effect (mkLoop Polling false [] [] 0 0 false [] []).
Proof.
  eapply rtc_l; [left; by apply l_start|]. apply rtc_once. left.
  by apply (l_again no_effect (mkLoop Test false [] [] 0 0 false [] [])).
Qed.

Lemma waiting_reachable : reachable no_effect waiting.
Proof. eapply rtc_r; [exact polling_reachable|]. right. right. exact (o_queue (mkLoop Polling false [] [] 0 0 false [] []) 7%nat). Qed.

Lemma quitting_reachable : reachable no_effect quitting.
Proof. eapply rtc_r; [exact polling_reachable|]. right. right. exact (o_quit (mkLoop Polling false [] [] 0 0 false [] [])). Qed.

Lemma queued_functor_runs_witness : ∃ s', rtc (auto_step no_effect) waiting s' ∧ 7%nat ∈ executed s'.
Proof.
  apply queued_functor_runs.
  - exact waiting_reachable.
  - reflexivity.
  - reflexivity.
  - reflexivity.
  - apply (bool_decide_unpack (7%nat ∈ [7%nat])). reflexivity.
Defined.

Lemma quit_ends_loop_witness : ∃ s', rtc (auto_step no_effect) quitting s' ∧ pc s' = Done.
Proof.
  apply quit_ends_loop.
  - exact quitting_reachable.
  - reflexivity.
  - reflexivity.
Defined.

Lemma functors_in_order_witness :
  executed waiting ++ functors waiting ++ pendingFunctors_ waiting = [7%nat].
Proof. exact (functors_in_order no_effect waiting waiting_reachable). Defined.

End EventLoop.
