(* ===== verification/TcpServer.v ===== *)
(** * TcpServer: listening, accepting and keeping the connections
    (src/muduo-vip/muduo/net/Acceptor.cc, TcpServer.cc, EventLoopThreadPool.cc, Reactor.cc,
    sockets::accept of SocketsOps.cc)

    The acceptor takes connections from the listening socket and hands them to the
    server, which gives each to one of the loops of the pool and a name, under which
    it keeps it until it is closed. *)

From S2P Require Import Prelude Channel LogStream.
Import Channel.

Module TcpServer.

(** ** EventLoopThreadPool: loops are numbers, the base loop is 0 *)

Record Pool : Type := mkPool {
  loops_ : list Z;
  next_ : Z;
  started_ : bool;
}.

Definition Pool_ctor : Pool := mkPool [] 0 false.

(** [start] with the loops its threads make. *)
Definition Pool_start (p : Pool) (loops : list Z) : outcome Pool :=
  assert (negb (started_ p)) ;;
  Ret (mkPool loops (next_ p) true).

Definition loop_at (p : Pool) (i : Z) : outcome Z :=
  in_bounds ((0 <=? i) && (i <? zlen (loops_ p))) ;; Ret (nth (Z.to_nat i) (loops_ p) 0).

Definition getNextLoop (p : Pool) : outcome (Z * Pool) :=
  assert (started_ p) ;;
  if bool_decide (loops_ p = []) then Ret (0, p)
  else
    loop ← loop_at p (next_ p);
    let next := next_ p + 1 in
    Ret (loop, mkPool (loops_ p) (if zlen (loops_ p) <=? next then 0 else next) (started_ p)).

Definition getLoopForHash (p : Pool) (hashCode : Z) : outcome Z :=
  if bool_decide (loops_ p = []) then Ret 0 else loop_at p (hashCode mod zlen (loops_ p)).

Definition getAllLoops (p : Pool) : outcome (list Z) :=
  assert (started_ p) ;;
  Ret (if bool_decide (loops_ p = []) then [0] else loops_ p).

(** ** Acceptor *)

Definition EPERM : Z := 1.
Definition EINTR : Z := 4.
Definition EAGAIN : Z := 11.
Definition ENFILE : Z := 23.
Definition EMFILE : Z := 24.
Definition EPROTO : Z := 71.
Definition ECONNABORTED : Z := 103.

(** The listening socket: the connections that wait, each with the descriptor it
    will get and its peer, and the errors the next calls of [accept] report.  An
    aborted connection is gone. *)
Record Listen : Type := mkListen {
  backlog : list (Z * Z);
  faults : list Z;
}.

Definition kernel_accept (k : Listen) : (Z + Z * Z) * Listen :=
  match faults k with
  | e :: fs => (inl e, mkListen (if e =? ECONNABORTED then tail (backlog k) else backlog k) fs)
  | [] =>
      match backlog k with
      | c :: cs => (inr c, mkListen cs [])
      | [] => (inl EAGAIN, k)
      end
  end.

(** [sockets::accept]: other errors than these end the process. *)
Definition sockets_accept (k : Listen) : outcome ((Z + Z * Z) * Listen) :=
  match kernel_accept k with
  | (inl e, k) =>
      if bool_decide (e ∈ [EAGAIN; ECONNABORTED; EINTR; EPROTO; EPERM; EMFILE]) then Ret (inl e, k)
      else Abort LogFatal
  | r => Ret r
  end.

(** What the acceptor does: it hands a connection on, or closes it because of the
    condition, or to get rid of it when there is no descriptor left. *)
Inductive acc_call : Type := New (fd peer : Z) | Refuse (fd : Z) | Drop (fd : Z).

Record Acceptor : Type := mkAcceptor {
  acceptChannel_ : Channel;
  listenning_ : bool;
}.

Definition Acceptor_ctor (ptr fd : Z) : Acceptor := mkAcceptor (Channel_ctor ptr fd) false.

Definition listen (p : Poller) (a : Acceptor) (et : bool) : outcome (Poller * Acceptor) :=
  '(p, ch) ← enableReading p (acceptChannel_ a) et;
  Ret (p, mkAcceptor ch true).

Section acceptor.
Variable conditionCallback_ : Z → bool.

Definition take_connection (c : Z * Z) : acc_call :=
  if conditionCallback_ c.2 then New c.1 c.2 else Refuse c.1.

(** The descriptor kept in reserve is closed, one connection taken and closed, and
    the reserve opened again. *)
Definition drop_one (k : Listen) : list acc_call * Listen :=
  match kernel_accept k with
  | (inr c, k) => ([Drop c.1], k)
  | (inl _, k) => ([], k)
  end.

Fixpoint accept_loop (fuel : nat) (et : bool) (k : Listen) : outcome (list acc_call * Listen) :=
  match fuel with
  | O => Abort OutOfFuel
  | S fuel =>
      '(r, k) ← sockets_accept k;
      match r with
      | inr c =>
          if et then
            '(calls, k) ← accept_loop fuel et k;
            Ret (take_connection c :: calls, k)
          else Ret ([take_connection c], k)
      | inl e => Ret (if e =? EMFILE then drop_one k else ([], k))
      end
  end.

Definition handleRead (a : Acceptor) (k : Listen) : outcome (list acc_call * Acceptor * Listen) :=
  let '(et, ch) := isETReading (acceptChannel_ a) in
  '(calls, k) ← accept_loop (S (length (backlog k))) et k;
  Ret (calls, mkAcceptor ch (listenning_ a), k).

(** Level-triggered epoll reports a socket as long as connections wait. *)
Fixpoint serve_level (fuel : nat) (a : Acceptor) (k : Listen) : outcome (list acc_call * Acceptor * Listen) :=
  match fuel with
  | O => Abort OutOfFuel
  | S fuel =>
      if bool_decide (backlog k = []) then Ret ([], a, k)
      else
        '(calls, a, k) ← handleRead a k;
        '(calls', a, k) ← serve_level fuel a k;
        Ret (calls ++ calls', a, k)
  end.
End acceptor.

(** ** TcpServer *)

(** A connection of the server from its creation on: its set-up is queued in its
    loop; it is up; it has closed and its removal is queued; it is removed and its
    destruction queued; it is destroyed. *)
Inductive phase : Type := PNew | PUp | PClosed | PRemoved | PDestroyed.

Record Conn : Type := mkConn {
  c_name : bytes;
  c_fd : Z;
  c_loop : Z;
  c_phase : phase;
}.

(** [pool] is the pool of the whole process, ReactorSingleton, from which other servers
    and clients take loops, too. *)
Record TcpServer : Type := mkServer {
  nextConnId_ : Z;
  connections_ : gmap bytes nat;
  pool : Pool;
  conns : list Conn;
}.

Definition TcpServer_ctor (p : Pool) : TcpServer := mkServer 1 ∅ p [].

Section server.
Variables (name_ ipPort_ : bytes).

(** [snprintf(buf, sizeof buf, "-%s#%d", ...)] into 64 characters. *)
Definition conn_name (id : Z) : bytes :=
  name_ ++ ztake 63 (str "-" ++ ipPort_ ++ str "#" ++ LogStream.decimal id).

Definition newConnection (s : TcpServer) (sockfd : Z) : outcome TcpServer :=
  '(ioLoop, p) ← getNextLoop (pool s);
  let connName := conn_name (nextConnId_ s) in
  ints [nextConnId_ s + 1] ;;
  Ret (mkServer (nextConnId_ s + 1) (<[connName := length (conns s)]> (connections_ s)) p
         (conns s ++ [mkConn connName sockfd ioLoop PNew])).

Definition set_phase (s : TcpServer) (i : nat) (c : Conn) (ph : phase) : TcpServer :=
  mkServer (nextConnId_ s) (connections_ s) (pool s)
    (<[i := mkConn (c_name c) (c_fd c) (c_loop c) ph]> (conns s)).

Definition removeConnectionInLoop (s : TcpServer) (i : nat) (c : Conn) : outcome TcpServer :=
  assert (bool_decide (is_Some (connections_ s !! c_name c))) ;;
  Ret (set_phase (mkServer (nextConnId_ s) (delete (c_name c) (connections_ s)) (pool s) (conns s)) i c PRemoved).

(** What happens to a server: a connection is accepted; another server or client takes a
    loop from the pool; the loop of connection [i] sets it up, the connection closes, the
    server removes it, its loop destroys it. *)
Inductive action : Type :=
  AAccept (fd : Z) | AOther | AEstablish (i : nat) | AClose (i : nat) | ARemove (i : nat) | ADestroy (i : nat).

Definition other_draws (s : TcpServer) : outcome TcpServer :=
  '(_, p) ← getNextLoop (pool s); Ret (mkServer (nextConnId_ s) (connections_ s) p (conns s)).

Definition act (s : TcpServer) (a : action) : option (outcome TcpServer) :=
  match a with
  | AAccept fd => Some (newConnection s fd)
  | AOther => Some (other_draws s)
  | AEstablish i =>
      c ← conns s !! i; match c_phase c with PNew => Some (Ret (set_phase s i c PUp)) | _ => None end
  | AClose i =>
      c ← conns s !! i; match c_phase c with PUp => Some (Ret (set_phase s i c PClosed)) | _ => None end
  | ARemove i =>
      c ← conns s !! i; match c_phase c with PClosed => Some (removeConnectionInLoop s i c) | _ => None end
  | ADestroy i =>
      c ← conns s !! i; match c_phase c with PRemoved => Some (Ret (set_phase s i c PDestroyed)) | _ => None end
  end.

Inductive runs_to : TcpServer → list action → TcpServer → Prop :=
  | runs_nil s : runs_to s [] s
  | runs_snoc s l s1 a s2 : runs_to s l s1 → act s1 a = Some (Ret s2) → runs_to s (l ++ [a]) s2.

(** ** Proofs: the acceptor *)

(** The acceptor listens in edge-triggered mode or not. *)
Definition listens (a : Acceptor) (et : bool) : Prop := (isETReading (acceptChannel_ a)).1 = et.

Lemma isETReading_again c : (isETReading (isETReading c).2).1 = (isETReading c).1.
Proof. unfold isETReading, clear_bits. cbn. by rewrite <- Z.land_assoc, Z.land_diag. Qed.

Lemma listen_listens p ptr fd et p' a : listen p (Acceptor_ctor ptr fd) et = Ret (p', a) → listens a et.
Proof.
  unfold listen. intros H. apply bind_ret_inv in H as ([p1 ch] & H & [= <- <-]).
  unfold enableReading, channel_update, updateChannel in H. cbn in H.
  apply bind_ret_inv in H as (p2 & _ & [= <- <-]). by destruct et.
Qed.

Lemma accept_loop_all cond cs fuel : (length cs < fuel)%nat →
  accept_loop cond fuel true (mkListen cs []) = Ret (take_connection cond <$> cs, mkListen [] []).
Proof.
  revert fuel. induction cs as [|c cs IH]; intros [|fuel] Hf; cbn in Hf; try lia; cbn [accept_loop]; [done|].
  unfold sockets_accept. cbn. rewrite IH by lia. done.
Qed.

Lemma serve_level_all cond cs : ∀ fuel a, (length cs < fuel)%nat → listens a false →
  ∃ a', serve_level cond fuel a (mkListen cs []) = Ret (take_connection cond <$> cs, a', mkListen [] []) ∧ listens a' false.
Proof.
  induction cs as [|c cs IH]; intros [|fuel] a Hf Ha; cbn in Hf; try lia; cbn [serve_level]; [by exists a|].
  cbn [backlog]. rewrite bool_decide_false by done. unfold handleRead. pose proof (isETReading_again (acceptChannel_ a)) as Hag.
  unfold listens in *. destruct (isETReading (acceptChannel_ a)) as [et ch]. cbn in Ha, Hag. subst et.
  cbn [accept_loop]. unfold sockets_accept. cbn.
  destruct (IH fuel (mkAcceptor ch (listenning_ a))) as (a' & -> & Ha'); [lia|done|]. cbn. by exists a'.
Qed.

(** Without errors every waiting connection is handed to the server, or closed if
    the condition refuses it, in order and once: by the one event of edge-triggered
    mode, or by the events of level-triggered mode, one each. *)
Theorem acceptor_serves cond a et k : listens a et → faults k = [] →
  ∃ a', (if et then handleRead cond a k else serve_level cond (S (length (backlog k))) a k) =
      Ret (take_connection cond <$> backlog k, a', mkListen [] []) ∧ listens a' et.
Proof.
  intros Ha Hk. destruct k as [cs fs]. cbn in Hk. subst fs. destruct et; [|apply serve_level_all; [cbn; lia|done]].
  unfold handleRead. pose proof (isETReading_again (acceptChannel_ a)) as Hag.
  unfold listens in *. destruct (isETReading (acceptChannel_ a)) as [et ch]. cbn in Ha, Hag. subst et.
  rewrite accept_loop_all by (cbn; lia). orun. by eexists.
Qed.

(** In edge-triggered mode an error of [accept] ends the round although connections
    wait: they stay where they are, and epoll does not report them again. *)
Theorem et_fault_strands_connections cond a e c1 c2 cs : listens a true →
  e ∈ [EINTR; ECONNABORTED; EPROTO; EPERM; EMFILE] →
  ∃ calls a' left, handleRead cond a (mkListen (c1 :: c2 :: cs) [e]) = Ret (calls, a', mkListen left []) ∧
    (∀ fd peer, New fd peer ∉ calls) ∧ c2 :: cs `suffix_of` left.
Proof.
  unfold listens, handleRead. intros Ha He. destruct (isETReading (acceptChannel_ a)) as [et ch]. cbn in Ha. subst et.
  cbn [backlog length accept_loop]. unfold sockets_accept. cbn [kernel_accept faults backlog tail].
  rewrite bool_decide_true by (revert He; rewrite !elem_of_cons; tauto). orun.
  destruct (Z.eqb_spec e EMFILE) as [->|Hne].
  - cbn. eexists _, _, _. split_and!; [done| |done]. intros fd peer. set_solver.
  - orun. eexists _, _, _. split_and!; [done| |].
    + intros fd peer. set_solver.
    + destruct (e =? ECONNABORTED); [done|]. by apply suffix_cons_r.
Qed.

(** An error of [accept] that is not expected ends the process: ENFILE, when the
    system has no descriptors left, and the network errors accept(2) says should be
    retried. *)
Theorem unexpected_accept_error_is_fatal cond a cs e fs :
  e ∉ [EAGAIN; ECONNABORTED; EINTR; EPROTO; EPERM; EMFILE] →
  handleRead cond a (mkListen cs (e :: fs)) = Abort LogFatal.
Proof.
  intros He. unfold handleRead. destruct (isETReading (acceptChannel_ a)) as [et ch]. cbn [accept_loop].
  unfold sockets_accept. cbn [kernel_accept faults]. by rewrite bool_decide_false.
Qed.

(** ** Proofs: the server *)

Lemma conn_name_inj i j : zlen ipPort_ ≤ 51 → 0 ≤ i < 2 ^ 31 → 0 ≤ j < 2 ^ 31 → conn_name i = conn_name j → i = j.
Proof.
  intros Hl Hi Hj E. unfold conn_name in E. apply app_inv_head in E.
  assert (∀ k, 0 ≤ k < 2 ^ 31 → zlen (LogStream.decimal k) ≤ 10) as Hd.
  { intros k Hk. unfold LogStream.decimal. rewrite (proj2 (Z.ltb_ge k 0)), length_fmap by lia.
    pose proof (LogStream.length_digits_lt 20 10 (Z.abs k) 9). cbn in *. lia. }
  pose proof (Hd i Hi). pose proof (Hd j Hj).
  assert (∀ k, zlen (LogStream.decimal k) ≤ 10 →
    ztake 63 (str "-" ++ ipPort_ ++ str "#" ++ LogStream.decimal k) = str "-" ++ ipPort_ ++ str "#" ++ LogStream.decimal k) as Hfit.
  { intros k Hk. apply ztake_all. rewrite !length_app. change (length (str "-")) with 1%nat.
    change (length (str "#")) with 1%nat. lia. }
  rewrite !Hfit in E by done. do 3 apply app_inv_head in E. apply (f_equal LogStream.parse_decimal) in E.
  by rewrite !LogStream.parse_decimal_eq in E by lia.
Qed.

(** A connection the server still has. *)
Definition is_kept (ph : phase) : bool := match ph with PNew | PUp | PClosed => true | _ => false end.

Definition loop_of (loops : list Z) (i : nat) : Z :=
  if bool_decide (loops = []) then 0 else nth (i mod length loops) loops 0.

Definition next_of (loops : list Z) (n : nat) : Z :=
  if bool_decide (loops = []) then 0 else Z.of_nat (n mod length loops).

(** Loops are taken from the pool by accepted connections and by others; the numbers of
    those that were taken for the connections, if [n] were taken before. *)
Definition draws (a : action) : nat := match a with AAccept _ | AOther => 1 | _ => 0 end.
Fixpoint turns (n : nat) (l : list action) : list nat :=
  match l with
  | [] => []
  | a :: l => (match a with AAccept _ => [n] | _ => [] end) ++ turns (n + draws a) l
  end.

(** [n] loops were taken, those with the numbers [ts] by this server. *)
Record inv (loops : list Z) (n : nat) (ts : list nat) (s : TcpServer) : Prop := Inv {
  inv_id : nextConnId_ s = 1 + zlen (conns s);
  inv_pool : pool s = mkPool loops (next_of loops n) true;
  inv_conns : ∀ i c, conns s !! i = Some c → c_name c = conn_name (1 + Z.of_nat i);
  inv_loops : c_loop <$> conns s = loop_of loops <$> ts;
  inv_map : ∀ nm i, connections_ s !! nm = Some i ↔
    ∃ c, conns s !! i = Some c ∧ c_name c = nm ∧ is_kept (c_phase c) = true;
}.

Lemma getNextLoop_ok loops n :
  getNextLoop (mkPool loops (next_of loops n) true) = Ret (loop_of loops n, mkPool loops (next_of loops (S n)) true).
Proof.
  unfold getNextLoop, loop_of, next_of. cbn [started_ loops_ next_]. rewrite assert_true by done. orun.
  destruct loops as [|l ls]; [by rewrite !bool_decide_true by done|]. rewrite !bool_decide_false by done.
  set (loops := l :: ls). assert (0 < length loops)%nat as Hl by (cbn; lia).
  pose proof (Nat.mod_upper_bound n (length loops)) as Hb. unfold loop_at. cbn [loops_].
  rewrite in_bounds_true by (rewrite andb_true_iff, Z.leb_le, Z.ltb_lt; lia). orun. rewrite Nat2Z.id.
  do 3 f_equal. rewrite <- Nat.add_1_r, <- Nat.Div0.add_mod_idemp_l.
  destruct (Z.leb_spec (zlen loops) (Z.of_nat (n mod length loops) + 1)).
  - replace (n mod length loops + 1)%nat with (length loops) by lia. by rewrite Nat.Div0.mod_same.
  - rewrite (Nat.mod_small (_ + 1)) by lia. lia.
Qed.

Lemma loops_insert (cs : list Conn) i c ph : cs !! i = Some c →
  c_loop <$> <[i := mkConn (c_name c) (c_fd c) (c_loop c) ph]> cs = c_loop <$> cs.
Proof. intros Hi. rewrite list_fmap_insert. apply list_insert_id. by rewrite list_lookup_fmap, Hi. Qed.

Lemma set_phase_inv loops n ts s i c ph : inv loops n ts s → conns s !! i = Some c → is_kept (c_phase c) = is_kept ph →
  inv loops n ts (set_phase s i c ph).
Proof.
  intros [H1 H2 H3 H3' H4] Hi Hk. assert (i < length (conns s))%nat by (by eapply lookup_lt_Some).
  split; cbn; rewrite ?length_insert; [done|done|..].
  - intros j d [(<- & <- & _)|[_ Hd]]%list_lookup_insert_Some; [by apply (H3 i c)|by apply H3].
  - by rewrite loops_insert.
  - intros nm j. rewrite H4. destruct (decide (i = j)) as [<-|Hne].
    + rewrite list_lookup_insert_eq, Hi by done. split; intros (d & [= <-] & Hn & Hd); eexists; split_and!; try done; cbn in *; congruence.
    + by rewrite list_lookup_insert_ne by done.
Qed.

Lemma newConnection_inv loops n ts s fd : zlen ipPort_ ≤ 51 → zlen (conns s) < 2 ^ 31 - 2 → inv loops n ts s →
  ∃ s', newConnection s fd = Ret s' ∧ inv loops (S n) (ts ++ [n]) s'.
Proof.
  intros Hip Hn [H1 H2 H3 H3' H4]. unfold newConnection. rewrite H2, getNextLoop_ok. orun.
  rewrite ints_ok by (repeat constructor; lia). orun. eexists. split; [done|].
  assert (∀ i c, conns s !! i = Some c → c_name c ≠ conn_name (nextConnId_ s)) as Hfresh.
  { intros i c Hi E. rewrite (H3 i c Hi) in E. apply lookup_lt_Some in Hi.
    apply conn_name_inj in E; [lia|done|lia|lia]. }
  split; cbn.
  - rewrite length_app. cbn. lia.
  - done.
  - intros i c [Hi|[Hi Hc]]%lookup_app_Some; [by apply H3|]. apply list_lookup_singleton_Some in Hc as [Hz <-]. cbn.
    assert (i = length (conns s)) as -> by lia. f_equal. lia.
  - by rewrite !fmap_app, H3'.
  - intros nm i. destruct (decide (nm = conn_name (nextConnId_ s))) as [->|Hne].
    + rewrite lookup_insert_eq. split.
      * intros [= <-]. eexists. split_and!; [by apply list_lookup_middle|done..].
      * intros (c & [Hi|[Hi Hc]]%lookup_app_Some & Hnm & _); [by destruct (Hfresh i c)|].
        apply list_lookup_singleton_Some in Hc as [Hz _]. f_equal. lia.
    + rewrite lookup_insert_ne by done. rewrite H4. split.
      * intros (c & Hi & ? & ?). exists c. split_and!; try done. by apply lookup_app_l_Some.
      * intros (c & [Hi|[Hi Hc]]%lookup_app_Some & Hnm & Hk); [by exists c|].
        apply list_lookup_singleton_Some in Hc as [_ <-]. done.
Qed.

Lemma removeConnectionInLoop_inv loops n ts s i c : zlen ipPort_ ≤ 51 → zlen (conns s) < 2 ^ 31 - 2 →
  inv loops n ts s → conns s !! i = Some c → is_kept (c_phase c) = true →
  ∃ s', removeConnectionInLoop s i c = Ret s' ∧ inv loops n ts s'.
Proof.
  intros Hip Hn [H1 H2 H3 H3' H4] Hi Hk. assert (connections_ s !! c_name c = Some i) as Hm by (apply H4; by exists c).
  unfold removeConnectionInLoop. rewrite Hm, assert_true by (by apply bool_decide_eq_true_2). orun. eexists. split; [done|].
  assert (i < length (conns s))%nat as Hlt by (by eapply lookup_lt_Some).
  split; cbn; rewrite ?length_insert; [done|done|..].
  - intros j d [(<- & <- & _)|[_ Hd]]%list_lookup_insert_Some; [by apply (H3 i c)|by apply H3].
  - by rewrite loops_insert.
  - intros nm j. destruct (decide (nm = c_name c)) as [->|Hne].
    + rewrite lookup_delete_eq. split; [done|]. intros (d & [(<- & <- & _)|[Hij Hd]]%list_lookup_insert_Some & Hnm & Hkd); [done|].
      destruct Hij. rewrite (H3 i c Hi), (H3 j d Hd) in Hnm. apply lookup_lt_Some in Hd.
      apply conn_name_inj in Hnm; lia.
    + rewrite lookup_delete_ne by done. rewrite H4. split.
      * intros (d & Hd & Hnm & ?). exists d. split_and!; try done. rewrite list_lookup_insert_ne; [done|]. intros <-. congruence.
      * intros (d & [(<- & <- & _)|[Hij Hd]]%list_lookup_insert_Some & Hnm & Hkd); [done|by exists d].
Qed.

Lemma server_act_inv loops n ts s a r : zlen ipPort_ ≤ 51 → zlen (conns s) < 2 ^ 31 - 2 → inv loops n ts s →
  act s a = Some r → ∃ s', r = Ret s' ∧ inv loops (n + draws a) (ts ++ turns n [a]) s'.
Proof.
  intros Hip Hn Hi Ha. destruct a as [fd| |i|i|i|i]; cbn in Ha |- *; rewrite ?app_nil_r, ?Nat.add_0_r, ?Nat.add_1_r.
  { simplify_eq. by apply newConnection_inv. }
  { injection Ha as <-. destruct Hi as [H1 H2 H3 H3' H4]. unfold other_draws. rewrite H2, getNextLoop_ok. orun.
    eexists. split; [done|]. by split. }
  all: apply bind_Some in Ha as (c & Hc & Ha); destruct (c_phase c) eqn:Hp; simplify_eq.
  3: by apply removeConnectionInLoop_inv; rewrite ?Hp.
  all: eexists; (split; [done|]); apply set_phase_inv; by rewrite ?Hp.
Qed.

Lemma act_length s a s' : act s a = Some (Ret s') → (length (conns s) ≤ length (conns s'))%nat.
Proof.
  destruct a as [fd| |i|i|i|i]; cbn; intros Ha.
  { injection Ha as Ha. unfold newConnection in Ha. apply bind_ret_inv in Ha as ([l p] & _ & Ha).
    apply bind_ret_inv in Ha as (? & _ & [= <-]). cbn. rewrite length_app. lia. }
  { injection Ha as Ha. unfold other_draws in Ha. by apply bind_ret_inv in Ha as ([l p] & _ & [= <-]). }
  all: apply bind_Some in Ha as (c & Hc & Ha); destruct (c_phase c); try done; injection Ha as Ha; unfold removeConnectionInLoop in Ha.
  all: try (apply bind_ret_inv in Ha as (? & _ & Ha); injection Ha as Ha).
  all: subst; cbn; by rewrite length_insert.
Qed.

Definition total_draws (l : list action) : nat := sum_list_with draws l.

Lemma turns_app n l1 l2 : turns n (l1 ++ l2) = turns n l1 ++ turns (n + total_draws l1) l2.
Proof.
  revert n. induction l1 as [|a l1 IH]; intros n; cbn; [by rewrite Nat.add_0_r|].
  rewrite IH, app_assoc. by rewrite Nat.add_assoc.
Qed.

Lemma runs_inv loops l s : zlen ipPort_ ≤ 51 → runs_to (TcpServer_ctor (mkPool loops 0 true)) l s →
  zlen (conns s) < 2 ^ 31 - 2 → inv loops (total_draws l) (turns 0 l) s.
Proof.
  intros Hip Hr. remember (TcpServer_ctor _) as s0 eqn:E. induction Hr as [s|s l s1 a s2 Hr IH Ha]; intros Hn.
  - subst. split; cbn; [done| |done|done|]; [unfold next_of; case_bool_decide; by rewrite ?Nat.Div0.mod_0_l|]. intros nm i. rewrite lookup_empty, lookup_nil.
    split; [done|]. by intros (? & ? & _).
  - pose proof (act_length s1 a s2 Ha).
    destruct (server_act_inv loops (total_draws l) (turns 0 l) s1 a (Ret s2)) as (s' & [= <-] & Hi); [done|lia|apply IH; [done|lia]|done|].
    rewrite turns_app. unfold total_draws in *. rewrite sum_list_with_app. cbn. by rewrite Nat.add_0_r.
Qed.


(** Running a list of actions. *)
Fixpoint run (s : TcpServer) (l : list action) : option TcpServer :=
  match l with
  | [] => Some s
  | a :: l => match act s a with Some (Ret s') => run s' l | _ => None end
  end.

Lemma run_runs l s0 l0 s s' : runs_to s0 l0 s → run s l = Some s' → runs_to s0 (l0 ++ l) s'.
Proof.
  revert l0 s. induction l as [|a l IH]; cbn; intros l0 s Hr Hs; [simplify_eq; by rewrite app_nil_r|].
  destruct (act s a) as [[s1|]|] eqn:Ha; try done. rewrite cons_middle, app_assoc. apply (IH _ s1); [|done].
  by eapply runs_snoc.
Qed.

End server.

(** ** Examples *)

Definition sample_actions : list action :=
  [AAccept 7; AOther; AAccept 8; AEstablish 1; AEstablish 0; AClose 1; AAccept 9; ARemove 1; ADestroy 1].

Definition sample_server : TcpServer :=
  default (TcpServer_ctor Pool_ctor)
    (run (str "echo") (str "0.0.0.0:80") (TcpServer_ctor (mkPool [1; 2] 0 true)) sample_actions).


Definition sample_acceptor (et : bool) : Acceptor := mkAcceptor (set_events (Channel_ctor 100 5) (readEvent et)) true.

Lemma acceptor_serves_witness :
  ∃ a', serve_level (λ peer, negb (peer =? 66)) 4 (sample_acceptor false) (mkListen [(7, 1); (8, 66); (9, 2)] []) =
      Ret ([New 7 1; Refuse 8; New 9 2], a', mkListen [] []) ∧ listens a' false.
Proof.
  apply (acceptor_serves (λ peer, negb (peer =? 66)) (sample_acceptor false) false (mkListen [(7, 1); (8, 66); (9, 2)] [])).
  - vm_compute. reflexivity.
  - reflexivity.
Defined.

Lemma et_fault_strands_connections_witness :
  ∃ calls a' left, handleRead (λ _, true) (sample_acceptor true) (mkListen [(7, 1); (8, 2); (9, 3)] [EINTR]) =
      Ret (calls, a', mkListen left []) ∧ (∀ fd peer, New fd peer ∉ calls) ∧ [(8, 2); (9, 3)] `suffix_of` left.
Proof.
  apply et_fault_strands_connections.
  - vm_compute. reflexivity.
  - apply (bool_decide_unpack (EINTR ∈ [EINTR; ECONNABORTED; EPROTO; EPERM; EMFILE])). vm_compute. exact I.
Defined.

Lemma unexpected_accept_error_is_fatal_witness :
  handleRead (λ _, true) (sample_acceptor false) (mkListen [(7, 1)] [ENFILE]) = Abort LogFatal.
Proof.
  apply unexpected_accept_error_is_fatal.
  apply (bool_decide_unpack (ENFILE ∉ [EAGAIN; ECONNABORTED; EINTR; EPROTO; EPERM; EMFILE])). vm_compute. exact I.
Defined.

End TcpServer.
