(* ===== verification/WsServer.v ===== *)
(** * WsServer: WebSocket connections over TCP connections
    (src/muduo-vip/muduo/net/libwebsocket/server.cc, context.{h,cc}, the connection
    callback of src/demo/echo.cc)

    A connection of a WebSocket server is a TCP connection and the [Context] that
    [hook] gives it; [calls] is the history of what the protocol code called on the
    context.  The user's part is [reply], the messages his callback sends for a
    message, and [cb], what it does to the message buffer; the connection callback is
    that of EchoServer, which hooks the context of a new connection and resets
    that of a closed one.

    What the protocol code calls while it parses is executed after it, in the same
    order: the calls act on the output side of the connection, the parser on the
    input buffer and the context.  The exception is a call that closes the connection,
    since the connection callback then deletes the context under the parser. *)

From S2P Require Import Prelude BytesBuffer Buffer Frame Context Parser ParserSafety Receiver Stream Delivery.
From S2P Require Import Pack Http Handshake Lifecycle SocketIO Channel TcpConnection TcpStream TcpFaults.
Import Buffer SocketIO Channel TcpConnection.

Module WsServer.

Record WsConn (OS : Type) : Type := mkWs {
  conn : Conn OS;
  wsContext_ : option (Context_ Buffer Http.HttpContext);
  calls : list Context.event;
}.
Arguments mkWs {_}.
Arguments conn {_}.
Arguments wsContext_ {_}.
Arguments calls {_}.

(** The socket reads need room beyond the bytes to come. *)
#[local] Instance ws_laws : BytesBufferLaws Buffer := reserve_laws Buffer_laws 4096 ltac:(lia).

Section server.
Context {OS : Type} `{!Kernel OS} `{!OpenSSL OS}.
Implicit Types (c : Conn OS) (s : WsConn OS) (w : World Buffer Http.HttpContext).
Variables (ndebug enable_et_ has_writeComplete has_highWaterMark : bool) (highWaterMark_ : Z).
Variables (SHA1 : bytes → bytes) (boost : boost_string) (debug : bool) (cb : ICallback Buffer) (now : Z).
Variable reply : bytes → Z → list bytes.

Notation send' := (send ndebug enable_et_ has_writeComplete has_highWaterMark highWaterMark_ Ret).
Notation sendInLoop' := (sendInLoop ndebug enable_et_ has_writeComplete has_highWaterMark highWaterMark_ Ret).
Notation send_buffer' := (send_buffer ndebug enable_et_ has_writeComplete has_highWaterMark highWaterMark_ Ret).

Definition with_conn s c : WsConn OS := mkWs c (wsContext_ s) (calls s).

(** ** server.cc *)

(** [hook]: a new [Context] with the HTTP context and the two buffers of
    [websocket::create]. *)
Definition hook s : outcome (WsConn OS) :=
  b ← Buffer_ctor kInitialSize;
  c ← Buffer_ctor kInitialSize;
  context ← create true (Some Http.HttpContext_ctor) (Some b) (Some c);
  Ret (mkWs (conn s) (Some context) (calls s)).

Definition reset s : WsConn OS := mkWs (conn s) None (calls s).

(** EchoServer::onConnection. *)
Definition onConnection s : outcome (WsConn OS) :=
  if connected (conn s) then hook s else Ret (reset s).

(** The connection callback, when the call before it has closed the connection. *)
Definition settle s : WsConn OS := if disconnected (conn s) then reset s else s.

Definition ws_send c (data : bytes) : outcome (Conn OS) :=
  rspdata ← Buffer_ctor kInitialSize;
  rspdata ← pack_unmask_data_frame debug rspdata (Some data) (zlen data) false false;
  '(c, _) ← send_buffer' c true rspdata;
  Ret c.

Definition onClosed c (buf : bytes) : outcome (Conn OS) :=
  rspdata ← Buffer_ctor kInitialSize;
  rspdata ← pack_unmask_close_frame debug rspdata (Some buf) (zlen buf);
  '(c, _) ← send_buffer' c true rspdata;
  Ret c.

(** ** context.cc: what the protocol code calls *)

Fixpoint ws_sends c (ms : list bytes) : outcome (Conn OS) :=
  match ms with
  | [] => Ret c
  | m :: ms => c ← ws_send c m; ws_sends c ms
  end.

Definition do_call c (e : Context.event) : outcome (Conn OS) :=
  match e with
  | Context.EvSend data => send' c true data
  | Context.EvConnected _ => Ret c
  | Context.EvMessage buf msgType _ => ws_sends c (reply buf msgType)
  | Context.EvClosed buf _ => onClosed c buf
  | Context.EvForceClose => forceClose c
  | Context.EvShutdown => shutdown c true
  end.

(** The parser goes on after every call, with the context. *)
Fixpoint do_calls c (l : list Context.event) : outcome (Conn OS) :=
  match l with
  | [] => Ret c
  | e :: l =>
      c ← do_call c e;
      if disconnected c then Abort UseAfterFree else do_calls c l
  end.

Definition onMessage s (receiveTime : Z) : outcome (WsConn OS) :=
  match wsContext_ s with
  | None => Abort AssertFailed
  | Some context =>
      '(_, w) ← parse_message_frame SHA1 boost debug cb receiveTime now
                  (mkWorld context (inputBuffer_ (conn s)) (calls s));
      c ← do_calls (set_input (conn s) (w_buf w)) (drop (length (calls s)) (w_log w));
      Ret (mkWs c (Some (w_ctx w)) (w_log w))
  end.

(** [TcpConnection::handleRead] of a plain connection, with [onMessage] as its
    message callback. *)
Definition ws_handleRead s (receiveTime : Z) : outcome (WsConn OS) :=
  let c := conn s in
  '(n, saved, e, b, k) ← readFull (os_ c) (inputBuffer_ c) (errno c);
  let c := set_os (set_errno (set_input c b) e) k in
  s ← (if 0 <? n then
         let c := if (errno c =? EAGAIN) || (errno c =? EINTR) then set_errno c 0 else c in
         onMessage (with_conn s (record_event c EvMessage)) receiveTime
       else Ret (with_conn s c));
  c ← after_plain_read ndebug enable_et_ Ret (conn s) saved;
  Ret (settle (with_conn s c)).

(** Reports of epoll that there is something to read, at the given times; it reports
    only channels that are registered with it. *)
Fixpoint ws_reads s (times : list Z) : outcome (WsConn OS) :=
  match times with
  | [] => Ret s
  | t :: times => 
      if index_ (channel_ (conn s)) =? kAdded then s ← ws_handleRead s t; ws_reads s times
      else ws_reads s times
  end.

(** A connection from its establishment on. *)
Definition ws_run c (times : list Z) : outcome (WsConn OS) :=
  c ← connectEstablished ndebug enable_et_ Ret c;
  s ← onConnection (mkWs c None []);
  ws_reads s times.

(** ** What a call leaves alone *)

Context `{!KernelLaws OS}.

(** From [c] to [c'] the messages [out] were accepted for sending; the input side is
    as before, unless the connection was closed. *)
Record keeps (out : list bytes) c c' : Prop := Keeps {
  k_rx : rx (os_ c') = rx (os_ c);
  k_sends : sends (log c') = sends (log c) ++ out;
  k_state : state_ c' = state_ c ∧ inputBuffer_ c' = inputBuffer_ c ∨ state_ c' = kDisconnected;
}.

Lemma keeps_refl c : keeps [] c c.
Proof. split; [done|by rewrite app_nil_r|by left]. Qed.

Lemma keeps_trans o1 o2 c1 c2 c3 : keeps o1 c1 c2 → keeps o2 c2 c3 → keeps (o1 ++ o2) c1 c3.
Proof.
  intros [H1 H2 H3] [H4 H5 H6]. split; [congruence|by rewrite H5, H2, app_assoc|].
  destruct H6 as [[H6 H7]|?]; [|by right]. destruct H3 as [[? ?]|?]; [left|right]; intuition congruence.
Qed.

(** A step that changes none of the fields above. *)
Lemma keeps_fields c c' : rx (os_ c') = rx (os_ c) → log c' = log c → state_ c' = state_ c →
  inputBuffer_ c' = inputBuffer_ c → keeps [] c c'.
Proof. intros ? H ? ?. split; [done|by rewrite H, app_nil_r|by left]. Qed.

Lemma on_channel_keeps c f c' : on_channel c f = Ret c' → keeps [] c c'.
Proof. unfold on_channel. intros (x & _ & [= <-])%bind_ret_inv. by apply keeps_fields. Qed.

Lemma handleClose_keeps c c' : ssl_ c = false → handleClose ndebug Ret c = Ret c' → keeps [] c c'.
Proof.
  intros Hs. unfold handleClose, SSL_free. rewrite Hs.
  intros (u & _ & (c1 & H1 & (c2 & [= <-] & H2)%bind_ret_inv)%bind_ret_inv)%bind_ret_inv.
  unfold on_channel in H1. apply bind_ret_inv in H1 as (x & _ & [= <-]).
  unfold removeConnection in H2. apply bind_ret_inv in H2 as (u' & _ & [= <-]).
  split; cbn; [done| |by right]. unfold sends. by rewrite omap_log_app.
Qed.

Lemma after_plain_write_keeps c saved c' : ssl_ c = false →
  after_plain_write ndebug Ret c saved Ret = Ret c' → keeps [] c c'.
Proof.
  intros Hs. unfold after_plain_write.
  repeat case_match; intros Hr; first [by apply handleClose_keeps|injection Hr as <-; by apply keeps_fields].
Qed.

Lemma after_plain_read_keeps c saved c' : ssl_ c = false →
  after_plain_read ndebug enable_et_ Ret c saved = Ret c' → keeps [] c c'.
Proof.
  intros Hs. unfold after_plain_read.
  repeat case_match; intros Hr; try (by apply handleClose_keeps); [|by injection Hr as <-; apply keeps_fields].
  apply on_channel_keeps in Hr. eapply (keeps_trans []); [|exact Hr]. by apply keeps_fields.
Qed.

Lemma send_directly_keeps c data n r f c' : ssl_ c = false → zlen data < 2 ^ 63 →
  send_directly ndebug has_writeComplete Ret c data = Ret (n, r, f, c') → keeps [] c c'.
Proof using KernelLaws0.
  intros Hs Hl. unfold send_directly, write_out. rewrite Hs.
  destruct (writeFull_ok (λ _ _, True) (os_ c) data 0 (errno c)) as (k & sv & e & os' & -> & _ & _ & Hx & _); [done..|].
  orun. set (c0 := if (_ : bool) then queueInLoop (_ : Conn OS) FWriteComplete else _).
  assert (ssl_ c0 = false ∧ keeps [] c c0) as [Hs0 Hk0] by (unfold c0; case_match; split; try done; by apply keeps_fields).
  rewrite Hs0. intros (c1 & H1 & [= _ _ _ <-])%bind_ret_inv.
  eapply (keeps_trans []); [exact Hk0|]. by eapply after_plain_write_keeps.
Qed.

Lemma sendInLoop_keeps c data c' : ssl_ c = false → zlen data < 2 ^ 63 → state_ c ≠ kDisconnected →
  sendInLoop' c data = Ret c' → keeps [data] c c'.
Proof using KernelLaws0.
  intros Hs Hl Hst. unfold sendInLoop. rewrite is_state_ne by done.
  intros ([[[n r] f] c1] & H1 & (u & _ & H2)%bind_ret_inv)%bind_ret_inv.
  assert (keeps [data] c c1) as Hk1.
  { assert (keeps [data] c (record_event c (EvSend data))) as H0.
    { split; cbn; [done|unfold sends; by rewrite omap_log_app|by left]. }
    eapply (keeps_trans [data] []); [exact H0|].
    destruct (negb _ && _) in H1; [|injection H1 as _ _ _ <-; apply keeps_refl].
    eapply send_directly_keeps; [|done|exact H1]. done. }
  eapply (keeps_trans [data] []); [exact Hk1|]. case_match; [|injection H2 as <-; apply keeps_refl].
  set (c2 := if (_ : bool) then queueInLoop c1 _ else c1) in H2.
  assert (keeps [] c1 c2) as Hk2 by (unfold c2; destruct (_ && has_highWaterMark); by apply keeps_fields).
  apply bind_ret_inv in H2 as (o & _ & H2). eapply (keeps_trans []); [exact Hk2|].
  case_match; [apply on_channel_keeps in H2|injection H2 as <-]; [|by apply keeps_fields].
  eapply (keeps_trans []); [|exact H2]. by apply keeps_fields.
Qed.

(** ** The calls of the protocol code *)

(** The bytes handed to the connection: a message in one frame, and what a call of the
    protocol code comes to. *)
Definition message_frame (m : bytes) : bytes := swire (fragments BinaryMessage false m).

Definition out_of (e : Context.event) : list bytes :=
  match e with
  | Context.EvSend data => [data]
  | Context.EvMessage buf msgType _ => message_frame <$> reply buf msgType
  | _ => []
  end.
Definition outputs (l : list Context.event) : list bytes := l ≫= out_of.

(** The calls on a connection that is not being closed. *)
Definition call_ok (e : Context.event) : Prop :=
  match e with
  | Context.EvSend data => data ≠ [] ∧ Forall_byte data
  | Context.EvConnected _ | Context.EvMessage _ _ _ => True
  | _ => False
  end.

Hypothesis reply_ok : ∀ buf msgType, Forall (λ m, Forall_byte m ∧ zlen m ≤ 65535) (reply buf msgType).
Hypothesis writes_retry : write_failures (λ rc e, rc < 0 ∧ (e = EAGAIN ∨ e = EINTR)).
Hypothesis reads_retry : read_failures (λ e, e = EAGAIN ∨ e = EINTR).
Variable t0 : bytes.

(** From an open connection [m] gets to an open connection, and [out] is sent. *)
Definition goes r0 B c ds (m : outcome (Conn OS)) (out : list bytes) : Prop :=
  ∃ c' ds', m = Ret c' ∧ opened false t0 r0 (B - zlen (concat out)) [] c' (ds ++ ds') ∧ keeps out c c' ∧
    state_ c' = kConnected.

Lemma goes_ret r0 B c ds : opened false t0 r0 B [] c ds → state_ c = kConnected → goes r0 B c ds (Ret c) [].
Proof.
  intros Ho Hs. exists c, []. split_and!; [done| |apply keeps_refl|done].
  cbn. by rewrite app_nil_r, Z.sub_0_r.
Qed.

Lemma goes_bind r0 B c ds m k o1 o2 : goes r0 B c ds m o1 →
  (∀ c' ds', opened false t0 r0 (B - zlen (concat o1)) [] c' ds' → state_ c' = kConnected →
    goes r0 (B - zlen (concat o1)) c' ds' (k c') o2) →
  goes r0 B c ds (m ≫= k) (o1 ++ o2).
Proof.
  intros (c1 & d1 & -> & Ho & Hk & Hs) H. destruct (H c1 _ Ho Hs) as (c2 & d2 & Hc2 & Ho2 & Hk2 & Hs2).
  exists c2, (d1 ++ d2). orun. split_and!; [done| |by eapply keeps_trans|done].
  rewrite concat_app, length_app, Nat2Z.inj_add, Z.sub_add_distr, app_assoc. done.
Qed.

(** The connection has not been closed, so what it keeps is its state. *)
Lemma send_goes r0 B c ds data : opened false t0 r0 B [] c ds → state_ c = kConnected →
  data ≠ [] → Forall_byte data → zlen data ≤ B → goes r0 B c ds (sendInLoop' c data) [data].
Proof using writes_retry KernelLaws0.
  intros Ho Hs Hne Hby HB. pose proof (len_budget _ _ _ _ _ _ _ _ Ho HB) as Hl.
  destruct (sendInLoop_opened ndebug enable_et_ has_writeComplete has_highWaterMark highWaterMark_ Ret
    false t0 r0 writes_retry B [] c ds data) as (c' & d' & Hc & Ho' & _); [done..|].
  assert (keeps [data] c c') as Hk.
  { apply sendInLoop_keeps; [apply Ho|done|by rewrite Hs|done]. }
  exists c', [d']. cbn [concat app]. rewrite app_nil_r. split_and!; [done..|].
  destruct (k_state _ _ _ Hk) as [[-> _]|E]; [done|]. destruct (o_state _ _ _ _ _ _ _ Ho'); congruence.
Qed.

Lemma message_frame_ok m : zlen m ≤ 65535 → message_frame m ≠ [] ∧ zlen (message_frame m) ≤ 65545.
Proof.
  intros Hm. unfold message_frame, fragments. cbn [andb]. unfold swire. cbn [fmap list_fmap concat]. rewrite app_nil_r.
  pose proof (length_sencode (mkSframe FrameFinished BinaryMessage m)) as Hl. cbn [sf_payload] in Hl.
  assert (zlen (len_ext (zlen m)) ≤ 8) by (unfold len_ext; repeat case_match; cbn; lia).
  split; [done|lia].
Qed.

Lemma ws_pack m : Forall_byte m → zlen m ≤ 65535 →
  ∃ b b', Buffer_ctor kInitialSize = Ret b ∧
    pack_unmask_data_frame debug b (Some m) (zlen m) false false = Ret b' ∧
    readable b' = message_frame m ∧ Forall_byte (message_frame m).
Proof.
  intros Hm Hl. destruct (message_frame_ok m Hl) as [Hne Hfl].
  destruct (Buffer_ctor_ok kInitialSize) as (b & -> & [Hb Hv Hr] & _); [by vm_compute|].
  destruct (pack_unmask_data_frame_runs debug b m false false) as (b' & Hp & [Hb' Hv' Hr']); [done|done|by right| |].
  { etrans; [exact Hfl|]. cbn. unfold kMaxSize, kCheapPrepend in *. lia. }
  assert (readable b' = message_frame m) as Hw by (cbn in Hv'; by rewrite Hv in Hv').
  exists b, b'. split_and!; try done. rewrite <- Hw. by apply readable_bytes.
Qed.

Lemma ws_send_goes r0 B c ds m : opened false t0 r0 B [] c ds → state_ c = kConnected →
  Forall_byte m → zlen m ≤ 65535 → zlen (message_frame m) ≤ B →
  goes r0 B c ds (ws_send c m) [message_frame m].
Proof using writes_retry KernelLaws0.
  intros Ho Hs Hm Hl HB. destruct (ws_pack m Hm Hl) as (b & b' & Hb & Hp & Hw & Hby). unfold ws_send.
  rewrite Hb. orun. rewrite Hp. orun. unfold send_buffer. rewrite Hs, is_state_refl, Hw, !bind_assoc.
  destruct (send_goes r0 B c ds (message_frame m)) as (c' & ds' & -> & Hgo); try done.
  orun. by exists c', ds'.
Qed.

Lemma ws_sends_goes r0 B c ds ms : opened false t0 r0 B [] c ds → state_ c = kConnected →
  Forall (λ m, Forall_byte m ∧ zlen m ≤ 65535) ms → zlen (concat (message_frame <$> ms)) ≤ B →
  goes r0 B c ds (ws_sends c ms) (message_frame <$> ms).
Proof using writes_retry KernelLaws0.
  revert B c ds. induction ms as [|m ms IH]; intros B c ds Ho Hs Hms HB; [by apply goes_ret|].
  apply Forall_cons in Hms as [[Hm Hl] Hms]. cbn [fmap list_fmap concat ws_sends] in *. rewrite length_app in HB.
  apply (goes_bind _ _ _ _ _ _ [_]).
  - apply ws_send_goes; try done. lia.
  - intros c' ds' Ho' Hs'. apply IH; try done. cbn [concat]. rewrite app_nil_r. lia.
Qed.

Lemma do_call_goes r0 B c ds e : opened false t0 r0 B [] c ds → state_ c = kConnected → call_ok e →
  zlen (concat (out_of e)) ≤ B → goes r0 B c ds (do_call c e) (out_of e).
Proof using reply_ok writes_retry KernelLaws0.
  intros Ho Hs Hok HB. destruct e as [d|ip|p t r|p r| |]; try done; cbn [do_call out_of] in *.
  - destruct Hok as [Hne Hby]. cbn in HB. rewrite app_nil_r in HB. unfold send. rewrite Hs, is_state_refl.
    by apply send_goes.
  - by apply goes_ret.
  - by apply ws_sends_goes.
Qed.

Lemma do_calls_goes r0 B c ds l : opened false t0 r0 B [] c ds → state_ c = kConnected → Forall call_ok l →
  zlen (concat (outputs l)) ≤ B → goes r0 B c ds (do_calls c l) (outputs l).
Proof using reply_ok writes_retry KernelLaws0.
  revert B c ds. induction l as [|e l IH]; intros B c ds Ho Hs Hl HB; [by apply goes_ret|].
  apply Forall_cons in Hl as [He Hl]. unfold outputs in *. cbn [mbind list_bind do_calls] in *.
  rewrite concat_app, length_app in HB. apply goes_bind.
  - apply do_call_goes; try done. lia.
  - intros c' ds' Ho' Hs'. unfold disconnected. rewrite Hs'. cbn. apply IH; try done. lia.
Qed.

(** ** Messages *)

Lemma input_replaced stops r0 B fs c ds b : opened stops t0 r0 B fs c ds → wf b → zlen (rx (os_ c)) + 4096 ≤ room_of b →
  opened stops t0 (concat (retrieves (log c)) ++ readable b ++ rx (os_ c)) B fs (set_input c b) ds.
Proof. intros [[] Hs Hi Hw He Hm Hq Hst] Hb Hr. split; cbn; try done. Qed.

(** The protocol's view of a connection: the context, the input and the history. *)
Definition world_of (context : Context_ Buffer Http.HttpContext) s : World Buffer Http.HttpContext :=
  mkWorld context (inputBuffer_ (conn s)) (calls s).

(** What the frames [fs] still ask for. *)
Definition left_out (st : rx_state) (fs : list cframe) : list bytes :=
  match rx_run code_unmask st fs with Some (_, evs) => outputs evs | None => [] end.

(** An open connection between two reads: [P] is what the client sends; everything the
    protocol code called for has been handed to the connection. *)
Record serving (P : plan) s : Prop := Serving {
  sv_conn : ∃ r0 B ds context p st fs,
    opened false t0 r0 B [] (conn s) ds ∧ wsContext_ s = Some context ∧
    stream_at debug P p st fs (rx (os_ (conn s))) (world_of context s) ∧ pos_ok p ∧
    zlen (readable (inputBuffer_ (conn s))) < need p ∧ zlen (concat (left_out st (cur p ++ fs))) ≤ B;
  sv_state : state_ (conn s) = kConnected;
  sv_sent : sends (log (conn s)) = outputs (calls s);
}.

Lemma outputs_untimed l : outputs (untimed <$> l) = outputs l.
Proof. induction l as [|e l IH]; [done|]. unfold outputs in *. cbn. rewrite IH. by destruct e. Qed.

Lemma outputs_app l1 l2 : outputs (l1 ++ l2) = outputs l1 ++ outputs l2.
Proof. apply bind_app. Qed.

Lemma rx_run_app unmask st fs1 fs2 st1 evs1 st2 evs2 :
  rx_run unmask st fs1 = Some (st1, evs1) → rx_run unmask st1 fs2 = Some (st2, evs2) →
  rx_run unmask st (fs1 ++ fs2) = Some (st2, evs1 ++ evs2).
Proof.
  revert st evs1. induction fs1 as [|f fs1 IH]; intros st evs1 H1 H2; cbn in *.
  - by injection H1 as -> <-.
  - destruct (rx_step unmask st f) as [[st' e]|]; cbn in *; [|done].
    destruct (rx_run unmask st' fs1) as [[st'' e']|] eqn:E; cbn in *; [|done]. injection H1 as -> <-.
    rewrite (IH st' e' E H2). cbn. by rewrite app_assoc.
Qed.

(** Without close frames the protocol code only delivers messages. *)
Lemma rx_run_calls unmask st fs st' evs : Forall (λ f, cf_op f ≠ CloseMessage) fs →
  rx_run unmask st fs = Some (st', evs) → Forall call_ok evs.
Proof.
  intros Hfs. revert st evs. induction Hfs as [|f fs Hf _ IH]; intros st evs; cbn.
  { by intros [= <- <-]. }
  destruct (rx_step unmask st f) as [[st1 e1]|] eqn:Hs; cbn; [|done].
  destruct (rx_run unmask st1 fs) as [[st2 e2]|] eqn:Hr; cbn; [|done].
  intros [= -> <-]. apply Forall_app. split; [|by eapply IH].
  unfold rx_step, deliver in Hs. destruct (cf_op f), st as [[t acc]|], (cf_fin f); simplify_eq; by repeat constructor.
Qed.

Lemma call_ok_untimed l : Forall call_ok (untimed <$> l) → Forall call_ok l.
Proof. rewrite Forall_fmap. intros H. eapply Forall_impl; [exact H|]. by intros []. Qed.

(** The same position, seen as the start of a plan of its own. *)
Lemma stream_rebase P p st fs fut w : stream_at debug P p st fs fut w →
  stream_at debug (mkPlan st (cur p ++ fs) (untimed <$> w_log w)) p st fs fut w.
Proof.
  intros [Hc Hf Hb (dn & evs & _ & _ & _ & Hr)]. split; try done.
  exists [], []. split_and!; [done..|by rewrite app_nil_r|done].
Qed.

Lemma stream_unbase P p st fs fut w p1 st1 fs1 w1 : stream_at debug P p st fs fut w →
  stream_at debug (mkPlan st (cur p ++ fs) (untimed <$> w_log w)) p1 st1 fs1 fut w1 →
  stream_at debug P p1 st1 fs1 fut w1.
Proof.
  intros [_ _ _ (dn & evs & H1 & H2 & H3 & _)] [Hc Hf Hb (dn1 & evs1 & H4 & H5 & H6 & H7)].
  cbn in H4, H5, H6. split; try done. exists (dn ++ dn1), (evs ++ evs1).
  split_and!; [by rewrite <- app_assoc, <- H4|by eapply rx_run_app| |done].
  by rewrite H6, H3, app_assoc.
Qed.

(** What a stretch of frames adds to the history and takes from the debt. *)
Lemma stream_delivers P p st fs fut w p1 st1 fs1 w1 : stream_at debug P p st fs fut w →
  stream_at debug (mkPlan st (cur p ++ fs) (untimed <$> w_log w)) p1 st1 fs1 fut w1 →
  Forall (λ f, cf_op f ≠ CloseMessage) (pl_frames P) →
  let new := drop (length (w_log w)) (w_log w1) in
  Forall call_ok new ∧ outputs (w_log w1) = outputs (w_log w) ++ outputs new ∧
  left_out st (cur p ++ fs) = outputs new ++ left_out st1 (cur p1 ++ fs1).
Proof.
  intros [_ _ _ (dn & evs & H1 & _)] [_ _ _ (dn1 & evs1 & H4 & H5 & H6 & [[st2 evs2] H7])] Hcl. cbn in H4, H5, H6.
  assert (untimed <$> drop (length (w_log w)) (w_log w1) = evs1) as Hn.
  { rewrite fmap_drop, H6, drop_app_length' by by rewrite length_fmap. done. }
  split_and!.
  - apply call_ok_untimed. rewrite Hn. eapply rx_run_calls; [|exact H5].
    rewrite H1, H4, !Forall_app in Hcl. apply Hcl.
  - rewrite <- (outputs_untimed (drop _ _)), Hn, <- (outputs_untimed (w_log w1)), H6, outputs_app.
    by rewrite outputs_untimed.
  - unfold left_out. rewrite H4, (rx_run_app _ _ _ _ _ _ _ _ H5 H7), H7, outputs_app.
    by rewrite <- (outputs_untimed (drop _ _)), Hn.
Qed.

Context (Hcb : callback_ok cb).

Lemma onMessage_serves P s r0 B ds context p st fs t :
  Forall (λ f, cf_op f ≠ CloseMessage) (pl_frames P) → Context.EvForceClose ∉ pl_log P →
  opened false t0 r0 B [] (conn s) ds → state_ (conn s) = kConnected → wsContext_ s = Some context →
  stream_at debug P p st fs (rx (os_ (conn s))) (world_of context s) → pos_ok p →
  zlen (concat (left_out st (cur p ++ fs))) ≤ B → sends (log (conn s)) = outputs (calls s) →
  ∃ s', onMessage s t = Ret s' ∧ serving P s' ∧ rx (os_ (conn s')) = rx (os_ (conn s)).
Proof using Hcb reply_ok writes_retry KernelLaws0.
  intros Hcl Hfc Ho Hst Hx Hs Hp HB Hsent. unfold onMessage. rewrite Hx. fold (world_of context s).
  unfold parse_message_frame. rewrite (stream_open _ _ _ _ _ _ _ Hs Hfc Hcl). rewrite bool_decide_false by done.
  rewrite bool_decide_true by done. orun.
  destruct (parse_frame_runs debug cb Hcb t _ _ _ _ _ _ (stream_rebase _ _ _ _ _ _ Hs) Hp)
    as (w1 & -> & p1 & st1 & fs1 & Hs1 & Hp1 & Hn1). orun.
  destruct (stream_delivers _ _ _ _ _ _ _ _ _ _ Hs Hs1 Hcl) as (Hok & Hout & Hleft).
  cbn [world_of w_log] in Hok, Hout, Hleft. set (new := drop (length (calls s)) (w_log w1)) in *.
  rewrite Hleft, concat_app, length_app in HB.
  pose proof (sa_conn _ _ _ _ _ _ _ Hs1) as Hc1. pose proof (cn_room _ _ _ _ _ Hc1) as Hroom. cbn in Hroom.
  destruct (do_calls_goes _ B (set_input (conn s) (w_buf w1)) ds new
    (input_replaced _ _ _ _ _ _ (w_buf w1) Ho (cn_buf _ _ _ _ _ Hc1) ltac:(lia)) Hst Hok)
    as (c' & ds' & -> & Ho' & Hk & Hst'); [lia|]. orun.
  assert (inputBuffer_ c' = w_buf w1) as Hin.
  { destruct (k_state _ _ _ Hk) as [[_ ->]|E]; [done|congruence]. }
  pose proof (k_rx _ _ _ Hk) as Hrx. cbn in Hrx.
  eexists. split; [done|]. split; [|done]. split; cbn [conn wsContext_ calls]; [|done|].
  - eexists _, _, _, _, p1, st1, fs1. unfold world_of. cbn [conn calls]. rewrite Hin, Hrx.
    replace (mkWorld (w_ctx w1) (w_buf w1) (w_log w1)) with w1 by (by destruct w1).
    split_and!; [exact Ho'|done|by eapply stream_unbase|done|exact Hn1|lia].
  - by rewrite (k_sends _ _ _ Hk), Hout, <- Hsent.
Qed.

(** ** Reads *)

(** What has been served of [P]: the frames that have been read completely were
    answered; the answers are on the wire as [ds] says, or about to be written. *)
Definition served (P : plan) s : Prop := ∃ st evs ds,
  rx_run code_unmask (pl_st P)
    (complete (zlen (wire (pl_frames P)) - zlen (rx (os_ (conn s)))) (pl_frames P)) = Some (st, evs) ∧
  untimed <$> calls s = pl_log P ++ evs ∧ sends (log (conn s)) = outputs (calls s) ∧
  Forall2 garbled (sends (log (conn s))) ds ∧ tx (os_ (conn s)) `prefix_of` t0 ++ concat ds ∧
  (state_ (conn s) ≠ kDisconnected → tx (os_ (conn s)) ++ readable (outputBuffer_ (conn s)) = t0 ++ concat ds).

Definition served_so_far (P : plan) s : Prop :=
  serving P s ∨ (state_ (conn s) = kDisconnected ∧ index_ (channel_ (conn s)) ≠ kAdded) ∧ served P s.

Lemma serving_served P s : serving P s → served P s.
Proof.
  intros [(r0 & B & ds & context & p & st & fs & Ho & Hx & Hs & Hp & Hn & _) Hst Hsent].
  destruct (stalled_complete debug _ _ _ _ _ _ _ Hs Hp Hn (Z.sub_add _ _)) as (evs & Hrx & Hlog).
  destruct Ho as [[] Ho2 Hi Hw He Hm Hq Hstream]. by exists st, evs, ds.
Qed.

Lemma read_end P s c saved : serving P (with_conn s (set_errno c 0)) →
  (errno c = 0 ∨ saved = -1 ∧ (errno c = EAGAIN ∨ errno c = EINTR)) →
  ∃ c', after_plain_read ndebug enable_et_ Ret c saved = Ret c' ∧ served_so_far P (settle (with_conn s c')).
Proof.
  intros Hsv He. pose proof Hsv as [(r0 & B & ds & context & p & st & fs & Ho & Hx & Hs & Hp & Hn & HB) Hst Hsent].
  cbn [conn with_conn calls wsContext_] in *.
  destruct (after_plain_read_inv ndebug enable_et_ Ret false t0 r0 (λ _ _, eq_refl) B [] c ds saved Ho He) as (c' & Hc' & Hi).
  exists c'. split; [done|].
  assert (keeps [] c c') as Hk by (eapply after_plain_read_keeps; [apply Ho|exact Hc']).
  assert (keeps [] (set_errno c 0) c') as Hk'.
  { eapply (keeps_trans []); [|exact Hk]. by apply keeps_fields. }
  destruct Hi as [Ho'|Hcl].
  - assert (state_ c' = kConnected) as Hst'.
    { destruct (k_state _ _ _ Hk') as [[-> _]|E]; [done|]. destruct (o_state _ _ _ _ _ _ _ Ho'); congruence. }
    unfold settle, disconnected. cbn [conn with_conn]. rewrite Hst', is_state_ne by done. left.
    split; cbn [conn with_conn calls wsContext_]; [|done|by rewrite (k_sends _ _ _ Hk'), app_nil_r].
    exists r0, B, ds, context, p, st, fs. unfold world_of. cbn [conn calls with_conn].
    destruct (k_state _ _ _ Hk') as [[_ Ki]|E]; [|congruence].
    rewrite (k_rx _ _ _ Hk'), Ki. by split_and!.
  - destruct Hcl as [[] Hd Hev Hm Hq]. unfold settle, disconnected. cbn [conn with_conn]. rewrite Hd, is_state_refl. right.
    split; [split; [done|by apply Hev]|]. destruct (serving_served _ _ Hsv) as (st1 & evs & ds1 & H1 & H2 & _).
    exists st1, evs, ds. cbn [conn with_conn reset calls] in *. rewrite (k_rx _ _ _ Hk').
    split_and!; try done. by rewrite (k_sends _ _ _ Hk'), app_nil_r.
Qed.

(** What [readFull] leaves of an open connection. *)
Record has_read s r0 B ds (d : bytes) (saved e' : Z) (b : Buffer) (os' : OS) : Prop := HasRead {
  hr_run : readFull (os_ (conn s)) (inputBuffer_ (conn s)) (errno (conn s)) = Ret (zlen d, saved, e', b, os');
  hr_buf : buf_has wf readable room_of b (readable (inputBuffer_ (conn s)) ++ d)
             (room_of (inputBuffer_ (conn s)) - zlen d);
  hr_rx : rx (os_ (conn s)) = d ++ rx os';
  hr_errno : e' = 0 ∨ saved = -1 ∧ (e' = EAGAIN ∨ e' = EINTR);
  hr_open : opened false t0 r0 B [] (set_errno (set_os (set_errno (set_input (conn s) b) e') os') 0) ds;
}.

Lemma readFull_opened s r0 B ds : opened false t0 r0 B [] (conn s) ds →
  ∃ d saved e' b os', has_read s r0 B ds d saved e' b os'.
Proof using reads_retry KernelLaws0.
  intros Ho. pose proof (o_base _ _ _ _ _ _ _ Ho) as Hbase. pose proof (o_errno _ _ _ _ _ _ _ Ho) as He.
  destruct (readFull_has _ (os_ (conn s)) (inputBuffer_ (conn s)) (errno (conn s)) reads_retry
    (b_in _ _ _ _ _ _ Hbase) (b_inroom _ _ _ _ _ _ Hbase))
    as (d & saved & e' & b & os' & Hrun & Hb & Hrx & Ht & Hd & Hstop & HP).
  exists d, saved, e', b, os'. split; [done..| |].
  - destruct Hstop as [[-> ->]|[-> ?]]; [by left|right; auto].
  - apply errno_opened with 0. by apply (input_opened false t0 r0 B [] (conn s) ds b 0 d os').
Qed.

(** A read that brings something. *)
Lemma handleRead_message P s t r0 B ds d saved e' b os' : has_read s r0 B ds d saved e' b os' → 0 < zlen d →
  (∀ c, opened false t0 r0 B [] c ds → state_ c = state_ (conn s) → inputBuffer_ c = b → os_ c = os' →
     sends (log c) = sends (log (conn s)) → ∃ s', onMessage (with_conn s c) t = Ret s' ∧ serving P s') →
  ∃ s', ws_handleRead s t = Ret s' ∧ served_so_far P s'.
Proof.
  intros [Hrun Hb Hrx He Ho] Hd Hmsg. unfold ws_handleRead. rewrite Hrun. orun.
  set (c1 := set_os _ os') in *. rewrite (proj2 (Z.ltb_lt _ _) Hd).
  set (c2 := if (errno c1 =? EAGAIN) || (errno c1 =? EINTR) then set_errno c1 0 else c1).
  assert (c2 = set_errno c1 0) as ->.
  { unfold c2. cbn. destruct He as [-> |[_ [-> | ->]]]; done. }
  destruct (Hmsg (record_event (set_errno c1 0) EvMessage)) as (s1 & -> & Hsv); try done.
  { by apply record_opened. }
  { cbn. unfold sends. by rewrite omap_log_app, app_nil_r. }
  orun. assert (errno (conn s1) = 0) as He1 by by destruct Hsv as [(?&?&?&?&?&?&?&[]&_) _ _].
  destruct (read_end P s1 (conn s1) saved) as (c' & -> & Hsf); [|by left|].
  { rewrite set_errno_id by done. by destruct s1. }
  orun. by eexists.
Qed.

Lemma handleRead_serves P s t :
  Forall (λ f, cf_op f ≠ CloseMessage) (pl_frames P) → Context.EvForceClose ∉ pl_log P → serving P s →
  ∃ s', ws_handleRead s t = Ret s' ∧ served_so_far P s'.
Proof using Hcb reply_ok writes_retry reads_retry KernelLaws0.
  intros Hcl Hfc Hsv. pose proof Hsv as [(r0 & B & ds & context & p & st & fs & Ho & Hx & Hs & Hp & Hn & HB) Hst Hsent].
  destruct (readFull_opened s r0 B ds Ho) as (d & saved & e' & b & os' & Hr). pose proof Hr as [Hrun Hb Hrx He Ho1].
  rewrite Hrx in Hs.
  assert (stream_at debug P p st fs (rx os') (mkWorld context b (calls s))) as Hs1.
  { apply (stream_arrive debug P p st fs d (rx os') _ b Hs). destruct Hb as [Hb1 Hb2 Hb3].
    split; [done..|]. cbn. lia. }
  destruct (Z.ltb_spec 0 (zlen d)) as [Hd0|Hd0].
  - eapply handleRead_message; [exact Hr|done|]. intros c Hoc Hcs Hci Hco Hcl'.
    destruct (onMessage_serves P (with_conn s c) r0 B ds context p st fs t) as (s1 & H1 & H2 & _);
      cbn [conn with_conn]; try done; try congruence; [|by rewrite Hcl'|by exists s1].
    unfold world_of. cbn [conn with_conn calls]. by rewrite Hco, Hci.
  - assert (d = []) as -> by (apply zlen_zero; lia). unfold ws_handleRead. rewrite Hrun. orun.
    set (c1 := set_os _ os') in *. destruct (read_end P (with_conn s c1) c1 saved) as (c' & Hc' & Hsf); [|done|].
    { split; [|done|done]. exists r0, B, ds, context, p, st, fs. split_and!; try done.
      cbn. destruct Hb as [_ Hbv _]. by rewrite Hbv, app_nil_r. }
    change (0 <? zlen []) with false. cbn iota. orun. cbn [conn with_conn]. rewrite Hc'. orun.
    eexists. split; [done|exact Hsf].
Qed.

Lemma reads_serve P s ts :
  Forall (λ f, cf_op f ≠ CloseMessage) (pl_frames P) → Context.EvForceClose ∉ pl_log P → served_so_far P s →
  ∃ s', ws_reads s ts = Ret s' ∧ served_so_far P s'.
Proof using Hcb reply_ok writes_retry reads_retry KernelLaws0.
  intros Hcl Hfc. revert s. induction ts as [|t ts IH]; intros s Hs; cbn [ws_reads]; [by exists s|].
  destruct Hs as [Hs|[[Hd Hx] Hs]].
  - pose proof Hs as [(r0 & B & ds & ? & ? & ? & ? & Ho & _) _ _].
    destruct (proj2 (o_index _ _ _ _ _ _ _ Ho) eq_refl) as [-> _]. rewrite Z.eqb_refl.
    destruct (handleRead_serves P s t Hcl Hfc Hs) as (s1 & -> & Hs1). orun. by apply IH.
  - rewrite (proj2 (Z.eqb_neq _ _) Hx). apply IH. by right.
Qed.

(** ** From the connection on *)

Lemma established_serves c r0 : fresh t0 r0 c →
  ∃ c', connectEstablished ndebug enable_et_ Ret c = Ret c' ∧
    opened false t0 r0 (kMaxSize - kCheapPrepend) [] c' [] ∧ state_ c' = kConnected ∧
    inputBuffer_ c' = inputBuffer_ c ∧ os_ c' = os_ c ∧ errno c' = errno c ∧ sends (log c') = [].
Proof using writes_retry KernelLaws0 OpenSSL0 has_highWaterMark has_writeComplete highWaterMark_.
  intros Hf.
  destruct (established_inv ndebug enable_et_ has_writeComplete has_highWaterMark highWaterMark_ Ret false t0 r0 0
    (λ c _, ex_intro _ [] (conj eq_refl (conj (Forall_nil_2 _) (Z.le_refl 0)))) writes_retry c Hf)
    as (c' & ds & Hc' & Ho); [by vm_compute|]. exists c'. rewrite Z.sub_0_r in Ho.
  pose proof Hc' as (u & _ & (c1 & (x & _ & [= <-])%bind_ret_inv & [= <-])%bind_ret_inv)%bind_ret_inv.
  assert (log c = []) as Hl by apply Hf.
  assert (ds = []) as ->.
  { pose proof (b_sends _ _ _ _ _ _ (o_base _ _ _ _ _ _ _ Ho)) as Hs. cbn in Hs. rewrite Hl in Hs. by inversion Hs. }
  split_and!; try done. cbn. by rewrite Hl.
Qed.

Definition new_context (b1 b2 : Buffer) : Context_ Buffer Http.HttpContext :=
  mkContext ReadFrameHeader kClosed LittleEndian extended_header_zero
    (mkMessage (mkMessageHeader TextMessage []) (Some b1) 0)
    (mkMessage (mkMessageHeader CloseMessage []) (Some b2) 0) (Some Http.HttpContext_ctor) true.

Lemma hook_runs c : state_ c = kConnected →
  ∃ b1 b2, onConnection (mkWs c None []) = Ret (mkWs c (Some (new_context b1 b2)) []) ∧
    buf_has wf readable room_of b1 [] (kMaxSize - kCheapPrepend) ∧
    buf_has wf readable room_of b2 [] (kMaxSize - kCheapPrepend).
Proof.
  intros Hs. unfold onConnection, connected. cbn [conn]. rewrite Hs, is_state_refl. unfold hook.
  destruct (Buffer_ctor_ok kInitialSize) as (b & -> & Hb & _); [by vm_compute|]. orun.
  by exists b, b.
Qed.

(** The opening request, in one read, and what [parse_message_frame] makes of it. *)
Lemma onMessage_handshake s q t b1 b2 fs r0 B r :
  let h := Http.mkHttpContext Http.kGotAll (Http.parsed q t) in
  let log := [Context.EvSend (create_websocket_response (B := Buffer) SHA1 now h);
              Context.EvConnected (client_ip boost cb h)] in
  buf_has wf readable room_of b1 [] (kMaxSize - kCheapPrepend) →
  buf_has wf readable room_of b2 [] (kMaxSize - kCheapPrepend) →
  wsContext_ s = Some (new_context b1 b2) → calls s = [] →
  opened false t0 r0 B [] (conn s) [] → state_ (conn s) = kConnected → sends (TcpConnection.log (conn s)) = [] →
  readable (inputBuffer_ (conn s)) = Http.render q → Http.request_ok q → zlen (Http.render q) ≤ 1024 →
  rx (os_ (conn s)) = wire fs → zlen (wire fs) ≤ max_room → Forall cframe_ok fs →
  rx_run code_unmask None fs = Some r → zlen (concat (outputs (log ++ r.2))) ≤ B →
  ∃ s', onMessage s t = Ret s' ∧ serving (mkPlan None fs log) s'.
Proof using Hcb reply_ok writes_retry KernelLaws0.
  intros h log Hb1 Hb2 Hx Hcalls Ho Hst Hsent Hin Hq Hql Hrx Hmax Hf Hr HB. unfold onMessage. rewrite Hx, Hcalls.
  assert (∀ b, buf_has wf readable room_of b [] (kMaxSize - kCheapPrepend) → buf_is b [] (zlen (wire fs))) as Hbuf.
  { intros b [H1 H2 H3]. split; [done..|]. cbn in Hmax |- *. lia. }
  destruct (entry_handshake SHA1 boost debug cb now
    (mkWorld (new_context b1 b2) (inputBuffer_ (conn s)) []) q t) as (b & [Hbi Hbv Hbr] & ->); try done.
  { split; try done. exact (b_in _ _ _ _ _ _ (o_base _ _ _ _ _ _ _ Ho)). }
  orun. cbn [w_log w_buf w_ctx length drop app]. fold h. fold log.
  set (w := mkWorld (connected_ctx (mkWorld (new_context b1 b2) (inputBuffer_ (conn s)) [])) b log).
  assert (stream_at debug (mkPlan None fs log) AtHeader None fs (wire fs) w) as Hs.
  { apply (ready_stream debug fs w); [|done|by rewrite Hr]. split; try done; [|by exists b1; auto|by exists b2; auto].
    split; [done..|]. cbn in Hbr, Hmax |- *. lia. }
  unfold outputs in HB. rewrite bind_app, concat_app, length_app in HB. fold (outputs log) in HB. fold (outputs r.2) in HB.
  destruct (response_bytes (B := Buffer) SHA1 now h) as [Hby Hne].
  destruct (do_calls_goes _ B (set_input (conn s) b) [] log
    (input_replaced _ _ _ _ _ _ b Ho Hbi ltac:(rewrite Hrx; cbn in Hbr, Hmax; lia)) Hst) as (c' & ds' & -> & Ho' & Hk & Hst').
  { apply Forall_cons. split; [done|]. by apply Forall_singleton. }
  { lia. }
  assert (inputBuffer_ c' = b) as Hin'. { destruct (k_state _ _ _ Hk) as [[_ ->]|E]; [done|congruence]. }
  orun. eexists. split; [done|]. split; cbn [conn calls wsContext_]; [|done|by rewrite (k_sends _ _ _ Hk); cbn [TcpConnection.log set_input]; rewrite Hsent].
  eexists _, _, _, _, AtHeader, None, fs. unfold world_of. cbn [conn calls]. rewrite Hin', (k_rx _ _ _ Hk).
  cbn [os_ set_input]. rewrite Hrx. split_and!; [exact Ho'|done|exact Hs|done| |].
  - cbn in Hbv |- *. by rewrite Hbv.
  - unfold left_out. cbn [cur app]. rewrite Hr. destruct r as [st1 evs]. cbn [snd] in HB. lia.
Qed.

(** The messages the user's callback sends for what was delivered. *)
Definition replies (evs : list Context.event) : list bytes :=
  evs ≫= λ e, match e with Context.EvMessage buf msgType _ => reply buf msgType | _ => [] end.

Lemma message_frame_reads m : zlen m ≤ 65535 → client_reads (message_frame m) = Some (BinaryMessage, m).
Proof.
  intros Hm. unfold message_frame. rewrite client_reads_swire by (apply fragments_payload; lia).
  by apply reassemble_fragments.
Qed.

Lemma outputs_replies evs : Forall (λ e, match e with Context.EvSend _ => False | _ => True end) evs →
  outputs evs = message_frame <$> replies evs.
Proof.
  unfold outputs, replies. induction 1 as [|e evs He _ IH]; [done|]. cbn [mbind list_bind].
  rewrite fmap_app, IH. by destruct e.
Qed.

Lemma rx_run_no_sends unmask st fs st' evs : rx_run unmask st fs = Some (st', evs) →
  Forall (λ e, match e with Context.EvSend _ => False | _ => True end) evs.
Proof.
  revert st evs. induction fs as [|f fs IH]; intros st evs; cbn.
  { by intros [= <- <-]. }
  destruct (rx_step unmask st f) as [[st1 e1]|] eqn:Hs; cbn; [|done].
  destruct (rx_run unmask st1 fs) as [[st2 e2]|] eqn:Hr; cbn; [|done].
  intros [= -> <-]. apply Forall_app. split; [|by eapply IH].
  unfold rx_step, deliver in Hs. destruct (cf_op f), st as [[t acc]|], (cf_fin f); simplify_eq; by repeat constructor.
Qed.

Lemma replies_read evs : Forall2 (λ m out, client_reads out = Some (BinaryMessage, m)) (replies evs) (message_frame <$> replies evs).
Proof using reply_ok.
  apply Forall2_fmap_r, Forall_Forall2_diag. unfold replies. induction evs as [|e evs IH]; [constructor|].
  cbn [mbind list_bind]. apply Forall_app. split; [|done]. destruct e as [| |p t' ?| | |]; try constructor.
  eapply Forall_impl; [apply reply_ok|]. intros m [_ Hm]. by apply message_frame_reads.
Qed.

Lemma render_nonempty q : 0 < zlen (Http.render q).
Proof. unfold Http.render, Http.request_line. rewrite !length_app. cbn. lia. Qed.

Lemma first_read_serves c c1 r0 q t fs r d saved e b k b1 b2 :
  let h := Http.mkHttpContext Http.kGotAll (Http.parsed q t) in
  let answer := create_websocket_response (B := Buffer) SHA1 now h in
  fresh t0 r0 c → rx (os_ c) = Http.render q ++ wire fs →
  readFull (os_ c) (inputBuffer_ c) (errno c) = Ret (zlen (Http.render q), saved, e, b, k) →
  Http.request_ok q → zlen (Http.render q) ≤ 1024 → Forall cframe_ok fs → Forall aligned fs →
  rx_run rfc_unmask None fs = Some (r, d) → zlen (wire fs) ≤ kMaxSize - kCheapPrepend - 4096 →
  zlen (answer ++ concat (message_frame <$> replies d)) ≤ kMaxSize - kCheapPrepend →
  opened false t0 r0 (kMaxSize - kCheapPrepend) [] c1 [] → state_ c1 = kConnected →
  inputBuffer_ c1 = inputBuffer_ c → os_ c1 = os_ c → errno c1 = errno c → sends (log c1) = [] →
  buf_has wf readable room_of b1 [] (kMaxSize - kCheapPrepend) →
  buf_has wf readable room_of b2 [] (kMaxSize - kCheapPrepend) →
  ∃ s1, ws_handleRead (mkWs c1 (Some (new_context b1 b2)) []) t = Ret s1 ∧
    served_so_far (mkPlan None fs [Context.EvSend answer; Context.EvConnected (client_ip boost cb h)]) s1.
Proof using Hcb reply_ok writes_retry reads_retry KernelLaws0.
  intros h answer Hf Hrx Hread Hq Hql Hok Hal Hrun Hmax HB Ho Hst Hin Hos Herr Hsent Hb1 Hb2.
  set (s0 := mkWs c1 (Some (new_context b1 b2)) []).
  destruct (readFull_opened s0 r0 _ [] Ho) as (d' & saved' & e' & b' & os' & Hr). pose proof Hr as [Hrun' Hb Hrx' _ _].
  cbn [conn s0] in Hrun', Hb, Hrx'. rewrite Hin, Hos, Herr in *.
  assert (zlen d' = zlen (Http.render q)) as Hlen by (rewrite Hread in Hrun'; by injection Hrun').
  rewrite Hrx in Hrx'. apply app_inj_1 in Hrx' as [<- Hw]; [|lia].
  destruct (f_in _ _ _ Hf) as [_ Hempty _]. destruct Hb as [Hbw Hbv _]. rewrite Hempty in Hbv.
  apply (handleRead_message _ s0 t _ _ _ _ _ _ _ _ Hr); [apply render_nonempty|].
  intros c2 Ho2 Hst2 Hin2 Hos2 Hsent2.
  apply (onMessage_handshake (with_conn s0 c2) q t b1 b2 fs r0 (kMaxSize - kCheapPrepend) (r, d));
    cbn [conn with_conn s0 wsContext_ calls snd]; try done.
  - by rewrite Hst2.
  - by rewrite Hsent2.
  - by rewrite Hin2.
  - by rewrite Hos2.
  - by rewrite rx_run_aligned.
  - rewrite outputs_app, concat_app, (outputs_replies d) by by eapply rx_run_no_sends. cbn. by rewrite app_nil_r.
Qed.

(** C1: A WebSocket server end to end, over a plain TCP connection whose reads and writes
    fail only with EAGAIN or EINTR.  The client sends a well-formed opening request of at
    most 1024 bytes, which the first read gets exactly (the whole request and nothing after
    it), and then legal masked frames without a close frame, in which every fragment that
    another one follows has a length divisible by 4 ([aligned]); after the request the
    kernel cuts what it reads anywhere, and takes what is written anywhere.  Over any number
    of reads nothing stops the process, and the connection was given, in this order, the
    101 answer and one frame for each message the user's callback sends for the messages
    RFC 6455 prescribes for the frames that have been read completely; a client recovers
    the messages from the frames.  What is on the wire and what waits in the output buffer
    are these answers, up to the repeated beginnings of partial writes.  The replies have
    at most 65535 bytes each, the callback leaves the message buffer valid, and all input
    and all output fit the buffers; the output that
    waits is written by [handleWrite], which is a matter of TcpStream. *)
Theorem websocket_server_serves c r0 q t ts fs r d saved e b k :
  let h := Http.mkHttpContext Http.kGotAll (Http.parsed q t) in
  let answer := create_websocket_response (B := Buffer) SHA1 now h in
  fresh t0 r0 c → rx (os_ c) = Http.render q ++ wire fs →
  readFull (os_ c) (inputBuffer_ c) (errno c) = Ret (zlen (Http.render q), saved, e, b, k) →
  Http.request_ok q → zlen (Http.render q) ≤ 1024 →
  Forall cframe_ok fs → Forall aligned fs → Forall (λ f, cf_op f ≠ CloseMessage) fs →
  rx_run rfc_unmask None fs = Some (r, d) → zlen (wire fs) ≤ kMaxSize - kCheapPrepend - 4096 →
  zlen (answer ++ concat (message_frame <$> replies d)) ≤ kMaxSize - kCheapPrepend →
  ∃ s' st evs ds, ws_run c (t :: ts) = Ret s' ∧
    rx_run rfc_unmask None (complete (zlen (wire fs) - zlen (rx (os_ (conn s')))) fs) = Some (st, evs) ∧
    sends (log (conn s')) = answer :: (message_frame <$> replies evs) ∧
    Forall2 (λ m out, client_reads out = Some (BinaryMessage, m)) (replies evs) (message_frame <$> replies evs) ∧
    Forall2 garbled (sends (log (conn s'))) ds ∧ tx (os_ (conn s')) `prefix_of` t0 ++ concat ds ∧
    (state_ (conn s') ≠ kDisconnected → tx (os_ (conn s')) ++ readable (outputBuffer_ (conn s')) = t0 ++ concat ds).
Proof using Hcb reply_ok writes_retry reads_retry KernelLaws0.
  intros h answer Hf Hrx Hread Hq Hql Hok Hal Hcl Hrun Hmax HB. unfold ws_run.
  destruct (established_serves c r0 Hf) as (c1 & -> & Ho & Hst & Hin & Hos & Herr & Hsent). orun.
  destruct (hook_runs c1 Hst) as (b1 & b2 & -> & Hb1 & Hb2). orun. cbn [ws_reads conn].
  destruct (proj2 (o_index _ _ _ _ _ _ _ Ho) eq_refl) as [-> _]. rewrite Z.eqb_refl.
  set (P := mkPlan None fs [Context.EvSend answer; Context.EvConnected (client_ip boost cb h)]).
  assert (∃ s1, ws_handleRead (mkWs c1 (Some (new_context b1 b2)) []) t = Ret s1 ∧ served_so_far P s1) as (s1 & -> & Hs1).
  { by eapply first_read_serves. }
  orun. destruct (reads_serve P s1 ts) as (s' & -> & Hs'); [done| |done|].
  { cbn. rewrite list_elem_of_In. cbn. naive_solver. }
  assert (served P s') as (st & evs & ds & H1 & H2 & H3 & H4).
  { destruct Hs' as [Hs'|[_ Hs']]; [by apply serving_served|done]. }
  exists s', st, evs, ds. split; [done|]. cbn [P pl_st pl_frames pl_log] in H1, H2. split.
  { rewrite <- H1. symmetry. apply rx_run_aligned; [done|]. eapply Forall_prefix; [apply complete_prefix|done]. }
  split; [|split; [apply replies_read|done]].
  rewrite H3, <- outputs_untimed, H2, outputs_app, (outputs_replies evs) by by eapply rx_run_no_sends. done.
Qed.

(** ** A reply that fails *)

Lemma ws_sends_down c ms : state_ c ≠ kConnected → Forall (λ m, Forall_byte m ∧ zlen m ≤ 65535) ms →
  ws_sends c ms = Ret c.
Proof.
  intros Hs. induction 1 as [|m ms [Hm Hl] _ IH]; [done|]. cbn [ws_sends]. unfold ws_send.
  destruct (ws_pack m Hm Hl) as (b & b' & -> & Hp & _). orun. rewrite Hp. orun.
  unfold send_buffer. rewrite is_state_ne by done. by orun.
Qed.

(** When the peer has reset the connection and the user's callback replies to a
    message, the failing write closes the connection inside [send]; its connection
    callback deletes the context, and the parser, which called the user's callback,
    goes on with the deleted object. *)
Theorem failing_reply_frees_context s context t r w p mt time l m ms r0 B ds k e os' :
  wsContext_ s = Some context →
  parse_message_frame SHA1 boost debug cb t now (world_of context s) = Ret (r, w) →
  drop (length (calls s)) (w_log w) = Context.EvMessage p mt time :: l → reply p mt = m :: ms →
  let c := set_input (conn s) (w_buf w) in
  opened true t0 r0 B [] c ds → idle c → state_ c = kConnected → zlen (message_frame m) ≤ B →
  writeFull (os_ c) (message_frame m) 0 0 = Ret (k, -1, e, os') → 0 ≤ k < zlen (message_frame m) →
  e = EPIPE ∨ e = ECONNRESET →
  onMessage s t = Abort UseAfterFree.
Proof using reply_ok KernelLaws0.
  intros Hx Hp Hnew Hrep c Ho Hidle Hs HB Hw Hk He. unfold onMessage. rewrite Hx. fold (world_of context s).
  rewrite Hp. orun. rewrite Hnew. cbn [do_calls do_call]. rewrite Hrep. fold c.
  pose proof (reply_ok p mt) as Hok. rewrite Hrep in Hok. apply Forall_cons in Hok as [[Hm Hl] Hms].
  destruct (ws_pack m Hm Hl) as (b & b' & Hb & Hpk & Hbv & Hby). cbn [ws_sends]. unfold ws_send at 1.
  rewrite Hb. orun. rewrite Hpk. orun. unfold send_buffer. rewrite Hs, is_state_refl, Hbv, !bind_assoc.
  destruct (reset_closes ndebug enable_et_ has_writeComplete has_highWaterMark highWaterMark_ Ret t0 r0
    (λ _ _, eq_refl) B [] c ds (message_frame m) k e os') as (c2 & -> & Hcl & _); try done.
  orun. rewrite ws_sends_down by (done || by rewrite (c_state _ _ _ _ _ _ _ Hcl)). orun.
  unfold disconnected. by rewrite (c_state _ _ _ _ _ _ _ Hcl).
Qed.
End server.

(** ** Examples *)

Module WsSample.

(** An echo of up to 125 bytes. *)
Definition echo (buf : bytes) (msgType : Z) : list bytes := [ztake 125 (map u8 buf)].

Lemma echo_ok buf msgType : Forall (λ m, Forall_byte m ∧ zlen m ≤ 65535) (echo buf msgType).
Proof.
  apply Forall_singleton. split; [apply Forall_ztake, map_u8_bytes|].
  unfold ztake. rewrite length_take. lia.
Qed.

Lemma consuming_ok : callback_ok Sample.callback.
Proof. split; [|done]. intros b t r Hb. by apply retrieveAll_has. Qed.

(** The request, then the frames in two pieces, then the end; the socket takes the
    answer whole, then three bytes. *)
Definition wire0 : bytes := wire SampleStream.frames.
Definition os2 : ScriptOS not_ready :=
  mkScript [RData (Http.render HttpSample.upgrade); RFail NotReady; RData (take 13 wire0); RFail NotReady;
            RData (drop 13 wire0); RData []] [WTake 1000; WTake 3; WFail Interrupted] [].
Definition conn2 : Conn (ScriptOS not_ready) :=
  mkConn kConnecting true (Channel_ctor 100 7) Poller_ctor SampleConnection.buf0 SampleConnection.buf0
    false false 0 os2 [] [] true [].

Lemma fresh2 : fresh [] (Http.render HttpSample.upgrade ++ wire0) conn2.
Proof.
  destruct SampleConnection.fresh0 as [H1 H2 H3 H4 [H5 H6 _] H7 H8 H9 H10 _].
  split; [exact H1|exact H2|exact H3|exact H4| |exact H7|exact H8|exact H9|exact H10|].
  - split; [exact H5|exact H6|by vm_compute].
  - split; [done|by vm_compute].
Qed.

Definition run2 : outcome (WsConn (ScriptOS not_ready)) :=
  ws_run false true true true 8 HandshakeSample.digest HandshakeSample.boost true Sample.callback 0 echo conn2 [1; 2; 3; 4].

(** A connection past its handshake to which a text message "Hell" has come. *)
Definition frame3 : bytes := encode (mkFrame FrameFinished TextMessage SampleStream.key (str "Hell")).
Definition conn1 : Conn FaultSamples.OS1 :=
  FaultSamples.conn1 kAdded 3 [(EPOLL_CTL_ADD, 7, 3)] [] [WFail 32%positive].
Definition conn3 : Conn FaultSamples.OS1 := set_input conn1 (HttpSample.buffer frame3).
Definition context3 : Context_ Buffer Http.HttpContext := Sample.context Frame.kConnected None.
Definition ws3 : WsConn FaultSamples.OS1 := mkWs conn3 (Some context3) [].


(** The input buffer after the message was read. *)
Definition rest3 : Buffer := retrieveAll (HttpSample.buffer frame3).
End WsSample.

Lemma websocket_server_serves_witness : ∃ s' st evs ds, WsSample.run2 = Ret s' ∧
    rx_run rfc_unmask None (complete (zlen WsSample.wire0 - zlen (rx (os_ (conn s')))) SampleStream.frames) = Some (st, evs) ∧
    sends (log (conn s')) = create_websocket_response (B := Buffer) HandshakeSample.digest 0
       (Http.mkHttpContext Http.kGotAll (Http.parsed HttpSample.upgrade 1)) ::
       (message_frame <$> replies WsSample.echo evs) ∧
    Forall2 (λ m out, client_reads out = Some (BinaryMessage, m)) (replies WsSample.echo evs)
      (message_frame <$> replies WsSample.echo evs) ∧
    Forall2 garbled (sends (log (conn s'))) ds ∧ tx (os_ (conn s')) `prefix_of` [] ++ concat ds ∧
    (state_ (conn s') ≠ kDisconnected → tx (os_ (conn s')) ++ readable (outputBuffer_ (conn s')) = [] ++ concat ds).
Proof.
  unfold WsSample.run2, WsSample.wire0. eapply (websocket_server_serves false true true true 8 HandshakeSample.digest HandshakeSample.boost true
    Sample.callback 0 WsSample.echo WsSample.echo_ok script_writes_retry script_reads_retry [] WsSample.consuming_ok
    WsSample.conn2 _ HttpSample.upgrade 1 [2; 3; 4] SampleStream.frames).
  - exact WsSample.fresh2.
  - by vm_compute.
  - vm_compute. reflexivity.
  - apply HttpSample.upgrade_ok.
  - by vm_compute.
  - apply SampleStream.frames_ok.
  - apply SampleStream.frames_aligned.
  - apply (bool_decide_unpack _). by vm_compute.
  - vm_compute. reflexivity.
  - by vm_compute.
  - by vm_compute.
Defined.

(** The run of the example: the ping is echoed, then the message, then the peer closes. *)
Example echo_run : match WsSample.run2 with
  | Ret s => drop 1 (sends (log (conn s))) = message_frame <$> [str "?"; str "Hello"] ∧ state_ (conn s) = kDisconnected
  | Abort _ => False
  end.
Proof. vm_compute. done. Qed.

Lemma failing_reply_frees_context_witness :
  onMessage false true true true 8 HandshakeSample.digest HandshakeSample.boost true Sample.callback 0 WsSample.echo
    WsSample.ws3 1 = Abort UseAfterFree.
Proof.
  eapply (failing_reply_frees_context false true true true 8 HandshakeSample.digest HandshakeSample.boost true
    Sample.callback 0 WsSample.echo WsSample.echo_ok [] WsSample.ws3 WsSample.context3).
  - reflexivity.
  - vm_compute. reflexivity.
  - vm_compute. reflexivity.
  - vm_compute. reflexivity.
  - apply (input_replaced [] true [] 1024 [] WsSample.conn1 [] WsSample.rest3).
    + apply (FaultSamples.reading_opened1 []). by vm_compute.
    + apply (bool_decide_unpack _). by vm_compute.
    + by vm_compute.
  - reflexivity.
  - reflexivity.
  - by vm_compute.
  - vm_compute. reflexivity.
  - by vm_compute.
  - by left.
Defined.
End WsServer.
