(* ===== verification/Aes.v ===== *)
(** * Aes: the AES-128 cipher of the API server
    (src/https/AES_Cipher.{h,cpp})

    [state_t] is an array of four rows of four bytes, here the list of its 16 bytes in
    memory order.  Encryption copies the block into a state column by column and
    back; decryption works on the block itself, so that its [mState[i][j]] is row [j],
    column [i] of the standard.  The specification is FIPS 197 on blocks. *)

From Stdlib Require Import Btauto.
From S2P Require Import Prelude.

Module Aes.

Definition scSbox : list Z := [
   0x63; 0x7c; 0x77; 0x7b; 0xf2; 0x6b; 0x6f; 0xc5; 0x30; 0x01; 0x67; 0x2b; 0xfe; 0xd7; 0xab; 0x76;
   0xca; 0x82; 0xc9; 0x7d; 0xfa; 0x59; 0x47; 0xf0; 0xad; 0xd4; 0xa2; 0xaf; 0x9c; 0xa4; 0x72; 0xc0;
   0xb7; 0xfd; 0x93; 0x26; 0x36; 0x3f; 0xf7; 0xcc; 0x34; 0xa5; 0xe5; 0xf1; 0x71; 0xd8; 0x31; 0x15;
   0x04; 0xc7; 0x23; 0xc3; 0x18; 0x96; 0x05; 0x9a; 0x07; 0x12; 0x80; 0xe2; 0xeb; 0x27; 0xb2; 0x75;
   0x09; 0x83; 0x2c; 0x1a; 0x1b; 0x6e; 0x5a; 0xa0; 0x52; 0x3b; 0xd6; 0xb3; 0x29; 0xe3; 0x2f; 0x84;
   0x53; 0xd1; 0x00; 0xed; 0x20; 0xfc; 0xb1; 0x5b; 0x6a; 0xcb; 0xbe; 0x39; 0x4a; 0x4c; 0x58; 0xcf;
   0xd0; 0xef; 0xaa; 0xfb; 0x43; 0x4d; 0x33; 0x85; 0x45; 0xf9; 0x02; 0x7f; 0x50; 0x3c; 0x9f; 0xa8;
   0x51; 0xa3; 0x40; 0x8f; 0x92; 0x9d; 0x38; 0xf5; 0xbc; 0xb6; 0xda; 0x21; 0x10; 0xff; 0xf3; 0xd2;
   0xcd; 0x0c; 0x13; 0xec; 0x5f; 0x97; 0x44; 0x17; 0xc4; 0xa7; 0x7e; 0x3d; 0x64; 0x5d; 0x19; 0x73;
   0x60; 0x81; 0x4f; 0xdc; 0x22; 0x2a; 0x90; 0x88; 0x46; 0xee; 0xb8; 0x14; 0xde; 0x5e; 0x0b; 0xdb;
   0xe0; 0x32; 0x3a; 0x0a; 0x49; 0x06; 0x24; 0x5c; 0xc2; 0xd3; 0xac; 0x62; 0x91; 0x95; 0xe4; 0x79;
   0xe7; 0xc8; 0x37; 0x6d; 0x8d; 0xd5; 0x4e; 0xa9; 0x6c; 0x56; 0xf4; 0xea; 0x65; 0x7a; 0xae; 0x08;
   0xba; 0x78; 0x25; 0x2e; 0x1c; 0xa6; 0xb4; 0xc6; 0xe8; 0xdd; 0x74; 0x1f; 0x4b; 0xbd; 0x8b; 0x8a;
   0x70; 0x3e; 0xb5; 0x66; 0x48; 0x03; 0xf6; 0x0e; 0x61; 0x35; 0x57; 0xb9; 0x86; 0xc1; 0x1d; 0x9e;
   0xe1; 0xf8; 0x98; 0x11; 0x69; 0xd9; 0x8e; 0x94; 0x9b; 0x1e; 0x87; 0xe9; 0xce; 0x55; 0x28; 0xdf;
   0x8c; 0xa1; 0x89; 0x0d; 0xbf; 0xe6; 0x42; 0x68; 0x41; 0x99; 0x2d; 0x0f; 0xb0; 0x54; 0xbb; 0x16].

Definition scRsbox : list Z := [
   0x52; 0x09; 0x6a; 0xd5; 0x30; 0x36; 0xa5; 0x38; 0xbf; 0x40; 0xa3; 0x9e; 0x81; 0xf3; 0xd7; 0xfb;
   0x7c; 0xe3; 0x39; 0x82; 0x9b; 0x2f; 0xff; 0x87; 0x34; 0x8e; 0x43; 0x44; 0xc4; 0xde; 0xe9; 0xcb;
   0x54; 0x7b; 0x94; 0x32; 0xa6; 0xc2; 0x23; 0x3d; 0xee; 0x4c; 0x95; 0x0b; 0x42; 0xfa; 0xc3; 0x4e;
   0x08; 0x2e; 0xa1; 0x66; 0x28; 0xd9; 0x24; 0xb2; 0x76; 0x5b; 0xa2; 0x49; 0x6d; 0x8b; 0xd1; 0x25;
   0x72; 0xf8; 0xf6; 0x64; 0x86; 0x68; 0x98; 0x16; 0xd4; 0xa4; 0x5c; 0xcc; 0x5d; 0x65; 0xb6; 0x92;
   0x6c; 0x70; 0x48; 0x50; 0xfd; 0xed; 0xb9; 0xda; 0x5e; 0x15; 0x46; 0x57; 0xa7; 0x8d; 0x9d; 0x84;
   0x90; 0xd8; 0xab; 0x00; 0x8c; 0xbc; 0xd3; 0x0a; 0xf7; 0xe4; 0x58; 0x05; 0xb8; 0xb3; 0x45; 0x06;
   0xd0; 0x2c; 0x1e; 0x8f; 0xca; 0x3f; 0x0f; 0x02; 0xc1; 0xaf; 0xbd; 0x03; 0x01; 0x13; 0x8a; 0x6b;
   0x3a; 0x91; 0x11; 0x41; 0x4f; 0x67; 0xdc; 0xea; 0x97; 0xf2; 0xcf; 0xce; 0xf0; 0xb4; 0xe6; 0x73;
   0x96; 0xac; 0x74; 0x22; 0xe7; 0xad; 0x35; 0x85; 0xe2; 0xf9; 0x37; 0xe8; 0x1c; 0x75; 0xdf; 0x6e;
   0x47; 0xf1; 0x1a; 0x71; 0x1d; 0x29; 0xc5; 0x89; 0x6f; 0xb7; 0x62; 0x0e; 0xaa; 0x18; 0xbe; 0x1b;
   0xfc; 0x56; 0x3e; 0x4b; 0xc6; 0xd2; 0x79; 0x20; 0x9a; 0xdb; 0xc0; 0xfe; 0x78; 0xcd; 0x5a; 0xf4;
   0x1f; 0xdd; 0xa8; 0x33; 0x88; 0x07; 0xc7; 0x31; 0xb1; 0x12; 0x10; 0x59; 0x27; 0x80; 0xec; 0x5f;
   0x60; 0x51; 0x7f; 0xa9; 0x19; 0xb5; 0x4a; 0x0d; 0x2d; 0xe5; 0x7a; 0x9f; 0x93; 0xc9; 0x9c; 0xef;
   0xa0; 0xe0; 0x3b; 0x4d; 0xae; 0x2a; 0xf5; 0xb0; 0xc8; 0xeb; 0xbb; 0x3c; 0x83; 0x53; 0x99; 0x61;
   0x17; 0x2b; 0x04; 0x7e; 0xba; 0x77; 0xd6; 0x26; 0xe1; 0x69; 0x14; 0x63; 0x55; 0x21; 0x0c; 0x7d].

Definition scRcon : list Z := [
   0x8d; 0x01; 0x02; 0x04; 0x08; 0x10; 0x20; 0x40; 0x80; 0x1b; 0x36; 0x6c; 0xd8; 0xab; 0x4d; 0x9a;
   0x2f; 0x5e; 0xbc; 0x63; 0xc6; 0x97; 0x35; 0x6a; 0xd4; 0xb3; 0x7d; 0xfa; 0xef; 0xc5; 0x91; 0x39;
   0x72; 0xe4; 0xd3; 0xbd; 0x61; 0xc2; 0x9f; 0x25; 0x4a; 0x94; 0x33; 0x66; 0xcc; 0x83; 0x1d; 0x3a;
   0x74; 0xe8; 0xcb; 0x8d; 0x01; 0x02; 0x04; 0x08; 0x10; 0x20; 0x40; 0x80; 0x1b; 0x36; 0x6c; 0xd8;
   0xab; 0x4d; 0x9a; 0x2f; 0x5e; 0xbc; 0x63; 0xc6; 0x97; 0x35; 0x6a; 0xd4; 0xb3; 0x7d; 0xfa; 0xef;
   0xc5; 0x91; 0x39; 0x72; 0xe4; 0xd3; 0xbd; 0x61; 0xc2; 0x9f; 0x25; 0x4a; 0x94; 0x33; 0x66; 0xcc;
   0x83; 0x1d; 0x3a; 0x74; 0xe8; 0xcb; 0x8d; 0x01; 0x02; 0x04; 0x08; 0x10; 0x20; 0x40; 0x80; 0x1b;
   0x36; 0x6c; 0xd8; 0xab; 0x4d; 0x9a; 0x2f; 0x5e; 0xbc; 0x63; 0xc6; 0x97; 0x35; 0x6a; 0xd4; 0xb3;
   0x7d; 0xfa; 0xef; 0xc5; 0x91; 0x39; 0x72; 0xe4; 0xd3; 0xbd; 0x61; 0xc2; 0x9f; 0x25; 0x4a; 0x94;
   0x33; 0x66; 0xcc; 0x83; 0x1d; 0x3a; 0x74; 0xe8; 0xcb; 0x8d; 0x01; 0x02; 0x04; 0x08; 0x10; 0x20;
   0x40; 0x80; 0x1b; 0x36; 0x6c; 0xd8; 0xab; 0x4d; 0x9a; 0x2f; 0x5e; 0xbc; 0x63; 0xc6; 0x97; 0x35;
   0x6a; 0xd4; 0xb3; 0x7d; 0xfa; 0xef; 0xc5; 0x91; 0x39; 0x72; 0xe4; 0xd3; 0xbd; 0x61; 0xc2; 0x9f;
   0x25; 0x4a; 0x94; 0x33; 0x66; 0xcc; 0x83; 0x1d; 0x3a; 0x74; 0xe8; 0xcb; 0x8d; 0x01; 0x02; 0x04;
   0x08; 0x10; 0x20; 0x40; 0x80; 0x1b; 0x36; 0x6c; 0xd8; 0xab; 0x4d; 0x9a; 0x2f; 0x5e; 0xbc; 0x63;
   0xc6; 0x97; 0x35; 0x6a; 0xd4; 0xb3; 0x7d; 0xfa; 0xef; 0xc5; 0x91; 0x39; 0x72; 0xe4; 0xd3; 0xbd;
   0x61; 0xc2; 0x9f; 0x25; 0x4a; 0x94; 0x33; 0x66; 0xcc; 0x83; 0x1d; 0x3a; 0x74; 0xe8; 0xcb].

Definition NR : nat := 10.
Definition NB : nat := 4.
Definition NK : nat := 4.
Definition KEYLEN : Z := 16.

(** Array elements; the indices are constants or bytes, within the arrays. *)
Definition elem (l : list Z) (i : nat) : Z := nth i l 0.

Definition getSBoxValue (num : Z) : Z := elem scSbox (Z.to_nat num).
Definition getSBoxInvert (num : Z) : Z := elem scRsbox (Z.to_nat num).

Definition xtime (x : Z) : Z := u8 (Z.lxor (Z.shiftl x 1) (Z.land (Z.shiftr x 7) 1 * 0x1b)).

Definition Multiply (x y : Z) : Z :=
  u8 (Z.lxor (Z.lxor (Z.lxor (Z.lxor
    (Z.land y 1 * x)
    (Z.land (Z.shiftr y 1) 1 * xtime x))
    (Z.land (Z.shiftr y 2) 1 * xtime (xtime x)))
    (Z.land (Z.shiftr y 3) 1 * xtime (xtime (xtime x))))
    (Z.land (Z.shiftr y 4) 1 * xtime (xtime (xtime (xtime x))))).

(** ** The state *)

Definition state : Type := list Z.

Definition at_ (s : state) (i j : nat) : Z := elem s (4 * i + j).
Definition put (s : state) (i j : nat) (v : Z) : state := <[(4 * i + j)%nat := v]> s.

(** [for (i = 0; i < 4; ++i)], and with an inner loop over [j]. *)
Definition for4 (f : state → nat → state) (s : state) : state := foldl f s [0; 1; 2; 3]%nat.
Definition for44 (f : state → nat → nat → state) (s : state) : state := for4 (λ s i, for4 (λ s j, f s i j) s) s.

Definition AddRoundKey (mRoundKey : list Z) (round : nat) (s : state) : state :=
  for44 (λ s i j, put s j i (Z.lxor (at_ s j i) (elem mRoundKey (round * NB * 4 + i * NB + j)))) s.

Definition InvAddRoundKey (mRoundKey : list Z) (round : nat) (s : state) : state :=
  for44 (λ s i j, put s i j (Z.lxor (at_ s i j) (elem mRoundKey (round * NB * 4 + i * NB + j)))) s.

(** ** Key expansion *)

(** [temp], from the last word. *)
Definition key_temp (mRoundKey : list Z) (i : nat) : list Z :=
  let last j := elem mRoundKey ((i - 1) * 4 + j) in
  if (i mod NK =? 0)%nat then
    [Z.lxor (getSBoxValue (last 1%nat)) (elem scRcon (i / NK)); getSBoxValue (last 2%nat);
     getSBoxValue (last 3%nat); getSBoxValue (last 0%nat)]
  else if ((6 <? NK) && (i mod NK =? 4))%nat then
    [getSBoxValue (last 0%nat); getSBoxValue (last 1%nat); getSBoxValue (last 2%nat); getSBoxValue (last 3%nat)]
  else [last 0%nat; last 1%nat; last 2%nat; last 3%nat].

(** [while (i < NB * (NR + 1))]; the array as far as it is written. *)
Fixpoint expand_loop (n i : nat) (mRoundKey : list Z) : list Z :=
  match n with
  | O => mRoundKey
  | S n =>
      let temp := key_temp mRoundKey i in
      let word j := Z.lxor (elem mRoundKey ((i - NK) * 4 + j)) (elem temp j) in
      expand_loop n (S i) (mRoundKey ++ [word 0%nat; word 1%nat; word 2%nat; word 3%nat])
  end.

Definition KeyExpansion (mKey : list Z) : list Z := expand_loop (NB * (NR + 1) - NK) NK (take 16 mKey).

(** ** Encryption *)

Definition SubBytes (s : state) : state := for44 (λ s i j, put s i j (getSBoxValue (at_ s i j))) s.

Definition ShiftRows (s : state) : state :=
  let temp := at_ s 1 0 in
  let s := put s 1 0 (at_ s 1 1) in
  let s := put s 1 1 (at_ s 1 2) in
  let s := put s 1 2 (at_ s 1 3) in
  let s := put s 1 3 temp in
  let temp := at_ s 2 0 in
  let s := put s 2 0 (at_ s 2 2) in
  let s := put s 2 2 temp in
  let temp := at_ s 2 1 in
  let s := put s 2 1 (at_ s 2 3) in
  let s := put s 2 3 temp in
  let temp := at_ s 3 0 in
  let s := put s 3 0 (at_ s 3 3) in
  let s := put s 3 3 (at_ s 3 2) in
  let s := put s 3 2 (at_ s 3 1) in
  put s 3 1 temp.

Definition MixColumns (s : state) : state :=
  for4 (λ s i,
    let t := at_ s 0 i in
    let Tmp := Z.lxor (Z.lxor (Z.lxor (at_ s 0 i) (at_ s 1 i)) (at_ s 2 i)) (at_ s 3 i) in
    let Tm := xtime (Z.lxor (at_ s 0 i) (at_ s 1 i)) in
    let s := put s 0 i (Z.lxor (at_ s 0 i) (Z.lxor Tm Tmp)) in
    let Tm := xtime (Z.lxor (at_ s 1 i) (at_ s 2 i)) in
    let s := put s 1 i (Z.lxor (at_ s 1 i) (Z.lxor Tm Tmp)) in
    let Tm := xtime (Z.lxor (at_ s 2 i) (at_ s 3 i)) in
    let s := put s 2 i (Z.lxor (at_ s 2 i) (Z.lxor Tm Tmp)) in
    let Tm := xtime (Z.lxor (at_ s 3 i) t) in
    put s 3 i (Z.lxor (at_ s 3 i) (Z.lxor Tm Tmp))) s.

Definition Cipher (mRoundKey : list Z) (s : state) : state :=
  let s := AddRoundKey mRoundKey 0 s in
  let s := foldl (λ s round, AddRoundKey mRoundKey round (MixColumns (ShiftRows (SubBytes s)))) s
             (seq 1 (NR - 1)) in
  AddRoundKey mRoundKey NR (ShiftRows (SubBytes s)).

(** [mState[j][i] = input[i * 4 + j]], and back. *)
Definition load (input : list Z) : state :=
  for44 (λ s i j, put s j i (elem input (i * 4 + j))) (replicate 16 0).
Definition store (s : state) : list Z :=
  foldl (λ out i, foldl (λ out j, <[(i * 4 + j)%nat := at_ s j i]> out) out [0; 1; 2; 3]%nat)
    (replicate 16 0) [0; 1; 2; 3]%nat.

Definition AES128_ECB_encrypt (mKey input : list Z) : list Z := store (Cipher (KeyExpansion mKey) (load input)).

(** ** Decryption *)

Definition InvMixColumns (s : state) : state :=
  for4 (λ s i,
    let a := at_ s i 0 in
    let b := at_ s i 1 in
    let c := at_ s i 2 in
    let d := at_ s i 3 in
    let mix w x y z := Z.lxor (Z.lxor (Z.lxor (Multiply a w) (Multiply b x)) (Multiply c y)) (Multiply d z) in
    let s := put s i 0 (mix 0x0e 0x0b 0x0d 0x09) in
    let s := put s i 1 (mix 0x09 0x0e 0x0b 0x0d) in
    let s := put s i 2 (mix 0x0d 0x09 0x0e 0x0b) in
    put s i 3 (mix 0x0b 0x0d 0x09 0x0e)) s.

Definition InvSubBytes (s : state) : state := for44 (λ s i j, put s j i (getSBoxInvert (at_ s j i))) s.

Definition InvShiftRows (s : state) : state :=
  let temp := at_ s 3 1 in
  let s := put s 3 1 (at_ s 2 1) in
  let s := put s 2 1 (at_ s 1 1) in
  let s := put s 1 1 (at_ s 0 1) in
  let s := put s 0 1 temp in
  let temp := at_ s 0 2 in
  let s := put s 0 2 (at_ s 2 2) in
  let s := put s 2 2 temp in
  let temp := at_ s 1 2 in
  let s := put s 1 2 (at_ s 3 2) in
  let s := put s 3 2 temp in
  let temp := at_ s 0 3 in
  let s := put s 0 3 (at_ s 1 3) in
  let s := put s 1 3 (at_ s 2 3) in
  let s := put s 2 3 (at_ s 3 3) in
  put s 3 3 temp.

Definition InvCipher (mRoundKey : list Z) (s : state) : state :=
  let s := InvAddRoundKey mRoundKey NR s in
  let s := foldl (λ s round, InvMixColumns (InvAddRoundKey mRoundKey round (InvSubBytes (InvShiftRows s)))) s
             (rev (seq 1 (NR - 1))) in
  InvAddRoundKey mRoundKey 0 (InvSubBytes (InvShiftRows s)).

Definition AES128_ECB_decrypt (mKey input : list Z) : list Z := InvCipher (KeyExpansion mKey) input.

(** The example of FIPS 197, appendix C.1. *)
Example fips197_vector :
  let key := seqZ 0 16 in
  let plain := (λ i, 0x11 * i) <$> seqZ 0 16 in
  let cipher := [0x69; 0xc4; 0xe0; 0xd8; 0x6a; 0x7b; 0x04; 0x30; 0xd8; 0xcd; 0xb7; 0x80; 0x70; 0xb4; 0xc5; 0x5a] in
  AES128_ECB_encrypt key plain = cipher ∧ AES128_ECB_decrypt key cipher = plain.
Proof. by vm_compute. Qed.

(** ** Messages *)

(** Writing [data] to [dest + i]. *)
Definition write_at (dest : list Z) (i : Z) (data : list Z) : outcome (list Z) :=
  in_bounds (i + zlen data <=? zlen dest) ;;
  Ret (ztake i dest ++ data ++ zdrop (i + zlen data) dest).

Definition block_at (l : list Z) (i : Z) : list Z := ztake KEYLEN (zdrop (i * KEYLEN) l).

Definition kEncodeBuf : Z := 1024.

(** The [n] blocks from block [i] on; [iv] points to the key or to the last block of the
    text to be encrypted. *)
Fixpoint encrypt_loop (use_cbc : bool) (mKey encode_buf : list Z) (n : nat) (i : Z) (iv dest : list Z) :
    outcome (list Z) :=
  match n with
  | O => Ret dest
  | S n =>
      let block := block_at encode_buf i in
      let out := AES128_ECB_encrypt mKey block in
      let out := if use_cbc then zip_with Z.lxor out iv else out in
      dest ← write_at dest (i * KEYLEN) out;
      encrypt_loop use_cbc mKey encode_buf n (i + 1) (if use_cbc then block else iv) dest
  end.

(** Returns the result, the memory at [dest] and [len]. *)
Definition encrypt (use_cbc : bool) (mKey : list Z) (src : option (list Z)) (dest : list Z) (len : Z) :
    outcome (Z * list Z * Z) :=
  match src with
  | None => Ret (-1, dest, len)
  | Some src =>
      let src_len := zlen src in
      if len <? src_len then Ret (-1, dest, len)
      else
        in_bounds (src_len <=? kEncodeBuf) ;;
        let pading_size := u8 (KEYLEN - src_len mod KEYLEN) in
        in_bounds (src_len + pading_size <=? kEncodeBuf) ;;
        let encode_buf := src ++ replicate (Z.to_nat pading_size) pading_size ++
                            replicate (Z.to_nat (kEncodeBuf - src_len - pading_size)) 0 in
        let encode_buf_size := u32 (src_len + pading_size) in
        let round := encode_buf_size / KEYLEN in
        dest ← encrypt_loop use_cbc mKey encode_buf (Z.to_nat round) 0 (ztake KEYLEN mKey) dest;
        let len := encode_buf_size in
        if len <=? src_len then Ret (-1, dest, len)
        else
          dest ← write_at dest len [0];
          Ret (0, dest, len)
  end.

Fixpoint decrypt_loop (use_cbc : bool) (mKey src : list Z) (n : nat) (i : Z) (iv dest : list Z) :
    outcome (list Z) :=
  match n with
  | O => Ret dest
  | S n =>
      let block := block_at src i in
      let out := AES128_ECB_decrypt mKey block in
      let out := if use_cbc then zip_with Z.lxor out iv else out in
      dest ← write_at dest (i * KEYLEN) out;
      decrypt_loop use_cbc mKey src n (i + 1) (if use_cbc then block else iv) dest
  end.

Definition decrypt (use_cbc : bool) (mKey : list Z) (src : option (list Z)) (dest : list Z) (len : Z) :
    outcome (Z * list Z * Z) :=
  match src with
  | None => Ret (-1, dest, len)
  | Some src =>
      let src_len := zlen src in
      if src_len =? 0 then Ret (-1, dest, len)
      else if len <? src_len then Ret (-1, dest, len)
      else if negb (src_len mod KEYLEN =? 0) then Ret (-1, dest, len)
      else
        let round := src_len / KEYLEN in
        dest ← decrypt_loop use_cbc mKey src (Z.to_nat round) 0 (ztake KEYLEN mKey) dest;
        in_bounds (src_len <=? zlen dest) ;;
        let lastASIIC := elem dest (Z.to_nat (src_len - 1)) in
        let len := u32 (src_len - lastASIIC) in
        if src_len <=? len then Ret (-1, dest, len)
        else
          dest ← write_at dest len [0];
          Ret (0, dest, len)
  end.

(** ** FIPS 197 *)

Module Fips197.

(** Multiplication of polynomials over GF(2), and modulo x^8 + x^4 + x^3 + x + 1. *)
Definition clmul (a b : Z) : Z :=
  foldl (λ p i, if Z.testbit b i then Z.lxor p (Z.shiftl a i) else p) 0 (seqZ 0 8).
Definition reduce (p : Z) : Z :=
  foldl (λ p i, if Z.testbit p i then Z.lxor p (Z.shiftl 0x11b (i - 8)) else p) p [14; 13; 12; 11; 10; 9; 8].
Definition gmul (a b : Z) : Z := reduce (clmul a b).

(** The multiplicative inverse, 0 for 0. *)
Definition ginv (a : Z) : Z := default 0 (List.find (λ b, gmul a b =? 1) (seqZ 0 256)).

(** Section 5.1.1: the inverse, then the affine transformation. *)
Definition affine (b : Z) : Z :=
  foldl (λ y i,
    let bit k := Z.testbit b ((i + k) mod 8) in
    if xorb (xorb (xorb (xorb (xorb (bit 0) (bit 4)) (bit 5)) (bit 6)) (bit 7)) (Z.testbit 0x63 i)
    then Z.lor y (Z.shiftl 1 i) else y) 0 (seqZ 0 8).
Definition sbox (a : Z) : Z := affine (ginv a).

(** A block; its byte of row [r] and column [c] has the index [r + 4 * c]. *)
Definition byte_at (b : list Z) (r c : nat) : Z := nth (r + 4 * c) b 0.
Definition block (f : nat → nat → Z) : list Z :=
  [f 0 0; f 1 0; f 2 0; f 3 0; f 0 1; f 1 1; f 2 1; f 3 1;
   f 0 2; f 1 2; f 2 2; f 3 2; f 0 3; f 1 3; f 2 3; f 3 3]%nat.

Definition sub_bytes (b : list Z) : list Z := sbox <$> b.
Definition shift_rows (b : list Z) : list Z := block (λ r c, byte_at b r ((c + r) mod 4)).
Definition mix_columns (b : list Z) : list Z := block (λ r c,
  Z.lxor (Z.lxor (Z.lxor (gmul 2 (byte_at b r c)) (gmul 3 (byte_at b ((r + 1) mod 4) c)))
    (byte_at b ((r + 2) mod 4) c)) (byte_at b ((r + 3) mod 4) c)).
Definition add_round_key (k b : list Z) : list Z := zip_with Z.lxor b k.

(** Section 5.2, with Nk = 4: words of four bytes. *)
Definition xor_word (v w : list Z) : list Z := zip_with Z.lxor v w.
Definition rot_word (w : list Z) : list Z := drop 1 w ++ take 1 w.
Definition rcon (i : nat) : list Z := [Nat.iter (i - 1) (gmul 2) 1; 0; 0; 0].
Definition next_word (i : nat) (back prev : list Z) : list Z :=
  xor_word back (if (i mod 4 =? 0)%nat then xor_word (sbox <$> rot_word prev) (rcon (i / 4)) else prev).
Fixpoint words (n i : nat) (ws : list (list Z)) : list (list Z) :=
  match n with
  | O => ws
  | S n => words n (S i) (ws ++ [next_word i (nth (i - 4) ws []) (nth (i - 1) ws [])])
  end.
Definition key_words (key : list Z) : list (list Z) :=
  words 40 4 [take 4 key; take 4 (drop 4 key); take 4 (drop 8 key); take 4 (drop 12 key)].
Definition round_key (key : list Z) (round : nat) : list Z :=
  concat (take 4 (drop (4 * round) (key_words key))).

Definition cipher (key b : list Z) : list Z :=
  let b := add_round_key (round_key key 0) b in
  let b := foldl (λ b round, add_round_key (round_key key round) (mix_columns (shift_rows (sub_bytes b)))) b (seq 1 9) in
  add_round_key (round_key key 10) (shift_rows (sub_bytes b)).
End Fips197.

(** ** Bytes *)

Lemma byte_cases (P : Z → bool) : forallb P (seqZ 0 256) = true → ∀ x, is_byte x → P x = true.
Proof.
  rewrite forallb_forall. intros H x Hx. apply H, list_elem_of_In, elem_of_seqZ. unfold is_byte in Hx. lia.
Qed.

Lemma byte_eq (f g : Z → Z) : forallb (λ x, f x =? g x) (seqZ 0 256) = true → ∀ x, is_byte x → f x = g x.
Proof. intros H x Hx. by apply Z.eqb_eq, (byte_cases _ H x). Qed.

Lemma byte_range (f : Z → Z) : forallb (λ x, (0 <=? f x) && (f x <? 256)) (seqZ 0 256) = true →
  ∀ x, is_byte x → is_byte (f x).
Proof. intros H x Hx. pose proof (byte_cases _ H x Hx) as E. unfold is_byte. cbn in E. lia. Qed.

Lemma lxor_byte a b : is_byte a → is_byte b → is_byte (Z.lxor a b).
Proof.
  unfold is_byte. intros Ha Hb.
  assert (Z.lxor a b = Z.lxor a b mod 2 ^ 8) as E.
  { apply Z.bits_inj'. intros n Hn. destruct (Z.lt_ge_cases n 8).
    - by rewrite Z.mod_pow2_bits_low.
    - rewrite Z.mod_pow2_bits_high, Z.lxor_spec by lia.
      rewrite <- (Z.mod_small a (2 ^ 8)), <- (Z.mod_small b (2 ^ 8)) by lia.
      by rewrite !Z.mod_pow2_bits_high by lia. }
  rewrite E. apply Z.mod_pos_bound. lia.
Qed.

Lemma sbox_eq : ∀ x, is_byte x → getSBoxValue x = Fips197.sbox x.
Proof. apply byte_eq. vm_compute. reflexivity. Qed.
Lemma sbox_byte : ∀ x, is_byte x → is_byte (getSBoxValue x).
Proof. apply byte_range. vm_compute. reflexivity. Qed.
Lemma rsbox_sbox : ∀ x, is_byte x → getSBoxInvert (getSBoxValue x) = x.
Proof. apply byte_eq. vm_compute. reflexivity. Qed.
Lemma xtime_byte : ∀ x, is_byte x → is_byte (xtime x).
Proof. apply byte_range. vm_compute. reflexivity. Qed.
Lemma gmul2_xtime : ∀ x, is_byte x → Fips197.gmul 2 x = xtime x.
Proof. apply byte_eq. vm_compute. reflexivity. Qed.
Lemma gmul3_xtime : ∀ x, is_byte x → Fips197.gmul 3 x = Z.lxor (xtime x) x.
Proof. apply byte_eq. vm_compute. reflexivity. Qed.

(** A function on bytes that is linear over GF(2). *)
Definition linear (f : Z → Z) : Prop := ∀ a b, is_byte a → is_byte b → f (Z.lxor a b) = Z.lxor (f a) (f b).

Lemma linear_cases f :
  forallb (λ a, forallb (λ b, f (Z.lxor a b) =? Z.lxor (f a) (f b)) (seqZ 0 256)) (seqZ 0 256) = true → linear f.
Proof.
  intros H a b Ha Hb. apply Z.eqb_eq. apply (byte_cases (λ b, f (Z.lxor a b) =? Z.lxor (f a) (f b))); [|done].
  by apply (byte_cases _ H).
Qed.

Lemma xtime_linear : linear xtime.
Proof. apply linear_cases. vm_compute. reflexivity. Qed.

(** Equations between sums over GF(2), by bits. *)
Ltac xor_solve :=
  apply Z.bits_inj'; intros ? _; rewrite ?Z.lxor_spec, ?Z.bits_0; btauto.

Lemma Multiply_9 : ∀ x, is_byte x → Multiply x 0x09 = Z.lxor (xtime (xtime (xtime x))) x.
Proof. apply byte_eq. vm_compute. reflexivity. Qed.
Lemma Multiply_b : ∀ x, is_byte x → Multiply x 0x0b = Z.lxor (Z.lxor (xtime (xtime (xtime x))) (xtime x)) x.
Proof. apply byte_eq. vm_compute. reflexivity. Qed.
Lemma Multiply_d : ∀ x, is_byte x → Multiply x 0x0d = Z.lxor (Z.lxor (xtime (xtime (xtime x))) (xtime (xtime x))) x.
Proof. apply byte_eq. vm_compute. reflexivity. Qed.
Lemma Multiply_e : ∀ x, is_byte x →
  Multiply x 0x0e = Z.lxor (Z.lxor (xtime (xtime (xtime x))) (xtime (xtime x))) (xtime x).
Proof. apply byte_eq. vm_compute. reflexivity. Qed.

#[local] Hint Resolve lxor_byte xtime_byte sbox_byte : aes.

(** One column: the sum of the products with the inverse matrix is the column. *)
Definition mixed (a b c d : Z) : Z :=
  Z.lxor (Z.lxor (Z.lxor (xtime a) (Z.lxor (xtime b) b)) c) d.

Lemma mixed_byte a b c d : is_byte a → is_byte b → is_byte c → is_byte d → is_byte (mixed a b c d).
Proof. unfold mixed. auto 10 with aes. Qed.

Ltac unmix_solve :=
  intros; rewrite Multiply_e, Multiply_b, Multiply_d, Multiply_9 by auto using mixed_byte;
  unfold mixed; rewrite !xtime_linear by auto 10 with aes; xor_solve.

Lemma unmix_0 a b c d : is_byte a → is_byte b → is_byte c → is_byte d →
  Z.lxor (Z.lxor (Z.lxor (Multiply (mixed a b c d) 0x0e) (Multiply (mixed b c d a) 0x0b))
    (Multiply (mixed c d a b) 0x0d)) (Multiply (mixed d a b c) 0x09) = a.
Proof. unmix_solve. Qed.
Lemma unmix_1 a b c d : is_byte a → is_byte b → is_byte c → is_byte d →
  Z.lxor (Z.lxor (Z.lxor (Multiply (mixed a b c d) 0x09) (Multiply (mixed b c d a) 0x0e))
    (Multiply (mixed c d a b) 0x0b)) (Multiply (mixed d a b c) 0x0d) = b.
Proof. unmix_solve. Qed.
Lemma unmix_2 a b c d : is_byte a → is_byte b → is_byte c → is_byte d →
  Z.lxor (Z.lxor (Z.lxor (Multiply (mixed a b c d) 0x0d) (Multiply (mixed b c d a) 0x09))
    (Multiply (mixed c d a b) 0x0e)) (Multiply (mixed d a b c) 0x0b) = c.
Proof. unmix_solve. Qed.
Lemma unmix_3 a b c d : is_byte a → is_byte b → is_byte c → is_byte d →
  Z.lxor (Z.lxor (Z.lxor (Multiply (mixed a b c d) 0x0b) (Multiply (mixed b c d a) 0x0d))
    (Multiply (mixed c d a b) 0x09)) (Multiply (mixed d a b c) 0x0e) = d.
Proof. unmix_solve. Qed.

(** ** Blocks *)

Import Fips197.

(** A block is 16 bytes. *)
Record blk (b : list Z) : Prop := Blk {
  blk_len : length b = 16%nat;
  blk_bytes : Forall_byte b;
}.

Lemma length16 (l : list Z) : length l = 16%nat → ∃ x0 x1 x2 x3 x4 x5 x6 x7 x8 x9 xa xb xc xd xe xf,
  l = [x0; x1; x2; x3; x4; x5; x6; x7; x8; x9; xa; xb; xc; xd; xe; xf].
Proof.
  intros H. do 16 (destruct l as [|? l]; [done|]). destruct l; [|done]. by repeat eexists.
Qed.

(** Name the bytes of a block. *)
Ltac blk_cases H :=
  let Hl := fresh in let Hb := fresh in
  destruct H as [Hl Hb];
  destruct (length16 _ Hl) as (? & ? & ? & ? & ? & ? & ? & ? & ? & ? & ? & ? & ? & ? & ? & ? & ->);
  repeat (apply Forall_cons in Hb as [? Hb]); clear Hl Hb.

Ltac blk_done := split; [done|repeat (apply Forall_cons; split); auto 10 with aes].

Lemma sub_bytes_blk b : blk b → blk (sub_bytes b).
Proof.
  intros [Hl Hb]. split; [by unfold sub_bytes; rewrite length_fmap|]. apply Forall_fmap.
  eapply Forall_impl; [exact Hb|]. intros x Hx. cbn. rewrite <- sbox_eq by done. by apply sbox_byte.
Qed.
Lemma shift_rows_blk b : blk b → blk (shift_rows b).
Proof. intros H. blk_cases H. blk_done. Qed.

Lemma gmul_mixed a b c d : is_byte a → is_byte b →
  Z.lxor (Z.lxor (Z.lxor (gmul 2 a) (gmul 3 b)) c) d = mixed a b c d.
Proof. intros. unfold mixed. by rewrite gmul2_xtime, gmul3_xtime. Qed.

(** The columns of [mix_columns]. *)
Lemma mix_columns_eq b : blk b → mix_columns b = block (λ r c,
  mixed (byte_at b r c) (byte_at b ((r + 1) mod 4) c) (byte_at b ((r + 2) mod 4) c) (byte_at b ((r + 3) mod 4) c)).
Proof. intros H. blk_cases H. unfold mix_columns, block. cbn [byte_at nth Nat.add Nat.mul Nat.modulo Nat.divmod fst snd Nat.sub]. by rewrite !gmul_mixed by done. Qed.

Lemma mix_columns_blk b : blk b → blk (mix_columns b).
Proof.
  intros H. rewrite mix_columns_eq by done. blk_cases H. split; [done|].
  repeat (apply Forall_cons; split); try (apply mixed_byte; done). constructor.
Qed.
Lemma add_round_key_blk k b : blk k → blk b → blk (add_round_key k b).
Proof. intros Hk H. blk_cases Hk. blk_cases H. blk_done. Qed.

(** ** Encryption is that of the standard *)

Lemma load_store b : length b = 16%nat → store (load b) = b.
Proof. intros H. destruct (length16 b H) as (? & ? & ? & ? & ? & ? & ? & ? & ? & ? & ? & ? & ? & ? & ? & ? & ->). done. Qed.

Lemma SubBytes_load b : blk b → SubBytes (load b) = load (sub_bytes b).
Proof. intros H. blk_cases H. unfold sub_bytes. cbn [fmap list_fmap]. rewrite <- !sbox_eq by done. reflexivity. Qed.

Lemma ShiftRows_load b : blk b → ShiftRows (load b) = load (shift_rows b).
Proof. intros H. blk_cases H. reflexivity. Qed.

Lemma MixColumns_load b : blk b → MixColumns (load b) = load (mix_columns b).
Proof.
  intros H. rewrite mix_columns_eq by done. blk_cases H.
  lazy -[Z.lxor mixed xtime is_byte]. unfold mixed. rewrite !xtime_linear by done.
  repeat (apply f_equal2; [xor_solve|]). done.
Qed.

Lemma elem_take_drop l k n i : (i < n)%nat → elem (take n (drop k l)) i = elem l (k + i).
Proof. intros Hi. unfold elem. rewrite !nth_lookup, lookup_take_lt, lookup_drop by done. done. Qed.

(** Loops over all cells that change each one by itself. *)
Lemma for44_cols (f : nat → nat → Z → Z) b : length b = 16%nat →
  for44 (λ s i j, put s j i (f i j (at_ s j i))) (load b) = load (imap (λ k, f (k / 4) (k mod 4))%nat b).
Proof.
  intros Hb. destruct (length16 b Hb) as (? & ? & ? & ? & ? & ? & ? & ? & ? & ? & ? & ? & ? & ? & ? & ? & ->).
  lazy. reflexivity.
Qed.

Lemma for44_rows (f : nat → nat → Z → Z) b : length b = 16%nat →
  for44 (λ s i j, put s i j (f i j (at_ s i j))) b = imap (λ k, f (k / 4) (k mod 4))%nat b.
Proof.
  intros Hb. destruct (length16 b Hb) as (? & ? & ? & ? & ? & ? & ? & ? & ? & ? & ? & ? & ? & ? & ? & ? & ->).
  lazy. reflexivity.
Qed.

(** The bytes of round [r] of the key schedule. *)
Lemma round_bytes rk r b : length b = 16%nat → blk (take 16 (drop (16 * r) rk)) →
  imap (λ k x, Z.lxor x (elem rk (r * NB * 4 + k / 4 * NB + k mod 4)))%nat b =
  add_round_key (take 16 (drop (16 * r) rk)) b.
Proof.
  intros Hb [Hk _]. unfold add_round_key. apply list_eq. intros i. rewrite list_lookup_imap, lookup_zip_with.
  destruct (b !! i) as [x|] eqn:E; [|done]. pose proof (lookup_lt_Some _ _ _ E).
  destruct (lookup_lt_is_Some_2 (take 16 (drop (16 * r) rk)) i) as [y Hy]; [lia|]. rewrite Hy.
  cbn [fmap option_fmap option_map mbind option_bind]. do 2 f_equal.
  rewrite lookup_take_lt, lookup_drop in Hy by lia. unfold elem. rewrite nth_lookup.
  replace (r * NB * 4 + i / 4 * NB + i mod 4)%nat with (16 * r + i)%nat; [by rewrite Hy|].
  unfold NB. pose proof (Nat.div_mod_eq i 4). lia.
Qed.

Lemma AddRoundKey_load rk r b : length b = 16%nat → blk (take 16 (drop (16 * r) rk)) →
  AddRoundKey rk r (load b) = load (add_round_key (take 16 (drop (16 * r) rk)) b).
Proof.
  intros Hb Hk. unfold AddRoundKey. rewrite (for44_cols (λ i j x, Z.lxor x (elem rk (r * NB * 4 + i * NB + j))))  by done. by rewrite round_bytes.
Qed.

Lemma InvAddRoundKey_undo rk r b : length b = 16%nat → blk (take 16 (drop (16 * r) rk)) →
  InvAddRoundKey rk r (add_round_key (take 16 (drop (16 * r) rk)) b) = b.
Proof.
  intros Hb Hk. unfold InvAddRoundKey.
  assert (length (add_round_key (take 16 (drop (16 * r) rk)) b) = 16%nat) as Hl.
  { unfold add_round_key. rewrite length_zip_with, (blk_len _ Hk). lia. }
  rewrite (for44_rows (λ i j x, Z.lxor x (elem rk (r * NB * 4 + i * NB + j)))) by done. rewrite round_bytes by done. generalize dependent (take 16 (drop (16 * r) rk)).
  intros k Hk _. blk_cases Hk. destruct (length16 b Hb) as (? & ? & ? & ? & ? & ? & ? & ? & ? & ? & ? & ? & ? & ? & ? & ? & ->).
  cbn -[Z.lxor]. repeat (apply f_equal2; [xor_solve|]). done.
Qed.

(** ** Decryption undoes the steps *)

Lemma InvSubBytes_undo b : blk b → InvSubBytes (sub_bytes b) = b.
Proof.
  intros H. blk_cases H. unfold sub_bytes. cbn [fmap list_fmap]. rewrite <- !sbox_eq by done.
  lazy -[getSBoxInvert getSBoxValue]. by rewrite !rsbox_sbox by done.
Qed.

Lemma InvShiftRows_undo b : blk b → InvShiftRows (shift_rows b) = b.
Proof. intros H. blk_cases H. reflexivity. Qed.

Lemma InvMixColumns_undo b : blk b → InvMixColumns (mix_columns b) = b.
Proof.
  intros H. rewrite mix_columns_eq by done. blk_cases H. lazy -[Z.lxor mixed Multiply is_byte].
  by rewrite !unmix_0, !unmix_1, !unmix_2, !unmix_3 by done.
Qed.

(** ** The key schedule *)

(** Words of four bytes. *)
Definition word4 (w : list Z) : Prop := length w = 4%nat ∧ Forall_byte w.

Lemma word4_cases w : word4 w → ∃ a b c d, w = [a; b; c; d] ∧ is_byte a ∧ is_byte b ∧ is_byte c ∧ is_byte d.
Proof.
  intros [Hl Hb]. do 4 (destruct w as [|? w]; [done|]). destruct w; [|done].
  rewrite !Forall_cons in Hb. destruct Hb as (? & ? & ? & ? & _). do 4 eexists. done.
Qed.

Lemma word4_intro a b c d : is_byte a → is_byte b → is_byte c → is_byte d → word4 [a; b; c; d].
Proof. intros. split; [done|]. do 4 (apply Forall_cons; split; [done|]). constructor. Qed.

Lemma elem_concat ws k j : Forall word4 ws → (k < length ws)%nat → (j < 4)%nat →
  elem (concat ws) (k * 4 + j) = elem (nth k ws []) j.
Proof.
  intros Hws. revert k. induction Hws as [|w ws [Hw _] _ IH]; intros k Hk Hj; [cbn in Hk; lia|].
  unfold elem in *. destruct k as [|k]; cbn [concat nth].
  - rewrite app_nth1 by lia. done.
  - rewrite app_nth2 by lia. rewrite <- IH by (cbn in Hk; lia). f_equal. lia.
Qed.

Lemma rcon_eq i : (1 ≤ i ≤ 10)%nat → elem scRcon i = Nat.iter (i - 1) (gmul 2) 1 ∧ is_byte (elem scRcon i).
Proof.
  intros Hi.
  assert (forallb (λ i, (elem scRcon i =? Nat.iter (i - 1) (gmul 2) 1) && (0 <=? elem scRcon i) && (elem scRcon i <? 256))
    (seq 1 10) = true) as H by (vm_compute; reflexivity).
  rewrite forallb_forall in H. specialize (H i). rewrite in_seq in H. unfold is_byte. lia.
Qed.

(** One word of the schedule. *)
Lemma next_word_eq i ws : (4 ≤ i < 44)%nat → length ws = i → Forall word4 ws →
  let temp := key_temp (concat ws) i in
  let word j := Z.lxor (elem (concat ws) ((i - NK) * 4 + j)) (elem temp j) in
  [word 0%nat; word 1%nat; word 2%nat; word 3%nat] = next_word i (nth (i - 4) ws []) (nth (i - 1) ws []) ∧
  word4 (next_word i (nth (i - 4) ws []) (nth (i - 1) ws [])).
Proof.
  intros Hi Hl Hws temp word.
  assert (∀ k, (k < i)%nat → word4 (nth k ws [])) as Hnth.
  { intros k Hk. rewrite Forall_forall in Hws. apply Hws, list_elem_of_In, nth_In. lia. }
  assert (∀ j, (j < 4)%nat → word j = Z.lxor (elem (nth (i - 4) ws []) j) (elem temp j)) as Hword.
  { intros j Hj. unfold word, NK. by rewrite elem_concat by (done || lia). }
  rewrite !Hword by lia. unfold temp, key_temp, NK. rewrite !elem_concat by (done || lia). clear Hword word temp.
  destruct (word4_cases _ (Hnth (i - 4)%nat ltac:(lia))) as (q0 & q1 & q2 & q3 & -> & ? & ? & ? & ?).
  destruct (word4_cases _ (Hnth (i - 1)%nat ltac:(lia))) as (p0 & p1 & p2 & p3 & -> & ? & ? & ? & ?).
  unfold next_word, rcon. destruct (Nat.eqb_spec (i mod 4) 0) as [Hm|Hm].
  - destruct (rcon_eq (i / 4)) as [Hr Hrb].
    { pose proof (Nat.div_mod_eq i 4). lia. }
    rewrite <- Hr. cbn -[Z.lxor getSBoxValue sbox scRcon Nat.div]. rewrite <- !sbox_eq, !Z.lxor_0_r by done.
    split; [done|]. split; [done|]. repeat (apply Forall_cons; split); auto with aes.
  - cbn -[Z.lxor]. split; [done|]. split; [done|]. repeat (apply Forall_cons; split); auto with aes.
Qed.

Lemma words_expand n i ws : (4 ≤ i)%nat → length ws = i → Forall word4 ws → (i + n ≤ 44)%nat →
  expand_loop n i (concat ws) = concat (words n i ws) ∧ Forall word4 (words n i ws) ∧
  length (words n i ws) = (i + n)%nat.
Proof.
  revert i ws. induction n as [|n IH]; intros i ws Hi Hl Hws Hn; cbn [expand_loop words].
  { split_and!; [done..|lia]. }
  destruct (next_word_eq i ws) as [-> Hw]; [lia|done..|]. set (w := next_word _ _ _) in *.
  replace (concat ws ++ w) with (concat (ws ++ [w])) by (rewrite concat_app; cbn; by rewrite app_nil_r).
  destruct (IH (S i) (ws ++ [w])) as (-> & ? & ->); [lia|rewrite length_app; cbn; lia| |lia|].
  { apply Forall_app. split; [done|]. by apply Forall_singleton. }
  split_and!; [done..|lia].
Qed.

Lemma KeyExpansion_words key ws : length key = 16%nat → concat ws = key → length ws = 4%nat → Forall word4 ws →
  KeyExpansion key = concat (words 40 4 ws) ∧ Forall word4 (words 40 4 ws) ∧ length (words 40 4 ws) = 44%nat.
Proof.
  intros Hk <- Hl Hws. unfold KeyExpansion. rewrite take_ge by lia. by apply words_expand; [lia|..|lia].
Qed.

Lemma key_words_ok key : blk key →
  KeyExpansion key = concat (key_words key) ∧ Forall word4 (key_words key) ∧ length (key_words key) = 44%nat.
Proof.
  intros H. apply KeyExpansion_words; [apply H|by blk_cases H|done|].
  blk_cases H. do 4 (apply Forall_cons; split; [by apply word4_intro|]). constructor.
Qed.

Lemma concat_drop ws k : Forall word4 ws → drop (4 * k) (concat ws) = concat (drop k ws).
Proof.
  intros Hws. revert k. induction Hws as [|w ws [Hw _] _ IH]; intros k; [by destruct k|].
  destruct k as [|k]; [done|]. cbn [concat drop]. rewrite <- IH, drop_app, drop_ge, Hw by lia. cbn. f_equal. lia.
Qed.

(** The round keys of the standard are the slices of [mRoundKey]. *)
Lemma round_key_eq key r : blk key → (r ≤ 10)%nat →
  round_key key r = take 16 (drop (16 * r) (KeyExpansion key)) ∧ blk (round_key key r).
Proof.
  intros H Hr. destruct (key_words_ok key H) as (-> & Hws & Hl). unfold round_key.
  replace (16 * r)%nat with (4 * (4 * r))%nat by lia. rewrite concat_drop by done.
  generalize dependent (key_words key). intros ws Hws Hl.
  assert (Forall word4 (drop (4 * r) ws)) as Hd by by apply Forall_drop.
  assert (4 ≤ length (drop (4 * r) ws))%nat as Hn by (rewrite length_drop; lia).
  generalize dependent (drop (4 * r) ws). intros l Hf Hn.
  do 4 (destruct l as [|? l]; [cbn in Hn; lia|]; apply Forall_cons in Hf as [(? & ? & ? & ? & -> & ? & ? & ? & ?)%word4_cases Hf]).
  split; [done|]. split; [done|]. do 16 (apply Forall_cons; split; [done|]). constructor.
Qed.

(** A step of encryption: the rounds but the last, and the last. *)
Definition enc_round (key : list Z) (b : list Z) (r : nat) : list Z :=
  add_round_key (round_key key r) (mix_columns (shift_rows (sub_bytes b))).

Lemma enc_round_blk key b r : blk key → (r ≤ 10)%nat → blk b → blk (enc_round key b r).
Proof.
  intros Hk Hr Hb. apply add_round_key_blk; [by apply round_key_eq|].
  by apply mix_columns_blk, shift_rows_blk, sub_bytes_blk.
Qed.

Lemma enc_rounds_blk key rs b : blk key → Forall (λ r, r ≤ 10)%nat rs → blk b → blk (foldl (enc_round key) b rs).
Proof.
  intros Hk Hrs. revert b. induction Hrs as [|r rs Hr _ IH]; intros b Hb; [done|].
  cbn [foldl]. by apply IH, enc_round_blk.
Qed.

Lemma AddRoundKey_eq key r b : blk key → (r ≤ 10)%nat → blk b →
  AddRoundKey (KeyExpansion key) r (load b) = load (add_round_key (round_key key r) b).
Proof.
  intros Hk Hr Hb. destruct (round_key_eq key r Hk Hr) as [E Hrk]. rewrite E in *.
  apply AddRoundKey_load; [apply Hb|done].
Qed.

Lemma InvAddRoundKey_eq key r b : blk key → (r ≤ 10)%nat → blk b →
  InvAddRoundKey (KeyExpansion key) r (add_round_key (round_key key r) b) = b.
Proof.
  intros Hk Hr Hb. destruct (round_key_eq key r Hk Hr) as [E Hrk]. rewrite E in *.
  apply InvAddRoundKey_undo; [apply Hb|done].
Qed.

Lemma rounds_le : Forall (λ r, r ≤ 10)%nat (seq 1 9).
Proof. apply Forall_forall. intros r Hr%elem_of_seq. lia. Qed.

#[local] Hint Resolve sub_bytes_blk shift_rows_blk mix_columns_blk add_round_key_blk enc_rounds_blk rounds_le : blk.

Lemma Cipher_rounds key rs b : blk key → Forall (λ r, r ≤ 10)%nat rs → blk b →
  foldl (λ s round, AddRoundKey (KeyExpansion key) round (MixColumns (ShiftRows (SubBytes s)))) (load b) rs =
  load (foldl (enc_round key) b rs).
Proof.
  intros Hk Hrs. revert b. induction Hrs as [|r rs Hr _ IH]; intros b Hb; [done|]. cbn [foldl].
  rewrite SubBytes_load, ShiftRows_load, MixColumns_load, AddRoundKey_eq by auto with blk.
  apply IH. by apply enc_round_blk.
Qed.

Lemma round_key_blk key r : blk key → (r ≤ 10)%nat → blk (round_key key r).
Proof. intros. by apply round_key_eq. Qed.

Lemma AES128_ECB_encrypt_eq key b : blk key → blk b → AES128_ECB_encrypt key b = cipher key b.
Proof.
  intros Hk Hb. unfold AES128_ECB_encrypt, Cipher, cipher, NR.
  assert (blk (round_key key 0)) by (apply round_key_blk; [done|lia]).
  assert (blk (round_key key 10)) by (apply round_key_blk; [done|lia]).
  rewrite AddRoundKey_eq by (done || lia). change (10 - 1)%nat with 9%nat.
  rewrite Cipher_rounds by auto with blk. fold (enc_round key).
  rewrite SubBytes_load, ShiftRows_load, AddRoundKey_eq by (lia || auto 10 with blk).
  rewrite load_store; [done|]. apply blk_len. auto 10 with blk.
Qed.

Lemma InvCipher_rounds key rs b : blk key → Forall (λ r, r ≤ 10)%nat rs → blk b →
  foldl (λ s round, InvMixColumns (InvAddRoundKey (KeyExpansion key) round (InvSubBytes (InvShiftRows s))))
    (shift_rows (sub_bytes (foldl (enc_round key) b rs))) (rev rs) = shift_rows (sub_bytes b).
Proof.
  intros Hk. revert b. induction rs as [|r rs IH]; intros b Hrs Hb; [done|].
  apply Forall_cons in Hrs as [Hr Hrs]. cbn [rev foldl]. rewrite foldl_app, IH by (done || by apply enc_round_blk).
  cbn [foldl]. unfold enc_round. rewrite InvShiftRows_undo, InvSubBytes_undo, InvAddRoundKey_eq, InvMixColumns_undo; auto 10 with blk.
  all: auto 10 using round_key_blk with blk.
Qed.

Lemma aes_undo key b : blk key → blk b → AES128_ECB_decrypt key (cipher key b) = b.
Proof.
  intros Hk Hb. unfold AES128_ECB_decrypt, InvCipher, cipher, NR. fold (enc_round key).
  assert (blk (round_key key 0)) by (apply round_key_blk; [done|lia]).
  rewrite InvAddRoundKey_eq by (lia || auto 10 with blk). change (10 - 1)%nat with 9%nat.
  rewrite InvCipher_rounds by auto with blk.
  rewrite InvShiftRows_undo, InvSubBytes_undo by auto with blk.
  by apply InvAddRoundKey_eq; [|lia|].
Qed.

(** ** Messages in ECB mode *)

Lemma zlen_KEYLEN (b : list Z) : length b = 16%nat → zlen b = KEYLEN.
Proof. unfold KEYLEN. lia. Qed.

Lemma block_at_mid pre b post i : zlen pre = i * KEYLEN → length b = 16%nat → block_at (pre ++ b ++ post) i = b.
Proof.
  intros Hp Hb. unfold block_at. rewrite zdrop_app by done. apply ztake_app. by rewrite zlen_KEYLEN.
Qed.

Lemma write_at_mid pre d post i data : zlen pre = i → length d = length data →
  write_at (pre ++ d ++ post) i data = Ret (pre ++ data ++ post).
Proof.
  intros <- Hd. unfold write_at. rewrite in_bounds_true by (apply Z.leb_le; rewrite !length_app; lia).
  rewrite ztake_app, (app_assoc pre d), zdrop_app by (rewrite ?length_app; lia). done.
Qed.

Lemma write_at_one pre x post i v : zlen pre = i → write_at (pre ++ x :: post) i [v] = Ret (pre ++ v :: post).
Proof. intros. by apply (write_at_mid pre [x] post i [v]). Qed.

Lemma AES128_ECB_encrypt_blk key b : blk key → blk b → blk (AES128_ECB_encrypt key b).
Proof.
  intros Hk Hb. rewrite AES128_ECB_encrypt_eq by done. unfold cipher. fold (enc_round key).
  assert (blk (round_key key 0)) by (apply round_key_blk; [done|lia]).
  assert (blk (round_key key 10)) by (apply round_key_blk; [done|lia]). auto 10 with blk.
Qed.

(** The loop over blocks in ECB mode, with the blocks already read and written before it. *)
Lemma encrypt_loop_ecb key bs bpre bpost iv pre dst post i : blk key → Forall blk bs →
  zlen bpre = i * KEYLEN → zlen pre = i * KEYLEN → length dst = (16 * length bs)%nat →
  encrypt_loop false key (bpre ++ concat bs ++ bpost) (length bs) i iv (pre ++ dst ++ post) =
  Ret (pre ++ concat (AES128_ECB_encrypt key <$> bs) ++ post).
Proof.
  intros Hk Hbs. revert bpre pre dst i. induction Hbs as [|b bs Hb _ IH]; intros bpre pre dst i Hbp Hp Hd.
  { cbn in Hd. by destruct dst. }
  cbn [concat length encrypt_loop fmap list_fmap]. cbn [length] in Hd.
  pose proof (AES128_ECB_encrypt_blk key b Hk Hb) as [He _].
  rewrite <- (app_assoc b), block_at_mid by (done || apply Hb).
  rewrite <- (take_drop 16 dst), <- (app_assoc (take 16 dst)), write_at_mid by (rewrite ?length_take; lia). rewrite bind_ret.
  pose proof (zlen_KEYLEN _ He). pose proof (zlen_KEYLEN _ (blk_len _ Hb)).
  rewrite (app_assoc bpre), (app_assoc pre), IH.
  - by rewrite <- !app_assoc.
  - rewrite length_app. lia.
  - rewrite length_app. lia.
  - rewrite length_drop. lia.
Qed.

Lemma decrypt_loop_ecb key bs bpre bpost iv pre dst post i : blk key → Forall blk bs →
  zlen bpre = i * KEYLEN → zlen pre = i * KEYLEN → length dst = (16 * length bs)%nat →
  decrypt_loop false key (bpre ++ concat (AES128_ECB_encrypt key <$> bs) ++ bpost) (length bs) i iv (pre ++ dst ++ post) =
  Ret (pre ++ concat bs ++ post).
Proof.
  intros Hk Hbs. revert bpre pre dst i. induction Hbs as [|b bs Hb _ IH]; intros bpre pre dst i Hbp Hp Hd.
  { cbn in Hd. by destruct dst. }
  cbn [concat length decrypt_loop fmap list_fmap]. cbn [length] in Hd.
  pose proof (AES128_ECB_encrypt_blk key b Hk Hb) as [He _]. pose proof (blk_len _ Hb).
  rewrite <- (app_assoc (AES128_ECB_encrypt key b)), block_at_mid by done.
  rewrite AES128_ECB_encrypt_eq, aes_undo by done. rewrite AES128_ECB_encrypt_eq in He by done.
  rewrite <- (take_drop 16 dst), <- (app_assoc (take 16 dst)), write_at_mid by (rewrite ?length_take; lia). rewrite bind_ret.
  pose proof (zlen_KEYLEN _ He). pose proof (zlen_KEYLEN _ (blk_len _ Hb)).
  rewrite (app_assoc bpre), (app_assoc pre), IH.
  - by rewrite <- !app_assoc.
  - rewrite length_app. lia.
  - rewrite length_app. lia.
  - rewrite length_drop. lia.
Qed.

Lemma encrypt_loop_all key bs bpost iv dst post : blk key → Forall blk bs → length dst = (16 * length bs)%nat →
  encrypt_loop false key (concat bs ++ bpost) (length bs) 0 iv (dst ++ post) =
  Ret (concat (AES128_ECB_encrypt key <$> bs) ++ post).
Proof. intros. by apply (encrypt_loop_ecb key bs [] bpost iv [] dst post 0). Qed.

Lemma decrypt_loop_all key bs iv dst post : blk key → Forall blk bs → length dst = (16 * length bs)%nat →
  decrypt_loop false key (concat (AES128_ECB_encrypt key <$> bs)) (length bs) 0 iv (dst ++ post) =
  Ret (concat bs ++ post).
Proof.
  intros. pose proof (decrypt_loop_ecb key bs [] [] iv [] dst post 0) as L. rewrite app_nil_r in L. by apply L.
Qed.

Lemma blocks_of m l : length l = (16 * m)%nat → Forall_byte l →
  ∃ bs, length bs = m ∧ concat bs = l ∧ Forall blk bs.
Proof.
  revert l. induction m as [|m IH]; intros l Hl Hb.
  { exists []. destruct l; [done|cbn in Hl; lia]. }
  destruct (IH (drop 16 l)) as (bs & <- & Hc & Hbs); [rewrite length_drop; lia|by apply Forall_drop|].
  exists (take 16 l :: bs). cbn [length concat]. rewrite Hc, take_drop. split_and!; [done..|].
  apply Forall_cons. split; [|done]. split; [rewrite length_take; lia|by apply Forall_take].
Qed.

Lemma blocks_length bs : Forall blk bs → zlen (concat bs) = 16 * zlen bs.
Proof.
  induction 1 as [|b bs Hb _ IH]; [done|]. cbn [concat length]. rewrite length_app, (blk_len _ Hb). lia.
Qed.

Lemma encrypted_blks key bs : blk key → Forall blk bs → Forall blk (AES128_ECB_encrypt key <$> bs).
Proof. intros Hk Hbs. apply Forall_fmap. eapply Forall_impl; [exact Hbs|]. intros. by apply AES128_ECB_encrypt_blk. Qed.

(** The PKCS padding: 1 to 16 bytes, each the length of the padding. *)
Definition padding (src : list Z) : Z := KEYLEN - zlen src mod KEYLEN.
Definition padded (src : list Z) : list Z := src ++ replicate (Z.to_nat (padding src)) (padding src).

Lemma padding_range src : 1 ≤ padding src ≤ 16.
Proof. unfold padding, KEYLEN. dlia. Qed.

Lemma length_padded src : zlen (padded src) = zlen src + padding src.
Proof. pose proof (padding_range src). unfold padded. rewrite length_app, length_replicate. lia. Qed.

Lemma last_padding src post : elem (padded src ++ post) (Z.to_nat (zlen src + padding src - 1)) = padding src.
Proof.
  pose proof (padding_range src). unfold elem, padded.
  rewrite <- app_assoc, app_nth2, app_nth1 by (rewrite ?length_replicate; lia).
  by rewrite nth_lookup, lookup_replicate_2 by lia.
Qed.

Lemma padded_blocks src : Forall_byte src →
  ∃ bs, concat bs = padded src ∧ Forall blk bs ∧ 16 * zlen bs = zlen src + padding src.
Proof.
  intros Hs. pose proof (length_padded src) as Hl. pose proof (padding_range src) as Hr.
  assert (zlen src + padding src = 16 * (zlen src / 16 + 1)) as E by (unfold padding, KEYLEN; dlia).
  destruct (blocks_of (Z.to_nat (zlen src / 16 + 1)) (padded src)) as (bs & Hn & Hc & Hb); [dlia| |].
  { apply Forall_app. split; [done|]. apply Forall_replicate. unfold is_byte. lia. }
  exists bs. split_and!; [done..|]. dlia.
Qed.

Lemma encrypt_ecb key src bs dst x post len : blk key → Forall blk bs → concat bs = padded src →
  16 * zlen bs = zlen src + padding src → zlen src < kEncodeBuf → zlen src ≤ len → length dst = (16 * length bs)%nat →
  encrypt false key (Some src) (dst ++ x :: post) len =
  Ret (0, concat (AES128_ECB_encrypt key <$> bs) ++ 0 :: post, 16 * zlen bs).
Proof.
  intros Hk Hbs Hc Hn Hs Hlen Hd. pose proof (padding_range src) as Hr. unfold encrypt.
  assert (u8 (KEYLEN - zlen src mod KEYLEN) = padding src) as -> by (apply Z.mod_small; fold (padding src); lia).
  assert (16 * zlen bs ≤ kEncodeBuf) as Hbuf by (unfold kEncodeBuf in *; lia).
  destruct (Z.ltb_spec len (zlen src)); [lia|]. orun.
  assert (u32 (zlen src + padding src) = 16 * zlen bs) as -> by (unfold kEncodeBuf in *; rewrite <- Hn; apply Z.mod_small; lia).
  replace (Z.to_nat (16 * zlen bs / KEYLEN)) with (length bs) by (unfold KEYLEN; dlia).
  rewrite app_assoc. fold (padded src). rewrite <- Hc.
  rewrite encrypt_loop_all by done. orun.
  destruct (Z.leb_spec (16 * zlen bs) (zlen src)); [lia|].
  rewrite write_at_one; [done|].
  rewrite (blocks_length (AES128_ECB_encrypt key <$> bs)), length_fmap by by apply encrypted_blks. done.
Qed.

(** Decryption of what was encrypted: the message again, and a 0 after it. *)
Lemma decrypt_ecb key src bs dst post len : blk key → Forall blk bs → concat bs = padded src →
  16 * zlen bs = zlen src + padding src → 16 * zlen bs ≤ len → 16 * zlen bs < 2 ^ 32 →
  length dst = (16 * length bs)%nat →
  decrypt false key (Some (concat (AES128_ECB_encrypt key <$> bs))) (dst ++ post) len =
  Ret (0, src ++ 0 :: replicate (Z.to_nat (padding src - 1)) (padding src) ++ post, zlen src).
Proof.
  intros Hk Hbs Hc Hn Hlen H32 Hd. pose proof (padding_range src) as Hr. unfold decrypt.
  assert (zlen (concat (AES128_ECB_encrypt key <$> bs)) = 16 * zlen bs) as ->.
  { by rewrite blocks_length, length_fmap by by apply encrypted_blks. }
  destruct (Z.eqb_spec (16 * zlen bs) 0); [lia|]. destruct (Z.ltb_spec len (16 * zlen bs)); [lia|].
  destruct (Z.eqb_spec (16 * zlen bs mod KEYLEN) 0); [|unfold KEYLEN in *; dlia]. cbn [negb].
  replace (Z.to_nat (16 * zlen bs / KEYLEN)) with (length bs) by (unfold KEYLEN; dlia).
  rewrite decrypt_loop_all by done. orun. rewrite Hc. pose proof (length_padded src) as Hp.
  rewrite in_bounds_true by (apply Z.leb_le; rewrite length_app; lia). orun.
  replace (elem (padded src ++ post) (Z.to_nat (16 * zlen bs - 1))) with (padding src) by by rewrite Hn, last_padding.
  assert (u32 (16 * zlen bs - padding src) = zlen src) as -> by (rewrite Hn, Z.add_simpl_r; apply Z.mod_small; lia).
  destruct (Z.leb_spec (16 * zlen bs) (zlen src)); [lia|].
  unfold padded. replace (Z.to_nat (padding src)) with (S (Z.to_nat (padding src - 1))) by lia. cbn [replicate].
  rewrite <- app_assoc. cbn [app]. by rewrite write_at_one.
Qed.

(** ** The theorems *)

(** C31: [AES128_ECB_encrypt] is the cipher of FIPS 197, for every key and block: its table
    is the inverse in GF(2^8) followed by the affine map, its in-place rotations and xtime
    columns are ShiftRows and MixColumns, and its 176-byte array is the key schedule. *)
Theorem aes_is_fips197 key b : blk key → blk b → AES128_ECB_encrypt key b = cipher key b.
Proof. apply AES128_ECB_encrypt_eq. Qed.

Lemma blk_dec b : length b = 16%nat → forallb (λ x, (0 <=? x) && (x <? 256)) b = true → blk b.
Proof.
  intros Hl Hb. split; [done|]. rewrite forallb_forall in Hb. apply Forall_forall. intros x Hx%list_elem_of_In%Hb.
  unfold is_byte. lia.
Defined.

Lemma aes_is_fips197_witness : AES128_ECB_encrypt (seqZ 0 16) (seqZ 16 16) = cipher (seqZ 0 16) (seqZ 16 16).
Proof. apply aes_is_fips197; by apply blk_dec. Defined.

(** C32: what [encrypt] writes in ECB mode, [decrypt] reads: a message of less than 1024
    bytes is padded to the next multiple of 16, encrypted into that many bytes at [dest]
    followed by a 0, and decrypting those bytes gives the message followed by a 0 and its
    length, for every key and whatever the two buffers held. *)
Theorem aes_message_roundtrip key src dst x post len dst' post' len' :
  blk key → Forall_byte src → zlen src < kEncodeBuf → zlen src ≤ len →
  zlen dst = zlen src + padding src → zlen dst' = zlen src + padding src → zlen src + padding src ≤ len' →
  ∃ secret rest, zlen secret = zlen src + padding src ∧
    encrypt false key (Some src) (dst ++ x :: post) len = Ret (0, secret ++ 0 :: post, zlen secret) ∧
    decrypt false key (Some secret) (dst' ++ post') len' = Ret (0, src ++ 0 :: rest ++ post', zlen src).
Proof.
  intros Hk Hs Hlt Hlen Hd Hd' Hlen'. destruct (padded_blocks src Hs) as (bs & Hc & Hbs & Hn).
  pose proof (padding_range src).
  assert (zlen (concat (AES128_ECB_encrypt key <$> bs)) = 16 * zlen bs) as Hl.
  { by rewrite blocks_length, length_fmap by by apply encrypted_blks. }
  eexists _, _. split; [by rewrite Hl|]. rewrite Hl at 1. split.
  - apply encrypt_ecb; [done..|lia].
  - apply decrypt_ecb; [done..|lia|unfold kEncodeBuf in *; lia|lia].
Qed.

Lemma aes_message_roundtrip_witness :
  let src := seqZ 0 20 in
  ∃ secret rest, zlen secret = 32 ∧
    encrypt false (seqZ 0 16) (Some src) (replicate 32 7 ++ 7 :: []) 32 = Ret (0, secret ++ 0 :: [], zlen secret) ∧
    decrypt false (seqZ 0 16) (Some secret) (replicate 32 7 ++ [7]) 32 = Ret (0, src ++ 0 :: rest ++ [7], 20).
Proof.
  intros src. apply (aes_message_roundtrip (seqZ 0 16) src (replicate 32 7) 7 [] 32 (replicate 32 7) [7] 32).
  - by apply blk_dec.
  - apply Forall_forall. intros x Hx%elem_of_seqZ. unfold is_byte. lia.
  - done.
  - by vm_compute.
  - done.
  - done.
  - by vm_compute.
Defined.

(** a message of 1024 bytes or more overruns [encode_buf], whatever the room at
    [dest]: [encrypt] compares the lengths of [src] and [dest] only. *)
Theorem long_message_overflows use_cbc key src dest len : kEncodeBuf ≤ zlen src ≤ len →
  encrypt use_cbc key (Some src) dest len = Abort OutOfBounds.
Proof.
  intros [Hs Hlen]. unfold encrypt. destruct (Z.ltb_spec len (zlen src)); [lia|].
  pose proof (padding_range src) as Hr.
  assert (u8 (KEYLEN - zlen src mod KEYLEN) = padding src) as -> by (apply Z.mod_small; fold (padding src); lia).
  destruct (Z.leb_spec (zlen src) kEncodeBuf); cbn [in_bounds]; orun; [|done].
  destruct (Z.leb_spec (zlen src + padding src) kEncodeBuf); [lia|done].
Qed.

Lemma long_message_overflows_witness :
  encrypt false (seqZ 0 16) (Some (replicate 1024 0)) (replicate 2048 0) 2048 = Abort OutOfBounds.
Proof. apply long_message_overflows. by vm_compute. Defined.

(** The CBC mode of [decrypt] does not undo that of [encrypt]: [encrypt] encrypts the block
    first and then adds the block of plain text before it, [decrypt] adds the block of
    cipher text before it.  A one-byte message is refused. *)
Lemma cbc_does_not_roundtrip : ∃ secret d n,
  encrypt true (seqZ 0 16) (Some [0x61]) (replicate 17 0) 16 = Ret (0, secret ++ [0], 16) ∧
  decrypt true (seqZ 0 16) (Some secret) (replicate 17 0) 16 = Ret (-1, d, n).
Proof.
  exists (zip_with Z.lxor (AES128_ECB_encrypt (seqZ 0 16) (padded [0x61])) (seqZ 0 16)).
  do 2 eexists. split; vm_compute; reflexivity.
Qed.
End Aes.
