(* ===== verification/Md5.v ===== *)
(** * Md5: the digest of the API server (src/https/mymd5.{h,cpp})

    [MD5Transform] hashes one block with four variables that are renamed instead of moved;
    [MD5Update] accepts the message in pieces and [MD5Final] pads; [MD5Encode32] writes the
    digest in hexadecimal.  The reference is RFC 1321 on a whole message, with the constants
    computed from the sine as the RFC defines them. *)

From S2P Require Import Prelude Endian Buffer BlockHash.
Import Endian Buffer.

Module Md5.

(** ** Arithmetic of [unsigned int] *)

Definition not32 (x : Z) : Z := Z.lxor x 0xffffffff.
Definition ROTATE_LEFT (x n : Z) : Z := Z.lor (u32 (Z.shiftl x n)) (Z.shiftr x (32 - n)).

(** ** MD5Transform *)

Inductive reg : Type := a | b | c | d.
#[export] Instance reg_eq_dec : EqDecision reg.
Proof. solve_decision. Defined.

Record Vars : Type := mkVars { va : Z; vb : Z; vc : Z; vd : Z }.

Definition get (s : Vars) (r : reg) : Z :=
  match r with a => va s | b => vb s | c => vc s | d => vd s end.

Definition put (s : Vars) (r : reg) (x : Z) : Vars :=
  match r with
  | a => mkVars x (vb s) (vc s) (vd s)
  | b => mkVars (va s) x (vc s) (vd s)
  | c => mkVars (va s) (vb s) x (vd s)
  | d => mkVars (va s) (vb s) (vc s) x
  end.

Inductive macro : Type := FF | GG | HH | II.

(** [F__], [G__], [H__] and [I__]. *)
Definition mix (m : macro) (x y z : Z) : Z :=
  match m with
  | FF => Z.lor (Z.land x y) (Z.land (not32 x) z)
  | GG => Z.lor (Z.land x z) (Z.land y (not32 z))
  | HH => Z.lxor (Z.lxor x y) z
  | II => Z.lxor y (Z.lor x (not32 z))
  end.

(** One line of the unrolled loop: a macro with its arguments. *)
Record op_t : Type := op {
  op_m : macro; op_a : reg; op_b : reg; op_c : reg; op_d : reg; op_x : nat; op_s : Z; op_ac : Z }.

Definition run_op (x : list Z) (s : Vars) (o : op_t) : Vars :=
  let s := put s (op_a o)
    (u32 (get s (op_a o) + (mix (op_m o) (get s (op_b o)) (get s (op_c o)) (get s (op_d o)) + nth (op_x o) x 0 + op_ac o))) in
  let s := put s (op_a o) (ROTATE_LEFT (get s (op_a o)) (op_s o)) in
  put s (op_a o) (u32 (get s (op_a o) + get s (op_b o))).

Definition rounds : list op_t :=
  [
   op FF a b c d 0 7 0xd76aa478; op FF d a b c 1 12 0xe8c7b756;
   op FF c d a b 2 17 0x242070db; op FF b c d a 3 22 0xc1bdceee;
   op FF a b c d 4 7 0xf57c0faf; op FF d a b c 5 12 0x4787c62a;
   op FF c d a b 6 17 0xa8304613; op FF b c d a 7 22 0xfd469501;
   op FF a b c d 8 7 0x698098d8; op FF d a b c 9 12 0x8b44f7af;
   op FF c d a b 10 17 0xffff5bb1; op FF b c d a 11 22 0x895cd7be;
   op FF a b c d 12 7 0x6b901122; op FF d a b c 13 12 0xfd987193;
   op FF c d a b 14 17 0xa679438e; op FF b c d a 15 22 0x49b40821;
   op GG a b c d 1 5 0xf61e2562; op GG d a b c 6 9 0xc040b340;
   op GG c d a b 11 14 0x265e5a51; op GG b c d a 0 20 0xe9b6c7aa;
   op GG a b c d 5 5 0xd62f105d; op GG d a b c 10 9 0x2441453;
   op GG c d a b 15 14 0xd8a1e681; op GG b c d a 4 20 0xe7d3fbc8;
   op GG a b c d 9 5 0x21e1cde6; op GG d a b c 14 9 0xc33707d6;
   op GG c d a b 3 14 0xf4d50d87; op GG b c d a 8 20 0x455a14ed;
   op GG a b c d 13 5 0xa9e3e905; op GG d a b c 2 9 0xfcefa3f8;
   op GG c d a b 7 14 0x676f02d9; op GG b c d a 12 20 0x8d2a4c8a;
   op HH a b c d 5 4 0xfffa3942; op HH d a b c 8 11 0x8771f681;
   op HH c d a b 11 16 0x6d9d6122; op HH b c d a 14 23 0xfde5380c;
   op HH a b c d 1 4 0xa4beea44; op HH d a b c 4 11 0x4bdecfa9;
   op HH c d a b 7 16 0xf6bb4b60; op HH b c d a 10 23 0xbebfbc70;
   op HH a b c d 13 4 0x289b7ec6; op HH d a b c 0 11 0xeaa127fa;
   op HH c d a b 3 16 0xd4ef3085; op HH b c d a 6 23 0x4881d05;
   op HH a b c d 9 4 0xd9d4d039; op HH d a b c 12 11 0xe6db99e5;
   op HH c d a b 15 16 0x1fa27cf8; op HH b c d a 2 23 0xc4ac5665;
   op II a b c d 0 6 0xf4292244; op II d a b c 7 10 0x432aff97;
   op II c d a b 14 15 0xab9423a7; op II b c d a 5 21 0xfc93a039;
   op II a b c d 12 6 0x655b59c3; op II d a b c 3 10 0x8f0ccc92;
   op II c d a b 10 15 0xffeff47d; op II b c d a 1 21 0x85845dd1;
   op II a b c d 8 6 0x6fa87e4f; op II d a b c 15 10 0xfe2ce6e0;
   op II c d a b 6 15 0xa3014314; op II b c d a 13 21 0x4e0811a1;
   op II a b c d 4 6 0xf7537e82; op II d a b c 11 10 0xbd3af235;
   op II c d a b 2 15 0x2ad7d2bb; op II b c d a 9 21 0xeb86d391].

(** The words of [len] bytes; the shifts of a promoted byte end up in an [unsigned int]. *)
Fixpoint MD5Decode (n : nat) (input : bytes) : list Z :=
  match n, input with
  | S n, x0 :: x1 :: x2 :: x3 :: input =>
      u32 (Z.lor (Z.lor (Z.lor x0 (Z.shiftl x1 8)) (Z.shiftl x2 16)) (Z.shiftl x3 24)) :: MD5Decode n input
  | _, _ => []
  end.

Definition MD5Transform (state : Vars) (block : bytes) : Vars :=
  let s := fold_left (run_op (MD5Decode 16 block)) rounds state in
  mkVars (u32 (va state + va s)) (u32 (vb state + vb s)) (u32 (vc state + vc s)) (u32 (vd state + vd s)).

Definition MD5Encode (input : list Z) : bytes :=
  concat ((λ w, [Z.land w 255; Z.land (Z.shiftr w 8) 255; Z.land (Z.shiftr w 16) 255; Z.land (Z.shiftr w 24) 255]) <$> input).

(** ** The context *)

Record MY_MD5_CTX : Type := mkCtx { count0 : Z; count1 : Z; state : Vars; buffer : bytes }.

(** [buf] is what the memory of the context holds before. *)
Definition MD5Init (buf : bytes) : MY_MD5_CTX :=
  mkCtx 0 0 (mkVars 0x67452301 0xEFCDAB89 0x98BADCFE 0x10325476) buf.

(** [MD5Transform] reads 64 bytes at [&input[i]]. *)
Definition transform_at (st : Vars) (input : bytes) (i : Z) : outcome Vars :=
  in_bounds (i + 64 <=? zlen input) ;;
  Ret (MD5Transform st (slice input i (i + 64))).

Fixpoint update_loop (fuel : nat) (st : Vars) (input : bytes) (i inputlen : Z) : outcome (Vars * Z) :=
  if u32 (i + 64) <=? inputlen then
    match fuel with
    | O => Abort OutOfFuel
    | S fuel => st ← transform_at st input i; update_loop fuel st input (u32 (i + 64)) inputlen
    end
  else Ret (st, i).

Definition MD5Update (context : MY_MD5_CTX) (input : bytes) (inputlen : Z) : outcome MY_MD5_CTX :=
  let index := Z.land (Z.shiftr (count0 context) 3) 63 in
  let partlen := u32 (64 - index) in
  let c0 := u32 (count0 context + u32 (Z.shiftl inputlen 3)) in
  let c1 := if c0 <? u32 (Z.shiftl inputlen 3) then u32 (count1 context + 1) else count1 context in
  let c1 := u32 (c1 + Z.shiftr inputlen 29) in
  '(index, i, st, buf) ←
    (if partlen <=? inputlen then
       buf ← memcpy (buffer context) index input 0 partlen;
       st ← transform_at (state context) buf 0;
       '(st, i) ← update_loop (Z.to_nat (inputlen / 64)) st input partlen inputlen;
       Ret (0, i, st, buf)
     else Ret (index, 0, state context, buffer context));
  buf ← memcpy buf index input i (u32 (inputlen - i));
  Ret (mkCtx c0 c1 st buf).

Definition PADDING : bytes := 0x80 :: replicate 63 0.

Definition MD5Final (context : MY_MD5_CTX) : outcome (bytes * MY_MD5_CTX) :=
  let index := Z.land (Z.shiftr (count0 context) 3) 63 in
  let padlen := if index <? 56 then u32 (56 - index) else u32 (120 - index) in
  let bits := MD5Encode [count0 context; count1 context] in
  context ← MD5Update context PADDING padlen;
  context ← MD5Update context bits 8;
  let s := state context in
  Ret (MD5Encode [va s; vb s; vc s; vd s], context).

(** [sprintf("%02X")] and [sprintf("%02x")] of a byte. *)
Definition hex_digit (upper : bool) (n : Z) : Z :=
  if n <? 10 then 48 + n else (if upper then 55 else 87) + n.
Definition hex_byte (upper : bool) (x : Z) : bytes := [hex_digit upper (x / 16); hex_digit upper (x mod 16)].

(** The text written to [dst], with its terminating zero; [buf] is the uninitialised
    buffer of the local context. *)
Definition MD5Encode32 (buf src : bytes) (upper : bool) : outcome bytes :=
  let md5 := MD5Init buf in
  md5 ← MD5Update md5 src (u32 (zlen src));
  '(decrypt, _) ← MD5Final md5;
  Ret (concat (hex_byte upper <$> decrypt) ++ [0]).

(** The example at the end of the file. *)
Example md5_example : MD5Encode32 (replicate 64 7) (str "100001579107393425334270F58E3E9DEC") true =
  Ret (str "06D2BADB14171B53F84781866F5DCF5F" ++ [0]).
Proof. vm_compute. reflexivity. Qed.

(** ** The reference: RFC 1321 *)

(** The sine of [n] radians in units of 2^-512, by its power series. *)
Fixpoint sine_series (fuel : nat) (n k term sum : Z) : Z :=
  match fuel with
  | O => sum
  | S fuel => sine_series fuel n (k + 1) (- (term * n * n / ((2 * k + 2) * (2 * k + 3)))) (sum + term)
  end.
Definition sine (n : Z) : Z := sine_series 200 n 0 (n * 2 ^ 512) 0.

(** T[i], the integer part of 4294967296 times abs(sin(i)). *)
Definition T_table : list Z := Eval vm_compute in (λ i, Z.abs (sine i) / 2 ^ 480) <$> seqZ 1 64.

Definition rfc_round_fun (t : nat) : macro :=
  if (t <? 16)%nat then FF else if (t <? 32)%nat then GG else if (t <? 48)%nat then HH else II.
(** The word and the rotation of step [t]. *)
Definition rfc_word (t : nat) : nat :=
  (if t <? 16 then t else if t <? 32 then (5 * t + 1) mod 16 else if t <? 48 then (3 * t + 5) mod 16
   else (7 * t) mod 16)%nat.
Definition rfc_shift (t : nat) : Z :=
  nth (t mod 4) (if (t <? 16)%nat then [7; 12; 17; 22] else if (t <? 32)%nat then [5; 9; 14; 20]
                 else if (t <? 48)%nat then [4; 11; 16; 23] else [6; 10; 15; 21]) 0.

(** The auxiliary functions of the RFC, bit by bit. *)
Definition rfc_fun (m : macro) (x y z : bool) : bool :=
  match m with
  | FF => if x then y else z
  | GG => if z then x else y
  | HH => xorb (xorb x y) z
  | II => xorb y (x || negb z)
  end.
Definition rfc_mix (m : macro) (x y z : Z) : Z :=
  foldl (λ r i, if rfc_fun m (Z.testbit x i) (Z.testbit y i) (Z.testbit z i) then Z.setbit r i else r) 0 (seqZ 0 32).

(** a = b + ((a + F(b,c,d) + X[k] + T[i]) <<< s), then the registers move on. *)
Definition rfc_step (X : list Z) (H : Vars) (t : nat) : Vars :=
  let sum := (va H + rfc_mix (rfc_round_fun t) (vb H) (vc H) (vd H) + nth (rfc_word t) X 0 + nth t T_table 0) mod 2 ^ 32 in
  let rotated := (sum * 2 ^ rfc_shift t) mod 2 ^ 32 + sum / 2 ^ (32 - rfc_shift t) in
  mkVars (vd H) ((vb H + rotated) mod 2 ^ 32) (vb H) (vc H).

Fixpoint le_words (n : nat) (block : bytes) : list Z :=
  match n with
  | O => []
  | S n => le_combine (take 4 block) :: le_words n (drop 4 block)
  end.

Definition rfc_block (H : Vars) (block : bytes) : Vars :=
  let s := fold_left (rfc_step (le_words 16 block)) (seq 0 64) H in
  mkVars ((va H + va s) mod 2 ^ 32) ((vb H + vb s) mod 2 ^ 32) ((vc H + vc s) mod 2 ^ 32) ((vd H + vd s) mod 2 ^ 32).

Definition rfc_pad (m : bytes) : bytes :=
  m ++ [128] ++ replicate (Z.to_nat ((55 - zlen m) mod 64)) 0 ++ le_split 8 (8 * zlen m).

(** 01 23 45 67, 89 ab cd ef, fe dc ba 98, 76 54 32 10, low-order bytes first. *)
Definition rfc_init : Vars :=
  mkVars (le_combine [0x01; 0x23; 0x45; 0x67]) (le_combine [0x89; 0xab; 0xcd; 0xef])
    (le_combine [0xfe; 0xdc; 0xba; 0x98]) (le_combine [0x76; 0x54; 0x32; 0x10]).

Definition rfc_md5 (m : bytes) : bytes :=
  let p := rfc_pad m in
  let H := blocks rfc_block (length p / 64) rfc_init p in
  le_split 4 (va H) ++ le_split 4 (vb H) ++ le_split 4 (vc H) ++ le_split 4 (vd H).

(** From the test suite of the RFC. *)
Example rfc_abc : concat (hex_byte false <$> rfc_md5 (str "message digest")) = str "f96b697d7cb7938d525a2f31aaf161d0".
Proof. vm_compute. reflexivity. Qed.

(** ** One block *)

Lemma bits_below (f : Z → bool) (n : nat) k : 0 ≤ k →
  Z.testbit (foldl (λ r i, if f i then Z.setbit r i else r) 0 (seqZ 0 (Z.of_nat n))) k = (k <? Z.of_nat n) && f k.
Proof.
  intros Hk. induction n as [|n IH].
  - change (Z.of_nat 0) with 0. cbn [seqZ foldl]. rewrite Z.bits_0, (proj2 (Z.ltb_ge k 0)) by lia. done.
  - rewrite seqZ_S, foldl_app. cbn [foldl]. rewrite Z.add_0_l.
    destruct (f (Z.of_nat n)) eqn:E; [rewrite Z.setbit_eqb by lia|]; rewrite IH.
    all: destruct (Z.ltb_spec k (Z.of_nat n)), (Z.ltb_spec k (Z.of_nat (S n))), (Z.eqb_spec (Z.of_nat n) k);
      subst; try lia; cbn; try done.
Qed.

Definition word32 (x : Z) : Prop := 0 ≤ x < 2 ^ 32.

Lemma word32_high x k : word32 x → 32 ≤ k → Z.testbit x k = false.
Proof. intros Hx Hk. rewrite <- (Z.mod_small x (2 ^ 32)) by exact Hx. by apply Z.mod_pow2_bits_high. Qed.

Lemma word32_u32 x : word32 (x mod 2 ^ 32).
Proof. apply Z.mod_pos_bound. lia. Qed.

Lemma not32_spec x k : 0 ≤ k < 32 → Z.testbit (not32 x) k = negb (Z.testbit x k).
Proof.
  intros Hk. unfold not32. rewrite Z.lxor_spec. change 0xffffffff with (Z.ones 32).
  rewrite Z.ones_spec_low by lia. by destruct (Z.testbit x k).
Qed.
Lemma not32_high x k : word32 x → 32 ≤ k → Z.testbit (not32 x) k = false.
Proof.
  intros Hx Hk. unfold not32. rewrite Z.lxor_spec, word32_high by done. change 0xffffffff with (Z.ones 32).
  by rewrite Z.ones_spec_high by lia.
Qed.

(** The macros are the functions of the RFC. *)
Lemma mix_rfc m x y z : word32 x → word32 y → word32 z → mix m x y z = rfc_mix m x y z.
Proof.
  intros Hx Hy Hz. apply Z.bits_inj'. intros k Hk. unfold rfc_mix.
  rewrite (bits_below (λ i, rfc_fun m (Z.testbit x i) (Z.testbit y i) (Z.testbit z i)) 32) by lia.
  change (Z.of_nat 32) with 32.
  destruct (Z.ltb_spec k 32); cbn [andb].
  - destruct m; cbn [mix rfc_fun]; rewrite ?Z.lor_spec, ?Z.land_spec, ?Z.lxor_spec, ?Z.lor_spec, ?not32_spec by lia;
      by destruct (Z.testbit x k), (Z.testbit y k), (Z.testbit z k).
  - destruct m; cbn [mix]; by rewrite ?Z.lor_spec, ?Z.land_spec, ?Z.lxor_spec, ?Z.lor_spec, ?not32_high, ?word32_high, ?andb_false_r.
Qed.

Lemma rotate_rfc x n : word32 x → 0 < n < 32 →
  ROTATE_LEFT x n = (x * 2 ^ n) mod 2 ^ 32 + x / 2 ^ (32 - n).
Proof.
  intros Hx Hn. unfold ROTATE_LEFT, u32, word32 in *.
  rewrite Z.shiftl_mul_pow2, Z.shiftr_div_pow2 by lia.
  assert (2 ^ 32 = 2 ^ (32 - n) * 2 ^ n) as E by (rewrite <- Z.pow_add_r by lia; f_equal; lia).
  replace ((x * 2 ^ n) mod 2 ^ 32) with ((x mod 2 ^ (32 - n)) * 2 ^ n) by (rewrite E; by rewrite Zmult_mod_distr_r).
  rewrite <- Z.shiftl_mul_pow2, lor_shiftl_add; [by rewrite Z.shiftl_mul_pow2 by lia|lia| |lia].
  split; [apply Z.div_pos; lia|]. apply Z.div_lt_upper_bound; lia.
Qed.

(** *** The renamed variables *)

Definition role (t k : nat) : reg := nth ((k + 3 * t) mod 4) [a; b; c; d] a.

Definition op_at (t : nat) : op_t :=
  op (rfc_round_fun t) (role t 0) (role t 1) (role t 2) (role t 3) (rfc_word t) (rfc_shift t) (nth t T_table 0).

(** The lines of the loop have the words, rotations and constants of the RFC. *)
Lemma rounds_rfc : rounds = op_at <$> seq 0 64.
Proof. vm_compute. reflexivity. Qed.

(** The variables in the order they have in step [t]. *)
Definition turned (t : nat) (s : Vars) : Vars :=
  mkVars (get s (role t 0)) (get s (role t 1)) (get s (role t 2)) (get s (role t 3)).

Definition words32 (s : Vars) : Prop := ∀ r, word32 (get s r).

Lemma role_low t k : role t k = role (t mod 4) k.
Proof.
  unfold role. f_equal. rewrite (Nat.Div0.add_mod k (3 * t)), (Nat.Div0.mul_mod 3 t).
  rewrite (Nat.Div0.add_mod k (3 * (t mod 4))), (Nat.Div0.mul_mod 3 (t mod 4)).
  by rewrite Nat.Div0.mod_mod.
Qed.

Lemma role_next t k : role (S t) k = role (S (t mod 4)) k.
Proof.
  rewrite (role_low (S t)), (role_low (S (t mod 4))). f_equal.
  replace (S t) with (t + 1)%nat by lia. replace (S (t mod 4)) with (t mod 4 + 1)%nat by lia.
  by rewrite Nat.Div0.add_mod_idemp_l.
Qed.

Lemma get_put s r r' x : get (put s r x) r' = if decide (r = r') then x else get s r'.
Proof. by destruct r, r'. Qed.

Lemma rfc_shift_range t : 0 < rfc_shift t < 32.
Proof.
  unfold rfc_shift. assert (t mod 4 < 4)%nat as H by (apply Nat.mod_upper_bound; lia).
  destruct (t mod 4)%nat as [|[|[|[|]]]]; [| | | |lia]; cbn [nth];
    destruct (t <? 16)%nat, (t <? 32)%nat, (t <? 48)%nat; cbn; lia.
Qed.

Lemma run_op_words X s o : words32 s → words32 (run_op X s o).
Proof.
  intros Hs r. unfold run_op. rewrite get_put. case_decide; [apply word32_u32|].
  rewrite !get_put, decide_False by done. case_decide; [done|apply Hs].
Qed.

Lemma get_run_op X s o r : op_a o ≠ op_b o →
  get (run_op X s o) r =
  if decide (op_a o = r) then
    u32 (ROTATE_LEFT (u32 (get s (op_a o) + (mix (op_m o) (get s (op_b o)) (get s (op_c o)) (get s (op_d o)) +
           nth (op_x o) X 0 + op_ac o))) (op_s o) + get s (op_b o))
  else get s r.
Proof. intros Hne. unfold run_op. rewrite !get_put. by repeat case_decide. Qed.

Lemma role_01 t : role t 0 ≠ role t 1.
Proof.
  rewrite !(role_low t). assert (t mod 4 < 4)%nat as H by (apply Nat.mod_upper_bound; lia).
  destruct (t mod 4)%nat as [|[|[|[|]]]]; [done..|lia].
Qed.

Lemma step_value X s t : words32 s →
  u32 (ROTATE_LEFT (u32 (get s (role t 0) + (mix (rfc_round_fun t) (get s (role t 1)) (get s (role t 2)) (get s (role t 3)) +
           nth (rfc_word t) X 0 + nth t T_table 0))) (rfc_shift t) + get s (role t 1)) =
  vb (rfc_step X (turned t s) t).
Proof.
  intros Hs. rewrite mix_rfc, rotate_rfc by (apply Hs || apply word32_u32 || apply rfc_shift_range).
  unfold rfc_step, turned, u32. cbn [va vb vc vd]. rewrite Z.add_comm, !Z.add_assoc. done.
Qed.

(** One line of the unrolled loop is one step of the RFC. *)
Lemma run_op_step X s t : words32 s → turned (S t) (run_op X s (op_at t)) = rfc_step X (turned t s) t.
Proof.
  intros Hs. pose proof (step_value X s t Hs) as Hv. unfold turned at 1.
  rewrite !get_run_op by apply role_01. cbn [op_at op_m op_a op_b op_c op_d op_x op_s op_ac]. rewrite Hv.
  unfold rfc_step at 5. unfold turned at 5. cbn [va vb vc vd]. clear Hv.
  set (x := vb _). change ((vb (turned t s) + _) mod _) with x. clearbody x. unfold turned. cbn [vb vc].
  rewrite !(role_next t), !(role_low t).
  assert (t mod 4 < 4)%nat as H by (apply Nat.mod_upper_bound; lia).
  destruct (t mod 4)%nat as [|[|[|[|]]]]; [reflexivity..|lia].
Qed.

Lemma rounds_steps X : ∀ t s, words32 s →
  turned t (fold_left (run_op X) (op_at <$> seq 0 t) s) = fold_left (rfc_step X) (seq 0 t) s ∧
  words32 (fold_left (run_op X) (op_at <$> seq 0 t) s).
Proof.
  intros t s Hs. induction t as [|t [IH1 IH2]]; [by destruct s|].
  rewrite seq_S, fmap_app, !fold_left_app. cbn [fold_left fmap list_fmap plus].
  rewrite run_op_step, IH1 by done. split; [done|by apply run_op_words].
Qed.

Lemma decode_words n block : Forall_byte block → length block = (4 * n)%nat → MD5Decode n block = le_words n block.
Proof.
  revert block. induction n as [|n IH]; intros block Hb Hl; [done|].
  destruct block as [|x0 [|x1 [|x2 [|x3 block]]]]; cbn [length] in Hl; try lia.
  rewrite !Forall_cons in Hb. destruct Hb as (? & ? & ? & ? & ?).
  cbn [MD5Decode le_words take drop]. rewrite drop_0, take_0, IH by (done || lia). apply f_equal2; [|done].
  rewrite <- (u32_small (le_combine [x0; x1; x2; x3])), le4_lor by (done || apply (le_combine_range [x0; x1; x2; x3]); do 4 (apply Forall_cons; split; [done|]); constructor).
  f_equal. rewrite (Z.lor_comm (Z.shiftl x3 24)), (Z.lor_comm (Z.shiftl x2 16)), (Z.lor_comm (Z.shiftl x1 8)). done.
Qed.

(** [MD5Transform] is the block function of the RFC. *)
Lemma transform_rfc H block : words32 H → Forall_byte block → length block = 64%nat →
  MD5Transform H block = rfc_block H block ∧ words32 (rfc_block H block).
Proof.
  intros HH Hb Hl. unfold MD5Transform, rfc_block. rewrite rounds_rfc, (decode_words 16 block Hb Hl).
  destruct (rounds_steps (le_words 16 block) 64 H HH) as [<- _].
  generalize (fold_left (run_op (le_words 16 block)) (op_at <$> seq 0 64) H). intros s'. split; [reflexivity|].
  intros []; apply word32_u32.
Qed.

(** ** Messages in pieces *)

Lemma blocks_words n H m : words32 H → words32 (blocks rfc_block n H m).
Proof.
  revert H m. induction n as [|n IH]; intros H m HH; [done|]. cbn [blocks]. apply IH.
  intros []; apply word32_u32.
Qed.

#[local] Opaque MD5Transform rfc_block.

Definition ctx_ok (M : bytes) (c : MY_MD5_CTX) : Prop :=
  hash_ok rfc_block rfc_init M (count0 c) (count1 c) (state c) (buffer c).

Lemma ctx_words M c : ctx_ok M c → words32 (state c).
Proof. intros Hok. rewrite (ok_state _ _ _ _ _ _ _ Hok). apply blocks_words. by intros []. Qed.

Lemma update_loop_rfc fuel : ∀ st input i k, words32 st →
  Forall_byte input → zlen input + 64 ≤ 2 ^ 32 - 1 → 0 ≤ i ≤ zlen input →
  Z.of_nat k = (zlen input - i) / 64 → (k ≤ fuel)%nat →
  update_loop fuel st input i (zlen input) =
    Ret (blocks rfc_block k st (drop (Z.to_nat i) input), i + 64 * Z.of_nat k).
Proof.
  induction fuel as [|fuel IH]; intros st input i k Hst Hb Hlen Hi Hk Hf; cbn [update_loop]; rewrite u32_small by lia.
  - assert (k = 0%nat) as -> by lia. rewrite (proj2 (Z.leb_gt _ _)) by dlia. cbn [blocks]. do 2 f_equal. lia.
  - destruct k as [|k].
    { rewrite (proj2 (Z.leb_gt _ _)) by dlia. cbn [blocks]. do 2 f_equal. lia. }
    assert (i + 64 ≤ zlen input) as Hi2 by dlia. rewrite (proj2 (Z.leb_le _ _)) by lia.
    unfold transform_at. orun.
    destruct (transform_rfc st (slice input i (i + 64))) as [-> Hw]; [done|by apply slice_bytes|rewrite length_slice; lia|].
    rewrite (IH _ _ _ k) by (done || lia || dlia). cbn [blocks].
    do 2 f_equal; [|lia]. rewrite drop_drop. f_equal; [|f_equal; lia].
    unfold slice, ztake, zdrop. do 2 f_equal. lia.
Qed.

(** After [MD5Update] the context is that of the longer message. *)
Lemma MD5Update_ok M c data : ctx_ok M c → Forall_byte M → Forall_byte data → zlen data + 64 ≤ 2 ^ 32 - 1 →
  ∃ c', MD5Update c data (zlen data) = Ret c' ∧ ctx_ok (M ++ data) c'.
Proof.
  intros Hok HM Hd Hlen. unfold MD5Update. rewrite (hash_fill _ _ _ _ _ _ _ Hok).
  pose proof Hok as [[Hr0 Hr1] Hc _ Hl Hbuf]. pose proof (ctx_words M c Hok) as Hst.
  destruct (count_words (zlen M) (count0 c) (count1 c) (zlen data)) as [[Hrange0 Hrange1] [<- Hcount]]; [done..|lia|].
  specialize (Hrange1 (u32 (count0 c + u32 (Z.shiftl (zlen data) 3)) <? count0 c)).
  pose proof (Nat.mod_upper_bound (length M) 64) as Hj. set (j := (length M mod 64)%nat) in *.
  rewrite (u32_small (64 - Z.of_nat j)) by lia.
  destruct (Z.leb_spec (64 - Z.of_nat j) (zlen data)) as [Hbig|Hsmall].
  - destruct (memcpy_ok (buffer c) (Z.of_nat j) data 0 (64 - Z.of_nat j)) as (buf & -> & Hl1 & Ht1); [lia..|].
    rewrite bind_ret. replace (Z.to_nat (Z.of_nat j + (64 - Z.of_nat j))) with 64%nat in Ht1 by lia.
    rewrite take_ge, Nat2Z.id, drop_0 in Ht1 by lia.
    assert (Forall_byte buf) as Hbb.
    { rewrite Ht1, Hbuf. apply Forall_app. split; [by apply Forall_drop|by apply Forall_take]. }
    unfold transform_at. rewrite in_bounds_true by bool_side. rewrite !bind_ret.
    unfold slice at 1. change (zdrop 0 buf) with buf. rewrite ztake_all by lia.
    destruct (transform_rfc (state c) buf) as [-> Hw]; [done..|lia|].
    set (k := Z.to_nat ((zlen data - (64 - Z.of_nat j)) / 64)).
    rewrite (update_loop_rfc _ _ _ _ k) by (done || lia || (unfold k; dlia)).
    rewrite !bind_ret. cbn beta iota. set (i := 64 - Z.of_nat j + 64 * Z.of_nat k).
    assert (0 ≤ i ≤ zlen data ∧ zlen data - i < 64) as Hi by (unfold i, k; dlia).
    rewrite (u32_small (zlen data - i)) by lia.
    destruct (memcpy_ok buf 0 data i (zlen data - i)) as (buf' & -> & Hl3 & Ht3); [lia..|].
    rewrite bind_ret. eexists. split; [reflexivity|]. unfold ctx_ok. cbn [count0 count1 state buffer].
    rewrite Ht1. replace (Z.to_nat (64 - Z.of_nat j)) with (64 - j)%nat by lia.
    eapply (hash_big rfc_block rfc_init M _ _ _ _ data k (Z.to_nat i)); [done|unfold i; lia|lia|done|done|lia|].
    rewrite Z.add_0_l, take_0 in Ht3. replace (length data - Z.to_nat i)%nat with (Z.to_nat (zlen data - i)) by lia.
    rewrite Ht3. cbn [app]. apply take_ge. rewrite length_drop. lia.
  - rewrite bind_ret. cbn beta iota. rewrite (u32_small (zlen data - 0)) by lia.
    destruct (memcpy_ok (buffer c) (Z.of_nat j) data 0 (zlen data - 0)) as (buf & -> & Hl1 & Ht1); [lia..|].
    rewrite bind_ret. eexists. split; [reflexivity|]. unfold ctx_ok. cbn [count0 count1 state buffer].
    eapply (hash_small rfc_block rfc_init M); [done|lia|done|done|lia|]. fold j.
    replace (j + length data)%nat with (Z.to_nat (Z.of_nat j + (zlen data - 0))) by lia.
    rewrite Ht1, Nat2Z.id, drop_0. f_equal. apply take_ge. lia.
Qed.

(** Only the first [len] bytes of the input are read. *)
Lemma slice_take (input : bytes) len i j : 0 ≤ i ≤ j → j ≤ len → slice (ztake len input) i j = slice input i j.
Proof.
  intros Hi Hj. unfold slice, ztake, zdrop. rewrite skipn_firstn_comm, take_take. f_equal. lia.
Qed.

Lemma memcpy_take dst j (input : bytes) len i n : 0 ≤ i → 0 ≤ n → i + n ≤ len ≤ zlen input →
  memcpy dst j (ztake len input) i n = memcpy dst j input i n.
Proof.
  intros Hi Hn Hl. unfold memcpy. rewrite slice_take by lia.
  rewrite !in_bounds_true by (apply Z.leb_le; rewrite ?length_ztake; lia). done.
Qed.

Lemma update_loop_take fuel st (input : bytes) i len : 0 ≤ i ≤ len → len ≤ zlen input → len + 64 ≤ 2 ^ 32 - 1 →
  update_loop fuel st (ztake len input) i len = update_loop fuel st input i len.
Proof.
  revert st i. induction fuel as [|fuel IH]; intros st i Hi Hl H32; cbn [update_loop]; [done|].
  rewrite u32_small by lia. destruct (Z.leb_spec (i + 64) len); [|done].
  unfold transform_at. rewrite slice_take by lia.
  rewrite !in_bounds_true by (apply Z.leb_le; rewrite ?length_ztake; lia). rewrite !bind_ret. apply IH; lia.
Qed.

Lemma update_loop_end fuel st (input : bytes) i len st' i' : update_loop fuel st input i len = Ret (st', i') →
  0 ≤ i ≤ len → len + 64 ≤ 2 ^ 32 - 1 → 0 ≤ i' ≤ len.
Proof.
  revert st i. induction fuel as [|fuel IH]; intros st i; cbn [update_loop]; intros Hu Hi H32; rewrite u32_small in Hu by lia;
    destruct (Z.leb_spec (i + 64) len); try (injection Hu as <- <-; lia).
  { discriminate Hu. }
  destruct (transform_at st input i) as [st1|]; [|discriminate Hu]. rewrite bind_ret in Hu. eapply IH; [exact Hu|lia|lia].
Qed.

Lemma MD5Update_take M c input len : ctx_ok M c → 0 ≤ len ≤ zlen input → len + 64 ≤ 2 ^ 32 - 1 →
  MD5Update c input len = MD5Update c (ztake len input) len.
Proof.
  intros Hok Hl H32. unfold MD5Update. rewrite (hash_fill _ _ _ _ _ _ _ Hok).
  pose proof (Nat.mod_upper_bound (length M) 64) as Hj. rewrite (u32_small (64 - _)) by lia.
  destruct (Z.leb_spec (64 - Z.of_nat (length M mod 64)) len) as [Hbig|Hsmall].
  - rewrite memcpy_take, !bind_assoc by lia. destruct (memcpy _ _ _ _ _) as [buf|]; [|done]. rewrite !bind_ret, !bind_assoc.
    destruct (transform_at _ _ _) as [st|]; [|done]. rewrite !bind_ret, update_loop_take by lia.
    pose proof (update_loop_end (Z.to_nat (len / 64)) st input (64 - Z.of_nat (length M mod 64)) len) as Hend.
    destruct (update_loop _ _ _ _ _) as [[st' i]|]; [|done]. rewrite !bind_ret.
    destruct (Hend _ _ eq_refl) as [? ?]; [lia..|]. rewrite (u32_small (len - i)) by lia. by rewrite memcpy_take by lia.
  - rewrite !bind_ret, (u32_small (len - 0)) by lia. by rewrite memcpy_take by lia.
Qed.

(** ** Padding and output *)

Lemma encode_words ws : MD5Encode ws = concat (le_split 4 <$> ws).
Proof.
  unfold MD5Encode. f_equal. apply list_fmap_ext. intros _ w _.
  change 255 with (Z.ones 8). rewrite !Z.land_ones, !Z.shiftr_div_pow2 by lia.
  cbn [le_split]. rewrite !Z.div_div by lia. done.
Qed.

Lemma bits_bytes M c : ctx_ok M c → zlen M < 2 ^ 61 →
  MD5Encode [count0 c; count1 c] = le_split 8 (8 * zlen M).
Proof.
  intros [[H1 H2] Hc _ _ _] HM. rewrite Z.mod_small in Hc by lia. rewrite encode_words, <- Hc.
  cbn [fmap list_fmap concat le_split app]. rewrite !Z.div_div by lia.
  repeat (apply f_equal2; [dlia|]). reflexivity.
Qed.

Lemma md5_final_ok M c : ctx_ok M c → Forall_byte M → zlen M < 2 ^ 61 →
  ∃ c', MD5Final c = Ret (rfc_md5 M, c').
Proof.
  intros Hok HM Hlen. unfold MD5Final. rewrite (bits_bytes M c Hok Hlen), (hash_fill _ _ _ _ _ _ _ Hok).
  pose proof (Nat.mod_upper_bound (length M) 64) as Hj.
  set (padlen := if Z.of_nat (length M mod 64) <? 56 then _ else _).
  assert (padlen = (55 - zlen M) mod 64 + 1) as Hp.
  { unfold padlen. pose proof (Nat2Z.inj_mod (length M) 64). change (Z.of_nat 64) with 64 in *.
    destruct (Z.ltb_spec (Z.of_nat (length M mod 64)) 56); rewrite u32_small by lia; dlia. }
  clearbody padlen. pose proof (Z.mod_pos_bound (55 - zlen M) 64).
  rewrite (MD5Update_take M) by (done || (change (zlen PADDING) with 64; lia) || lia).
  assert (ztake padlen PADDING = [128] ++ replicate (Z.to_nat ((55 - zlen M) mod 64)) 0) as E.
  { unfold ztake, PADDING. replace (Z.to_nat padlen) with (S (Z.to_nat ((55 - zlen M) mod 64))) by lia.
    cbn [take]. rewrite take_replicate. do 2 f_equal. lia. }
  destruct (MD5Update_ok M c (ztake padlen PADDING)) as (c1 & Hu1 & Hok1); [done|done| | |].
  { rewrite E. apply Forall_app. split; [by constructor|by apply Forall_replicate]. }
  { rewrite E, length_app, length_replicate. cbn [length]. lia. }
  replace (zlen (ztake padlen PADDING)) with padlen in Hu1 by (rewrite E, length_app, length_replicate; cbn [length]; lia).
  rewrite Hu1, bind_ret.
  destruct (MD5Update_ok _ c1 (le_split 8 (8 * zlen M)) Hok1) as (c2 & Hu2 & Hok2).
  { rewrite E. apply Forall_app. split; [done|]. apply Forall_app. split; [by constructor|by apply Forall_replicate]. }
  { apply le_split_bytes. }
  { by rewrite length_le_split. }
  rewrite length_le_split in Hu2. change (Z.of_nat 8) with 8 in Hu2. rewrite Hu2, bind_ret. exists c2. do 2 f_equal.
  rewrite encode_words, (ok_state _ _ _ _ _ _ _ Hok2), E. unfold rfc_md5, rfc_pad. rewrite <- !app_assoc.
  cbn [fmap list_fmap concat]. by rewrite app_nil_r.
Qed.

Lemma md5_encode32_rfc buf src upper : length buf = 64%nat → Forall_byte src → zlen src + 64 < 2 ^ 32 →
  MD5Encode32 buf src upper = Ret (concat (hex_byte upper <$> rfc_md5 src) ++ [0]).
Proof.
  intros Hb Hs Hl. unfold MD5Encode32. rewrite u32_small by lia.
  destruct (MD5Update_ok [] (MD5Init buf) src) as (c & -> & Hok); [by apply hash_init|constructor|done|lia|].
  rewrite bind_ret. destruct (md5_final_ok _ c Hok) as (c' & ->); [done|cbn [app]; lia|]. done.
Qed.

(** C33: [MD5Encode32] writes the hexadecimal text of the digest RFC 1321 defines, for
    every message of less than 2^32 - 64 bytes, whatever the memory of the context held
    before; its 64 constants are those of the sine, and no access is out of range. *)
Theorem md5_is_rfc1321 buf src upper : length buf = 64%nat → Forall_byte src → zlen src + 64 < 2 ^ 32 →
  MD5Encode32 buf src upper = Ret (concat (hex_byte upper <$> rfc_md5 src) ++ [0]).
Proof. apply md5_encode32_rfc. Qed.

Lemma md5_is_rfc1321_witness :
  MD5Encode32 (replicate 64 0) (str "abcdefghijklmnopqrstuvwxyz") false = Ret (str "c3fcd3d76192e4007dfb496cca67e13b" ++ [0]).
Proof.
  rewrite md5_is_rfc1321.
  - vm_compute. reflexivity.
  - reflexivity.
  - apply str_bytes.
  - vm_compute. reflexivity.
Defined.

End Md5.
