(* ===== verification/ApiQuery.v ===== *)
(** * ApiQuery: texts and numbers of the requests of the API server
    (src/https/ApiServer.cpp, src/https/htmlcodec.h)

    The parameters of a query, decimal numbers as [atol], [rate100] and [floors] read
    them, and the HTML codec.  A [double] is a number of the binary64 format of Stdlib's
    [SpecFloat].  [boost::replace_all] and [boost::regex_match] are parameters. *)

From Stdlib Require Import Floats.SpecFloat.
From S2P Require Import Prelude BytesBuffer Buffer Http.
Import Http.

Module ApiQuery.

(** [std::string::find_first_of] of one character; [None] is [npos]. *)
Definition find_first_of (c : Z) (s : bytes) : option Z :=
  let i := find_char c s in if i =? zlen s then None else Some i.

(** ** parseQuery *)

Notation HttpParams := (gmap bytes bytes).

(** [for (;;)]; every turn drops the text up to an ampersand. *)
Fixpoint parseQuery_loop (fuel : nat) (subStr : bytes) (params : HttpParams) : outcome HttpParams :=
  match fuel with
  | O => Abort OutOfFuel
  | S fuel =>
      match find_first_of 61 subStr with
      | None => Ret params
      | Some kpos =>
          match find_first_of 38 subStr with
          | None => Ret (<[ztake kpos subStr := zdrop (kpos + 1) subStr]> params)
          | Some spos =>
              if kpos <? spos then
                let key := ztake kpos subStr in
                let val := ztake (spos - kpos - 1) (zdrop (kpos + 1) subStr) in
                parseQuery_loop fuel (zdrop (spos + 1) subStr) (<[key := val]> params)
              else Ret params
          end
      end
  end.

(** The result is always [true]. *)
Definition parseQuery (queryStr : bytes) : outcome HttpParams :=
  let subStr := match find_first_of 63 queryStr with
                | Some npos => zdrop (npos + 1) queryStr
                | None => queryStr
                end in
  if bool_decide (subStr = []) then Ret ∅
  else parseQuery_loop (S (length subStr)) subStr ∅.

(** ** Numbers *)

Definition is_digit (c : Z) : bool := (48 <=? c) && (c <=? 57).

(** The value of the digits a text starts with. *)
Fixpoint digits_value (acc : Z) (s : bytes) : Z :=
  match s with
  | c :: s => if is_digit c then digits_value (10 * acc + (c - 48)) s else acc
  | [] => acc
  end.

(** [atol] and [atoll]: white space, a sign, digits; what does not fit is the extreme value. *)
Definition atol (s : bytes) : Z :=
  let s := skip_space s in
  let v := match s with
           | 45 :: s => - digits_value 0 s
           | 43 :: s => digits_value 0 s
           | _ => digits_value 0 s
           end in
  Z.max (- 2 ^ 63) (Z.min (2 ^ 63 - 1) v).

(** Truncates after two decimals and multiplies by 100. *)
Definition rate100 (s : bytes) : outcome Z :=
  match find_first_of 46 s with
  | Some npos =>
      let prefix := ztake npos s in
      let sufix := zdrop (npos + 1) s in
      assert (negb (bool_decide (sufix = []))) ;;
      let x := if 2 <=? zlen sufix then prefix ++ ztake 2 sufix else prefix ++ ztake 1 sufix ++ [48] in
      Ret (if zlen x <=? 11 then atol x else 0)
  | None => Ret (if zlen s <=? 9 then atol s * 100 else 0)
  end.

(** *** Doubles *)

Definition double : Type := spec_float.
Definition dprec : Z := 53.
Definition demax : Z := 1024.

(** The double nearest to [n / 10 ^ k]: what [atof] makes of decimal digits. *)
Definition of_decimal (n : Z) (k : nat) : double :=
  match n, 10 ^ Z.of_nat k with
  | Zpos p, Zpos q => SFdiv dprec demax (S754_finite false p 0) (S754_finite false q 0)
  | _, _ => S754_zero false
  end.

(** [atof] of digits, or of digits, a point and at most two digits. *)
Definition atof (s : bytes) : double :=
  match find_first_of 46 s with
  | Some npos =>
      let sufix := zdrop (npos + 1) s in
      of_decimal (digits_value 0 (ztake npos s ++ sufix)) (length sufix)
  | None => of_decimal (digits_value 0 s) 0
  end.

(** Truncates after two decimals. *)
Definition floors (s : bytes) : double :=
  match find_first_of 46 s with
  | Some npos =>
      let prefix := ztake npos s in
      let sufix := zdrop (npos + 1) s in
      let dot := if bool_decide (sufix = []) then []
                 else if 2 <=? zlen sufix then ztake 2 sufix else ztake 1 sufix in
      atof (prefix ++ [46] ++ dot)
  | None => atof s
  end.

(** [NotScore(a)]: less than [0.01f], whose value is 10737418 / 2^30. *)
Definition float_001 : double := S754_finite false 5764607394185216 (-59).
Definition NotScore (a : double) : bool := SFltb a float_001.

(** [int64_t(score * 100)]. *)
Definition double_to_int64 (x : double) : Z :=
  match x with
  | S754_finite neg m e =>
      let v := if 0 <=? e then Zpos m * 2 ^ e else Zpos m / 2 ^ (- e) in
      if neg then - v else v
  | _ => 0
  end.
Definition score_cents (score : double) : Z := double_to_int64 (SFmul dprec demax score (of_decimal 100 0)).

Example floors_example :
  (score_cents (floors (str "12.5")), score_cents (floors (str "7")), score_cents (floors (str "0.019"))) = (1250, 700, 1).
Proof. vm_compute. reflexivity. Qed.

(** Texts of digits with an optional point between digits. *)
Definition all_digits (s : bytes) : bool := negb (bool_decide (s = [])) && forallb is_digit s.
Definition decimal_text (s : bytes) : bool :=
  match find_first_of 46 s with
  | Some npos => all_digits (ztake npos s) && all_digits (zdrop (npos + 1) s)
  | None => all_digits s
  end.
(** ** What parseQuery computes *)

(** The text between ampersands. *)
Fixpoint fields (s : bytes) : list bytes :=
  match s with
  | [] => [[]]
  | c :: s =>
      if c =? 38 then [] :: fields s
      else match fields s with
           | f :: fs => (c :: f) :: fs
           | [] => [[c]]
           end
  end.

(** Key and value of a field: what is before and behind its first equals sign. *)
Definition key_value (f : bytes) : bytes * bytes :=
  (ztake (find_char 61 f) f, zdrop (find_char 61 f + 1) f).

(** The parameters end with the first field without an equals sign; a later value of a
    key replaces an earlier one. *)
Fixpoint add_fields (fs : list bytes) (params : HttpParams) : HttpParams :=
  match fs with
  | f :: fs =>
      if bool_decide (61 ∈ f) then add_fields fs (<[(key_value f).1 := (key_value f).2]> params) else params
  | [] => params
  end.

Lemma find_first_of_none c s : c ∉ s → find_first_of c s = None.
Proof. intros H. unfold find_first_of. by rewrite find_char_none, Z.eqb_refl. Qed.

Lemma find_first_of_app c a b : c ∉ a → find_first_of c (a ++ c :: b) = Some (zlen a).
Proof. intros H. unfold find_first_of. by rewrite find_char_app, zlen_app_neqb. Qed.

(** Either the character is not there or the text splits at its first occurrence. *)
Lemma find_first_of_cases c s :
  (find_first_of c s = None ∧ c ∉ s) ∨
  (∃ a b, s = a ++ c :: b ∧ c ∉ a ∧ find_first_of c s = Some (zlen a)).
Proof.
  destruct (decide (c ∈ s)) as [H|H]; [|left; split; [by apply find_first_of_none|done]].
  right. apply list_elem_of_split_l in H as (a & b & -> & Ha). exists a, b. split_and!; [done|done|by apply find_first_of_app].
Qed.

Lemma fields_one s : 38 ∉ s → fields s = [s].
Proof.
  induction s as [|c s IH]; [done|]. rewrite not_elem_of_cons. intros [Hc Hs]. cbn [fields].
  destruct (Z.eqb_spec c 38); [by subst|]. by rewrite IH.
Qed.

Lemma fields_app f rest : 38 ∉ f → fields (f ++ 38 :: rest) = f :: fields rest.
Proof.
  induction f as [|c f IH]; [done|]. rewrite not_elem_of_cons. intros [Hc Hf]. cbn [fields app].
  destruct (Z.eqb_spec c 38); [by subst|]. by rewrite IH.
Qed.

Lemma key_value_app k v : 61 ∉ k → key_value (k ++ 61 :: v) = (k, v).
Proof.
  intros Hk. unfold key_value. rewrite find_char_app by done. f_equal; [by apply ztake_app|].
  change (k ++ 61 :: v) with (k ++ [61] ++ v). rewrite app_assoc. apply zdrop_app. rewrite length_app. cbn. lia.
Qed.

Lemma zdrop_past (a : bytes) c b : zdrop (zlen a + 1) (a ++ c :: b) = b.
Proof. change (a ++ c :: b) with (a ++ [c] ++ b). rewrite app_assoc. apply zdrop_app. rewrite length_app. cbn. lia. Qed.

Lemma parseQuery_loop_fields fuel s params : (length s < fuel)%nat →
  parseQuery_loop fuel s params = Ret (add_fields (fields s) params).
Proof.
  revert s params. induction fuel as [|fuel IH]; intros s params Hf; [lia|]. cbn [parseQuery_loop].
  destruct (find_first_of_cases 38 s) as [[H38 Hs]|(f & rest & -> & Hf38 & H38)].
  - rewrite H38, fields_one by done. cbn [add_fields].
    destruct (find_first_of_cases 61 s) as [[H61 Hs61]|(k & v & -> & Hk & H61)]; rewrite H61.
    + by rewrite bool_decide_false.
    + rewrite bool_decide_true by set_solver. by rewrite key_value_app, ztake_app, zdrop_past.
  - rewrite H38, fields_app by done. cbn [add_fields].
    destruct (find_first_of_cases 61 f) as [[_ Hno]|(k & v & -> & Hk & _)].
    + rewrite bool_decide_false by done.
      destruct (find_first_of_cases 61 (f ++ 38 :: rest)) as [[H61 _]|(k & v & E & Hk & H61)]; rewrite H61; [done|].
      destruct (Z.ltb_spec (zlen k) (zlen f)) as [Hlt|]; [|done]. exfalso.
      apply (f_equal (λ l, l !! length k)) in E. rewrite lookup_app_l, (list_lookup_middle k) in E by lia.
      apply Hno. by apply list_elem_of_lookup_2 in E.
    + rewrite bool_decide_true by set_solver. rewrite <- app_assoc. cbn [app].
      rewrite find_first_of_app by done. rewrite (proj2 (Z.ltb_lt _ _)) by (rewrite length_app; cbn [length]; lia).
      rewrite key_value_app, ztake_app, zdrop_past by done. cbn [fst snd].
      rewrite (ztake_app _ v) by (rewrite length_app; cbn [length]; lia).
      replace (zlen (k ++ 61 :: v) + 1) with (zlen ((k ++ 61 :: v) ++ [38])) by (rewrite !length_app; cbn [length]; lia).
      replace (k ++ 61 :: v ++ 38 :: rest) with (((k ++ 61 :: v) ++ [38]) ++ rest) by (by rewrite <- !app_assoc).
      rewrite zdrop_app by done. apply IH. rewrite !length_app in Hf. cbn [length] in Hf. lia.
Qed.

(** The text of a query: what is behind the first question mark, or everything. *)
Definition query_text (q : bytes) : bytes :=
  match find_first_of 63 q with Some npos => zdrop (npos + 1) q | None => q end.

Lemma parseQuery_eq q : parseQuery q = Ret (add_fields (fields (query_text q)) ∅).
Proof.
  unfold parseQuery. fold (query_text q). case_bool_decide as E; [by rewrite E|]. apply parseQuery_loop_fields. lia.
Qed.

(** ** The query of given parameters *)

Fixpoint render_params (kvs : list (bytes * bytes)) : bytes :=
  match kvs with
  | [] => []
  | [kv] => kv.1 ++ [61] ++ kv.2
  | kv :: kvs => kv.1 ++ [61] ++ kv.2 ++ [38] ++ render_params kvs
  end.

(** A key has no equals sign, neither has an ampersand. *)
Definition param_ok (kv : bytes * bytes) : Prop := 61 ∉ kv.1 ∧ 38 ∉ kv.1 ∧ 38 ∉ kv.2.

Lemma add_fields_render kvs params : Forall param_ok kvs →
  add_fields (fields (render_params kvs)) params = foldl (λ m kv, <[kv.1 := kv.2]> m) params kvs.
Proof.
  intros H. revert params. induction H as [|[k v] kvs (Hk & Hk2 & Hv) _ IH]; intros params; [done|].
  cbn [fst snd] in *. assert (38 ∉ k ++ 61 :: v) by set_solver.
  destruct kvs as [|kv kvs].
  - cbn [render_params fst snd app]. rewrite fields_one by done. cbn [add_fields].
    rewrite bool_decide_true by set_solver. by rewrite key_value_app.
  - change (render_params ((k, v) :: kv :: kvs)) with (k ++ [61] ++ v ++ [38] ++ render_params (kv :: kvs)).
    replace (k ++ [61] ++ v ++ [38] ++ render_params (kv :: kvs)) with ((k ++ 61 :: v) ++ 38 :: render_params (kv :: kvs))
      by (by rewrite <- app_assoc).
    rewrite fields_app by done. cbn [add_fields]. rewrite bool_decide_true by set_solver.
    rewrite key_value_app by done. apply IH.
Qed.

Lemma foldl_insert_map (kvs : list (bytes * bytes)) (m : HttpParams) : NoDup kvs.*1 →
  foldl (λ m kv, <[kv.1 := kv.2]> m) m kvs = list_to_map kvs ∪ m.
Proof.
  revert m. induction kvs as [|[k v] kvs IH]; intros m; cbn [foldl fmap list_fmap fst snd].
  { intros _. symmetry. apply (left_id_L ∅ (∪)). }
  intros [Hk Hnd]%NoDup_cons. rewrite IH, list_to_map_cons by done. apply map_eq. intros i.
  rewrite !lookup_union. destruct (decide (i = k)) as [->|Hne].
  - rewrite !lookup_insert_eq. rewrite (not_elem_of_list_to_map_1 kvs k) by done. by destruct (m !! k).
  - by rewrite !lookup_insert_ne.
Qed.

(** parseQuery recovers the parameters of every query: [path?k1=v1&k2=v2...] with
    distinct keys that hold no equals sign gives exactly these keys and values; so does
    the text without a path, as it comes out of the decryption, when it has no question
    mark.  Values may hold further equals signs, and there may be no parameters at all. *)
Theorem query_roundtrip path kvs : Forall param_ok kvs → NoDup kvs.*1 → 63 ∉ path →
  parseQuery (path ++ [63] ++ render_params kvs) = Ret (list_to_map kvs) ∧
  (63 ∉ render_params kvs → parseQuery (render_params kvs) = Ret (list_to_map kvs)).
Proof.
  intros Hok Hnd Hp. assert (∀ q, query_text q = render_params kvs → parseQuery q = Ret (list_to_map kvs)) as H.
  { intros q Hq. rewrite parseQuery_eq, Hq, add_fields_render, foldl_insert_map by done.
    by rewrite (right_id_L ∅ (∪)). }
  split; [|intros Hno]; apply H; unfold query_text.
  - cbn [app]. rewrite find_first_of_app by done. apply zdrop_past.
  - by rewrite find_first_of_none.
Qed.

Lemma query_roundtrip_witness :
  parseQuery (str "/GameHandle?type=2&account=a=b&note=") =
    Ret (list_to_map [(str "type", str "2"); (str "account", str "a=b"); (str "note", [])]).
Proof.
  refine (proj1 (query_roundtrip (str "/GameHandle") [(str "type", str "2"); (str "account", str "a=b"); (str "note", [])] _ _ _)).
  - repeat (apply Forall_cons; split; [by repeat split; apply (bool_decide_unpack _)|]). constructor.
  - apply (bool_decide_unpack _). vm_compute. exact I.
  - apply (bool_decide_unpack _). vm_compute. exact I.
Defined.

(** ** The HTML codec *)

(** The pairs of [codes] that are not commented out. *)
Definition codes : list (bytes * bytes) :=
  [(str "&", str "&amp;"); (str "<", str "&lt;"); (str ">", str "&gt;"); ([34], str "&quot;"); (str "'", str "&apos;");
   (str " ", str "&nbsp;"); (str "©", str "&copy;"); (str "′", str "&prime;"); (str "″", str "&Prime;");
   (str "−", str "&minus;"); (str "÷", str "&divide;"); (str "∧", str "&and;"); (str "∨", str "&or;");
   (str "⊥", str "&perp;"); (str "–", str "&ndash;"); (str "—", str "&mdash;"); (str "‘", str "&lsquo;");
   (str "’", str "&rsquo;"); (str "‚", str "&sbquo;"); (str "“", str "&ldquo;"); (str "”", str "&rdquo;");
   (str "„", str "&bdquo;")].

Section html.
Variable replace_all : bytes → bytes → bytes → bytes.

Definition HTML_Encode (s : bytes) : bytes := foldl (λ rs code, replace_all rs code.1 code.2) s codes.
Definition HTML_Decode (s : bytes) : bytes := foldl (λ rs code, replace_all rs code.2 code.1) s codes.
End html.

(** What the documentation of [boost::replace_all] says: all occurrences of [what], taken
    from the left, are replaced by [by_]. *)
Fixpoint replaced (fuel : nat) (s what by_ : bytes) : bytes :=
  match fuel with
  | O => s
  | S fuel =>
      match search what s with
      | Some i => ztake i s ++ by_ ++ replaced fuel (zdrop (i + zlen what) s) what by_
      | None => s
      end
  end.
Definition replaced_all (s what by_ : bytes) : bytes := replaced (S (length s)) s what by_.

Example html_example : HTML_Encode replaced_all (str "a <b> & ‘c’") = str "a&nbsp;&lt;b&gt;&nbsp;&amp;&nbsp;&lsquo;c&rsquo;".
Proof. vm_compute. reflexivity. Qed.

(** [HTML::Decode] decodes the ampersand first and so decodes twice: a text that names an
    entity does not survive encoding and decoding. *)
Lemma html_decodes_twice replace_all : (∀ s what by_, what ≠ [] → replace_all s what by_ = replaced_all s what by_) →
  HTML_Decode replace_all (HTML_Encode replace_all (str "&lt;")) = str "<".
Proof.
  intros H. assert (∀ l s, Forall (λ c : bytes * bytes, c.1 ≠ []) l →
    foldl (λ rs code, replace_all rs code.1 code.2) s l = foldl (λ rs code, replaced_all rs code.1 code.2) s l) as E.
  { intros l s Hl. revert s. induction Hl as [|c l Hc _ IH]; intros s; cbn; [done|]. by rewrite H, IH. }
  unfold HTML_Decode, HTML_Encode. rewrite E by (by repeat constructor).
  assert (∀ l s, Forall (λ c : bytes * bytes, c.2 ≠ []) l →
    foldl (λ rs code, replace_all rs code.2 code.1) s l = foldl (λ rs code, replaced_all rs code.2 code.1) s l) as E2.
  { intros l s Hl. revert s. induction Hl as [|c l Hc _ IH]; intros s; cbn; [done|]. by rewrite H, IH. }
  rewrite E2 by (by repeat constructor). vm_compute. reflexivity.
Qed.

(** An amount that loses a cent between the text and the call that books it: 0.29 is
    booked as 28, although [rate100] read 29. *)
Example cents_lost : rate100 (str "0.29") = Ret 29 ∧ score_cents (floors (str "0.29")) = 28.
Proof. vm_compute. done. Qed.

End ApiQuery.
