(* ===== verification/ApiOrder.v ===== *)
(** * ApiOrder: requests to the API server (src/https/ApiServer.{h,cpp}, aes.h, BackCodeSet.h)

    [processHttpRequest] and everything it calls: the order interface, the switches for
    administrators, and the tests of addresses.  Boost, OpenSSL and the conversions of
    addresses and of doubles to text are parameters (class [Env]); what of Boost's
    documentation the examples rely on is in [EnvLaws].  The calls that would book an
    order ([AddOrderScore], [SubOrderScore]) are recorded in [orders]. *)

From Stdlib Require Import Floats.SpecFloat.
From S2P Require Import Prelude BytesBuffer Buffer Base64 Http HttpServer UrlCodec BlockHash Md5 ApiQuery.
Import Http HttpServer Md5 ApiQuery.

Module ApiOrder.

(** ** Codes (BackCodeSet.h) *)

Definition NoError : Z := 0.
Definition GameHandleProxyIDError : Z := -2.
Definition GameHandleProxyMD5CodeError : Z := -3.
Definition GameHandleProxyDESCodeError : Z := -4.
Definition GameHandleParamsError : Z := -5.
Definition GameHandleOperationTypeError : Z := -6.
Definition OpAddScore : Z := 2.
Definition OpSubScore : Z := 3.
Definition ServiceRepairing : Z := 0.
Definition ServiceRunning : Z := 1.
Inductive eApiVisit : Type := Enable | Disable.
#[export] Instance eApiVisit_eq_dec : EqDecision eApiVisit.
Proof. solve_decision. Defined.
Inductive eWhiteListCtrl : Type := Close | Open | OpenAccept.
#[export] Instance eWhiteListCtrl_eq_dec : EqDecision eWhiteListCtrl.
Proof. solve_decision. Defined.

(** ** What is not part of the program *)

(** A [boost::property_tree::ptree]. *)
Inductive ptree : Type := PT (data : bytes) (children : list (bytes * ptree)).

Class Env : Type := {
  regex_match : bytes → bytes → bool;
  replace_all : bytes → bytes → bytes → bytes;
  split : bytes → Z → list bytes;
  write_json : ptree → bytes;
  aes_key : Type;
  AES_set_decrypt_key : bytes → Z → option aes_key;
  AES_decrypt : aes_key → bytes → bytes;
  inet_pton : bytes → option Z;
  to_string_double : double → bytes;
  (** what the memory of a local variable holds *)
  garbage : bytes;
}.

(** ** State *)

Record agent_info_t : Type := mkAgent {
  agent_score : Z;
  status : Z;
  agentId : Z;
  cooperationtype : Z;
  descode : bytes;
  md5code : bytes;
}.

Inductive Order : Type :=
| AddOrderScore (account : bytes) (score : Z) (agent : Z) (orderId : bytes)
| SubOrderScore (account : bytes) (score : Z) (agent : Z) (orderId : bytes).

Record ApiState : Type := mkApi {
  server_state_ : Z;
  agent_info_ : gmap Z agent_info_t;
  white_list_ : gmap Z eApiVisit;
  admin_list_ : gmap Z eApiVisit;
  whiteListControl_ : eWhiteListCtrl;
  isdecrypt_ : bool;
  (** calls of refreshWhiteListInLoop that wait for the loop of the acceptor *)
  refreshes : nat;
  orders : list Order;
}.

Definition set_server_state (s : ApiState) (v : Z) : ApiState :=
  mkApi v (agent_info_ s) (white_list_ s) (admin_list_ s) (whiteListControl_ s) (isdecrypt_ s) (refreshes s) (orders s).
Definition set_agents (s : ApiState) (m : gmap Z agent_info_t) : ApiState :=
  mkApi (server_state_ s) m (white_list_ s) (admin_list_ s) (whiteListControl_ s) (isdecrypt_ s) (refreshes s) (orders s).
Definition set_white_list (s : ApiState) (m : gmap Z eApiVisit) (n : nat) : ApiState :=
  mkApi (server_state_ s) (agent_info_ s) m (admin_list_ s) (whiteListControl_ s) (isdecrypt_ s) n (orders s).
Definition add_order (s : ApiState) (o : Order) : ApiState :=
  mkApi (server_state_ s) (agent_info_ s) (white_list_ s) (admin_list_ s) (whiteListControl_ s) (isdecrypt_ s)
    (refreshes s) (orders s ++ [o]).

Section api.
Context `{!Env}.

(** ** Numbers and texts *)

Definition digit_pattern : bytes := str "^[0-9]+([.]{1}[0-9]+){0,1}$".
Definition IsDigitalStr (s : bytes) : bool := regex_match digit_pattern s.

(** [std::to_string] of an [int]. *)
Definition to_string (n : Z) : bytes := if n <? 0 then 45 :: dec (- n) else dec n.

(** [boost::replace_all] of a quoted placeholder. *)
Definition replace (json placeholder value : bytes) : bytes := replace_all json ([34] ++ placeholder ++ [34]) value.

Definition leaf (v : bytes) : ptree := PT v [].

Definition createResponse (opType : Z) (orderId : bytes) (agentId : Z) (account : bytes) (score : double)
    (errcode : Z) (errmsg : bytes) (debug : bool) : bytes :=
  let data := (if debug then [(str "orderid", leaf orderId); (str "agentid", leaf (str ":agentid"))] else []) ++
              [(str "account", leaf account); (str "score", leaf (str ":score")); (str "code", leaf (str ":code"))] ++
              (if debug then [(str "errmsg", leaf errmsg)] else []) in
  let root := PT [] [(str "maintype", leaf (str "/GameHandle")); (str "type", leaf (str ":type")); (str "data", PT [] data)] in
  let json := write_json root in
  let json := if debug then replace json (str ":agentid") (to_string (u32 agentId)) else json in
  let json := replace json (str ":score") (to_string_double score) in
  let json := replace json (str ":code") (to_string errcode) in
  let json := replace json (str ":type") (to_string opType) in
  replace_all json [92] [].

(** The headers in the order of the [std::map]. *)
Definition sorted_headers (h : gmap bytes bytes) : list (bytes * bytes) :=
  foldr (λ kv l, map_set kv.1 kv.2 l) [] (map_to_list h).

Definition quote (s : bytes) : bytes := [34] ++ s ++ [34].

Definition getRequestStr (req : HttpRequest) : bytes :=
  let headers := concat ((λ kv, kv.1 ++ str ": " ++ kv.2 ++ [10]) <$> sorted_headers (headers_ req)) in
  str "<?xml version=" ++ quote (str "1.0") ++ str " encoding=" ++ quote (str "utf-8") ++ str " ?>" ++
  str "<xs:root xmlns:xs=" ++ quote (str "http://www.w3.org/2001/XMLSchema") ++ str ">" ++
  str "<xs:head>" ++ headers ++ str "</xs:head>" ++
  str "<xs:body>" ++
  str "<xs:method>" ++ methodString (method_ req) ++ str "</xs:method>" ++
  str "<xs:path>" ++ path_ req ++ str "</xs:path>" ++
  str "<xs:query>" ++ HTML_Encode replace_all (query_ req) ++ str "</xs:query>" ++
  str "</xs:body>" ++
  str "</xs:root>".
(** ** AES_ECBDecrypt (aes.h) *)

Definition byte_at (l : bytes) (i : Z) : outcome Z :=
  in_bounds ((0 <=? i) && (i <? zlen l)) ;; Ret (nth (Z.to_nat i) l 0).
Definition set_byte (l : bytes) (i v : Z) : outcome bytes :=
  in_bounds ((0 <=? i) && (i <? zlen l)) ;; Ret (<[Z.to_nat i := v]> l).

(** [for (i = 2; i <= nEnd - nStart; ++i)], from [i] on. *)
Fixpoint clear_loop (n : nat) (pSrc : bytes) (nSrcLen i : Z) : outcome bytes :=
  match n with
  | O => Ret pSrc
  | S n =>
      x ← byte_at pSrc (nSrcLen - 1);
      y ← byte_at pSrc (nSrcLen - 1 - i);
      if x =? y then clear_loop n pSrc nSrcLen (i + 1) else set_byte pSrc (nSrcLen - i) 0
  end.

Definition ClearPadding (pSrc : bytes) (nSrcLen : Z) : outcome bytes :=
  let nStart := (nSrcLen / 16 - 1) * 16 in
  x ← byte_at pSrc (nSrcLen - 1);
  y ← byte_at pSrc (nSrcLen - 2);
  if negb (x =? y) then if x <? 16 then set_byte pSrc (nSrcLen - 1) 0 else Ret pSrc
  else clear_loop (Z.to_nat (nSrcLen - nStart - 1)) pSrc nSrcLen 2.

(** [while (len < dstlen)]: returns [dst] and [len]. *)
Fixpoint aes_loop (fuel : nat) (ctx : aes_key) (src dst : bytes) (len : Z) : outcome (bytes * Z) :=
  if len <? zlen dst then
    match fuel with
    | O => Abort OutOfFuel
    | S fuel =>
        in_bounds (len + 16 <=? zlen dst) ;;
        let out := AES_decrypt ctx (ztake 16 (zdrop len src)) in
        aes_loop fuel ctx src (ztake len dst ++ ztake 16 out ++ zdrop (len + 16) dst) (len + 16)
    end
  else Ret (dst, len).

Definition text_pattern : bytes := str "^[ -~一-龥]+$".

(** The text before the first zero byte. *)
Definition c_string (l : bytes) : bytes := ztake (find_char 0 l) l.

Definition AES_ECBDecrypt (data key : bytes) : outcome bytes :=
  let src := Base64.Decode data in
  if bool_decide (src = []) then Ret []
  else
    match AES_set_decrypt_key key (zlen key * 8) with
    | None => Ret []
    | Some ctx =>
        let dst := replicate (length src) 0 in
        '(dst, len) ← aes_loop (length src) ctx src dst 0;
        dst ← ClearPadding dst (zlen dst);
        dst ← set_byte dst len 0;
        Ret (if regex_match text_pattern (c_string dst) then c_string dst else [])
    end.

(** ** OrderProcess *)

(** The local variables that end up in the answer. *)
Record Reply : Type := mkReply {
  r_opType : Z; r_agentId : Z; r_account : bytes; r_orderId : bytes; r_score : double; r_errcode : Z; r_errmsg : bytes }.

(** A parameter that is there and not empty. *)
Definition param (params : HttpParams) (key : bytes) : option bytes :=
  match params !! key with
  | Some v => if bool_decide (v = []) then None else Some v
  | None => None
  end.

(** An [int] from a parameter. *)
Definition int_param (params : HttpParams) (key : bytes) : option Z := s32 ∘ atol <$> param params key.

(** The score, and whether it is there and valid. *)
Definition score_param (params : HttpParams) : outcome (double * bool) :=
  match param params (str "score") with
  | None => Ret (S754_zero false, false)
  | Some v =>
      if negb (IsDigitalStr v) then Ret (S754_zero false, false)
      else
        let score := floors v in
        if SFleb score (S754_zero false) || NotScore score then Ret (score, false)
        else scoreI64 ← rate100 v; Ret (score, negb (scoreI64 <=? 0))
  end.

Definition doOrderExecute (s : ApiState) (opType : Z) (account : bytes) (score : double) (agent : agent_info_t)
    (orderId : bytes) : Z * ApiState :=
  if opType =? OpAddScore then (0, add_order s (AddOrderScore account (score_cents score) (agentId agent) orderId))
  else (0, add_order s (SubOrderScore account (score_cents score) (agentId agent) orderId)).

(** Account, order and score, from either set of parameters; returns the first two, the
    score, the error code and the message. *)
Definition order_params (params : HttpParams) (errcode : Z) (errmsg : bytes) :
    outcome (bytes * bytes * double * Z * bytes) :=
  let '(account, errcode, errmsg) :=
    match param params (str "account") with
    | Some v => (v, errcode, errmsg)
    | None => ([], GameHandleParamsError, errmsg ++ str "account ")
    end in
  let '(orderId, errcode, errmsg) :=
    match param params (str "orderid") with
    | Some v => (v, errcode, errmsg)
    | None => ([], GameHandleParamsError, errmsg ++ str "orderid ")
    end in
  '(score, ok) ← score_param params;
  if ok : bool then Ret (account, orderId, score, errcode, errmsg)
  else Ret (account, orderId, score, GameHandleParamsError, errmsg ++ str "score ").

Definition find_agent (s : ApiState) (id : Z) : Z * bytes + agent_info_t :=
  match agent_info_ s !! id with
  | None => inl (GameHandleProxyIDError, str "agent_info not found")
  | Some agent =>
      if status agent =? 1 then inl (GameHandleProxyIDError, str "agent.status error") else inr agent
  end.

(** The branch for requests that are not encrypted. *)
Definition plain_order (s : ApiState) (params : HttpParams) : outcome (Reply * ApiState) :=
  let '(opType, errcode, errmsg) :=
    match int_param params (str "type") with
    | Some t => if t <? 0 then (t, GameHandleOperationTypeError, str "type ") else (t, NoError, [])
    | None => (0, GameHandleOperationTypeError, str "type ")
    end in
  let '(errcode, errmsg) :=
    if negb (opType =? OpAddScore) && negb (opType =? OpSubScore)
    then (GameHandleOperationTypeError, errmsg ++ str "type value ") else (errcode, errmsg) in
  let id := default 0 (int_param params (str "agentid")) in
  if id <=? 0 then Ret (mkReply opType id [] [] (S754_zero false) GameHandleParamsError (errmsg ++ str "agentid "), s)
  else
    '(account, orderId, score, errcode, errmsg) ← order_params params errcode errmsg;
    let reply := mkReply opType id account orderId score in
    if negb (errcode =? 0) then Ret (reply errcode (errmsg ++ str "invalid"), s)
    else
      match find_agent s id with
      | inl (code, msg) => Ret (reply code msg, s)
      | inr agent =>
          let '(code, s) := doOrderExecute s opType account score agent orderId in
          Ret (reply code errmsg, s)
      end.
(** *** Encrypted requests *)

Definition tolower (c : Z) : Z := if (65 <=? c) && (c <=? 90) then c + 32 else c.

(** [strncasecmp(md5, key.c_str(), min(32, key.length())) == 0]. *)
Definition key_matches (md5 key : bytes) : bool :=
  let n := Z.min 32 (zlen key) in
  bool_decide (tolower <$> ztake n md5 = tolower <$> ztake n key).

(** The digest of agent, time and secret is compared with the key of the request. *)
Definition check_key (id : Z) (timestamp key : bytes) (agent : agent_info_t) : outcome bool :=
  let src := to_string id ++ timestamp ++ md5code agent in
  md5 ← MD5Encode32 garbage src true;
  Ret (key_matches md5 key).

(** [for (c = 1; c < 3; ++c)]: decode once or twice. *)
Fixpoint decrypt_value (n : nat) (paraValue key : bytes) : outcome bytes :=
  match n with
  | O => Ret []
  | S n =>
      paraValue ← UrlCodec.MultipleDecode paraValue;
      let paraValue := replace_all paraValue [13; 10] [] in
      let paraValue := replace_all paraValue [13] [] in
      let paraValue := replace_all paraValue [10] [] in
      decrypt ← AES_ECBDecrypt paraValue key;
      if bool_decide (decrypt = []) then decrypt_value n paraValue key else Ret decrypt
  end.

Definition encrypted_order (s : ApiState) (params : HttpParams) : outcome (Reply * ApiState) :=
  let reply opType id code msg := mkReply opType id [] [] (S754_zero false) code (str msg) in
  let opType := default 0 (int_param params (str "type")) in
  if bool_decide (param params (str "type") = None) || (opType <? 0)
  then Ret (reply opType 0 GameHandleOperationTypeError "type invalid", s)
  else if negb (opType =? OpAddScore) && negb (opType =? OpSubScore)
  then Ret (reply opType 0 GameHandleOperationTypeError "type value invalid", s)
  else
    let id := default 0 (int_param params (str "agentid")) in
    if id <=? 0 then Ret (reply opType id GameHandleParamsError "agentid invalid", s)
    else
      let fail code msg := Ret (reply opType id code msg, s) in
      match param params (str "timestamp") with
      | None => fail GameHandleParamsError "timestamp invalid"
      | Some timestamp =>
      if atol timestamp <=? 0 then fail GameHandleParamsError "timestamp invalid" else
      match param params (str "paraValue") with
      | None => fail GameHandleParamsError "paraValue invalid"
      | Some paraValue =>
      match param params (str "key") with
      | None => fail GameHandleParamsError "key invalid"
      | Some key =>
      match find_agent s id with
      | inl (code, msg) => Ret (mkReply opType id [] [] (S754_zero false) code msg, s)
      | inr agent =>
          ok ← check_key id timestamp key agent;
          if negb ok then fail GameHandleProxyMD5CodeError "md5 check error"
          else
            decrypt ← decrypt_value 2 (HTML_Decode replace_all paraValue) (descode agent);
            if bool_decide (decrypt = [])
            then fail GameHandleProxyDESCodeError "DESDecrypt failed, AES_set_decrypt_key error"
            else
              decryptParams ← parseQuery decrypt;
              '(account, orderId, score, errcode, errmsg) ← order_params decryptParams NoError [];
              let reply := mkReply opType id account orderId score in
              if negb (errcode =? 0) then Ret (reply errcode (errmsg ++ str "invalid"), s)
              else
                let '(code, s) := doOrderExecute s opType account score agent orderId in
                Ret (reply code errmsg, s)
      end end end end.

(** [dt] is the time that is added to the message. *)
Definition OrderProcess (s : ApiState) (debug : bool) (reqStr dt : bytes) : outcome (bytes * Reply * ApiState) :=
  params ← parseQuery reqStr;
  '(r, s) ← (if isdecrypt_ s then encrypted_order s params else plain_order s params);
  Ret (createResponse (r_opType r) (r_orderId r) (r_agentId r) (r_account r) (r_score r) (r_errcode r)
         (r_errmsg r ++ dt) debug, r, s).

(** ** Switches for administrators *)

(** [__sync_val_compare_and_swap(&server_state_, from, to)]. *)
Definition swap_state (s : ApiState) (from to : Z) : ApiState :=
  if server_state_ s =? from then set_server_state s to else s.

(** The common part of repairApiServer and repairApiServerNotify. *)
Definition repair_to (s : ApiState) (status : Z) : bool * ApiState :=
  if status <? 0 then (false, s)
  else if status =? ServiceRepairing then (true, swap_state s ServiceRunning ServiceRepairing)
  else if status =? ServiceRunning then (true, swap_state s ServiceRepairing ServiceRunning)
  else (false, s).

Definition repairApiServerNotify (s : ApiState) (msg : bytes) : ApiState :=
  if bool_decide (msg = []) then s else (repair_to s (s32 (atol msg))).2.

Definition repairApiServer (s : ApiState) (reqStr : bytes) : outcome (bool * ApiState) :=
  params ← parseQuery reqStr;
  match int_param params (str "status") with
  | None => Ret (false, s)
  | Some status => Ret (repair_to s status)
  end.

Definition refreshAgentInfo (s : ApiState) : bool * ApiState := (true, set_agents s ∅).

Definition refreshWhiteListSync (s : ApiState) : outcome (bool * ApiState) :=
  assert (bool_decide (whiteListControl_ s = Open)) ;;
  Ret (true, set_white_list s ∅ (refreshes s)).

(** Run later, by the loop of the acceptor. *)
Definition refreshWhiteListInLoop (s : ApiState) : outcome (bool * ApiState) :=
  assert (bool_decide (whiteListControl_ s = OpenAccept)) ;;
  Ret (true, set_white_list s ∅ (refreshes s - 1)).

Definition refreshWhiteList (s : ApiState) : outcome ApiState :=
  match whiteListControl_ s with
  | OpenAccept => Ret (set_white_list s (white_list_ s) (S (refreshes s)))
  | Open => '(_, s) ← refreshWhiteListSync s; Ret s
  | Close => Ret s
  end.

(** ** processHttpRequest *)

Definition setFailedResponse (rsp : HttpResponse) (code : Z) (msg : bytes) : HttpResponse :=
  let rsp := setStatusCode rsp code in
  let rsp := setStatusMessage rsp (str "OK") in
  let rsp := HttpServer.addHeader rsp (str "Server") (str "MUDUO") in
  let rsp := setContentType rsp (str "text/plain;charset=utf-8") in
  setBody rsp msg.

Definition failed (text : bytes) : bytes := text ++ [13; 10; 13; 10].

Definition help_page : bytes :=
  str "<html>" ++ str "<head><title>help</title></head>" ++ str "<body>" ++
  str "<h4>/refreshAgentInfo</h4>" ++ str "<h4>/refreshWhiteList</h4>" ++
  str "<h4>/repairApiServer?status=0|1(status=0挂维护 status=1恢复服务)</h4>" ++
  str "</body>" ++ str "</html>".

Definition is_admin (s : ApiState) (peer : Z) : bool := bool_decide (is_Some (admin_list_ s !! peer)).

(** A page for administrators; others are told that they may not. *)
Definition for_admin (s : ApiState) (peer : Z) (rsp : HttpResponse) (f : HttpResponse → outcome (HttpResponse * ApiState)) :
    outcome (HttpResponse * ApiState) :=
  if is_admin s peer then f (setContentType rsp (str "text/plain;charset=utf-8"))
  else Ret (setFailedResponse rsp k404NotFound (failed (str "HTTP/1.1 504 权限不够")), s).

Definition success (ok : bool) : bytes := if ok then str "success" else str "failed".

Definition processHttpRequest (s : ApiState) (debug : bool) (req : HttpRequest) (rsp : HttpResponse) (peer : Z) (dt : bytes) :
    outcome (HttpResponse * ApiState) :=
  let rsp := setStatusCode rsp k200Ok in
  let rsp := setStatusMessage rsp (str "OK") in
  let rsp := setCloseConnection rsp true in
  let rsp := HttpServer.addHeader rsp (str "Server") (str "MUDUO") in
  let not_found := setFailedResponse rsp k404NotFound (failed (str "HTTP/1.1 404 Not Found")) in
  let path := path_ req in
  if bool_decide (path = str "/") then Ret (not_found, s)
  else if bool_decide (path = str "/GameHandle") then
    '(rsp, s) ←
      (if server_state_ s =? ServiceRepairing
       then Ret (setFailedResponse rsp k404NotFound (failed (str "HTTP/1.1 405 服务维护中")), s)
       else
         '(rspdata, _, s) ← OrderProcess s debug (query_ req) dt;
         Ret (setBody (setContentType rsp (str "application/json;charset=utf-8")) rspdata, s));
    let rsp := setContentType rsp (str "application/xml;charset=utf-8") in
    Ret (setBody rsp (getRequestStr req), s)
  else if bool_decide (path = str "/refreshAgentInfo") then
    for_admin s peer rsp (λ rsp, let '(ok, s) := refreshAgentInfo s in Ret (setBody rsp (success ok), s))
  else if bool_decide (path = str "/refreshWhiteList") then
    for_admin s peer rsp (λ rsp, s ← refreshWhiteList s; Ret (setBody rsp (str "success"), s))
  else if bool_decide (path = str "/repairApiServer") then
    for_admin s peer rsp (λ rsp, '(ok, s) ← repairApiServer s (query_ req); Ret (setBody rsp (success ok), s))
  else if bool_decide (path = str "/help") then
    for_admin s peer rsp (λ rsp, Ret (setBody (setContentType rsp (str "text/html;charset=utf-8")) help_page, s))
  else Ret (not_found, s).
(** ** Addresses *)

(** [ConditionCallback] of the acceptor. *)
Definition onHttpCondition (s : ApiState) (peer : Z) : outcome bool :=
  assert (bool_decide (whiteListControl_ s = OpenAccept)) ;;
  Ret (is_admin s peer || bool_decide (white_list_ s !! peer = Some Enable)).

Definition ip_pattern : bytes :=
  str "^(1\d{2}|2[0-4]\d|25[0-5]|[1-9]\d|[1-9])\." ++ str "(1\d{2}|2[0-4]\d|25[0-5]|[1-9]\d|\d)\." ++
  str "(1\d{2}|2[0-4]\d|25[0-5]|[1-9]\d|\d)\." ++ str "(1\d{2}|2[0-4]\d|25[0-5]|[1-9]\d|\d)$".

Definition starts_with (s prefix : bytes) : bool := bool_decide (ztake (zlen prefix) s = prefix).

(** A public address of the header. *)
Definition public_ip (it : bytes) : bool :=
  negb (bool_decide (it = [])) && regex_match ip_pattern it &&
  negb (starts_with it (str "10.")) && negb (starts_with it (str "192.168")) && negb (starts_with it (str "172.16.")).

(** The address a request counts for: the first public one of the header
    X-Forwarded-For, or that of the peer if there is no such header. *)
Definition client_ip (req : HttpRequest) (peer_text : bytes) : bytes :=
  let ipaddrs := getHeader req (str "X-Forwarded-For") in
  if bool_decide (ipaddrs = []) then peer_text
  else default [] (List.find public_ip (split (replace_all ipaddrs [32] []) 44)).

(** The test of onHttpMessage; an address that cannot be read is 0. *)
Definition visit_allowed (s : ApiState) (req : HttpRequest) (peer_text : bytes) : bool :=
  let peer := default 0 (inet_pton (client_ip req peer_text)) in
  is_admin s peer || bool_decide (white_list_ s !! peer = Some Enable).
End api.

(** What the documentation of Boost says of the functions above. *)
Fixpoint split_text (s : bytes) (c : Z) : list bytes :=
  match s with
  | [] => [[]]
  | x :: s => if x =? c then [] :: split_text s c
              else match split_text s c with f :: fs => (x :: f) :: fs | [] => [[x]] end
  end.

Class EnvLaws `(Env) : Prop := {
  regex_decimal s : regex_match digit_pattern s = decimal_text s;
  replace_doc s what by_ : what ≠ [] → replace_all s what by_ = replaced_all s what by_;
  split_doc s c : split s c = split_text s c;
  garbage_size : length garbage = 64%nat;
}.

(** ** Orders in plain text *)

Section orders.
Context {E : Env} {L : EnvLaws E}.

(** *** Scores *)

Lemma digits_value_app a b acc : forallb is_digit a = true →
  digits_value acc (a ++ b) = digits_value (digits_value acc a) b.
Proof.
  revert acc. induction a as [|c a IH]; intros acc; [done|]. cbn. intros [Hc Ha]%andb_true_iff. rewrite Hc. by apply IH.
Qed.

Lemma digits_value_bounds s acc : forallb is_digit s = true → 0 ≤ acc →
  acc * 10 ^ zlen s ≤ digits_value acc s < (acc + 1) * 10 ^ zlen s.
Proof.
  revert acc. induction s as [|c s IH]; intros acc; [cbn; lia|]. cbn [forallb digits_value]. intros [Hc Hs]%andb_true_iff Ha.
  rewrite Hc. unfold is_digit in Hc. apply andb_true_iff in Hc as [? ?].
  specialize (IH (10 * acc + (c - 48)) Hs ltac:(lia)). cbn [length]. rewrite Nat2Z.inj_succ, Z.pow_succ_r by lia.
  pose proof (Z.pow_pos_nonneg 10 (zlen s)). nia.
Qed.

Lemma skip_space_digits s : forallb is_digit s = true → skip_space s = s.
Proof.
  destruct s as [|c s]; [done|]. cbn. intros [Hc _]%andb_true_iff. unfold is_digit in Hc. apply andb_true_iff in Hc as [? ?].
  unfold isspace. replace ((9 <=? c) && (c <=? 13)) with false by (symmetry; apply andb_false_iff; lia).
  by rewrite (proj2 (Z.eqb_neq c 32)) by lia.
Qed.

Lemma atol_digits s : forallb is_digit s = true → zlen s ≤ 18 → atol s = digits_value 0 s.
Proof.
  intros Hs Hl. unfold atol. rewrite skip_space_digits by done.
  pose proof (digits_value_bounds s 0 Hs (Z.le_refl 0)) as [H1 H2].
  assert (10 ^ zlen s ≤ 10 ^ 18) by (apply Z.pow_le_mono_r; lia).
  replace (match s with 45 :: s => - digits_value 0 s | 43 :: s => digits_value 0 s | _ => digits_value 0 s end)
    with (digits_value 0 s); [lia|].
  destruct s as [|c s]; [done|]. cbn in Hs. apply andb_true_iff in Hs as [Hc _]. unfold is_digit in Hc.
  apply andb_true_iff in Hc as [? ?]. repeat (case_match; try done; try lia).
Qed.

(** The digits before the point and those after it. *)
Definition decimal_parts (v : bytes) : bytes * bytes :=
  match find_first_of 46 v with
  | Some npos => (ztake npos v, zdrop (npos + 1) v)
  | None => (v, [])
  end.

(** The score that a text stands for, if it is one: a decimal number with at most nine
    digits before the point, which is positive after all digits but the first two behind the
    point are dropped; it is taken as the nearest double, which must not be below [0.01f]. *)
Definition decimal_score (v : bytes) : option double :=
  let '(int, frac) := decimal_parts v in
  let two := ztake 2 frac in
  let n := digits_value 0 (int ++ two) in
  let score := of_decimal n (length two) in
  if decimal_text v && (zlen int <=? 9) && (0 <? n) && negb (NotScore score) then Some score else None.

Lemma decimal_digits v : decimal_text v = true →
  forallb is_digit (decimal_parts v).1 = true ∧ forallb is_digit (decimal_parts v).2 = true.
Proof.
  unfold decimal_text, decimal_parts, all_digits. destruct (find_first_of 46 v); cbn; rewrite !andb_true_iff; tauto.
Qed.

Lemma forallb_ztake (f : Z → bool) n l : forallb f l = true → forallb f (ztake n l) = true.
Proof. rewrite <- (ztake_zdrop n l) at 1. rewrite forallb_app, andb_true_iff. tauto. Qed.

(** [floors] and [rate100] of a decimal text. *)
Lemma floors_decimal v : decimal_text v = true →
  floors v = of_decimal (digits_value 0 ((decimal_parts v).1 ++ ztake 2 (decimal_parts v).2))
               (length (ztake 2 (decimal_parts v).2)).
Proof.
  intros Hd. pose proof (decimal_digits v Hd) as [Hi Hf]. revert Hd Hi Hf. unfold decimal_text, decimal_parts, floors.
  destruct (find_first_of 46 v) as [npos|] eqn:Hn; cbn [fst snd].
  - intros [_ [Hne _]%andb_true_iff]%andb_true_iff Hi Hf.
    rewrite (proj1 (negb_true_iff _) Hne). set (int := ztake npos v) in *. set (frac := zdrop (npos + 1) v) in *.
    replace (if 2 <=? zlen frac then ztake 2 frac else ztake 1 frac) with (ztake 2 frac).
    2: { case_match; [done|]. rewrite !ztake_all by lia. done. }
    unfold atof. cbn [app]. rewrite find_first_of_app.
    2: { intros Hin%list_elem_of_In. rewrite forallb_forall in Hi. by apply Hi in Hin. }
    rewrite ztake_app by done.
    replace (zdrop (zlen int + 1) (int ++ 46 :: ztake 2 frac)) with (ztake 2 frac); [done|].
    change (int ++ 46 :: ztake 2 frac) with (int ++ [46] ++ ztake 2 frac). rewrite app_assoc.
    symmetry. apply zdrop_app. rewrite length_app. cbn. lia.
  - intros _ _ _. unfold atof. rewrite Hn. cbn. by rewrite app_nil_r.
Qed.

Lemma rate100_decimal v : decimal_text v = true →
  ∃ k, 0 < k ∧ rate100 v = Ret (if zlen (decimal_parts v).1 <=? 9
    then digits_value 0 ((decimal_parts v).1 ++ ztake 2 (decimal_parts v).2) * k else 0).
Proof.
  intros Hd. pose proof (decimal_digits v Hd) as [Hi Hf]. revert Hd Hi Hf. unfold decimal_text, decimal_parts, rate100.
  destruct (find_first_of 46 v) as [npos|] eqn:Hn; cbn [fst snd].
  - intros [_ [Hne _]%andb_true_iff]%andb_true_iff Hi Hf.
    rewrite assert_true, bind_ret by done. set (int := ztake npos v) in *. set (frac := zdrop (npos + 1) v) in *.
    assert (0 < zlen frac) as Hpos by (apply negb_true_iff, bool_decide_eq_false in Hne; destruct frac; [done|cbn; lia]).
    destruct (Z.leb_spec 2 (zlen frac)) as [H2|H2].
    + exists 1. split; [lia|]. rewrite Z.mul_1_r.
      assert (zlen (int ++ ztake 2 frac) = zlen int + 2) as Hl by (rewrite length_app, Nat2Z.inj_add, length_ztake; lia).
      rewrite Hl.
      destruct (Z.leb_spec (zlen int) 9); [rewrite (proj2 (Z.leb_le _ _)) by lia|by rewrite (proj2 (Z.leb_gt _ _)) by lia].
      rewrite atol_digits; [done|rewrite forallb_app, Hi; by apply forallb_ztake|lia].
    + exists 10. split; [lia|]. rewrite !ztake_all, !length_app by lia. cbn [length].
      destruct (Z.leb_spec (zlen int) 9); [rewrite (proj2 (Z.leb_le _ _)) by lia|by rewrite (proj2 (Z.leb_gt _ _)) by lia].
      assert (forallb is_digit (int ++ frac) = true) as Hall by by rewrite forallb_app, Hi, Hf.
      rewrite app_assoc, atol_digits; [rewrite digits_value_app by done; f_equal; cbn; lia| |].
      * by rewrite forallb_app, Hall.
      * rewrite !length_app. cbn [length]. lia.
  - intros Hd Hi _. cbn. rewrite app_nil_r. exists 100. split; [lia|].
    destruct (Z.leb_spec (zlen v) 9); [|done]. by rewrite atol_digits by (done || lia).
Qed.

(** A double that is not below [0.01f] is positive. *)
Lemma NotScore_positive x : NotScore x = false → SFleb x (S754_zero false) = false.
Proof. by destruct x as [[]|[]| |[] ? ?]. Qed.

Definition order_score (params : HttpParams) : option double := param params (str "score") ≫= decimal_score.

Lemma score_param_decimal params : ∃ score, score_param params =
  Ret (match order_score params with Some score => (score, true) | None => (score, false) end).
Proof using L.
  unfold score_param, order_score. destruct (param params (str "score")) as [v|]; cbn [mbind option_bind]; [|by eexists].
  unfold IsDigitalStr, decimal_score. rewrite regex_decimal. destruct (decimal_text v) eqn:Hd; cbn [negb andb].
  2: { destruct (decimal_parts v). by eexists. }
  pose proof (floors_decimal v Hd) as ->. pose proof (rate100_decimal v Hd) as (k & Hk & ->).
  destruct (decimal_parts v) as [int frac]. cbn [fst snd]. set (n := digits_value _ _). set (score := of_decimal _ _).
  exists score. destruct (NotScore score) eqn:Hns.
  { by rewrite orb_true_r, !andb_false_r. }
  rewrite NotScore_positive by done. cbn [orb negb]. rewrite bind_ret, andb_true_r.
  destruct (zlen int <=? 9); cbn [andb]; [|done]. destruct (Z.ltb_spec 0 n).
  - by rewrite (proj2 (Z.leb_gt _ _)) by nia.
  - by rewrite (proj2 (Z.leb_le _ _)) by nia.
Qed.

(** *** What a query asks for *)

(** The code of the last test that fails, of tests with their codes. *)
Fixpoint last_failure (tests : list (bool * Z)) : option Z :=
  match tests with
  | [] => None
  | (ok, code) :: tests =>
      match last_failure tests with
      | Some code => Some code
      | None => if ok then None else Some code
      end
  end.

Definition is_there {A} (o : option A) : bool := match o with Some _ => true | None => false end.

(** The tests of the parameters, in the order of the code. *)
Definition order_tests (params : HttpParams) : list (bool * Z) :=
  let type := default 0 (int_param params (str "type")) in
  [((type =? OpAddScore) || (type =? OpSubScore), GameHandleOperationTypeError);
   (0 <? default 0 (int_param params (str "agentid")), GameHandleParamsError);
   (is_there (param params (str "account")), GameHandleParamsError);
   (is_there (param params (str "orderid")), GameHandleParamsError);
   (is_there (order_score params), GameHandleParamsError)].

(** What a set of parameters asks for: an error code or an order. *)
Definition order_of (s : ApiState) (params : HttpParams) : Z + Order :=
  match last_failure (order_tests params) with
  | Some code => inl code
  | None =>
      match agent_info_ s !! default 0 (int_param params (str "agentid")) with
      | Some agent =>
          if status agent =? 1 then inl GameHandleProxyIDError
          else inr ((if default 0 (int_param params (str "type")) =? OpAddScore then AddOrderScore else SubOrderScore)
                      (default [] (param params (str "account")))
                      (score_cents (default (S754_zero false) (order_score params)))
                      (agentId agent) (default [] (param params (str "orderid"))))
      | None => inl GameHandleProxyIDError
      end
  end.

Lemma plain_order_of s params : ∃ r s', plain_order s params = Ret (r, s') ∧
  match order_of s params with
  | inl code => r_errcode r = code ∧ s' = s
  | inr o => r_errcode r = NoError ∧ s' = add_order s o
  end.
Proof using L.
  unfold plain_order, order_of, order_tests, order_params, find_agent, doOrderExecute.
  destruct (score_param_decimal params) as (score & ->).
  assert (∀ t, t <? 0 = true → (t =? OpAddScore) || (t =? OpSubScore) = false) as Hneg.
  { intros t Ht. unfold OpAddScore, OpSubScore. apply orb_false_iff. lia. }
  rewrite Z.leb_antisym. set (id := default 0 (int_param params (str "agentid"))). clearbody id.
  generalize (order_score params). intros sc.
  generalize (param params (str "account")), (param params (str "orderid")). intros account orderId.
  destruct (int_param params (str "type")) as [t|]; cbn [default]; unfold Datatypes.id.
  - destruct (t <? 0) eqn:Ht; [pose proof (Hneg t Ht) as [E1 E2]%orb_false_iff; rewrite E1, E2|destruct (t =? OpAddScore), (t =? OpSubScore)];
      destruct (0 <? id), account, orderId, sc; cbn -[str score_cents]; try (by do 2 eexists);
      (destruct (agent_info_ s !! id) as [agent|]; cbn -[str score_cents]; [|by do 2 eexists];
       destruct (status agent =? 1); cbn -[str score_cents]; by do 2 eexists).
  - destruct (0 <? id), account, orderId, sc; cbn -[str score_cents]; by do 2 eexists.
Qed.

(** C34: the order interface in plain text (isdecrypt_ is false), for every query.  The
    parameters are tested in this order: the type is 2 or 3, the agent's number is positive,
    account and order number are there and not empty, the score is a decimal number with at
    most nine digits before the point that is at least one hundredth (see [decimal_score]).
    If a test fails nothing is booked and the answer has the code of the last test that
    fails; else nothing is booked and the answer has the code of an unknown agent if the
    agent does not exist or is disabled; else exactly one order is booked, with the account,
    the order number and the agent of the parameters and the amount that int64_t(score *
    100) makes of the score as a double. *)
Theorem plain_order_outcome s debug q dt : isdecrypt_ s = false →
  ∃ json r s', OrderProcess s debug q dt = Ret (json, r, s') ∧
    match order_of s (add_fields (fields (query_text q)) ∅) with
    | inl code => r_errcode r = code ∧ s' = s
    | inr o => r_errcode r = NoError ∧ s' = add_order s o
    end.
Proof using L.
  intros Hd. unfold OrderProcess. rewrite parseQuery_eq, bind_ret, Hd.
  destruct (plain_order_of s (add_fields (fields (query_text q)) ∅)) as (r & s' & -> & H).
  rewrite bind_ret. do 3 eexists. split; [done|exact H].
Qed.

(** ** Who may do what *)

(** A computation that books at most one order and changes nothing else. *)
Definition books {A} (s : ApiState) (m : outcome (A * ApiState)) : Prop :=
  ∀ r s', m = Ret (r, s') → s' = s ∨ ∃ o, s' = add_order s o.

Lemma books_ret {A} s (r : A) : books s (Ret (r, s)).
Proof. intros ? ? [= <- <-]. by left. Qed.
Lemma books_one {A} s o (r : A) : books s (Ret (r, add_order s o)).
Proof. intros ? ? [= <- <-]. by right; eexists. Qed.
Lemma books_bind {A B} s (m : outcome A) (k : A → outcome (B * ApiState)) :
  (∀ a, books s (k a)) → books s (m ≫= k).
Proof. intros H r s' (a & _ & Ha)%bind_ret_inv. by apply (H a r s'). Qed.

Lemma doOrderExecute_one s opType account score agent orderId :
  ∃ o, doOrderExecute s opType account score agent orderId = (0, add_order s o).
Proof. unfold doOrderExecute. by destruct (_ =? _); eexists. Qed.

Ltac books_tac :=
  repeat first
    [ apply books_ret | apply books_one | apply books_bind; intros
    | match goal with |- context [doOrderExecute ?s ?a ?b ?c ?d ?e] =>
        destruct (doOrderExecute_one s a b c d e) as [? ->] end
    | case_match ].

Lemma encrypted_order_books s params : books s (encrypted_order s params).
Proof. unfold encrypted_order. books_tac. Qed.

Lemma plain_order_books s params : books s (plain_order s params).
Proof. unfold plain_order. books_tac. Qed.

Lemma order_process_books s debug q dt json r s' : OrderProcess s debug q dt = Ret (json, r, s') →
  s' = s ∨ ∃ o, s' = add_order s o.
Proof.
  unfold OrderProcess. rewrite parseQuery_eq, bind_ret. intros ([r0 s0] & Hm & Hr)%bind_ret_inv.
  injection Hr as <- <- <-. destruct (isdecrypt_ s); [by eapply encrypted_order_books|by eapply plain_order_books].
Qed.

Lemma for_admin_denied s peer rsp f r s' : is_admin s peer = false → for_admin s peer rsp f = Ret (r, s') → s' = s.
Proof. unfold for_admin. intros ->. by intros [= <- <-]. Qed.

(** C35: nobody but an administrator changes what the server serves: a request from an
    address that is not in admin_list_ leaves the state of the service, the agents, the
    lists and the access control as they are.  All it can do is book one order, with a
    request to /GameHandle while the service is running. *)
Theorem only_admins_change_the_service s debug req rsp peer dt rsp' s' :
  is_admin s peer = false → processHttpRequest s debug req rsp peer dt = Ret (rsp', s') →
  s' = s ∨ (∃ o, s' = add_order s o ∧ path_ req = str "/GameHandle" ∧ server_state_ s ≠ ServiceRepairing).
Proof.
  intros Ha. unfold processHttpRequest. repeat (case_bool_decide; [|]).
  - intros [= _ <-]. by left.
  - intros ([rsp1 s1] & Hm & [= _ <-])%bind_ret_inv.
    destruct (Z.eqb_spec (server_state_ s) ServiceRepairing); [injection Hm as _ <-; by left|].
    apply bind_ret_inv in Hm as ([[json r] s2] & Ho & [= _ <-]).
    apply order_process_books in Ho as [->|[o ->]]; [by left|]. right. by exists o.
  - intros ->%for_admin_denied; [by left|done].
  - intros ->%for_admin_denied; [by left|done].
  - intros ->%for_admin_denied; [by left|done].
  - intros ->%for_admin_denied; [by left|done].
  - intros [= _ <-]. by left.
Qed.

(** the result of an order never reaches the client: whatever two servers hold, and
    whatever they make of the order, they answer the same request to /GameHandle with the
    same response, the XML echo of the request; setBody is called again after the result
    was put into the response. *)
Theorem order_answer_lost s1 s2 debug req rsp peer dt1 dt2 rsp1 s1' rsp2 s2' :
  path_ req = str "/GameHandle" → server_state_ s1 ≠ ServiceRepairing → server_state_ s2 ≠ ServiceRepairing →
  processHttpRequest s1 debug req rsp peer dt1 = Ret (rsp1, s1') →
  processHttpRequest s2 debug req rsp peer dt2 = Ret (rsp2, s2') →
  rsp1 = rsp2 ∧ body_ rsp1 = getRequestStr req ∧ statusCode_ rsp1 = k200Ok.
Proof.
  intros Hp H1 H2. unfold processHttpRequest. rewrite Hp.
  rewrite bool_decide_false by (by vm_compute). rewrite bool_decide_true by done.
  rewrite (proj2 (Z.eqb_neq _ _) H1), (proj2 (Z.eqb_neq _ _) H2). rewrite !bind_assoc.
  intros ([[j1 r1] t1] & _ & E1)%bind_ret_inv. intros ([[j2 r2] t2] & _ & E2)%bind_ret_inv.
  rewrite bind_ret in E1, E2. injection E1 as <- _. injection E2 as <- _. done.
Qed.

(** ** The key of encrypted requests *)

(** The digest of agent, time and secret, in capital hexadecimal digits. *)
Definition digest_text (id : Z) (timestamp : bytes) (agent : agent_info_t) : bytes :=
  concat (hex_byte true <$> rfc_md5 (to_string id ++ timestamp ++ md5code agent)).

Lemma length_hex l : length (concat (hex_byte true <$> l)) = (2 * length l)%nat.
Proof. induction l as [|x l IH]; cbn [fmap list_fmap concat]; [done|]. rewrite length_app. cbn [length hex_byte]. lia. Qed.

Lemma length_digest id timestamp agent : length (digest_text id timestamp agent) = 32%nat.
Proof. unfold digest_text, rfc_md5. rewrite length_hex, !length_app, !length_le_split. done. Qed.

Lemma check_key_digest id timestamp key agent : 0 < id < 2 ^ 31 → Forall_byte timestamp → Forall_byte (md5code agent) →
  zlen timestamp + zlen (md5code agent) < 2 ^ 31 →
  check_key id timestamp key agent = Ret (key_matches (digest_text id timestamp agent ++ [0]) key).
Proof using L.
  intros Hid Ht Hm Hl. unfold check_key.
  assert (to_string id = dec id) as Hs by (unfold to_string; by rewrite (proj2 (Z.ltb_ge _ _)) by lia).
  rewrite md5_encode32_rfc; [done|apply garbage_size| |].
  - rewrite Hs. apply Forall_app. split; [apply dec_bytes; lia|]. by apply Forall_app.
  - pose proof (length_dec 20 id 19) as Hd. rewrite Hs, !length_app. unfold dec. lia.
Qed.

Lemma first_hex x : is_byte x → hex_digit true (x / 16) ∈ str "0123456789ABCDEF".
Proof.
  intros Hx. unfold is_byte in Hx. assert (0 ≤ x / 16 < 16) as H16 by dlia.
  assert (forallb (λ n, bool_decide (hex_digit true n ∈ str "0123456789ABCDEF")) (seqZ 0 16) = true) as H by (vm_compute; reflexivity).
  rewrite forallb_forall in H. specialize (H (x / 16)). rewrite <- list_elem_of_In, elem_of_seqZ in H.
  specialize (H H16). by apply bool_decide_eq_true_1 in H.
Qed.

(** C37: the key of an encrypted request is compared for its own length only: the digest
    cut anywhere is accepted, and so is one of the sixteen hexadecimal digits alone, for
    every agent, time and secret. *)
Theorem short_key_accepted id timestamp agent : 0 < id < 2 ^ 31 → Forall_byte timestamp → Forall_byte (md5code agent) →
  zlen timestamp + zlen (md5code agent) < 2 ^ 31 →
  (∀ n, 0 ≤ n ≤ 32 → check_key id timestamp (ztake n (digest_text id timestamp agent)) agent = Ret true) ∧
  (∃ c, c ∈ str "0123456789ABCDEF" ∧ check_key id timestamp [c] agent = Ret true).
Proof using L.
  intros Hid Ht Hm Hl. pose proof (length_digest id timestamp agent) as Hd. split.
  - intros n Hn. rewrite check_key_digest by done. f_equal. apply bool_decide_eq_true_2.
    rewrite length_ztake, Z.min_r by lia. f_equal. unfold ztake. rewrite take_app_le, take_take by lia. f_equal. lia.
  - destruct (digest_text id timestamp agent) as [|c rest] eqn:Et; [done|]. exists c. split.
    + unfold digest_text, rfc_md5 in Et. set (H := blocks _ _ _ _) in Et. clearbody H.
      cbn [le_split app fmap list_fmap concat hex_byte] in Et. injection Et as <- _. apply first_hex.
      apply Z.mod_pos_bound. lia.
    + rewrite check_key_digest, Et by done. f_equal. by apply bool_decide_eq_true_2.
Qed.

(** ** Decryption *)

Lemma byte_at_abort l i : (∃ x, byte_at l i = Ret x) ∨ byte_at l i = Abort OutOfBounds.
Proof. unfold byte_at, in_bounds. destruct (_ && _); [left; by eexists|by right]. Qed.

Lemma set_byte_cases l i v : (∃ l', set_byte l i v = Ret l' ∧ length l' = length l) ∨ set_byte l i v = Abort OutOfBounds.
Proof.
  unfold set_byte, in_bounds. destruct (_ && _); [left|by right]. eexists. split; [done|]. by rewrite length_insert.
Qed.

Lemma clear_loop_cases n l len i :
  (∃ l', clear_loop n l len i = Ret l' ∧ length l' = length l) ∨ clear_loop n l len i = Abort OutOfBounds.
Proof.
  revert i. induction n as [|n IH]; intros i; cbn [clear_loop]; [left; by eexists|].
  destruct (byte_at_abort l (len - 1)) as [[x ->]| ->]; [|by right]. rewrite bind_ret.
  destruct (byte_at_abort l (len - 1 - i)) as [[y ->]| ->]; [|by right]. rewrite bind_ret.
  destruct (x =? y); [apply IH|apply set_byte_cases].
Qed.

Lemma ClearPadding_cases l len :
  (∃ l', ClearPadding l len = Ret l' ∧ length l' = length l) ∨ ClearPadding l len = Abort OutOfBounds.
Proof.
  unfold ClearPadding.
  destruct (byte_at_abort l (len - 1)) as [[x ->]| ->]; [|by right]. rewrite bind_ret.
  destruct (byte_at_abort l (len - 2)) as [[y ->]| ->]; [|by right]. rewrite bind_ret.
  destruct (negb _); [|apply clear_loop_cases]. destruct (x <? 16); [apply set_byte_cases|left; by eexists].
Qed.

Lemma aes_loop_cases fuel ctx src dst len : (∀ b, length (AES_decrypt ctx b) = 16%nat) →
  0 ≤ len → zlen dst ≤ len + 16 * Z.of_nat fuel →
  (∃ dst' len', aes_loop fuel ctx src dst len = Ret (dst', len') ∧ length dst' = length dst ∧ zlen dst ≤ len') ∨
  aes_loop fuel ctx src dst len = Abort OutOfBounds.
Proof.
  intros Hout. revert dst len. induction fuel as [|fuel IH]; intros dst len Hl Hf; cbn [aes_loop].
  - rewrite (proj2 (Z.ltb_ge _ _)) by lia. left. do 2 eexists. split_and!; [done..|lia].
  - destruct (Z.ltb_spec len (zlen dst)); [|left; do 2 eexists; split_and!; [done..|lia]].
    unfold in_bounds. destruct (Z.leb_spec (len + 16) (zlen dst)); [|by right]. rewrite bind_ret.
    set (dst1 := ztake len dst ++ _).
    assert (length dst1 = length dst) as Hd1.
    { unfold dst1, ztake, zdrop. rewrite !length_app, !length_take, length_drop, Hout. lia. }
    destruct (IH dst1 (len + 16)) as [(d & n & Hr & Hd & Hn)|Hr]; [lia..| |by right].
    left. exists d, n. split_and!; [done|lia|lia].
Qed.

(** decryption writes behind its buffer: every value that decodes to at least one byte,
    with a key OpenSSL accepts, makes AES_ECBDecrypt write (or read) outside of the array
    [dst], whose length it uses as the index of the final zero. *)
Theorem decryption_overruns data key ctx : Base64.Decode data ≠ [] →
  AES_set_decrypt_key key (zlen key * 8) = Some ctx → (∀ b, length (AES_decrypt ctx b) = 16%nat) →
  AES_ECBDecrypt data key = Abort OutOfBounds.
Proof.
  intros Hd Hk Hout. unfold AES_ECBDecrypt. rewrite bool_decide_false, Hk by done.
  set (src := Base64.Decode data) in *.
  destruct (aes_loop_cases (length src) ctx src (replicate (length src) 0) 0) as [(dst & len & -> & Hl & Hn)| ->];
    [done|lia|rewrite length_replicate; lia| |done].
  rewrite bind_ret. destruct (ClearPadding_cases dst (zlen dst)) as [(dst' & -> & Hl')| ->]; [|done].
  rewrite bind_ret. unfold set_byte, in_bounds. rewrite (proj2 (Z.ltb_ge len _)) by lia. by rewrite andb_false_r.
Qed.

(** With orders in plain text every request is answered. *)
Lemma process_total s debug req rsp peer dt : isdecrypt_ s = false →
  ∃ rsp' s', processHttpRequest s debug req rsp peer dt = Ret (rsp', s') ∧ isdecrypt_ s' = false.
Proof using L.
  intros Hd. unfold processHttpRequest, for_admin.
  repeat case_bool_decide; [by do 2 eexists| | | | | |by do 2 eexists].
  - destruct (server_state_ s =? ServiceRepairing); [by do 2 eexists|].
    unfold OrderProcess. rewrite parseQuery_eq, bind_ret, Hd.
    destruct (plain_order_of s (add_fields (fields (query_text (query_ req))) ∅)) as (r & s' & -> & Ho).
    do 2 eexists. split; [done|]. destruct (order_of _ _); destruct Ho as [_ ->]; done.
  - destruct (is_admin s peer); by do 2 eexists.
  - destruct (is_admin s peer); [|by do 2 eexists]. unfold refreshWhiteList, refreshWhiteListSync.
    destruct (whiteListControl_ s) eqn:Ew; [by do 2 eexists| |by do 2 eexists].
    rewrite assert_true by (by rewrite bool_decide_true). by do 2 eexists.
  - destruct (is_admin s peer); [|by do 2 eexists]. unfold repairApiServer. rewrite parseQuery_eq, bind_ret.
    destruct (int_param _ _) as [n|]; [|by do 2 eexists]. unfold repair_to, swap_state.
    repeat case_match; simplify_eq; by do 2 eexists.
  - destruct (is_admin s peer); by do 2 eexists.
Qed.

(** A request with the header X-Forwarded-For is judged by that header alone: the address
    it really comes from has no say. *)
Lemma forwarded_header_decides s req peer peer' : getHeader req (str "X-Forwarded-For") ≠ [] →
  visit_allowed s req peer = visit_allowed s req peer'.
Proof. intros H. unfold visit_allowed, client_ip. by rewrite bool_decide_false. Qed.
End orders.
End ApiOrder.

Module ApiOrderSample.
Import ApiOrder.

(** An environment that does what the documentation says, as far as the samples need it. *)
Definition doc_regex (pattern s : bytes) : bool :=
  if bool_decide (pattern = digit_pattern) then decimal_text s else true.

#[local] Instance sample_env : Env := {|
  regex_match := doc_regex;
  replace_all := replaced_all;
  split := split_text;
  write_json := λ _, str "{}";
  aes_key := bytes;
  AES_set_decrypt_key key bits := if bits =? 128 then Some key else None;
  AES_decrypt _ b := take 16 (b ++ replicate 16 0);
  inet_pton := λ _, None;
  to_string_double := λ _, str "0.000000";
  garbage := replicate 64 7;
|}.

#[local] Instance sample_laws : EnvLaws sample_env.
Proof.
  split; [|done|done|done]. intros s. change (doc_regex digit_pattern s = decimal_text s).
  unfold doc_regex. by rewrite bool_decide_true.
Defined.

Definition agent : agent_info_t := mkAgent 0 0 1000 1 (str "0123456789abcdef") (str "334270F58E3E9DEC").

Definition running : ApiState :=
  mkApi ServiceRunning {[ 1000 := agent ]} ∅ {[ 5 := Enable ]} Open false 0 [].

Definition request (path query : bytes) : HttpRequest :=
  mkRequest kGet kHttp11 path query 0 ∅.

Lemma plain_order_outcome_witness :
  ∃ json r s', OrderProcess running false (str "?agentid=1000&account=a&orderid=7&score=12.50&type=2") [] = Ret (json, r, s') ∧
    r_errcode r = NoError ∧ s' = add_order running (AddOrderScore (str "a") 1250 1000 (str "7")).
Proof. exact (plain_order_outcome running false (str "?agentid=1000&account=a&orderid=7&score=12.50&type=2") [] eq_refl). Defined.

Lemma only_admins_change_the_service_witness :
  ∃ rsp', processHttpRequest running false (request (str "/repairApiServer") (str "?status=0"))
    (HttpResponse_ctor false) 6 [] = Ret (rsp', running).
Proof.
  assert (∃ rsp' s', processHttpRequest running false (request (str "/repairApiServer") (str "?status=0"))
    (HttpResponse_ctor false) 6 [] = Ret (rsp', s')) as (rsp' & s' & H) by (vm_compute; by do 2 eexists).
  exists rsp'. rewrite H.
  destruct (only_admins_change_the_service _ _ _ _ _ _ _ _ (eq_refl : is_admin running 6 = false) H) as [->|(o & _ & Hp & _)].
  - reflexivity.
  - exfalso. revert Hp. by vm_compute.
Defined.

Lemma order_answer_lost_witness :
  ∃ rsp s1 s2, processHttpRequest running false (request (str "/GameHandle") (str "?agentid=1000")) (HttpResponse_ctor false) 6 [] = Ret (rsp, s1) ∧
    processHttpRequest (set_agents running ∅) false (request (str "/GameHandle") (str "?agentid=1000")) (HttpResponse_ctor false) 6 [] = Ret (rsp, s2).
Proof.
  assert (∃ rsp1 s1, processHttpRequest running false (request (str "/GameHandle") (str "?agentid=1000")) (HttpResponse_ctor false) 6 [] = Ret (rsp1, s1)) as (rsp1 & s1 & H1)
    by (vm_compute; by do 2 eexists).
  assert (∃ rsp2 s2, processHttpRequest (set_agents running ∅) false (request (str "/GameHandle") (str "?agentid=1000")) (HttpResponse_ctor false) 6 [] = Ret (rsp2, s2)) as (rsp2 & s2 & H2)
    by (vm_compute; by do 2 eexists).
  destruct (order_answer_lost running (set_agents running ∅) false (request (str "/GameHandle") (str "?agentid=1000")) (HttpResponse_ctor false) 6 [] [] rsp1 s1 rsp2 s2) as [E _];
    [reflexivity|discriminate|discriminate|exact H1|exact H2|].
  exists rsp1, s1, s2. split; [exact H1|]. rewrite E. exact H2.
Defined.

Lemma short_key_accepted_witness : ∃ c, c ∈ str "0123456789ABCDEF" ∧ check_key 1000 (str "1579107393425") [c] agent = Ret true.
Proof.
  refine (proj2 (short_key_accepted 1000 (str "1579107393425") agent _ _ _ _)).
  - done.
  - apply str_bytes.
  - apply str_bytes.
  - vm_compute. reflexivity.
Defined.

Lemma decryption_overruns_witness : AES_ECBDecrypt (str "QUFBQUFBQUFBQUFBQUFBQQ==") (str "0123456789abcdef") = Abort OutOfBounds.
Proof.
  apply (decryption_overruns _ _ (str "0123456789abcdef" : @aes_key sample_env)).
  - by vm_compute.
  - reflexivity.
  - intros b. cbn [AES_decrypt sample_env]. rewrite length_take, length_app, length_replicate. lia.
Defined.
End ApiOrderSample.
