(* ===== verification/ApiConn.v ===== *)
(** * ApiConn: the connections of the API server (src/https/ApiServer.{h,cpp})

    A connection gets an [Entry], which a ring of buckets owns: every second onTimer drops
    the oldest bucket, and an entry nobody owns any more closes its connection, unless a
    worker has locked it.  A complete request is put back into the newest bucket and given
    to the worker of the connection, whose handler owns the entry while it runs.

    One loop with its ring and all workers are modelled, as a transition system: the loop
    thread runs onHttpConnection, onHttpMessage, onWriteComplete and onTimer; a worker
    takes a call of asyncHttpHandler from its queue (locking entry and connection) and
    later finishes it (request processed, response sent).  An entry exists as long as a
    bucket or a handler owns it, and its destructor runs when the last owner lets go.  A
    response is recorded as the object; HttpServer shows what appendToBuffer makes of it.
    The sizes of the ring and of the connection limit are parameters. *)

From S2P Require Import Prelude BytesBuffer Buffer Http HttpServer ApiQuery ApiOrder.
Import Http HttpServer ApiOrder.

Module ApiConn.

Inductive TypeE : Type := HttpTy | TcpTy.

Record Entry : Type := mkEntry { ty_ : TypeE; locked_ : bool; weakConn_ : nat }.

(** The class Context, with the HttpContext it holds. *)
Record Context : Type := mkContext { index_ : Z; weakEntry_ : nat; context_ : HttpContext }.

(** What a TcpConnection has of interest here; [None] is an empty [boost::any]. *)
Record Conn : Type := mkConn {
  connected : bool;
  getContext : option Context;
  inputBuffer_ : Buffer.Buffer;
  peerIp : Z;
  peerText : bytes;
}.

Definition set_context (conn : Conn) (ctx : option Context) : Conn :=
  mkConn (connected conn) ctx (inputBuffer_ conn) (peerIp conn) (peerText conn).
Definition set_input (conn : Conn) (buf : Buffer.Buffer) : Conn :=
  mkConn (connected conn) (getContext conn) buf (peerIp conn) (peerText conn).
Definition set_connected (conn : Conn) (b : bool) : Conn :=
  mkConn b (getContext conn) (inputBuffer_ conn) (peerIp conn) (peerText conn).

Inductive Kind : Type := KTimeout | KLimit | KBad | KAnswer.
#[export] Instance Kind_eq_dec : EqDecision Kind.
Proof. solve_decision. Defined.

(** A response and why it was sent. *)
Notation Reply := (Kind * HttpResponse)%type.

Record Server : Type := mkServer {
  (** the connection objects that exist *)
  conns : gmap nat Conn;
  (** the entries that exist *)
  entries : gmap nat Entry;
  (** the ring of the loop, oldest bucket first *)
  buckets_ : list (gset nat);
  (** threadPool_[i]: calls of asyncHttpHandler, by their weak pointer *)
  queues : list (list nat);
  (** the entry the handler in threadPool_[i] holds *)
  running : list (option nat);
  (** EventLoopContext::nextPool_ *)
  nextPool_ : Z;
  numConnected_ : Z;
  numTotalReq_ : Z;
  numTotalBadReq_ : Z;
  api : ApiState;
  (** calls of conn->send and conn->forceClose *)
  sent : list (nat * Reply);
  forced : list nat;
  (** names for new objects *)
  nextConn : nat;
  nextEntry : nat;
  (** for the theorems: calls of onTimer, and the last one before an entry was put into the ring *)
  clock : nat;
  touched : gmap nat nat;
}.

Definition set_conns (s : Server) (v : gmap nat Conn) : Server :=
  mkServer v (entries s) (buckets_ s) (queues s) (running s) (nextPool_ s) (numConnected_ s)
    (numTotalReq_ s) (numTotalBadReq_ s) (api s) (sent s) (forced s) (nextConn s) (nextEntry s)
    (clock s) (touched s).
Definition set_entries (s : Server) (v : gmap nat Entry) : Server :=
  mkServer (conns s) v (buckets_ s) (queues s) (running s) (nextPool_ s) (numConnected_ s)
    (numTotalReq_ s) (numTotalBadReq_ s) (api s) (sent s) (forced s) (nextConn s) (nextEntry s)
    (clock s) (touched s).
Definition set_queues (s : Server) (v : list (list nat)) : Server :=
  mkServer (conns s) (entries s) (buckets_ s) v (running s) (nextPool_ s) (numConnected_ s)
    (numTotalReq_ s) (numTotalBadReq_ s) (api s) (sent s) (forced s) (nextConn s) (nextEntry s)
    (clock s) (touched s).
Definition set_running (s : Server) (v : list (option nat)) : Server :=
  mkServer (conns s) (entries s) (buckets_ s) (queues s) v (nextPool_ s) (numConnected_ s)
    (numTotalReq_ s) (numTotalBadReq_ s) (api s) (sent s) (forced s) (nextConn s) (nextEntry s)
    (clock s) (touched s).
Definition set_nextPool (s : Server) (v : Z) : Server :=
  mkServer (conns s) (entries s) (buckets_ s) (queues s) (running s) v (numConnected_ s)
    (numTotalReq_ s) (numTotalBadReq_ s) (api s) (sent s) (forced s) (nextConn s) (nextEntry s)
    (clock s) (touched s).
Definition set_numConnected (s : Server) (v : Z) : Server :=
  mkServer (conns s) (entries s) (buckets_ s) (queues s) (running s) (nextPool_ s) v
    (numTotalReq_ s) (numTotalBadReq_ s) (api s) (sent s) (forced s) (nextConn s) (nextEntry s)
    (clock s) (touched s).
Definition set_numTotalReq (s : Server) (v : Z) : Server :=
  mkServer (conns s) (entries s) (buckets_ s) (queues s) (running s) (nextPool_ s)
    (numConnected_ s) v (numTotalBadReq_ s) (api s) (sent s) (forced s) (nextConn s) (nextEntry s)
    (clock s) (touched s).
Definition set_numTotalBadReq (s : Server) (v : Z) : Server :=
  mkServer (conns s) (entries s) (buckets_ s) (queues s) (running s) (nextPool_ s)
    (numConnected_ s) (numTotalReq_ s) v (api s) (sent s) (forced s) (nextConn s) (nextEntry s)
    (clock s) (touched s).
Definition set_api (s : Server) (v : ApiState) : Server :=
  mkServer (conns s) (entries s) (buckets_ s) (queues s) (running s) (nextPool_ s)
    (numConnected_ s) (numTotalReq_ s) (numTotalBadReq_ s) v (sent s) (forced s) (nextConn s)
    (nextEntry s) (clock s) (touched s).
Definition set_sent (s : Server) (v : list (nat * Reply)) : Server :=
  mkServer (conns s) (entries s) (buckets_ s) (queues s) (running s) (nextPool_ s)
    (numConnected_ s) (numTotalReq_ s) (numTotalBadReq_ s) (api s) v (forced s) (nextConn s)
    (nextEntry s) (clock s) (touched s).
Definition set_forced (s : Server) (v : list nat) : Server :=
  mkServer (conns s) (entries s) (buckets_ s) (queues s) (running s) (nextPool_ s)
    (numConnected_ s) (numTotalReq_ s) (numTotalBadReq_ s) (api s) (sent s) v (nextConn s)
    (nextEntry s) (clock s) (touched s).
Definition set_buckets (s : Server) (b : list (gset nat)) (n : nat) (t : gmap nat nat) : Server :=
  mkServer (conns s) (entries s) b (queues s) (running s) (nextPool_ s) (numConnected_ s)
    (numTotalReq_ s) (numTotalBadReq_ s) (api s) (sent s) (forced s) (nextConn s) (nextEntry s) n
    t.
Definition set_ids (s : Server) (c e : nat) : Server :=
  mkServer (conns s) (entries s) (buckets_ s) (queues s) (running s) (nextPool_ s)
    (numConnected_ s) (numTotalReq_ s) (numTotalBadReq_ s) (api s) (sent s) (forced s) c e
    (clock s) (touched s).

Definition send (s : Server) (c : nat) (k : Kind) (rsp : HttpResponse) : Server :=
  set_sent s (sent s ++ [(c, (k, rsp))]).
Definition forceClose (s : Server) (c : nat) : Server := set_forced s (forced s ++ [c]).
Definition bad_request (s : Server) : Server := set_numTotalBadReq s (numTotalBadReq_ s + 1).

Section server.
Context `{!Env}.
(** kTimeoutSeconds_, kMaxConnections_, and the pool_ of the loop. *)
Variables (kTimeoutSeconds_ : nat) (kMaxConnections_ : Z) (pool_ : list Z).

(** ** Entries *)

Definition timeout_response : HttpResponse :=
  setFailedResponse (HttpResponse_ctor true) k404NotFound (failed (str "HTTP/1.1 505 timeout")).

Definition onTimeoutExpired (s : Server) (c : nat) (ty : TypeE) : Server :=
  match ty with
  | HttpTy => send s c KTimeout timeout_response
  | TcpTy => forceClose s c
  end.

(** The destructor of an entry. *)
Definition destroy_entry (s : Server) (e : nat) : outcome Server :=
  match entries s !! e with
  | None => Abort UseAfterFree
  | Some en =>
      let s := set_entries s (delete e (entries s)) in
      match conns s !! weakConn_ en with
      | Some conn =>
          match getContext conn with
          | None => Abort Terminate
          | Some _ => Ret (if locked_ en then s else onTimeoutExpired s (weakConn_ en) (ty_ en))
          end
      | None => Ret s
      end
  end.

Definition owned (s : Server) (e : nat) : bool :=
  existsb (λ b, bool_decide (e ∈ b)) (buckets_ s) || bool_decide (Some e ∈ running s).

(** An owner lets go of an entry. *)
Definition release (s : Server) (e : nat) : outcome Server :=
  if owned s e then Ret s else destroy_entry s e.

Fixpoint release_all (s : Server) (es : list nat) : outcome Server :=
  match es with
  | [] => Ret s
  | e :: es => s ← release s e; release_all s es
  end.

(** ** ConnBucket *)

(** [buckets_.push_back(Bucket())] of a full ring. *)
Definition onTimer (s : Server) : outcome Server :=
  match buckets_ s with
  | [] => Ret (set_buckets s [] (S (clock s)) (touched s))
  | oldest :: rest =>
      release_all (set_buckets s (rest ++ [∅]) (S (clock s)) (touched s)) (elements oldest)
  end.

(** [buckets_.back().insert(entry)]. *)
Definition insert_back (bs : list (gset nat)) (e : nat) : list (gset nat) :=
  alter (λ b, {[ e ]} ∪ b) (length bs - 1)%nat bs.

Definition pushBucket (s : Server) (e : nat) : outcome Server :=
  match entries s !! e with
  | None => Ret s
  | Some en =>
      match conns s !! weakConn_ en with
      | None => Ret s
      | Some _ =>
          in_bounds (0 <? zlen (buckets_ s)) ;;
          Ret (set_buckets s (insert_back (buckets_ s) e) (clock s) (<[e := clock s]> (touched s)))
      end
  end.

(** The same code. *)
Definition updateBucket (s : Server) (e : nat) : outcome Server := pushBucket s e.

(** ** EventLoopContext *)

(** The remainder is computed in [size_t]; returns the worker and the counter. *)
Definition allocWorkerIndex (nextPool : Z) : outcome (Z * Z) :=
  if bool_decide (pool_ = []) then Abort DivisionByZero
  else
    let index := s32 (u64 nextPool mod zlen pool_) in
    let nextPool := s32 (nextPool + 1) in
    let '(index, nextPool) := if index <? 0 then (0, 0) else (index, nextPool) in
    assert ((0 <=? index) && (index <? zlen pool_)) ;;
    Ret (nth (Z.to_nat index) pool_ 0, nextPool).

(** start() deals the workers out to the loops in turn. *)
Definition workers_of_loop (loops workers loop : nat) : list nat :=
  List.filter (λ i, (i mod loops =? loop)%nat) (seq 0 workers).

(** ** Connections *)

(** A new connection: the object, and the callback for it. *)
Definition onHttpConnection (s : Server) (peer : Z) (peer_text : bytes) : outcome Server :=
  buf ← Buffer.Buffer_ctor Buffer.kInitialSize;
  let c := nextConn s in
  let conn := mkConn true None buf peer peer_text in
  let s := set_ids (set_conns s (<[c := conn]> (conns s))) (S c) (nextEntry s) in
  let num := s32 (numConnected_ s + 1) in
  let s := set_numTotalReq (set_numConnected s num) (numTotalReq_ s + 1) in
  if kMaxConnections_ <? num then
    let rsp := setFailedResponse (HttpResponse_ctor false) k404NotFound
                 (failed (str "HTTP/1.1 600 访问量限制(" ++ to_string kMaxConnections_ ++ str ")")) in
    Ret (bad_request (send s c KLimit rsp))
  else
    let e := nextEntry s in
    let s := set_ids (set_entries s (<[e := mkEntry HttpTy false c]> (entries s))) (nextConn s) (S e) in
    '(index, nextPool) ← allocWorkerIndex (nextPool_ s);
    let s := set_nextPool s nextPool in
    assert ((0 <=? index) && (index <? zlen (queues s))) ;;
    let s := set_conns s (<[c := set_context conn (Some (mkContext index e HttpContext_ctor))]> (conns s)) in
    s ← pushBucket s e;
    release s e.

(** The callback when a connection is down. *)
Definition onHttpConnection_down (s : Server) (c : nat) (conn : Conn) : Server :=
  set_numConnected (set_conns s (<[c := set_connected conn false]> (conns s))) (s32 (numConnected_ s - 1)).

(** The task of a request: the newest bucket and the queue of the worker. *)
Definition dispatch (s : Server) (ctx : Context) : outcome Server :=
  let e := weakEntry_ ctx in
  match entries s !! e with
  | Some _ =>
      s ← updateBucket s e;
      assert ((0 <=? index_ ctx) && (index_ ctx <? zlen (queues s))) ;;
      let s := set_queues s (alter (λ q, q ++ [e]) (Z.to_nat (index_ ctx)) (queues s)) in
      release s e
  | None => Ret (bad_request s)
  end.

Definition bad_response : HttpResponse :=
  setFailedResponse (HttpResponse_ctor false) k404NotFound (failed (str "HTTP/1.1 400 Bad Request")).

(** The request of this context has been given to a worker, which has not finished with
    it: asyncHttpHandler reads the HttpContext and resets it at its end. *)
Definition in_flight (s : Server) (ctx : Context) : bool :=
  bool_decide (is_Some (entries s !! weakEntry_ ctx)) &&
  (existsb (λ q, bool_decide (weakEntry_ ctx ∈ q)) (queues s) || bool_decide (Some (weakEntry_ ctx) ∈ running s)).

(** [data] has been read into the input buffer of [c].  The loop's parseRequest is not
    synchronised with the worker that has the request of the context: it stays in its loop
    (the state is kGotAll) while the worker resets the context, a data race. *)
Definition onHttpMessage (s : Server) (c : nat) (conn : Conn) (data : bytes) (receiveTime : Z) : outcome Server :=
  buf ← b_append (inputBuffer_ conn) data;
  match getContext conn with
  | None => Ret (set_conns s (<[c := set_input conn buf]> (conns s)))
  | Some ctx =>
      if in_flight s ctx then Abort DataRace else
      '(ok, http, buf) ← parseRequest receiveTime (context_ ctx) buf;
      let with_http http := set_conns s (<[c := set_context (set_input conn buf)
                              (Some (mkContext (index_ ctx) (weakEntry_ ctx) http))]> (conns s)) in
      if ok && gotAll http then
        let s := with_http http in
        if bool_decide (whiteListControl_ (api s) = Open) &&
           negb (visit_allowed (api s) (request_ http) (peerText conn))
        then Ret (bad_request (forceClose s c))
        else dispatch s ctx
      else Ret (bad_request (send (with_http (reset http)) c KBad bad_response))
  end.

Definition onWriteComplete (s : Server) (c : nat) : Server := forceClose s c.

(** ** asyncHttpHandler *)

(** Worker [i] takes the next call, whose weak pointer is [e], from its queue. *)
Definition handler_start (s : Server) (i : nat) (e : nat) : outcome Server :=
  let s := set_queues s (alter tail i (queues s)) in
  match entries s !! e with
  | None => Ret (bad_request s)
  | Some en =>
      let s := set_entries s (<[e := mkEntry (ty_ en) true (weakConn_ en)]> (entries s)) in
      match conns s !! weakConn_ en with
      | None => release (bad_request s) e
      | Some _ => Ret (set_running s (<[i := Some e]> (running s)))
      end
  end.

(** It has processed the request: the answer is sent, the context reset, and the entry let
    go, in one step; the loop does not look at the context meanwhile (see
    [onHttpMessage]). *)
Definition handler_finish (s : Server) (i : nat) (e : nat) (debug : bool) (dt : bytes) : outcome Server :=
  match entries s !! e with
  | None => Abort UseAfterFree
  | Some en =>
      let c := weakConn_ en in
      match conns s !! c with
      | None => Abort UseAfterFree
      | Some conn =>
          match getContext conn with
          | None => Abort Terminate
          | Some ctx =>
              let http := context_ ctx in
              assert (gotAll http) ;;
              let close := wants_close (request_ http) in
              '(rsp, a) ← processHttpRequest (api s) debug (request_ http) (HttpResponse_ctor close)
                            (peerIp conn) dt;
              let s := send (set_api s a) c KAnswer rsp in
              let ctx := mkContext (index_ ctx) (weakEntry_ ctx) (reset http) in
              let s := set_conns s (<[c := set_context conn (Some ctx)]> (conns s)) in
              let s := set_running s (<[i := None]> (running s)) in
              release s e
          end
      end
  end.

(** ** The transition system *)

Inductive event : Type :=
| EConnect (peer : Z) (peer_text : bytes)
| EMessage (c : nat) (data : bytes) (receiveTime : Z)
| EWriteComplete (c : nat)
| EDown (c : nat)
| EGone (c : nat)
| ETimer
| EStart (i : nat)
| EFinish (i : nat) (debug : bool) (dt : bytes).

(** A handler holds connection [c]. *)
Definition held (s : Server) (c : nat) : bool :=
  existsb (λ r, match r with
                | Some e => match entries s !! e with Some en => bool_decide (weakConn_ en = c) | None => false end
                | None => false
                end) (running s).

(** [None]: the event cannot happen now. *)
Definition handle (s : Server) (ev : event) : option (outcome Server) :=
  match ev with
  | EConnect peer peer_text => Some (onHttpConnection s peer peer_text)
  | EMessage c data t =>
      conn ← conns s !! c;
      if connected conn then Some (onHttpMessage s c conn data t) else None
  | EWriteComplete c =>
      conn ← conns s !! c;
      if connected conn then Some (Ret (onWriteComplete s c)) else None
  | EDown c =>
      conn ← conns s !! c;
      if connected conn then Some (Ret (onHttpConnection_down s c conn)) else None
  | EGone c =>
      conn ← conns s !! c;
      if connected conn || held s c then None else Some (Ret (set_conns s (delete c (conns s))))
  | ETimer => Some (onTimer s)
  | EStart i =>
      match queues s !! i, running s !! i with
      | Some (e :: _), Some None => Some (handler_start s i e)
      | _, _ => None
      end
  | EFinish i debug dt =>
      match running s !! i with
      | Some (Some e) => Some (handler_finish s i e debug dt)
      | _ => None
      end
  end.

Definition Server_ctor (workers : nat) (a : ApiState) : Server :=
  mkServer ∅ ∅ (replicate kTimeoutSeconds_ ∅) (replicate workers []) (replicate workers None)
    0 0 0 0 a [] [] 0 0 0 ∅.
End server.
End ApiConn.
