(* ===== verification/ApiConnSafety.v ===== *)
(** * ApiConnSafety: timeouts, answers and lifetimes of the connections of the API server

    The invariant of the transition system of ApiConn, and what follows from it for every
    order in which the loop, the timer and the workers run: nothing aborts, an entry exists
    exactly as long as the ring or a worker owns it, no connection gets both an answer and
    a timeout, and a timeout is sent exactly [kTimeoutSeconds_] ticks after the entry was
    last put into the ring. *)

From S2P Require Import Prelude BytesBuffer Buffer Http HttpServer ApiQuery ApiOrder ApiConn.
Import Http HttpServer ApiOrder ApiConn.

Module ApiConnSafety.

(** ** Lists of queues *)

Lemma insert_Permutation {A} (l : list A) i x y : l !! i = Some x → <[i := y]> l ≡ₚ y :: delete i l.
Proof.
  intros H. rewrite (delete_Permutation (<[i := y]> l) i y)
    by (apply list_lookup_insert_eq; by eapply lookup_lt_Some).
  f_equiv. clear x H. revert l. induction i; intros [|a l]; cbn; [done..|by f_equiv].
Qed.

(** The elements of a list with one place changed. *)
Lemma elem_of_slots {A} (l : list A) i x y z : l !! i = Some x →
  (z ∈ l ↔ z = x ∨ z ∈ delete i l) ∧ (z ∈ <[i := y]> l ↔ z = y ∨ z ∈ delete i l).
Proof.
  intros H. rewrite (insert_Permutation _ _ _ y H). rewrite (delete_Permutation _ _ _ H) at 1.
  by rewrite !elem_of_cons.
Qed.

Lemma alter_as_insert {A} (f : A → A) (l : list A) i x : l !! i = Some x → alter f i l = <[i := f x]> l.
Proof. revert l. induction i; intros [|a l]; cbn; intros; simplify_eq/=; [done..|]. by f_equiv; apply IHi. Qed.

(** The calls of asyncHttpHandler that wait or run, by their entries. *)
Definition calls (qs : list (list nat)) (rs : list (option nat)) : list nat := mjoin qs ++ omap id rs.
Notation pending s := (calls (queues s) (running s)).

Lemma in_flight_spec s ctx :
  in_flight s ctx = true ↔ is_Some (entries s !! weakEntry_ ctx) ∧ weakEntry_ ctx ∈ pending s.
Proof.
  unfold in_flight, calls. rewrite andb_true_iff, orb_true_iff, existsb_exists, !bool_decide_eq_true, elem_of_app,
    list_elem_of_join, list_elem_of_omap. f_equiv. f_equiv.
  - split; [intros (q & Hq & He); apply bool_decide_eq_true in He|intros (q & He & Hq)]; exists q.
    + split; [done|by apply list_elem_of_In].
    + split; [by apply list_elem_of_In|by apply bool_decide_eq_true].
  - split; [by exists (Some (weakEntry_ ctx))|intros (x & ? & Hx); unfold id in Hx; by subst].
Qed.

Lemma calls_enqueue qs rs i q e : qs !! i = Some q →
  calls (alter (λ q, q ++ [e]) i qs) rs ≡ₚ e :: calls qs rs.
Proof.
  intros H. unfold calls. rewrite (alter_as_insert _ _ _ _ H), (insert_Permutation _ _ _ _ H).
  rewrite (delete_Permutation qs i q H) at 2. cbn. rewrite <- !app_assoc. symmetry. apply Permutation_middle.
Qed.

Lemma calls_dequeue qs rs i q e : qs !! i = Some (e :: q) →
  calls qs rs ≡ₚ e :: calls (alter tail i qs) rs.
Proof.
  intros H. unfold calls. rewrite (alter_as_insert _ _ _ _ H), (insert_Permutation _ _ _ _ H).
  rewrite (delete_Permutation qs i _ H) at 1. done.
Qed.

Lemma calls_start qs rs i e : rs !! i = Some None → calls qs (<[i := Some e]> rs) ≡ₚ e :: calls qs rs.
Proof.
  intros H. unfold calls. rewrite (insert_Permutation _ _ _ _ H).
  rewrite (delete_Permutation rs i _ H) at 2.
  cbn. symmetry. apply Permutation_middle.
Qed.

Lemma calls_finish qs rs i e : rs !! i = Some (Some e) → calls qs rs ≡ₚ e :: calls qs (<[i := None]> rs).
Proof.
  intros H. unfold calls. rewrite (insert_Permutation _ _ _ _ H).
  rewrite (delete_Permutation rs i _ H) at 1.
  cbn. symmetry. apply Permutation_middle.
Qed.

(** ** Owners *)

Definition in_ring (s : Server) (e : nat) : Prop := ∃ b, b ∈ buckets_ s ∧ e ∈ b.

Lemma owned_spec s e : owned s e = true ↔ in_ring s e ∨ Some e ∈ running s.
Proof.
  unfold owned, in_ring. rewrite orb_true_iff, existsb_exists, bool_decide_eq_true.
  f_equiv. apply exist_proper. intros b. by rewrite bool_decide_eq_true, list_elem_of_In.
Qed.

Lemma insert_back_last (bs : list (gset nat)) b e : insert_back (bs ++ [b]) e = bs ++ [{[ e ]} ∪ b].
Proof.
  unfold insert_back. rewrite length_app. cbn [length]. replace (_ + 1 - 1)%nat with (length bs + 0)%nat by lia.
  by rewrite alter_app_r.
Qed.

(** ** The invariant, by parts *)

Record ctx_ok (nw ne : nat) (es : gmap nat Entry) (c : nat) (ctx : Context) : Prop := CtxOk {
  cx_worker : 0 ≤ index_ ctx < Z.of_nat nw;
  cx_known : (weakEntry_ ctx < ne)%nat;
  cx_state : context_ ctx = HttpContext_ctor ∨ gotAll (context_ ctx) = true;
  cx_entry en : es !! weakEntry_ ctx = Some en → weakConn_ en = c;
}.

(** Connections and entries point to each other. *)
Record objects (nw : nat) (cs : gmap nat Conn) (es : gmap nat Entry) (nc ne : nat) : Prop := Objects {
  ob_conn c conn : cs !! c = Some conn → (c < nc)%nat ∧ buf_inv (inputBuffer_ conn) ∧
    ∀ ctx, getContext conn = Some ctx → ctx_ok nw ne es c ctx;
  ob_entry e en : es !! e = Some en → (e < ne)%nat ∧ (weakConn_ en < nc)%nat ∧ ty_ en = HttpTy ∧
    ∀ conn, cs !! weakConn_ en = Some conn → ∃ ctx, getContext conn = Some ctx ∧ weakEntry_ ctx = e;
}.

(** The entries that exist are those with an owner; those in [X] are about to be let go. *)
Definition owners (X : gset nat) (es : gmap nat Entry) (bs : list (gset nat)) (rs : list (option nat)) : Prop :=
  ∀ e, is_Some (es !! e) ↔ e ∈ X ∨ (∃ b, b ∈ bs ∧ e ∈ b) ∨ Some e ∈ rs.

(** One call per entry, for a complete request; a handler holds a locked entry and its
    connection. *)
Record work (cs : gmap nat Conn) (es : gmap nat Entry) (qs : list (list nat)) (rs : list (option nat))
    (ne : nat) : Prop := Work {
  wk_once : NoDup (calls qs rs);
  wk_known e : e ∈ calls qs rs → (e < ne)%nat;
  wk_ready e en conn ctx : e ∈ calls qs rs → es !! e = Some en → cs !! weakConn_ en = Some conn →
    getContext conn = Some ctx → gotAll (context_ ctx) = true;
  wk_held e : Some e ∈ rs → ∃ en, es !! e = Some en ∧ locked_ en = true ∧ is_Some (cs !! weakConn_ en);
}.

(** A timeout is the end of the entry, an answer needs a locked one. *)
Record said (es : gmap nat Entry) (snt : list (nat * Reply)) (nc : nat) : Prop := Said {
  sd_timeout c r : (c, (KTimeout, r)) ∈ snt → (c < nc)%nat ∧
    (∀ e en, es !! e = Some en → weakConn_ en ≠ c) ∧ ∀ r', (c, (KAnswer, r')) ∉ snt;
  sd_answer c r : (c, (KAnswer, r)) ∈ snt → (c < nc)%nat ∧
    ∀ e en, es !! e = Some en → weakConn_ en = c → locked_ en = true;
}.

(** An entry is in the bucket of the tick it was last touched in, and in no newer one. *)
Record timed (T : nat) (bs : list (gset nat)) (clk : nat) (tch : gmap nat nat) : Prop := Timed {
  tm_size : length bs = T;
  tm_recent j b e : bs !! j = Some b → e ∈ b → ∃ t, tch !! e = Some t ∧ (clk + j + 1 ≤ t + T)%nat;
  tm_placed e t : tch !! e = Some t → (t ≤ clk)%nat ∧
    ∀ j, (clk + j + 1 = t + T)%nat → ∃ b, bs !! j = Some b ∧ e ∈ b;
}.

Record Inv (T nw : nat) (X : gset nat) (s : Server) : Prop := MkInv {
  iv_workers : length (queues s) = nw ∧ length (running s) = nw;
  iv_objects : objects nw (conns s) (entries s) (nextConn s) (nextEntry s);
  iv_owners : owners X (entries s) (buckets_ s) (running s);
  iv_work : work (conns s) (entries s) (queues s) (running s) (nextEntry s);
  iv_said : said (entries s) (sent s) (nextConn s);
  iv_timed : timed T (buckets_ s) (clock s) (touched s);
}.

(** ** Entries come and go *)

Lemma objects_delete nw cs es nc ne e : objects nw cs es nc ne → objects nw cs (delete e es) nc ne.
Proof.
  intros [H1 H2]. split.
  - intros c conn Hc. destruct (H1 c conn Hc) as (? & ? & Hx). split_and!; [done..|].
    intros ctx Hctx. destruct (Hx ctx Hctx) as [? ? ? He]. split; [done..|].
    intros en [_ Hen]%lookup_delete_Some. by apply He.
  - intros e' en [_ Hen]%lookup_delete_Some. by apply H2.
Qed.

Lemma work_delete cs es qs rs ne e : Some e ∉ rs → work cs es qs rs ne → work cs (delete e es) qs rs ne.
Proof.
  intros He [H1 H2 H3 H4]. split; [done..| |].
  - intros e' en conn ctx Hp [_ Hen]%lookup_delete_Some. by apply (H3 e' en).
  - intros e' He'. destruct (H4 e' He') as (en & ? & ? & ?). exists en. split_and!; [|done..].
    rewrite lookup_delete_ne; [done|]. intros ->. done.
Qed.

Lemma said_delete es snt nc e : said es snt nc → said (delete e es) snt nc.
Proof.
  intros [H1 H2]. split; intros c r Hc.
  - destruct (H1 c r Hc) as (? & Hx & ?). split_and!; [done| |done].
    intros e' en [_ Hen]%lookup_delete_Some. by eapply Hx.
  - destruct (H2 c r Hc) as (? & Hx). split; [done|].
    intros e' en [_ Hen]%lookup_delete_Some. by eapply Hx.
Qed.

(** The only entry of a connection that exists. *)
Lemma one_entry nw cs es nc ne e e' en en' : objects nw cs es nc ne →
  es !! e = Some en → es !! e' = Some en' → weakConn_ en' = weakConn_ en → is_Some (cs !! weakConn_ en) → e' = e.
Proof.
  intros [_ H] He He' Hw [conn Hc].
  destruct (H e en He) as (_ & _ & _ & H1). destruct (H1 conn Hc) as (ctx & Hx & <-).
  destruct (H e' en' He') as (_ & _ & _ & H2). rewrite Hw in H2. destruct (H2 conn Hc) as (ctx' & Hx' & <-).
  by simplify_eq.
Qed.

(** A timeout is sent when an unlocked entry of a living connection goes. *)
Lemma said_timeout nw cs es nc ne snt e en r : objects nw cs es nc ne → said es snt nc →
  es !! e = Some en → is_Some (cs !! weakConn_ en) → locked_ en = false →
  said (delete e es) (snt ++ [(weakConn_ en, (KTimeout, r))]) nc.
Proof.
  intros Ho Hs He Hc Hl. pose proof Hs as [Hs1 Hs2].
  destruct (ob_entry _ _ _ _ _ Ho e en He) as (_ & Hn & _).
  destruct (said_delete _ _ _ e Hs) as [H1 H2]. split; intros c r'.
  - rewrite elem_of_app, list_elem_of_singleton. intros [H|[= -> ->]].
    + destruct (H1 c r' H) as (? & ? & Ha). split_and!; [done..|]. intros r2.
      rewrite elem_of_app, list_elem_of_singleton. intros [?|?]; [by eapply Ha|done].
    + split_and!; [done| |].
      * intros e' en' [Hne He']%lookup_delete_Some Hw. apply Hne. symmetry. by eapply one_entry.
      * intros r2. rewrite elem_of_app, list_elem_of_singleton. intros [H|?]; [|done].
        destruct (Hs2 _ _ H) as [_ Hx]. specialize (Hx e en He eq_refl). congruence.
  - rewrite elem_of_app, list_elem_of_singleton. intros [H|?]; [|done]. by apply (H2 c r').
Qed.

(** ** Owners let go *)

(** What the end of an entry sends, when nobody owns it any more. *)
Definition expired (s : Server) (e : nat) : list (nat * Reply) :=
  match entries s !! e with
  | Some en =>
      if negb (owned s e) && negb (locked_ en) && bool_decide (is_Some (conns s !! weakConn_ en))
      then [(weakConn_ en, (KTimeout, timeout_response))] else []
  | None => []
  end.

(** All that stays when entries are let go. *)
Record kept (X : gset nat) (s s' : Server) : Prop := Kept {
  kp_conns : conns s' = conns s;
  kp_owned e : owned s' e = owned s e;
  kp_entries e : e ∉ X → entries s' !! e = entries s !! e;
}.

Section release.
Context (T nw : nat).
Notation Inv := (Inv T nw).

Lemma inv_owned X s e : Inv X s → is_Some (entries s !! e) ↔ e ∈ X ∨ owned s e = true.
Proof. intros H. rewrite owned_spec. apply (iv_owners _ _ _ _ H). Qed.

(** Nobody is about to let go of an entry that has another owner. *)
Lemma inv_drop X s e : Inv ({[e]} ∪ X) s → owned s e = true → Inv X s.
Proof.
  intros [H1 H2 H3 H4 H5 H6] Ho. split; try done. intros e'. rewrite (H3 e').
  rewrite owned_spec in Ho. unfold in_ring in Ho. destruct (decide (e' = e)) as [->|]; set_solver.
Qed.

Lemma inv_hold X s e : Inv X s → is_Some (entries s !! e) → Inv ({[e]} ∪ X) s.
Proof.
  intros [H1 H2 H3 H4 H5 H6] He. split; try done. intros e'. rewrite (H3 e').
  apply H3 in He. destruct (decide (e' = e)) as [->|]; set_solver.
Qed.

(** The destructor removes the entry. *)
Lemma owners_delete X s e : owners ({[e]} ∪ X) (entries s) (buckets_ s) (running s) → e ∉ X → owned s e = false →
  owners X (delete e (entries s)) (buckets_ s) (running s).
Proof.
  intros H3 He Ho e'. rewrite lookup_delete_is_Some, (H3 e').
  assert (¬ (in_ring s e ∨ Some e ∈ running s)) as Hn by (rewrite <- owned_spec; by destruct (owned s e)).
  unfold in_ring in Hn. destruct (decide (e' = e)) as [->|]; set_solver.
Qed.

Lemma release_spec X s e : Inv ({[e]} ∪ X) s → e ∉ X →
  ∃ s', release s e = Ret s' ∧ Inv X s' ∧ kept {[e]} s s' ∧ sent s' = sent s ++ expired s e.
Proof.
  intros HI He. unfold release, expired. destruct (owned s e) eqn:Ho.
  { exists s. split_and!; [done|by eapply inv_drop|done|]. case_match; by rewrite app_nil_r. }
  assert (is_Some (entries s !! e)) as [en Hen] by (apply (iv_owners _ _ _ _ HI); set_solver).
  unfold destroy_entry. rewrite Hen. cbn [negb andb].
  destruct HI as [H1 H2 H3 H4 H5 H6]. pose proof (owners_delete X s e H3 He Ho) as H3'.
  assert (Some e ∉ running s) as Hr.
  { intros Hr. assert (owned s e = true) by (apply owned_spec; by right). congruence. }
  assert (∀ e', e' ∉ ({[e]} : gset nat) → delete e (entries s) !! e' = entries s !! e') as Hk.
  { intros e' He'. apply lookup_delete_ne. set_solver. }
  pose proof (objects_delete _ _ _ _ _ e H2). pose proof (work_delete _ _ _ _ _ e Hr H4).
  cbn [conns set_entries]. destruct (conns s !! weakConn_ en) as [conn|] eqn:Hc.
  - destruct (ob_entry _ _ _ _ _ H2 e en Hen) as (_ & _ & Hty & Hl). destruct (Hl conn Hc) as (ctx & -> & _).
    rewrite bool_decide_true, andb_true_r by done. destruct (locked_ en) eqn:Hlk; cbn [negb].
    + eexists. split; [done|]. split_and!; [split; try done; by apply said_delete|done|by rewrite app_nil_r].
    + rewrite Hty. eexists. split; [done|]. split_and!; [split; try done|done|done].
      by eapply said_timeout.
  - rewrite bool_decide_false, andb_false_r by (by intros [? ?]).
    eexists. split; [done|]. split_and!; [split; try done; by apply said_delete|done|by rewrite app_nil_r].
Qed.

Lemma release_all_spec es X s : Inv (list_to_set es ∪ X) s → NoDup es → list_to_set es ## X →
  ∃ s', release_all s es = Ret s' ∧ Inv X s' ∧ kept (list_to_set es) s s' ∧ sent s' = sent s ++ mjoin (expired s <$> es).
Proof.
  revert s. induction es as [|e es IH]; intros s HI Hnd Hx.
  { exists s. split_and!; [done| |done|by rewrite app_nil_r]. cbn in HI. by rewrite (left_id_L ∅ (∪)) in HI. }
  apply NoDup_cons in Hnd as [He Hnd]. cbn [list_to_set foldr] in HI, Hx.
  destruct (release_spec (list_to_set es ∪ X) s e) as (s1 & Hr & HI1 & [Hk1 Hk2 Hk3] & Hs1);
    [by rewrite (assoc_L (∪))|set_solver|].
  destruct (IH s1) as (s2 & Hr2 & HI2 & [Hj1 Hj2 Hj3] & Hs2); [done|done|set_solver|].
  exists s2. cbn [release_all]. rewrite Hr. split_and!; [exact Hr2|done| |].
  - split; [congruence|intros e'; by rewrite Hj2|]. intros e' He'. rewrite Hj3, Hk3; set_solver.
  - rewrite Hs2, Hs1, <- app_assoc. f_equal. cbn. f_equal.
    f_equal. apply list_fmap_ext. intros i e' He'%list_elem_of_lookup_2. unfold expired. rewrite Hk3 by set_solver.
    case_match; [|done]. by rewrite Hk2, Hk1.
Qed.

(** ** The ring *)

Lemma lookup_insert_back (bs : list (gset nat)) e j :
  insert_back bs e !! j = (if decide (j = length bs - 1)%nat then union {[e]} else id) <$> bs !! j.
Proof.
  unfold insert_back. case_decide as Hj; [subst; by rewrite list_lookup_alter_eq|].
  rewrite list_lookup_alter_ne by done. by destruct (bs !! j).
Qed.

Lemma ring_insert_back (bs : list (gset nat)) e x : bs ≠ [] →
  (∃ b, b ∈ insert_back bs e ∧ x ∈ b) ↔ x = e ∨ ∃ b, b ∈ bs ∧ x ∈ b.
Proof.
  intros Hbs. destruct bs as [|b bs _] using rev_ind; [done|]. rewrite insert_back_last.
  setoid_rewrite elem_of_app. setoid_rewrite list_elem_of_singleton. split.
  - intros (b' & [Hb| ->] & Hx); [right; by exists b'; auto|].
    apply elem_of_union in Hx as [->%elem_of_singleton|Hx]; [by left|right; by exists b; auto].
  - intros [->|(b' & [Hb| ->] & Hx)]; [exists ({[e]} ∪ b); set_solver|by exists b'; auto|exists ({[e]} ∪ b); set_solver].
Qed.

Lemma timed_push bs clk tch e : (1 ≤ T)%nat → timed T bs clk tch → timed T (insert_back bs e) clk (<[e := clk]> tch).
Proof.
  intros HT [H1 H2 H3]. split.
  - unfold insert_back. by rewrite length_alter.
  - intros j b e'. rewrite lookup_insert_back. destruct (bs !! j) as [b0|] eqn:Hb; [|done].
    apply lookup_lt_Some in Hb as Hj. intros [= <-] He'. destruct (decide (e' = e)) as [->|Hne].
    + exists clk. rewrite lookup_insert_eq. split; [done|lia].
    + rewrite lookup_insert_ne by done. apply (H2 j b0); [done|]. case_decide; [set_solver|done].
  - intros e' t. destruct (decide (e' = e)) as [->|Hne].
    + rewrite lookup_insert_eq. intros [= <-]. split; [done|]. intros j Hj.
      destruct (lookup_lt_is_Some_2 bs j) as [b Hb]; [lia|]. rewrite lookup_insert_back, Hb, decide_True by lia.
      eexists. split; [done|]. set_solver.
    + rewrite lookup_insert_ne by done. intros Ht. destruct (H3 e' t Ht) as [? Hp]. split; [done|]. intros j Hj.
      destruct (Hp j Hj) as (b & Hb & ?). rewrite lookup_insert_back, Hb. eexists. split; [done|].
      case_decide; [set_solver|done].
Qed.

Lemma timed_tick b bs clk tch : timed T (b :: bs) clk tch → timed T (bs ++ [∅]) (S clk) tch.
Proof.
  intros [H1 H2 H3]. cbn in H1. split.
  - rewrite length_app. cbn. lia.
  - intros j b' e Hj He. apply lookup_app_Some in Hj as [Hj|[_ Hj]].
    + destruct (H2 (S j) b' e) as (t & ? & ?); [done..|]. exists t. split; [done|lia].
    + destruct (j - length bs)%nat; cbn in Hj; [|done]. simplify_eq. set_solver.
  - intros e t Ht. destruct (H3 e t Ht) as [? Hp]. split; [lia|]. intros j Hj.
    destruct (Hp (S j)) as (b' & Hb & ?); [lia|]. cbn in Hb. exists b'. split; [|done].
    by apply lookup_app_l_Some.
Qed.

Definition ticked (s : Server) (bs : list (gset nat)) : Server := set_buckets s (bs ++ [∅]) (S (clock s)) (touched s).

Lemma inv_tick X s b bs : buckets_ s = b :: bs → Inv X s → Inv (b ∪ X) (ticked s bs).
Proof.
  intros Hb [H1 H2 H3 H4 H5 H6]. rewrite Hb in *. split; try done.
  - intros e. rewrite (H3 e). cbn. setoid_rewrite elem_of_app. setoid_rewrite list_elem_of_singleton.
    setoid_rewrite elem_of_cons. split.
    + intros [?|[(b' & [->|?] & ?)|?]]; [set_solver..| |by do 2 right]. right. left. by exists b'; auto.
    + intros [[?|?]%elem_of_union|[(b' & [?| ->] & ?)|?]]; [|by left| |set_solver|by do 2 right];
        right; left; [exists b|exists b']; auto.
  - cbn. by eapply timed_tick.
Qed.

Lemma onTimer_spec s : (1 ≤ T)%nat → Inv ∅ s → ∃ b bs s', buckets_ s = b :: bs ∧ onTimer s = Ret s' ∧ Inv ∅ s' ∧
  sent s' = sent s ++ mjoin (expired (ticked s bs) <$> elements b).
Proof.
  intros HT HI. unfold onTimer. destruct (buckets_ s) as [|b bs] eqn:Hb.
  { pose proof (tm_size _ _ _ _ (iv_timed _ _ _ _ HI)) as H. rewrite Hb in H. cbn in H. lia. }
  destruct (release_all_spec (elements b) ∅ (ticked s bs)) as (s' & Hr & HI' & _ & Hs).
  - rewrite list_to_set_elements_L. by apply inv_tick.
  - apply NoDup_elements.
  - set_solver.
  - exists b, bs, s'. split_and!; [done|exact Hr|done|exact Hs].
Qed.

Definition pushed (s : Server) (e : nat) : Server :=
  set_buckets s (insert_back (buckets_ s) e) (clock s) (<[e := clock s]> (touched s)).

Lemma ring_not_empty X s : (1 ≤ T)%nat → Inv X s → buckets_ s ≠ [].
Proof. intros HT HI Hb. pose proof (tm_size _ _ _ _ (iv_timed _ _ _ _ HI)) as H. rewrite Hb in H. cbn in H. lia. Qed.

Lemma inv_push X s e : (1 ≤ T)%nat → Inv X s → is_Some (entries s !! e) → Inv X (pushed s e).
Proof.
  intros HT HI He. pose proof (ring_not_empty X s HT HI) as Hne. destruct HI as [H1 H2 H3 H4 H5 H6].
  split; try done; [|by apply timed_push].
  intros e'. cbn. rewrite ring_insert_back, (H3 e') by done. apply H3 in He. naive_solver.
Qed.

Lemma pushBucket_alive X s e en : (1 ≤ T)%nat → Inv X s → entries s !! e = Some en →
  is_Some (conns s !! weakConn_ en) → pushBucket s e = Ret (pushed s e).
Proof.
  intros HT HI He [conn Hc]. unfold pushBucket. rewrite He, Hc. pose proof (ring_not_empty X s HT HI).
  destruct (buckets_ s) eqn:Hb; [done|]. unfold pushed. by rewrite Hb.
Qed.

(** ** The parts of a step *)

(** A response that is neither a timeout nor an answer. *)
Lemma inv_send X s c k r : k ≠ KTimeout → k ≠ KAnswer → Inv X s → Inv X (send s c k r).
Proof.
  intros Hk1 Hk2 [H1 H2 H3 H4 [H5 H5'] H6]. split; try done. split; intros c' r' Hin; cbn in Hin.
  - apply elem_of_app in Hin as [Hin|Hin%list_elem_of_singleton]; [|congruence].
    destruct (H5 c' r' Hin) as (? & ? & Ha). split_and!; [done..|]. intros r2 Hin2. cbn in Hin2.
    apply elem_of_app in Hin2 as [?|?%list_elem_of_singleton]; [by eapply Ha|congruence].
  - apply elem_of_app in Hin as [Hin|Hin%list_elem_of_singleton]; [|congruence]. by eapply H5'.
Qed.

(** An answer to the connection of a locked entry. *)
Lemma inv_answer X s e en r : Inv X s → entries s !! e = Some en → locked_ en = true →
  is_Some (conns s !! weakConn_ en) → Inv X (send s (weakConn_ en) KAnswer r).
Proof.
  intros [H1 H2 H3 H4 [H5 H5'] H6] He Hl Hc. split; try done.
  destruct (ob_entry _ _ _ _ _ H2 e en He) as (_ & Hn & _). split; intros c' r' Hin; cbn in Hin.
  - apply elem_of_app in Hin as [Hin|Hin%list_elem_of_singleton]; [|congruence].
    destruct (H5 c' r' Hin) as (? & Hx & Ha). split_and!; [done..|]. intros r2 Hin2. cbn in Hin2.
    apply elem_of_app in Hin2 as [?|Hin2%list_elem_of_singleton]; [by eapply Ha|]. simplify_eq. by eapply Hx.
  - apply elem_of_app in Hin as [Hin|Hin%list_elem_of_singleton]; [by eapply H5'|]. simplify_eq. split; [done|].
    intros e' en' He' Hw. cbn in He'. assert (e' = e) as -> by (by eapply one_entry). by simplify_eq.
Qed.

(** What a callback may do to a connection: the buffer, and the request of its context. *)
Definition conn_step (s : Server) (conn conn' : Conn) : Prop :=
  buf_inv (inputBuffer_ conn') ∧
  match getContext conn, getContext conn' with
  | None, None => True
  | Some ctx, Some ctx' =>
      index_ ctx' = index_ ctx ∧ weakEntry_ ctx' = weakEntry_ ctx ∧
      (context_ ctx' = HttpContext_ctor ∨ gotAll (context_ ctx') = true) ∧
      (weakEntry_ ctx ∈ pending s → is_Some (entries s !! weakEntry_ ctx) → gotAll (context_ ctx') = true)
  | _, _ => False
  end.

Lemma inv_conn X s c conn conn' : Inv X s → conns s !! c = Some conn → conn_step s conn conn' →
  Inv X (set_conns s (<[c := conn']> (conns s))).
Proof.
  intros [H1 [H2 H2'] H3 [H4 H4a H4b H4c] H5 H6] Hc [Hbuf Hctx]. split; try done.
  - split; intros x y Hx; cbn in Hx |- *.
    + apply lookup_insert_Some in Hx as [[<- <-]|[_ Hx]]; [|by apply H2]. destruct (H2 c conn Hc) as (? & ? & Ho).
      split_and!; [done..|]. intros ctx' Hg. rewrite Hg in Hctx. destruct (getContext conn) as [ctx|] eqn:Hctx'; [|done].
      destruct Hctx as (E1 & E2 & ? & ?). destruct (Ho ctx eq_refl) as [? ? ? He].
      split; [congruence..|done|]. intros en. rewrite E2. apply He.
    + destruct (H2' x y Hx) as (? & ? & ? & Hl). split_and!; [done..|]. intros conn2 Hc2.
      apply lookup_insert_Some in Hc2 as [[-> <-]|[_ Hc2]]; [|by apply Hl].
      destruct (Hl conn Hc) as (ctx & Hg & <-). rewrite Hg in Hctx. destruct (getContext conn') as [ctx'|]; [|done].
      exists ctx'. split; [done|]. by destruct Hctx as (_ & ? & _).
  - split; [done..| |].
    + intros e en conn2 ctx2 Hp He Hc2 Hg2. cbn in *. apply lookup_insert_Some in Hc2 as [[Hw <-]|[_ Hc2]]; [|by eapply H4b].
      destruct (H2' e en He) as (_ & _ & _ & Hl). rewrite Hw in Hc. destruct (Hl conn Hc) as (ctx & Hg & <-).
      rewrite Hg, Hg2 in Hctx. destruct Hctx as (_ & _ & _ & Hr). by apply Hr.
    + intros e He. destruct (H4c e He) as (en & ? & ? & ?). exists en. split_and!; [done..|]. cbn.
      by apply lookup_insert_is_Some'; right.
Qed.

(** *** Calls *)

(** Of a list of calls only the elements matter, and that each is there once. *)
Lemma work_calls cs es qs rs qs' ne : work cs es qs rs ne → NoDup (calls qs' rs) →
  (∀ e, e ∈ calls qs' rs → e ∈ calls qs rs) → work cs es qs' rs ne.
Proof. intros [H1 H2 H3 H4] Hnd Hin. split; [done|by auto| |done]. intros e en conn ctx He. by apply H3, Hin. Qed.

Lemma inv_enqueue X s i e en conn ctx : Inv X s → (i < nw)%nat → e ∉ pending s → entries s !! e = Some en →
  conns s !! weakConn_ en = Some conn → getContext conn = Some ctx → gotAll (context_ ctx) = true →
  Inv X (set_queues s (alter (λ q, q ++ [e]) i (queues s))).
Proof.
  intros [[H1 H1'] H2 H3 [H4 H4a H4b H4c] H5 H6] Hi Hp He Hc Hg Hall. split; try done.
  - cbn. by rewrite length_alter.
  - destruct (lookup_lt_is_Some_2 (queues s) i) as [q Hq]; [lia|].
    pose proof (calls_enqueue (queues s) (running s) i q e Hq) as Hperm. split; cbn; [..|done].
    + rewrite Hperm. by apply NoDup_cons.
    + intros e'. rewrite Hperm. intros [->|?]%elem_of_cons; [|by apply H4a].
      by destruct (ob_entry _ _ _ _ _ H2 e en He).
    + intros e' en' conn' ctx'. rewrite Hperm. intros [->|?]%elem_of_cons; [|by apply H4b]. congruence.
Qed.

Lemma inv_dequeue X s i e q : Inv X s → queues s !! i = Some (e :: q) →
  Inv X (set_queues s (alter tail i (queues s))) ∧ e ∉ calls (alter tail i (queues s)) (running s) ∧ e ∈ pending s.
Proof.
  intros [[H1 H1'] H2 H3 H4 H5 H6] Hq. pose proof (calls_dequeue _ (running s) _ _ _ Hq) as Hperm.
  pose proof (wk_once _ _ _ _ _ H4) as Hnd. rewrite Hperm in Hnd. apply NoDup_cons in Hnd as [He Hnd].
  split_and!; [|done|rewrite Hperm; set_solver]. split; try done.
  - cbn. by rewrite length_alter.
  - apply (work_calls _ _ _ _ _ _ H4 Hnd). intros e' He'. rewrite Hperm. set_solver.
Qed.

Definition locked (en : Entry) : Entry := mkEntry (ty_ en) true (weakConn_ en).

Lemma inv_lock X s e en : Inv X s → entries s !! e = Some en → Inv X (set_entries s (<[e := locked en]> (entries s))).
Proof.
  intros [H1 [H2 H2'] H3 [H4 H4a H4b H4c] [H5 H5'] H6] He.
  assert (∀ e' en', <[e := locked en]> (entries s) !! e' = Some en' →
    ∃ en0, entries s !! e' = Some en0 ∧ weakConn_ en' = weakConn_ en0 ∧ ty_ en' = ty_ en0 ∧
      (locked_ en0 = true → locked_ en' = true)) as Hback.
  { intros e' en' [[<- <-]|[_ ?]]%lookup_insert_Some; [by exists en|by exists en']. }
  split; try done.
  - split; intros x y Hx; cbn in Hx |- *.
    + destruct (H2 x y Hx) as (? & ? & Ho). split_and!; [done..|]. intros ctx Hg. destruct (Ho ctx Hg) as [? ? ? Hw].
      split; [done..|]. intros en' (en0 & He0 & -> & _)%Hback. by apply Hw.
    + apply Hback in Hx as (en0 & He0 & -> & -> & _). by apply H2'.
  - intros e'. rewrite <- (H3 e'). cbn. destruct (decide (e' = e)) as [->|].
    + rewrite lookup_insert_eq, He. by split.
    + by rewrite lookup_insert_ne.
  - split; [done..| |].
    + intros e' en' conn ctx Hp (en0 & He0 & -> & _)%Hback. by eapply H4b.
    + intros e' He'. destruct (H4c e' He') as (en0 & He0 & ? & ?). cbn. destruct (decide (e' = e)) as [->|].
      * rewrite lookup_insert_eq. simplify_eq. by exists (locked en).
      * rewrite lookup_insert_ne by done. by exists en0.
  - split; intros c r Hin.
    + destruct (H5 c r Hin) as (? & Hx & ?). split_and!; [done| |done].
      intros e' en' (en0 & He0 & -> & _)%Hback. by eapply Hx.
    + destruct (H5' c r Hin) as (? & Hx). split; [done|]. intros e' en' (en0 & He0 & -> & _ & Hl)%Hback Hw.
      apply Hl. by eapply Hx.
Qed.

(** A worker takes hold of a locked entry and its connection. *)
Lemma inv_run X s i e en conn ctx : Inv X s → running s !! i = Some None → e ∉ pending s → (e < nextEntry s)%nat →
  entries s !! e = Some en → locked_ en = true → conns s !! weakConn_ en = Some conn → getContext conn = Some ctx →
  gotAll (context_ ctx) = true → Inv X (set_running s (<[i := Some e]> (running s))).
Proof.
  intros [[H1 H1'] H2 H3 [H4 H4a H4b H4c] H5 H6] Hi Hp Hn He Hl Hc Hg Hall.
  pose proof (calls_start (queues s) _ _ e Hi) as Hperm.
  assert (∀ e', Some e' ∈ <[i := Some e]> (running s) ↔ e' = e ∨ Some e' ∈ running s) as Hin.
  { intros e'. destruct (elem_of_slots _ _ _ (Some e) (Some e') Hi) as [-> ->]. naive_solver. }
  split; try done.
  - cbn. by rewrite length_insert.
  - intros e'. cbn. rewrite Hin, (H3 e'). pose proof (proj1 (H3 e) (mk_is_Some _ _ He)). naive_solver.
  - split; cbn.
    + rewrite Hperm. by apply NoDup_cons.
    + intros e'. rewrite Hperm. intros [->|?]%elem_of_cons; [done|by apply H4a].
    + intros e' en' conn' ctx'. rewrite Hperm. intros [->|?]%elem_of_cons; [|by apply H4b]. congruence.
    + intros e' [->|?]%Hin; [|by apply H4c]. exists en. by rewrite Hc.
Qed.

(** It is done; the entry is still there. *)
Lemma inv_done X s i e : Inv X s → running s !! i = Some (Some e) →
  Inv ({[e]} ∪ X) (set_running s (<[i := None]> (running s))) ∧ e ∉ calls (queues s) (<[i := None]> (running s)).
Proof.
  intros [[H1 H1'] H2 H3 [H4 H4a H4b H4c] H5 H6] Hi. pose proof (calls_finish (queues s) _ _ e Hi) as Hperm.
  rewrite Hperm in H4. apply NoDup_cons in H4 as [He Hnd].
  assert (∀ e', Some e' ∈ running s ↔ e' = e ∨ Some e' ∈ <[i := None]> (running s)) as Hin.
  { intros e'. destruct (elem_of_slots _ _ _ None (Some e') Hi) as [-> ->]. naive_solver. }
  split; [|done]. split; try done.
  - cbn. by rewrite length_insert.
  - intros e'. cbn. rewrite (H3 e'), Hin. set_solver.
  - split; cbn; [done| | |].
    + intros e' He'. apply H4a. rewrite Hperm. set_solver.
    + intros e' en' conn' ctx' He'. apply H4b. rewrite Hperm. set_solver.
    + intros e' He'. apply H4c, Hin. by right.
Qed.

(** *** Connections *)

Lemma held_false s c e en : held s c = false → Some e ∈ running s → entries s !! e = Some en → weakConn_ en ≠ c.
Proof.
  unfold held. intros Hh Hr He Hw. enough (existsb _ (running s) = true) as E by (rewrite Hh in E; done).
  apply existsb_exists. exists (Some e). split; [by apply list_elem_of_In|]. rewrite He. by apply bool_decide_eq_true.
Qed.

Lemma inv_gone X s c : Inv X s → held s c = false → Inv X (set_conns s (delete c (conns s))).
Proof.
  intros [H1 [H2 H2'] H3 [H4 H4a H4b H4c] H5 H6] Hh. split; try done.
  - split; intros x y Hx; cbn in Hx |- *.
    + apply lookup_delete_Some in Hx as [_ Hx]. by apply H2.
    + destruct (H2' x y Hx) as (? & ? & ? & Hl). split_and!; [done..|].
      intros conn [_ Hc]%lookup_delete_Some. by apply Hl.
  - split; [done..| |]; cbn.
    + intros e en conn ctx Hp He [_ Hc]%lookup_delete_Some. by eapply H4b.
    + intros e He. destruct (H4c e He) as (en & ? & ? & ?). exists en. split_and!; [done..|].
      rewrite lookup_delete_ne; [done|]. intros E. by eapply held_false.
Qed.

(** All but the connections, the entries and their names. *)
Definition untouched (s s' : Server) : Prop :=
  queues s' = queues s ∧ running s' = running s ∧ buckets_ s' = buckets_ s ∧ sent s' = sent s ∧
  clock s' = clock s ∧ touched s' = touched s ∧ api s' = api s.

(** A connection without a context. *)
Lemma inv_refused X s s' conn : Inv X s → untouched s s' → conns s' = <[nextConn s := conn]> (conns s) →
  entries s' = entries s → nextConn s' = S (nextConn s) → nextEntry s' = nextEntry s →
  buf_inv (inputBuffer_ conn) → getContext conn = None → Inv X s'.
Proof.
  intros [H1 [H2 H2'] H3 [H4 H4a H4b H4c] [H5 H5'] H6] (U1 & U2 & U3 & U4 & U5 & U6 & U7) Ec Ee En En' Hb Hg.
  assert (∀ e en, entries s !! e = Some en → weakConn_ en ≠ nextConn s) as Hne.
  { intros e en He. destruct (H2' e en He) as (_ & ? & _). lia. }
  split; rewrite ?U1, ?U2, ?U3, ?U4, ?U5, ?U6, ?U7, ?Ec, ?Ee, ?En, ?En'; try done.
  - split; intros x y Hx.
    + apply lookup_insert_Some in Hx as [[<- <-]|[_ Hx]]; [split_and!; [lia|done|congruence]|].
      destruct (H2 x y Hx) as (? & ? & ?). split_and!; [lia|done..].
    + destruct (H2' x y Hx) as (? & ? & ? & Hl). split_and!; [done|lia|done|].
      intros conn'. rewrite lookup_insert_ne by (symmetry; by eapply Hne). apply Hl.
  - split; [done..| |].
    + intros e en conn' ctx Hp He. rewrite lookup_insert_ne by (symmetry; by eapply Hne). by eapply H4b.
    + intros e He. destruct (H4c e He) as (en & ? & ? & ?). exists en. split_and!; [done..|].
      rewrite lookup_insert_ne by (symmetry; by eapply Hne). done.
  - split; intros c r Hin.
    + destruct (H5 c r Hin) as (? & ? & ?). split_and!; [lia|done..].
    + destruct (H5' c r Hin) as (? & ?). split; [lia|done].
Qed.

(** A connection with its entry, which nobody owns yet. *)
Lemma inv_accepted X s s' conn i : Inv X s → untouched s s' → conns s' = <[nextConn s := conn]> (conns s) →
  entries s' = <[nextEntry s := mkEntry HttpTy false (nextConn s)]> (entries s) →
  nextConn s' = S (nextConn s) → nextEntry s' = S (nextEntry s) → buf_inv (inputBuffer_ conn) →
  getContext conn = Some (mkContext i (nextEntry s) HttpContext_ctor) → 0 ≤ i < Z.of_nat nw →
  Inv ({[nextEntry s]} ∪ X) s'.
Proof.
  intros [H1 [H2 H2'] H3 [H4 H4a H4b H4c] [H5 H5'] H6] (U1 & U2 & U3 & U4 & U5 & U6 & U7) Ec Ee En En' Hb Hg Hi.
  assert (∀ e en, entries s !! e = Some en → weakConn_ en ≠ nextConn s ∧ e ≠ nextEntry s) as Hne.
  { intros e en He. destruct (H2' e en He) as (? & ? & _). lia. }
  split; rewrite ?U1, ?U2, ?U3, ?U4, ?U5, ?U6, ?U7, ?Ec, ?Ee, ?En, ?En'; try done.
  - split; intros x y Hx.
    + apply lookup_insert_Some in Hx as [[<- <-]|[_ Hx]].
      * split_and!; [lia|done|]. intros ctx. rewrite Hg. intros [= <-]. split; cbn; [done|lia|by left|].
        intros en. rewrite lookup_insert_eq. by intros [= <-].
      * destruct (H2 x y Hx) as (? & ? & Ho). split_and!; [lia|done|]. intros ctx Hctx.
        destruct (Ho ctx Hctx) as [? ? ? He]. split; [done|lia|done|]. intros en. rewrite lookup_insert_ne by lia. apply He.
    + apply lookup_insert_Some in Hx as [[<- <-]|[_ Hx]]; cbn.
      * split_and!; [lia|lia|done|]. intros conn'. rewrite lookup_insert_eq. intros [= <-]. by eexists.
      * destruct (H2' x y Hx) as (? & ? & ? & Hl). split_and!; [lia|lia|done|].
        intros conn'. rewrite lookup_insert_ne by lia. apply Hl.
  - intros e. rewrite lookup_insert_is_Some', (H3 e). set_solver.
  - split; [done|intros e He; apply H4a in He; lia| |].
    + intros e en conn' ctx Hp. pose proof (H4a e Hp). rewrite lookup_insert_ne by lia. intros He.
      rewrite lookup_insert_ne by (symmetry; by eapply Hne). by eapply H4b.
    + intros e He. destruct (H4c e He) as (en & Hen & ? & ?). exists en. destruct (Hne e en Hen).
      rewrite !lookup_insert_ne by done. done.
  - split; intros c r Hin.
    + destruct (H5 c r Hin) as (? & Hx & ?). split_and!; [lia| |done].
      intros e en [[<- <-]|[_ He]]%lookup_insert_Some; [cbn; lia|by eapply Hx].
    + destruct (H5' c r Hin) as (? & Hx). split; [lia|].
      intros e en [[<- <-]|[_ He]]%lookup_insert_Some; [cbn; lia|by eapply Hx].
Qed.
End release.

(** ** Steps *)

Section steps.
Context (T : nat) (kMax : Z) (pool_ : list Z) (nw : nat).
Context (HT : (1 ≤ T)%nat) (Hpool : pool_ ≠ []) (Hworkers : Forall (λ i, 0 ≤ i < Z.of_nat nw) pool_).
Notation Inv := (Inv T nw).

(** A worker is chosen whatever the counter is. *)
Lemma allocWorkerIndex_ok n : ∃ i n', allocWorkerIndex pool_ n = Ret (i, n') ∧ i ∈ pool_.
Proof using Hpool.
  clear HT Hworkers. unfold allocWorkerIndex. rewrite bool_decide_false by done.
  assert (0 < zlen pool_) as Hl by (destruct pool_; [done|cbn [length]; lia]).
  pose proof (Z.mod_pos_bound (u64 n) (zlen pool_) Hl). set (x := _ mod _) in *.
  assert (s32 x ≤ x) 
    by (unfold s32, sint; change (32 - 1) with 31; pose proof (Z.mod_le (x + 2 ^ 31) (2 ^ 32)); lia).
  assert (∀ i, 0 ≤ i < zlen pool_ → nth (Z.to_nat i) pool_ 0 ∈ pool_) as Hin.
  { intros i Hi. apply list_elem_of_In, nth_In. lia. }
  destruct (Z.ltb_spec (s32 x) 0); cbv beta iota zeta; rewrite assert_true by (apply andb_true_iff; split; lia); orun;
    do 2 eexists; (split; [done|apply Hin; lia]).
Qed.

Lemma onHttpConnection_ok s peer text : Inv ∅ s → ∃ s', onHttpConnection kMax pool_ s peer text = Ret s' ∧ Inv ∅ s'.
Proof using HT Hpool Hworkers.
  intros HI. unfold onHttpConnection.
  destruct (Buffer.Buffer_ctor_ok Buffer.kInitialSize) as (b & -> & [Hb _ _] & _); [by vm_compute|]. orun.
  case_match.
  - eexists. split; [done|]. eapply (inv_refused T nw ∅ (send s (nextConn s) KLimit _) _ (mkConn true None b peer text));
      try done. by apply inv_send.
  - destruct (allocWorkerIndex_ok (nextPool_ s)) as (i & n & Ha & Hi).
    cbn [set_ids set_entries nextPool_ set_numTotalReq set_numConnected set_conns].
    rewrite Ha. orun. assert (0 ≤ i < Z.of_nat nw) as Hi' by (by eapply Forall_forall in Hworkers).
    pose proof (iv_workers _ _ _ _ HI) as [Hq _].
    rewrite assert_true by (cbn; rewrite Hq; apply andb_true_iff; lia). orun.
    match goal with |- context [pushBucket ?x _] => set (s1 := x) end.
    assert (Inv ({[nextEntry s]} ∪ ∅) s1) as HI1.
    { apply (inv_accepted T nw ∅ s _ (mkConn true (Some (mkContext i (nextEntry s) HttpContext_ctor)) b peer text) i);
        try done. cbn. by rewrite insert_insert_eq. }
    assert (is_Some (entries s1 !! nextEntry s)) as [en Hen] by (cbn; by rewrite lookup_insert_eq).
    cbn [nextEntry set_numTotalReq set_numConnected set_ids set_conns].
    rewrite (pushBucket_alive T nw _ s1 _ en HT HI1 Hen). orun.
    2: { cbn in Hen. rewrite lookup_insert_eq in Hen. injection Hen as <-. cbn. by rewrite lookup_insert_eq. }
    destruct (release_spec T nw ∅ (pushed s1 (nextEntry s)) (nextEntry s)) as (s' & -> & HI2 & _);
      [by apply inv_push|set_solver|by exists s'].
Qed.
Context {E : Env} {L : EnvLaws E}.

Lemma dispatch_ok s c conn ctx http : Inv ∅ s → conns s !! c = Some conn →
  getContext conn = Some (mkContext (index_ ctx) (weakEntry_ ctx) http) → gotAll http = true →
  (weakEntry_ ctx ∈ pending s → is_Some (entries s !! weakEntry_ ctx) → False) →
  ∃ s', dispatch s ctx = Ret s' ∧ Inv ∅ s'.
Proof using HT Hpool Hworkers L.
  intros HI Hc Hg Hall Hp. unfold dispatch, updateBucket. destruct (entries s !! weakEntry_ ctx) as [en|] eqn:He.
  2: { exists (bad_request s). split; [done|]. destruct HI. by split. }
  destruct (ob_conn _ _ _ _ _ (iv_objects _ _ _ _ HI) c conn Hc) as (_ & _ & Hx).
  destruct (Hx _ Hg) as [Hi _ _ Hw]. cbn [index_ weakEntry_] in Hi, Hw. pose proof (Hw en He) as Hwc.
  rewrite (pushBucket_alive T nw ∅ s _ en HT HI He) by (by rewrite Hwc, Hc). orun.
  pose proof (iv_workers _ _ _ _ HI) as [Hq _]. rewrite assert_true by (cbn; rewrite Hq; apply andb_true_iff; split; lia). orun.
  destruct (release_spec T nw ∅ (set_queues (pushed s (weakEntry_ ctx))
    (alter (λ q, q ++ [weakEntry_ ctx]) (Z.to_nat (index_ ctx)) (queues s))) (weakEntry_ ctx)) as (s' & Hr & HI' & _);
    [|set_solver|exists s'; by split].
  apply inv_hold; [|cbn; by rewrite He].
  eapply (inv_enqueue T nw ∅ (pushed s (weakEntry_ ctx)) _ _ en conn); try done; [|lia|naive_solver|cbn; by rewrite Hwc].
  by apply inv_push; [..|rewrite He].
Qed.

Lemma idle_request s c conn ctx : Inv ∅ s → conns s !! c = Some conn → getContext conn = Some ctx →
  gotAll (context_ ctx) = false → in_flight s ctx = false.
Proof using Type.
  intros HI Hc Hg Hng. apply not_true_iff_false. rewrite in_flight_spec. intros [[en He] Hp].
  destruct (ob_conn _ _ _ _ _ (iv_objects _ _ _ _ HI) c conn Hc) as (_ & _ & Hx). destruct (Hx ctx Hg) as [_ _ _ Hw].
  pose proof (wk_ready _ _ _ _ _ (iv_work _ _ _ _ HI) _ en conn ctx Hp He) as Hr.
  rewrite (Hw en He), Hng in Hr. by discriminate Hr.
Qed.

Lemma onHttpMessage_ok s c conn data t : Inv ∅ s → conns s !! c = Some conn → Forall_byte data →
  zlen data ≤ room (inputBuffer_ conn) → (∀ ctx, getContext conn = Some ctx → gotAll (context_ ctx) = false) →
  ∃ s', onHttpMessage s c conn data t = Ret s' ∧ Inv ∅ s'.
Proof using HT Hpool Hworkers L.
  intros HI Hc Hd Hroom Hng. destruct (ob_conn _ _ _ _ _ (iv_objects _ _ _ _ HI) c conn Hc) as (_ & Hb & Hx).
  unfold onHttpMessage. destruct (append_view (inputBuffer_ conn) data Hb Hd Hroom) as (b & -> & [Hb' _ _]). orun.
  destruct (getContext conn) as [ctx|] eqn:Hg.
  2: { eexists. split; [done|]. apply (inv_conn T nw ∅ s c conn); [done..|]. split; [done|]. cbn. by rewrite Hg. }
  destruct (Hx ctx eq_refl) as [Hi Hn Hs Hw]. specialize (Hng ctx eq_refl).
  pose proof (idle_request s c conn ctx HI Hc Hg Hng) as Hidle. rewrite Hidle.
  apply not_true_iff_false in Hidle. rewrite in_flight_spec in Hidle.
  destruct Hs as [Hs|Hs]; [|congruence]. rewrite Hs.
  destruct (parseRequest_any t HttpContext_ctor b) as ([[ok http] b2] & -> & Hpost); [done..|]. orun.
  pose proof (rp_inv _ _ _ Hpost) as Hb2. cbn in Hb2.
  assert (∀ http', http' = HttpContext_ctor ∨ gotAll http' = true →
    Inv ∅ (set_conns s (<[c := set_context (set_input conn b2)
      (Some (mkContext (index_ ctx) (weakEntry_ ctx) http'))]> (conns s)))) as Hset.
  { intros http' Hh. apply (inv_conn T nw ∅ s c conn); [done..|]. split; [done|]. cbn. rewrite Hg. cbn. tauto. }
  destruct (ok && gotAll http) eqn:Hok.
  - apply andb_true_iff in Hok as [_ Hall]. case_match.
    + eexists. split; [done|]. pose proof (Hset http (or_intror Hall)) as HI'. destruct HI'. by split.
    + eapply (dispatch_ok _ c _ ctx http); [by apply Hset; right|cbn; by rewrite lookup_insert_eq|done|done|].
      intros ? ?. by apply Hidle.
  - eexists. split; [done|]. pose proof (Hset HttpContext_ctor (or_introl eq_refl)) as HI'.
    apply (inv_send T nw ∅ _ c KBad bad_response) in HI'; [|done..]. destruct HI'. by split.
Qed.

Lemma handler_start_ok s i e q : Inv ∅ s → queues s !! i = Some (e :: q) → running s !! i = Some None →
  ∃ s', handler_start s i e = Ret s' ∧ Inv ∅ s'.
Proof using HT Hpool Hworkers L.
  intros HI Hq Hr. destruct (inv_dequeue T nw ∅ s i e q HI Hq) as (HI1 & Hnp & Hp).
  unfold handler_start. cbn [entries set_queues]. destruct (entries s !! e) as [en|] eqn:He.
  2: { eexists. split; [done|]. destruct HI1. by split. }
  pose proof (inv_lock T nw ∅ _ e en HI1 He) as HI2. cbn [conns set_entries set_queues].
  destruct (conns s !! weakConn_ en) as [conn|] eqn:Hc.
  - eexists. split; [done|]. destruct (ob_entry _ _ _ _ _ (iv_objects _ _ _ _ HI) e en He) as (Hn & _ & _ & Hl).
    destruct (Hl conn Hc) as (ctx & Hg & _). pose proof (iv_work _ _ _ _ HI) as Hwk.
    apply (inv_run T nw ∅ _ i e (locked en) conn ctx); try done; [cbn; by rewrite lookup_insert_eq|].
    by apply (wk_ready _ _ _ _ _ Hwk e en conn ctx).
  - match goal with |- context [release ?x e] => set (s1 := x) end.
    destruct (release_spec T nw ∅ s1 e) as (s' & -> & HI' & _); [|set_solver|by exists s'].
    apply inv_hold; [|cbn; by rewrite lookup_insert_eq]. destruct HI2. by split.
Qed.

(** The request is answered, unless it is an encrypted order, whose decryption leaves its
    buffer (see [decryption_overruns] of ApiOrder). *)
Lemma handler_finish_ok s i e debug dt : Inv ∅ s → running s !! i = Some (Some e) →
  (∀ s', handler_finish s i e debug dt = Ret s' → Inv ∅ s') ∧
  (isdecrypt_ (api s) = false → ∃ s', handler_finish s i e debug dt = Ret s').
Proof using HT Hpool Hworkers L.
  intros HI Hr. pose proof (iv_work _ _ _ _ HI) as Hwk.
  destruct (wk_held _ _ _ _ _ Hwk e) as (en & He & Hl & [conn Hc]); [by eapply list_elem_of_lookup_2|].
  destruct (ob_entry _ _ _ _ _ (iv_objects _ _ _ _ HI) e en He) as (_ & _ & _ & Hlk).
  destruct (Hlk conn Hc) as (ctx & Hg & Hwe). unfold handler_finish. rewrite He, Hc, Hg.
  assert (e ∈ pending s) as Hp by (rewrite (calls_finish _ _ _ _ Hr); apply elem_of_cons; by left).
  rewrite assert_true by (by apply (wk_ready _ _ _ _ _ Hwk e en conn ctx)). orun.
  destruct (processHttpRequest _ _ _ _ _ _) as [[rsp a]|f] eqn:Hpr.
  2: { split; [done|]. intros Hplain. by edestruct (process_total (api s)) as (? & ? & Hx & _); [|rewrite Hpr in Hx]. }
  orun. match goal with |- context [release ?x e] => set (s1 := x) end.
  destruct (release_spec T nw ∅ s1 e) as (s' & -> & HI' & _);
    [|set_solver|split; [by intros ? [= <-]|by exists s']].
  assert (Inv ∅ (set_api s a)) as HI1 by (destruct HI; by split).
  pose proof (inv_answer T nw ∅ _ e en rsp HI1 He Hl (mk_is_Some _ _ Hc)) as HI2.
  destruct (inv_done T nw ∅ _ i e HI2 Hr) as [HI3 Hnp].
  eapply (inv_conn T nw _ _ (weakConn_ en) conn) in HI3; [exact HI3|done|].
  split; [apply (ob_conn _ _ _ _ _ (iv_objects _ _ _ _ HI) _ _ Hc)|]. cbn. rewrite Hg. cbn.
  split_and!; [done..|by left|]. rewrite Hwe. intros ?. done.
Qed.

(** ** Runs *)

(** A read fits into the buffer, and nothing comes from a client between its complete
    request and the reset of the context by the worker, which follows the answer (the loop
    would race with the worker, or hang, see [data_after_timeout_hangs]). *)
Definition event_ok (s : Server) (ev : event) : Prop :=
  match ev with
  | EMessage c data _ => Forall_byte data ∧ ∀ conn, conns s !! c = Some conn →
      zlen data ≤ room (inputBuffer_ conn) ∧ ∀ ctx, getContext conn = Some ctx → gotAll (context_ ctx) = false
  | _ => True
  end.

Inductive reachable (a : ApiState) : Server → Prop :=
| reachable_start : reachable a (Server_ctor T nw a)
| reachable_step s ev s' : reachable a s → event_ok s ev → handle kMax pool_ s ev = Some (Ret s') → reachable a s'.

Lemma inv_start a : Inv ∅ (Server_ctor T nw a).
Proof using HT Hpool Hworkers L.
  split; cbn; try done.
  - by rewrite !length_replicate.
  - intros e. rewrite lookup_empty. split; [by intros [? ?]|]. intros [?|[(b & [-> _]%elem_of_replicate & ?)|[? _]%elem_of_replicate]];
      [set_solver..|done].
  - assert (∀ n, mjoin (replicate n []) ++ omap id (replicate n None) = ([] : list nat)) as E0.
    { intros n. induction n as [|n IH]; [done|exact IH]. }
    split; cbn; unfold calls; rewrite ?E0; [constructor|set_solver..|].
    intros e [? _]%elem_of_replicate. done.
  - split; set_solver.
  - split; [by rewrite length_replicate| |intros e t; by rewrite lookup_empty].
    intros j b e [-> _]%lookup_replicate. set_solver.
Qed.

(** The end of a request, when orders are encrypted. *)
Definition decrypts (s : Server) (ev : event) : Prop :=
  match ev with EFinish _ _ _ => isdecrypt_ (api s) = true | _ => False end.

Lemma handle_ok s ev r : Inv ∅ s → event_ok s ev → handle kMax pool_ s ev = Some r →
  ¬ decrypts s ev → ∃ s', r = Ret s' ∧ Inv ∅ s'.
Proof using HT Hpool Hworkers L.
  intros HI Hok Hh Hnd. revert Hh. destruct ev as [peer text|c data t|c|c|c| |i|i debug dt]; cbn [handle]; unfold mbind, option_bind.
  - intros [= <-]. destruct (onHttpConnection_ok s peer text HI) as (s' & ? & ?). by exists s'.
  - destruct (conns s !! c) as [conn|] eqn:Hc; [|done]. destruct (connected conn); [|done]. intros [= <-].
    destruct Hok as [Hd Hok]. destruct (Hok conn Hc) as [Hr Hg].
    destruct (onHttpMessage_ok s c conn data t HI Hc Hd Hr Hg) as (s' & ? & ?). by exists s'.
  - destruct (conns s !! c) as [conn|]; [|done]. destruct (connected conn); [|done]. intros [= <-].
    eexists. split; [done|]. destruct HI. by split.
  - destruct (conns s !! c) as [conn|] eqn:Hc; [|done]. destruct (connected conn); [|done]. intros [= <-].
    eexists. split; [done|]. apply (inv_conn T nw ∅ s c conn (set_connected conn false)) in HI as HI'; [|done|].
    + destruct HI'. by split.
    + destruct (ob_conn _ _ _ _ _ (iv_objects _ _ _ _ HI) c conn Hc) as (_ & Hb & Hx). split; [done|]. cbn.
      destruct (getContext conn) as [ctx|] eqn:Hg; [|done]. destruct (Hx ctx eq_refl) as [_ _ ? Hw]. split_and!; [done..|].
      intros Hp [en He]. apply (wk_ready _ _ _ _ _ (iv_work _ _ _ _ HI) _ en conn ctx Hp He); [|done].
      by rewrite (Hw en He).
  - destruct (conns s !! c) as [conn|]; [|done]. destruct (_ || _) eqn:Hh; [done|]. intros [= <-].
    apply orb_false_iff in Hh as [_ Hh]. eexists. split; [done|]. by apply inv_gone.
  - intros [= <-]. destruct (onTimer_spec T nw s HT HI) as (b & bs & s' & _ & ? & ? & _). by exists s'.
  - destruct (queues s !! i) as [[|e q]|] eqn:Hq; try done. destruct (running s !! i) as [[e'|]|] eqn:Hr; try done.
    intros [= <-]. destruct (handler_start_ok s i e q HI Hq Hr) as (s' & ? & ?). by exists s'.
  - destruct (running s !! i) as [[e|]|] eqn:Hr; try done. intros [= <-].
    destruct (handler_finish_ok s i e debug dt HI Hr) as [Hi Hp].
    destruct Hp as [s' Hs']; [by apply not_true_is_false|]. exists s'. by split; [|apply Hi].
Qed.

Lemma handle_inv s ev s' : Inv ∅ s → event_ok s ev → handle kMax pool_ s ev = Some (Ret s') → Inv ∅ s'.
Proof using HT Hpool Hworkers L.
  intros HI Hok Hh. destruct ev as [| | | | | | |i debug dt];
    try (by destruct (handle_ok _ _ _ HI Hok Hh) as (? & [= <-] & ?); [intros []|]).
  cbn in Hh. destruct (running s !! i) as [[e|]|] eqn:Hr; try done. injection Hh as Hh.
  by apply (handler_finish_ok s i e debug dt HI Hr).
Qed.

Lemma api_reachable_inv a s : reachable a s → Inv ∅ s.
Proof using HT Hpool Hworkers L.
  induction 1 as [|s ev s' _ IH Hok Hh]; [by apply inv_start|]. by eapply handle_inv.
Qed.


(** *** When a timeout is sent *)

(** The entry ends with this tick: it was last put into the ring [T] ticks before. *)
Lemma leaves_ring s b bs e t : Inv ∅ s → buckets_ s = b :: bs → touched s !! e = Some t →
  e ∈ b ∧ ¬ in_ring (ticked s bs) e ↔ S (clock s) = (t + T)%nat.
Proof using HT Hpool Hworkers L.
  intros HI Hb Ht. pose proof (iv_timed _ _ _ _ HI) as [_ Hrec Hpl]. rewrite Hb in Hrec, Hpl.
  destruct (Hpl e t Ht) as [Hle Hp]. split.
  - intros [He Hn]. destruct (Hrec O b e eq_refl He) as (t' & Ht' & ?). simplify_eq.
    destruct (decide (S (clock s) = t + T)%nat) as [|Hne]; [done|]. exfalso. apply Hn.
    destruct (Hp (S (t + T - clock s - 2))) as (b' & Hb' & ?); [lia|]. cbn in Hb'. exists b'. split; [|done].
    cbn. apply elem_of_app. left. by eapply list_elem_of_lookup_2.
  - intros HS. split; [destruct (Hp O) as (b' & [= <-] & ?); [lia|done]|].
    intros (b' & Hb' & He). cbn in Hb'. apply elem_of_app in Hb' as [[j Hj]%list_elem_of_lookup_1| ->%list_elem_of_singleton];
      [|set_solver].
    destruct (Hrec (S j) b' e Hj He) as (t' & Ht' & ?). simplify_eq. lia.
Qed.

(** The connection that is told of the end of an entry. *)
Definition due (s : Server) (e : nat) : option nat :=
  match entries s !! e with
  | Some en =>
      if negb (owned s e) && negb (locked_ en) && bool_decide (is_Some (conns s !! weakConn_ en))
      then Some (weakConn_ en) else None
  | None => None
  end.

Definition told (c : nat) : nat * Reply := (c, (KTimeout, timeout_response)).

Lemma expired_due s es : mjoin (expired s <$> es) = told <$> omap (due s) es.
Proof using Type.
  induction es as [|e es IH]; [done|]. rewrite fmap_cons.
  change (expired s e ++ mjoin (expired s <$> es) =
    told <$> (match due s e with Some c => c :: omap (due s) es | None => omap (due s) es end)).
  rewrite IH. unfold expired, due. destruct (entries s !! e) as [en|]; [|done]. by destruct (_ && _ && _).
Qed.

Lemma due_spec s e c : due s e = Some c ↔ ∃ en, entries s !! e = Some en ∧ owned s e = false ∧ locked_ en = false ∧
  is_Some (conns s !! c) ∧ weakConn_ en = c.
Proof using Type.
  unfold due. split.
  - destruct (entries s !! e) as [en|]; [|done]. destruct (_ && _ && _) eqn:Hx; [|done]. intros [= <-].
    rewrite !andb_true_iff, !negb_true_iff, bool_decide_eq_true in Hx. destruct Hx as [[? ?] ?]. by exists en.
  - intros (en & -> & -> & -> & Hc & <-). by rewrite bool_decide_true.
Qed.

Lemma due_NoDup s es : objects nw (conns s) (entries s) (nextConn s) (nextEntry s) → NoDup es → NoDup (omap (due s) es).
Proof using Type.
  intros Ho. induction 1 as [|e es He Hnd IH]; [constructor|]. cbn. destruct (due s e) as [c|] eqn:Hd; [|done].
  apply NoDup_cons. split; [|done]. intros (e' & He' & Hd')%list_elem_of_omap.
  apply due_spec in Hd as (en & Hen & _ & _ & Hc & Hw). apply due_spec in Hd' as (en' & Hen' & _ & _ & _ & Hw').
  apply He. assert (e' = e) as <- by (eapply one_entry; [done|exact Hen|exact Hen'|congruence|by rewrite Hw]). done.
Qed.

(** C19: in every state of such a run (see [reachable]: a pool of workers that is not
    empty, a timeout of at least one tick, no data from a client between its complete
    request and the reset of the context by the worker) a tick of the timer returns and sends the timeout to exactly the
    connections, each once, that still exist, whose request no worker has taken up, and
    whose entry was put into the ring (when they connected, or when their last complete
    request came in) exactly [kTimeoutSeconds_] ticks before. *)
Theorem timeout_when_due a s : reachable a s →
  ∃ s' l, onTimer s = Ret s' ∧ sent s' = sent s ++ (told <$> l) ∧ NoDup l ∧
    ∀ c, c ∈ l ↔ ∃ e en t, entries s !! e = Some en ∧ weakConn_ en = c ∧ is_Some (conns s !! c) ∧
      locked_ en = false ∧ touched s !! e = Some t ∧ S (clock s) = (t + T)%nat.
Proof using HT Hpool Hworkers L.
  intros Hr. pose proof (api_reachable_inv a s Hr) as HI.
  destruct (onTimer_spec T nw s HT HI) as (b & bs & s' & Hb & Hs' & _ & Hsent).
  exists s', (omap (due (ticked s bs)) (elements b)). rewrite <- expired_due. split_and!; [done..| |].
  { apply due_NoDup; [apply (iv_objects _ _ _ _ HI)|apply NoDup_elements]. }
  pose proof (iv_timed _ _ _ _ HI) as Htm. intros c. rewrite list_elem_of_omap. split.
  - intros (e & He%elem_of_elements & (en & Hen & Ho & Hl & Hc & Hw)%due_spec).
    destruct (tm_recent _ _ _ _ Htm O b e) as (t & Ht & _); [by rewrite Hb|done|].
    exists e, en, t. split_and!; [done..|]. apply (leaves_ring s b bs e t HI Hb Ht). split; [done|]. intros Hin.
    assert (owned (ticked s bs) e = true) by (apply owned_spec; by left). congruence.
  - intros (e & en & t & Hen & Hw & Hc & Hl & Ht & Hclk). apply (leaves_ring s b bs e t HI Hb Ht) in Hclk as [He Hn].
    exists e. split; [by apply elem_of_elements|]. apply due_spec. exists en. split_and!; try done.
    destruct (owned (ticked s bs) e) eqn:Ho; [|done]. apply owned_spec in Ho as [Ho|Ho]; [done|]. cbn in Ho.
    destruct (wk_held _ _ _ _ _ (iv_work _ _ _ _ HI) e Ho) as (en' & He' & Hl' & _). simplify_eq. congruence.
Qed.

(** ** What clients can do to it *)

(** What the workers do. *)
Definition worker_step (s s' : Server) : Prop :=
  ∃ ev, match ev with EStart _ | EFinish _ _ _ => True | _ => False end ∧ handle kMax pool_ s ev = Some (Ret s').

(** They take no calls on, and the only connection they change is that of a call. *)
Record calls_less (s s' : Server) : Prop := CallsLess {
  cl_pending e : e ∈ pending s' → e ∈ pending s;
  cl_entries e : is_Some (entries s' !! e) → is_Some (entries s !! e);
  cl_conns c : conns s' !! c = conns s !! c ∨
    ∃ e en, e ∈ pending s ∧ entries s !! e = Some en ∧ weakConn_ en = c;
}.

Lemma release_calls_less s s1 e s' : calls_less s s1 → release s1 e = Ret s' → calls_less s s'.
Proof using Type.
  unfold release, destroy_entry. intros [H1 H2 H3]. destruct (owned s1 e); [by intros [= <-]|].
  destruct (entries s1 !! e) as [en|] eqn:He; [|done]. cbn [conns set_entries].
  assert (∀ e', is_Some (delete e (entries s1) !! e') → is_Some (entries s !! e')) as Hd.
  { intros e' Hx. apply H2. destruct Hx as [y [_ Hy]%lookup_delete_Some]. by exists y. }
  destruct (conns s1 !! weakConn_ en) as [conn|]; [destruct (getContext conn); [|done]|];
    intros [= <-]; [|by split].
  destruct (locked_ en); [by split|]. unfold onTimeoutExpired. destruct (ty_ en); by split.
Qed.

Lemma worker_calls_less s s' : worker_step s s' → calls_less s s'.
Proof using Type.
  intros (ev & Hw & Hh). destruct ev as [| | | | | |i|i debug dt]; try done; cbn [handle] in Hh.
  - destruct (queues s !! i) as [[|e q]|] eqn:Hq; try done. destruct (running s !! i) as [[?|]|] eqn:Hr; try done.
    injection Hh as Hh. pose proof (calls_dequeue _ (running s) _ _ _ Hq) as Hperm. unfold handler_start in Hh.
    assert (∀ e', e' ∈ calls (alter tail i (queues s)) (running s) → e' ∈ pending s) as Hsub.
    { intros e' He'. rewrite Hperm. apply elem_of_cons. by right. }
    cbn [entries set_queues] in Hh. destruct (entries s !! e) as [en|] eqn:He.
    2: { injection Hh as <-. split; [done|done|by left]. }
    assert (∀ e' y, is_Some (<[e := y]> (entries s) !! e') → is_Some (entries s !! e')) as Hins.
    { intros e' y [->|[_ ?]]%lookup_insert_is_Some; [by exists en|done]. }
    cbn [conns set_entries set_queues] in Hh. destruct (conns s !! weakConn_ en).
    + injection Hh as <-. split; [|intros e' Hx; cbn in Hx; by apply Hins in Hx|by left]. intros e' He'.
      change (e' ∈ calls (alter tail i (queues s)) (<[i := Some e]> (running s))) in He'. rewrite calls_start in He' by done.
      apply elem_of_cons in He' as [->|?]; [|by apply Hsub]. rewrite Hperm. apply elem_of_cons. by left.
    + eapply release_calls_less; [|exact Hh]. split; [done|intros e' Hx; cbn in Hx; by apply Hins in Hx|by left].
  - destruct (running s !! i) as [[e|]|] eqn:Hr; try done. injection Hh as Hh. unfold handler_finish in Hh.
    destruct (entries s !! e) as [en|] eqn:He; [|done]. destruct (conns s !! weakConn_ en) as [conn|] eqn:Hc; [|done].
    destruct (getContext conn) as [ctx|]; [|done]. apply bind_ret_inv in Hh as (u & _ & Hh).
    apply bind_ret_inv in Hh as ([rsp a] & _ & Hh). pose proof (calls_finish (queues s) _ _ _ Hr) as Hperm.
    eapply release_calls_less; [|exact Hh]. split; cbn; [|done|].
    + intros e' He'. rewrite Hperm. apply elem_of_cons. by right.
    + intros c. destruct (decide (weakConn_ en = c)) as [<-|Hne]; [right|left; by rewrite lookup_insert_ne].
      exists e, en. split_and!; [|done..]. rewrite Hperm. apply elem_of_cons. by left.
Qed.

(** A context that is not in flight stays as it is. *)
Lemma workers_keep s s' c conn ctx : Inv ∅ s → rtc worker_step s s' → conns s !! c = Some conn →
  getContext conn = Some ctx → in_flight s ctx = false → conns s' !! c = Some conn.
Proof using HT Hpool Hworkers L.
  intros HI Hs. induction Hs as [s|s s1 s' Hs1 _ IH]; [done|]. intros Hc Hg Hf.
  pose proof (worker_calls_less _ _ Hs1) as [H1 H2 H3].
  assert (∀ e en, e ∈ pending s → entries s !! e = Some en → weakConn_ en ≠ c) as Hne.
  { intros e en Hp He <-. destruct (ob_entry _ _ _ _ _ (iv_objects _ _ _ _ HI) e en He) as (_ & _ & _ & Hl).
    destruct (Hl conn Hc) as (ctx' & Hg' & <-). simplify_eq. apply not_true_iff_false in Hf. apply Hf.
    apply in_flight_spec. by split; [exists en|]. }
  apply IH; [|destruct (H3 c) as [->|(e & en & ? & ? & Hw)]; [done|by destruct (Hne e en)]|done|].
  - destruct Hs1 as (ev & Hev & Hh). eapply handle_inv; [exact HI| |exact Hh]. by destruct ev.
  - apply not_true_iff_false. rewrite in_flight_spec. intros [Ha Hp]. apply not_true_iff_false in Hf. apply Hf.
    apply in_flight_spec. by split; [apply H2|apply H1].
Qed.

(** C36: data for a connection whose complete request no worker has or will get (it timed
    out before a worker took it up, or its sender was refused) stops the loop for ever, and
    with it all its connections: the context of that request was not reset and is parsed
    again, which does not end, whatever the number of iterations; and nothing the workers
    do meanwhile touches the context, so that they do not end it either. *)
Theorem data_after_timeout_hangs a s c conn ctx data t : reachable a s →
  conns s !! c = Some conn → getContext conn = Some ctx →
  gotAll (context_ ctx) = true → in_flight s ctx = false →
  Forall_byte data → zlen data ≤ room (inputBuffer_ conn) →
  onHttpMessage s c conn data t = Abort OutOfFuel ∧
  (∀ fuel buf, parseRequest_loop t fuel (context_ ctx) buf = Abort OutOfFuel) ∧
  ∀ s', rtc worker_step s s' → conns s' !! c = Some conn.
Proof using HT Hpool Hworkers L.
  intros Hr Hc Hg Hall Hf Hd Hroom. pose proof (api_reachable_inv a s Hr) as HI.
  destruct (ob_conn _ _ _ _ _ (iv_objects _ _ _ _ HI) c conn Hc) as (_ & Hb & _).
  destruct (append_view (inputBuffer_ conn) data Hb Hd Hroom) as (buf & Happ & _).
  assert (∀ fuel buf, parseRequest_loop t fuel (context_ ctx) buf = Abort OutOfFuel) as Hloop.
  { intros fuel buf'. apply parseRequest_gotAll_diverges. left. by apply bool_decide_eq_true in Hall. }
  split_and!; [|done|intros s' Hs'; by eapply workers_keep].
  unfold onHttpMessage, parseRequest. by rewrite Happ, bind_ret, Hg, Hf, Hloop.
Qed.

(** a request must arrive in one piece: whatever proper part of a well-formed request a
    new connection reads first, it is answered with 400, because onHttpMessage takes a
    request that is not yet complete for a bad one. *)
Theorem split_request_refused a s c conn ctx q data fut t : reachable a s →
  conns s !! c = Some conn → getContext conn = Some ctx → gotAll (context_ ctx) = false →
  view (inputBuffer_ conn) = [] → request_ok q → render q = data ++ fut → fut ≠ [] →
  Forall_byte data → zlen data ≤ room (inputBuffer_ conn) →
  ∃ s', onHttpMessage s c conn data t = Ret s' ∧ sent s' = sent s ++ [(c, (KBad, bad_response))] ∧ queues s' = queues s.
Proof using HT Hpool Hworkers L.
  intros Hr Hc Hg Hng Hv Hq Hren Hfut Hd Hroom. pose proof (api_reachable_inv a s Hr) as HI.
  destruct (ob_conn _ _ _ _ _ (iv_objects _ _ _ _ HI) c conn Hc) as (_ & Hb & Hx). destruct (Hx ctx Hg) as [_ _ Hs _].
  destruct Hs as [Hs|]; [|congruence].
  destruct (append_view (inputBuffer_ conn) data Hb Hd Hroom) as (buf & Happ & [Hbi Hbv _]). rewrite Hv in Hbv. cbn [app] in Hbv.
  unfold onHttpMessage. rewrite Happ, Hg, (idle_request s c conn ctx), Hs by done. orun.
  destruct (loop_cut (λ _, True) t (parse_fuel buf) HttpContext_ctor buf q (render q) fut []) as ([[ok http] b2] & Hrun & _ & _ & Hpost);
    [done|done|constructor|done|by rewrite Hbv, app_nil_r| |].
  { unfold parse_fuel. rewrite readableBytes_view by done. lia. }
  unfold parseRequest. rewrite Hrun. orun. cbn [fst snd] in Hpost.
  rewrite (proj2 (Z.leb_gt _ _)) in Hpost.
  2: { rewrite Hbv, Hren, length_app. destruct fut; [done|]. cbn [length]. lia. }
  destruct Hpost as (http' & T' & [= -> ->] & Hexp & _).
  assert (gotAll http' = false) as -> by (destruct Hexp; done). rewrite andb_false_r. by eexists.
Qed.
End steps.

(** With fewer workers than loops, the loops beyond them have nobody to give a connection
    to: the first one stops the process with a division by zero. *)
Lemma too_few_workers loops workers loop : (workers ≤ loop < loops)%nat → workers_of_loop loops workers loop = [].
Proof.
  intros H. unfold workers_of_loop. destruct (List.filter _ _) as [|i l] eqn:Hf; [done|].
  assert (In i (i :: l)) as Hi by by left. rewrite <- Hf in Hi. apply filter_In in Hi as [Hi%in_seq Hm%Nat.eqb_eq].
  rewrite Nat.mod_small in Hm by lia. lia.
Qed.

Lemma no_worker_divides_by_zero kMax s peer text : numConnected_ s < kMax < 2 ^ 31 - 1 → - 2 ^ 31 ≤ numConnected_ s →
  onHttpConnection kMax [] s peer text = Abort DivisionByZero.
Proof.
  intros H1 H2. unfold onHttpConnection.
  destruct (Buffer.Buffer_ctor_ok Buffer.kInitialSize) as (b & -> & _ & _); [by vm_compute|]. orun.
  cbn [numConnected_ set_ids set_conns]. rewrite (proj2 (Z.ltb_ge _ _)); [done|].
  unfold s32, sint. change (32 - 1) with 31. rewrite Z.mod_small by lia. lia.
Qed.
End ApiConnSafety.

Module ApiConnSample.
Import ApiConnSafety.
#[local] Instance env : Env := ApiOrderSample.sample_env.
#[local] Instance laws : EnvLaws env := ApiOrderSample.sample_laws.

(** Two seconds, ten connections, one worker, no access control. *)
Definition service : ApiState := mkApi ServiceRunning ∅ ∅ ∅ Close false 0 [].

Definition returns (s : Server) (ev : event) : bool :=
  match handle 10 [0] s ev with Some (Ret _) => true | _ => false end.
Definition after (s : Server) (ev : event) : Server :=
  match handle 10 [0] s ev with Some (Ret s') => s' | _ => s end.

Notation reached := (reachable 2 10 [0] 1 service).

Lemma after_reachable s ev : reached s → event_ok s ev → returns s ev = true → reached (after s ev).
Proof.
  intros Hs Hok. unfold returns, after. destruct (handle 10 [0] s ev) as [[s'|]|] eqn:Hh; try done.
  intros _. by eapply reachable_step.
Qed.

Lemma one_worker : Forall (λ i, 0 ≤ i < Z.of_nat 1) [0].
Proof. by repeat constructor. Qed.

Definition waiting : Server := after (after (Server_ctor 2 1 service) (EConnect 7 (str "10.0.0.1"))) ETimer.

Lemma waiting_reached : reached waiting.
Proof. apply after_reachable; [|done|by vm_compute]. apply after_reachable; [constructor|done|by vm_compute]. Qed.

(** A connection that has waited for two seconds. *)
Definition closing : Server := after waiting ETimer.

Lemma closing_reached : reached closing.
Proof. apply after_reachable; [apply waiting_reached|done|by vm_compute]. Qed.


(** In the next second it is told that it came to nothing. *)
Lemma timeout_when_due_witness : ∃ s' l, onTimer waiting = Ret s' ∧ sent s' = sent waiting ++ (told <$> l) ∧ 0%nat ∈ l.
Proof.
  destruct (timeout_when_due 2 10 [0] 1 ltac:(lia) ltac:(done) one_worker service waiting waiting_reached)
    as (s' & l & H1 & H2 & _ & H3).
  exists s', l. split; [exact H1|]. split; [exact H2|]. apply H3.
  exists 0%nat, (mkEntry HttpTy false 0), 0%nat. split_and!; try by vm_compute. by eexists.
Defined.

(** A request for /help that has not been taken up. *)
Definition help : request := mkReq kGet (str "/help") [] true [(str "Host", str "a")].
Definition asked : Server := after waiting (EMessage 0 (render help) 5).

Lemma input_fits s c data t : Forall_byte data →
  match conns s !! c with
  | Some conn => (zlen data <=? room (inputBuffer_ conn)) &&
      match getContext conn with Some ctx => negb (gotAll (context_ ctx)) | None => true end
  | None => true
  end = true → event_ok s (EMessage c data t).
Proof.
  intros Hd Hc. split; [done|]. intros conn Hconn. rewrite Hconn in Hc. apply andb_true_iff in Hc as [Hl Hg].
  split; [lia|]. intros ctx Hctx. rewrite Hctx in Hg. by apply negb_true_iff.
Qed.

Lemma asked_reached : reached asked.
Proof.
  apply after_reachable; [apply waiting_reached| |by vm_compute].
  apply input_fits; [by apply HttpServerSample.Forall_byte_dec|by vm_compute].
Qed.

(** The connection with the name 0. *)
Definition first (s : Server) : Conn :=
  default (mkConn false None (Buffer.mkBuffer [] 0 0) 0 []) (conns s !! 0%nat).
Definition first_ctx (s : Server) : Context := default (mkContext 0 0 HttpContext_ctor) (getContext (first s)).

(** The request times out, then more data comes. *)
Definition expired_request : Server := after (after asked ETimer) ETimer.

Lemma expired_reached : reached expired_request.
Proof.
  apply after_reachable; [|done|by vm_compute]. apply after_reachable; [apply asked_reached|done|by vm_compute].
Qed.

Lemma data_after_timeout_hangs_witness :
  (0%nat, (KTimeout, timeout_response)) ∈ sent expired_request ∧
  onHttpMessage expired_request 0 (first expired_request) (str "G") 6 = Abort OutOfFuel.
Proof.
  split; [vm_compute; apply list_elem_of_here|].
  apply (data_after_timeout_hangs 2 10 [0] 1 ltac:(lia) ltac:(done) one_worker service expired_request 0
    (first expired_request) (first_ctx expired_request) (str "G") 6).
  - apply expired_reached.
  - by vm_compute.
  - by vm_compute.
  - by vm_compute.
  - by vm_compute.
  - by apply HttpServerSample.Forall_byte_dec.
  - by vm_compute.
Defined.

(** The same request in two reads. *)
Lemma split_request_refused_witness : ∃ s', onHttpMessage waiting 0 (first waiting) (take 8 (render help)) 5 = Ret s' ∧
  sent s' = sent waiting ++ [(0%nat, (KBad, bad_response))] ∧ queues s' = queues waiting.
Proof.
  apply (split_request_refused 2 10 [0] 1 ltac:(lia) ltac:(done) one_worker service waiting 0 (first waiting)
    (first_ctx waiting) help (take 8 (render help)) (drop 8 (render help)) 5).
  - apply waiting_reached.
  - by vm_compute.
  - by vm_compute.
  - by vm_compute.
  - by vm_compute.
  - split; [done|by apply (bool_decide_unpack (_ ∧ _ ∧ _))|by left|]. constructor; [|constructor].
    by apply HttpSample.header_ok_dec.
  - by rewrite take_drop.
  - by vm_compute.
  - by apply HttpServerSample.Forall_byte_dec.
  - by vm_compute.
Defined.
End ApiConnSample.
