(* ===== verification/ProtobufCodec.v ===== *)
(** * ProtobufCodec: messages on a byte stream (src/muduo-vip/muduo/net/protobuf/ProtobufCodecLite.{h,cc})

    A message is sent as its length, a tag, the serialized message and the Adler-32 checksum
    of tag and message.  The serialization is that of the protobuf library and the checksum
    that of zlib: parameters here.  The macro _MUDUO_HOSTTONET_TRANSFORM_ of Buffer.h, which
    decides the byte order of [appendInt32] and [peekInt32], is the boolean [transform].

    With the macro, what one side sends the other side reads, whatever the reads
    ([codec_stream]); without it, which is how the library is built, the two sides of the
    codec disagree on the byte order ([own_messages_rejected]). *)

From S2P Require Import Prelude BytesBuffer Buffer.
Import Buffer.

Module ProtobufCodec.

Definition kHeaderLen : Z := 4.
Definition kChecksumLen : Z := 4.
Definition kMaxMessageLen : Z := 64 * 1024 * 1024.

Inductive ErrorCode : Type :=
| kNoError | kInvalidLength | kCheckSumError | kInvalidNameLen | kUnknownMessageType | kParseError.
#[export] Instance ErrorCode_eq_dec : EqDecision ErrorCode.
Proof. solve_decision. Defined.

Definition errorCodeToString (errorCode : ErrorCode) : bytes :=
  match errorCode with
  | kNoError => str "NoError"
  | kInvalidLength => str "InvalidLength"
  | kCheckSumError => str "CheckSumError"
  | kInvalidNameLen => str "InvalidNameLen"
  | kUnknownMessageType => str "UnknownMessageType"
  | kParseError => str "ParseError"
  end.

(** htobe32 and be32toh of a little-endian host. *)
Definition hostToNetwork32 (x : Z) : Z := le_combine (rev (le_split 4 x)).
Definition networkToHost32 (x : Z) : Z := le_combine (rev (le_split 4 x)).

(** The bytes [i, i + n) of an object that [mem] is the rest of. *)
Definition load (mem : bytes) (i n : Z) : outcome bytes :=
  in_bounds ((0 <=? i) && (0 <=? n) && (i + n <=? zlen mem)) ;; Ret (ztake n (zdrop i mem)).

Definition asInt32 (buf : bytes) : Z := s32 (networkToHost32 (le_combine buf)).

Section codec.
Context {Msg : Type}.
(** [SerializeWithCachedSizesToArray] and [ParseFromArray] of the messages, zlib's
    [adler32(1, buf, len)], and the members of the codec. *)
Variables (serialize : Msg → bytes) (ParseFromArray : bytes → option Msg) (adler32 : bytes → Z).
Variables (transform : bool) (tag_ : bytes) (rawCb_ : option (bytes → Z → bool)).

(** ** Sending *)

Definition buf_appendInt32 (b : Buffer) (x : Z) : outcome Buffer :=
  if transform then append b (le_split 4 (hostToNetwork32 x)) else appendInt32 b x.

Definition buf_peekInt32 (b : Buffer) : outcome Z :=
  if transform then
    assert (4 <=? readableBytes b) ;; l ← peekBytes b 4; Ret (s32 (networkToHost32 (le_combine l)))
  else peekInt32 b.

Definition checksum (buf : bytes) : Z := s32 (adler32 buf).

Definition serializeToBuffer (message : Msg) (buf : Buffer) : outcome (Z * Buffer) :=
  let data := serialize message in
  let byte_size := zlen data in
  buf ← ensureWritableBytes buf (byte_size + kChecksumLen);
  v ← write_at (buffer_ buf) (writerIndex_ buf) data;
  buf ← hasWritten (mkBuffer v (readerIndex_ buf) (writerIndex_ buf)) byte_size;
  Ret (byte_size, buf).

Definition fillEmptyBuffer (buf : Buffer) (message : Msg) : outcome Buffer :=
  assert (readableBytes buf =? 0) ;;
  buf ← append buf tag_;
  '(byte_size, buf) ← serializeToBuffer message buf;
  piece ← peekBytes buf (u32 (readableBytes buf));
  buf ← buf_appendInt32 buf (checksum piece);
  assert (readableBytes buf =? u64 (zlen tag_ + byte_size + kChecksumLen)) ;;
  let len := hostToNetwork32 (s32 (readableBytes buf)) in
  prepend buf (le_split 4 len).

(** What [send] gives to the connection. *)
Definition send (message : Msg) : outcome bytes :=
  buf ← Buffer_ctor kInitialSize;
  buf ← fillEmptyBuffer buf message;
  peekBytes buf (readableBytes buf).

(** ** Receiving *)

Definition validateChecksum (buf : bytes) (len : Z) : outcome bool :=
  last ← load buf (len - kChecksumLen) 4;
  piece ← load buf 0 (len - kChecksumLen);
  Ret (checksum piece =? asInt32 last).

(** [parse(buf, len, message)]; the message, or the error. *)
Definition parse (buf : bytes) (len : Z) : outcome (ErrorCode + Msg) :=
  ok ← validateChecksum buf len;
  if ok : bool then
    t ← load buf 0 (zlen tag_);
    if bool_decide (t = tag_) then
      data ← load buf (zlen tag_) (len - kChecksumLen - zlen tag_);
      Ret (match ParseFromArray data with Some message => inr message | None => inl kParseError end)
    else Ret (inl kUnknownMessageType)
  else Ret (inl kCheckSumError).

(** Calls of messageCallback_ and errorCallback_. *)
Inductive callback : Type := Message (message : Msg) | Error (errorCode : ErrorCode).

Definition kMinMessageLen : Z := s32 (zlen tag_ + kChecksumLen).

(** Does the raw callback take the message? *)
Definition raw_takes (piece : bytes) (receiveTime : Z) : bool :=
  match rawCb_ with Some f => negb (f piece receiveTime) | None => false end.

Fixpoint onMessage_loop (fuel : nat) (buf : Buffer) (receiveTime : Z) : outcome (list callback * Buffer) :=
  match fuel with
  | O => Abort OutOfFuel
  | S fuel =>
      if u32 (kMinMessageLen + kHeaderLen) <=? readableBytes buf then
        len ← buf_peekInt32 buf;
        if (kMaxMessageLen <? len) || (len <? kMinMessageLen) then Ret ([Error kInvalidLength], buf)
        else if u64 (kHeaderLen + len) <=? readableBytes buf then
          piece ← peekBytes buf (kHeaderLen + len);
          if raw_takes piece receiveTime then
            buf ← retrieve buf (kHeaderLen + len);
            onMessage_loop fuel buf receiveTime
          else
            mem ← peekBytes buf (readableBytes buf);
            r ← parse (zdrop kHeaderLen mem) len;
            match r with
            | inr message =>
                buf ← retrieve buf (kHeaderLen + len);
                '(calls, buf) ← onMessage_loop fuel buf receiveTime;
                Ret (Message message :: calls, buf)
            | inl errorCode => Ret ([Error errorCode], buf)
            end
        else Ret ([], buf)
      else Ret ([], buf)
  end.

(** A message takes at least four bytes. *)
Definition onMessage (buf : Buffer) (receiveTime : Z) : outcome (list callback * Buffer) :=
  onMessage_loop (S (Z.to_nat (readableBytes buf))) buf receiveTime.

(** Reads of a connection: each puts its bytes into the input buffer. *)
Fixpoint receive (buf : Buffer) (reads : list (Z * bytes)) : outcome (list callback * Buffer) :=
  match reads with
  | [] => Ret ([], buf)
  | (t, data) :: reads =>
      buf ← append buf data;
      '(calls, buf) ← onMessage buf t;
      '(calls', buf) ← receive buf reads;
      Ret (calls ++ calls', buf)
  end.
End codec.
Arguments Message {_} _.
Arguments Error {_} _.

(** ** The wire format *)

Definition be4 (x : Z) : bytes := rev (le_split 4 x).

Section wire.
Context {Msg : Type}.
Variables (serialize : Msg → bytes) (adler32 : bytes → Z) (tag_ : bytes).

Definition body (m : Msg) : bytes := tag_ ++ serialize m.
Definition frame (m : Msg) : bytes :=
  be4 (zlen (body m) + kChecksumLen) ++ body m ++ be4 (checksum adler32 (body m)).

(** How many of the messages are in the first [n] bytes. *)
Fixpoint complete (ms : list Msg) (n : Z) : nat :=
  match ms with
  | [] => 0%nat
  | m :: ms => if zlen (frame m) <=? n then S (complete ms (n - zlen (frame m))) else 0%nat
  end.
End wire.

(** ** Integers *)

Lemma be4_length x : length (be4 x) = 4%nat.
Proof. unfold be4. by rewrite length_rev, length_le_split. Qed.

Lemma be4_bytes x : Forall_byte (be4 x).
Proof. unfold be4. apply Forall_rev, le_split_bytes. Qed.

Lemma be4_written x : le_split 4 (hostToNetwork32 x) = be4 x.
Proof.
  unfold hostToNetwork32. change (rev (le_split 4 x)) with (be4 x). rewrite <- (be4_length x).
  apply le_split_combine, be4_bytes.
Qed.

Lemma s32_mod x : s32 (x mod 2 ^ 32) = s32 x.
Proof. unfold s32, sint. by rewrite Zplus_mod_idemp_l. Qed.

Lemma s32_small x : - 2 ^ 31 ≤ x < 2 ^ 31 → s32 x = x.
Proof. intros H. unfold s32, sint. change (32 - 1) with 31. rewrite Z.mod_small; lia. Qed.

Lemma s32_range x : - 2 ^ 31 ≤ s32 x < 2 ^ 31.
Proof. unfold s32, sint. change (32 - 1) with 31. pose proof (Z.mod_pos_bound (x + 2 ^ 31) (2 ^ 32)). lia. Qed.

Lemma be4_read x : s32 (networkToHost32 (le_combine (be4 x))) = s32 x.
Proof.
  unfold networkToHost32. assert (le_split 4 (le_combine (be4 x)) = be4 x) as ->.
  { rewrite <- (be4_length x) at 1. apply le_split_combine, be4_bytes. }
  unfold be4. rewrite rev_involutive, le_combine_split. apply s32_mod.
Qed.

(** A small length read in the wrong order. *)
Lemma length_swapped n : 5 ≤ n ≤ 255 →
  kMaxMessageLen < s32 (le_combine (be4 n)) ∨ s32 (le_combine (be4 n)) < 0.
Proof.
  intros Hn. unfold be4. cbn [le_split rev app le_combine]. rewrite (Z.mod_small n) by lia.
  rewrite (Z.div_small n) by lia. change (0 mod 256) with 0. change (0 / 256) with 0. change (0 mod 256) with 0.
  unfold kMaxMessageLen, s32, sint. change (32 - 1) with 31. Z.to_euclidean_division_equations. lia.
Qed.

Lemma load_app mem a b c i n : mem = a ++ b ++ c → i = zlen a → n = zlen b → load mem i n = Ret b.
Proof.
  intros -> -> ->. unfold load. rewrite in_bounds_true by (rewrite !length_app, !andb_true_iff, !Z.leb_le; lia). orun.
  by rewrite zdrop_app, ztake_app.
Qed.

Lemma load_ok mem i n : 0 ≤ i → 0 ≤ n → i + n ≤ zlen mem → load mem i n = Ret (ztake n (zdrop i mem)).
Proof. intros. unfold load. by rewrite in_bounds_true by (rewrite !andb_true_iff, !Z.leb_le; lia). Qed.

Lemma peek_any transform b : wf b → 4 ≤ zlen (readable b) → ∃ len, buf_peekInt32 transform b = Ret len.
Proof.
  intros Hb Hl. rewrite length_readable in Hl by done. unfold buf_peekInt32, peekInt32.
  destruct transform; rewrite assert_true by (by apply Z.leb_le); orun;
    rewrite peekBytes_eq by (done || (rewrite length_readable by done; lia)); by eexists.
Qed.

(** ** The first byte of a buffer stays where it is, or there is room in front of it *)

Definition reader_kept (b b' : Buffer) : Prop := readerIndex_ b' = readerIndex_ b ∨ readerIndex_ b' = kCheapPrepend.

Lemma ensureWritableBytes_reader b n b' : ensureWritableBytes b n = Ret b' → reader_kept b b'.
Proof.
  unfold ensureWritableBytes, makeSpace. intros (b1 & H & (u & _ & [= <-])%bind_ret_inv)%bind_ret_inv.
  destruct (_ <? _); [|injection H as <-; by left]. destruct (_ <? _).
  - apply bind_ret_inv in H as (v & _ & [= <-]). by left.
  - apply bind_ret_inv in H as (? & _ & H). apply bind_ret_inv in H as (v & _ & H).
    apply bind_ret_inv in H as (? & _ & [= <-]). by right.
Qed.

Lemma append_reader b d b' : append b d = Ret b' → reader_kept b b'.
Proof.
  unfold append, hasWritten. intros (b1 & H & H1)%bind_ret_inv. apply bind_ret_inv in H1 as (v & _ & H1).
  apply bind_ret_inv in H1 as (u & _ & [= <-]). by apply ensureWritableBytes_reader in H.
Qed.

(** ** Sending *)

Section correct.
Context {Msg : Type}.
Variables (serialize : Msg → bytes) (ParseFromArray : bytes → option Msg) (adler32 : bytes → Z) (tag_ : bytes).
Hypothesis tag_bytes : Forall_byte tag_.
Hypothesis serialize_bytes : ∀ m, Forall_byte (serialize m).
Notation body := (body serialize tag_).
Notation frame := (frame serialize adler32 tag_).
Notation kMin := (kMinMessageLen tag_).

(** The message fits into a frame. *)
Definition fits (m : Msg) : Prop := zlen (body m) + kChecksumLen ≤ kMaxMessageLen.

Lemma body_bytes m : Forall_byte (body m).
Proof using tag_bytes serialize_bytes. apply Forall_app. by split. Qed.

Lemma length_frame m : zlen (frame m) = zlen (body m) + 8.
Proof. unfold ProtobufCodec.frame. rewrite !length_app, !be4_length. lia. Qed.

Lemma serializeToBuffer_has m b : wf b → zlen (serialize m) + kChecksumLen ≤ room_of b →
  ∃ b', serializeToBuffer serialize m b = Ret (zlen (serialize m), b') ∧ reader_kept b b' ∧
    buf_has wf readable room_of b' (readable b ++ serialize m) (room_of b - zlen (serialize m)).
Proof using serialize_bytes.
  unfold kChecksumLen. intros Hb Hr. unfold serializeToBuffer, kChecksumLen.
  destruct (ensureWritableBytes_has b (zlen (serialize m) + 4)) as (b1 & He & [Hb1 Hv Hr1] & Hw); [done|lia|].
  rewrite He. orun. destruct (fill_has b1 (serialize m)) as [-> [H1 H2 H3]]; [done|done|lia|]. orun. unfold hasWritten.
  set (b2 := mkBuffer _ (readerIndex_ b1) (writerIndex_ b1)).
  assert (writableBytes b2 = writableBytes b1) as Hw2.
  { rewrite writableBytes_eq in Hw by done. pose proof Hb1 as []. unfold writableBytes, b2.
    cbn [buffer_ writerIndex_]. rewrite length_write by lia. done. }
  rewrite Hw2. rewrite assert_true by (apply Z.leb_le; lia). orun. eexists. split; [done|].
  split; [by apply ensureWritableBytes_reader in He|]. subst b2. cbn [buffer_ readerIndex_ writerIndex_].
  split; [done|by rewrite <- Hv|lia].
Qed.

(** With [transform] the checksum and the length are in network order. *)
Definition frame_of (transform : bool) (m : Msg) : bytes :=
  be4 (zlen (body m) + kChecksumLen) ++ body m ++
  (if transform then be4 (checksum adler32 (body m)) else le_split 4 (checksum adler32 (body m))).

Lemma fillEmptyBuffer_has transform m b : fits m → wf b → readable b = [] → kCheapPrepend ≤ readerIndex_ b →
  zlen (body m) + 8 ≤ room_of b →
  ∃ b', fillEmptyBuffer serialize adler32 transform tag_ b m = Ret b' ∧ wf b' ∧ readable b' = frame_of transform m.
Proof using tag_bytes serialize_bytes.
  unfold fits, kChecksumLen, kMaxMessageLen, ProtobufCodec.body. intros Hf Hb Hv Hri Hroom. rewrite length_app in *.
  unfold fillEmptyBuffer. rewrite assert_true by (rewrite <- length_readable, Hv by done; done). orun.
  destruct (append_has b tag_) as (b1 & H1 & [Hb1 Hv1 Hr1]); [done..|lia|]. rewrite H1. orun. rewrite Hv in Hv1. cbn [app] in Hv1.
  destruct (serializeToBuffer_has m b1 Hb1) as (b2 & -> & Hk2 & [Hb2 Hv2 Hr2]); [unfold kChecksumLen; lia|]. orun.
  rewrite Hv1 in Hv2. change (tag_ ++ serialize m) with (body m) in *.
  rewrite <- length_readable by done. rewrite Hv2. unfold u32. rewrite Z.mod_small by (unfold ProtobufCodec.body; rewrite length_app; lia).
  rewrite peekBytes_eq by (rewrite ?Hv2; done || lia). rewrite Hv2, ztake_all by lia. orun.
  set (cs := if transform then be4 (checksum adler32 (body m)) else le_split 4 (checksum adler32 (body m))).
  assert (buf_appendInt32 transform b2 (checksum adler32 (body m)) = append b2 cs) as ->.
  { unfold buf_appendInt32, cs. destruct transform; [by rewrite be4_written|done]. }
  assert (length cs = 4%nat) as Hcl by (unfold cs; destruct transform; [apply be4_length|apply length_le_split]).
  destruct (append_has b2 cs) as (b3 & H3 & [Hb3 Hv3 Hr3]); [done| |lia|].
  { unfold cs. destruct transform; [apply be4_bytes|apply le_split_bytes]. }
  rewrite H3. orun. rewrite Hv2 in Hv3.
  assert (readableBytes b3 = zlen (body m) + 4) as Hl3 by (rewrite <- length_readable, Hv3, length_app by done; lia).
  rewrite Hl3. assert (zlen (body m) = zlen tag_ + zlen (serialize m)) as Hbl by (unfold ProtobufCodec.body; rewrite length_app; lia).
  rewrite assert_true.
  2: { apply Z.eqb_eq. unfold u64, kChecksumLen. rewrite Z.mod_small by lia. lia. }
  orun. rewrite s32_small by lia. rewrite be4_written.
  assert (kCheapPrepend ≤ readerIndex_ b3) as Hr.
  { apply append_reader in H1. apply append_reader in H3. unfold reader_kept, kCheapPrepend in *. lia. }
  unfold kCheapPrepend in Hr.
  destruct (prepend_has b3 (be4 (zlen (body m) + 4))) as (b4 & -> & [Hb4 Hv4 _]); [done|apply be4_bytes| |].
  { unfold prependableBytes. rewrite be4_length. lia. }
  exists b4. split_and!; [done..|]. by rewrite Hv4, Hv3.
Qed.

Lemma send_frame transform m : fits m → send serialize adler32 transform tag_ m = Ret (frame_of transform m).
Proof using tag_bytes serialize_bytes.
  intros Hf. unfold send. destruct (Buffer_ctor_ok kInitialSize) as (b & Hc & [Hb Hv Hr] & _); [by vm_compute|].
  rewrite Hc. orun. destruct (fillEmptyBuffer_has transform m b) as (b' & -> & Hb' & Hv'); [done..| | |].
  - vm_compute in Hc. injection Hc as <-. by vm_compute.
  - unfold fits, kMaxMessageLen, kChecksumLen in Hf. assert (2 ^ 40 ≤ room_of b) by (etrans; [|exact Hr]; by vm_compute). lia.
  - orun. rewrite <- length_readable by done. rewrite peekBytes_eq by (done || lia). by rewrite ztake_all, Hv' by lia.
Qed.

(** ** Receiving *)

Hypothesis tag_small : zlen tag_ + kChecksumLen ≤ kMaxMessageLen.

Lemma kMin_eq : kMin = zlen tag_ + 4.
Proof using tag_small. unfold kMinMessageLen. unfold kChecksumLen, kMaxMessageLen in *. apply s32_small. lia. Qed.

Lemma min_eq : u32 (kMin + kHeaderLen) = zlen tag_ + 8.
Proof using tag_small.
  rewrite kMin_eq. unfold kHeaderLen, kChecksumLen, kMaxMessageLen, u32 in *. rewrite Z.mod_small; lia.
Qed.

Lemma parse_body m rest len : len = zlen (body m) + kChecksumLen →
  parse ParseFromArray adler32 tag_ (body m ++ be4 (checksum adler32 (body m)) ++ rest) len =
    Ret (match ParseFromArray (serialize m) with Some m' => inr m' | None => inl kParseError end).
Proof.
  intros ->. unfold parse, validateChecksum, kChecksumLen. rewrite Z.add_simpl_r.
  rewrite (load_app _ (body m) (be4 (checksum adler32 (body m))) rest (zlen (body m)) 4) by (rewrite ?be4_length; done). orun.
  rewrite (load_app _ [] (body m) (be4 (checksum adler32 (body m)) ++ rest) 0 (zlen (body m))) by done. orun.
  unfold asInt32. rewrite be4_read. unfold checksum at 2.
  assert (s32 (s32 (adler32 (body m))) = s32 (adler32 (body m))) as ->.
  { apply s32_small, s32_range. }
  unfold checksum. rewrite Z.eqb_refl. unfold ProtobufCodec.body. rewrite <- !app_assoc.
  rewrite (load_app _ [] tag_ (serialize m ++ be4 (s32 (adler32 (tag_ ++ serialize m))) ++ rest) 0 (zlen tag_)) by done. orun.
  rewrite bool_decide_true by done.
  rewrite (load_app _ tag_ (serialize m) (be4 (s32 (adler32 (tag_ ++ serialize m))) ++ rest) (zlen tag_) _); [by orun|done..|].
  rewrite length_app. lia.
Qed.

(** The length in front of a frame. *)
Lemma peek_length b m v : fits m → wf b → readable b = be4 (zlen (body m) + kChecksumLen) ++ v →
  buf_peekInt32 true b = Ret (zlen (body m) + 4).
Proof.
  unfold fits, kChecksumLen, kMaxMessageLen. intros Hf Hb Hv. unfold buf_peekInt32.
  assert (4 ≤ zlen (readable b)) as Hl by (rewrite Hv, length_app, be4_length; lia).
  rewrite assert_true by (apply Z.leb_le; rewrite <- length_readable by done; lia). orun.
  rewrite peekBytes_eq by (done || lia). orun. rewrite Hv, ztake_app by (by rewrite be4_length).
  rewrite be4_read, s32_small by lia. done.
Qed.

Section stream.
Variable rawCb_ : option (bytes → Z → bool).
Hypothesis raw_passes : ∀ piece t, raw_takes rawCb_ piece t = false.
Hypothesis parse_serialize : ∀ m, ParseFromArray (serialize m) = Some m.
Notation loop := (onMessage_loop ParseFromArray adler32 true tag_ rawCb_).
Notation complete := (complete serialize adler32 tag_).

(** One complete frame. *)
Lemma loop_frame fuel b t m v : fits m → wf b → readable b = frame m ++ v →
  ∃ b', loop (S fuel) b t = ('(calls, b) ← loop fuel b' t; Ret (Message m :: calls, b)) ∧
    buf_has wf readable room_of b' v (room_of b).
Proof using tag_small raw_passes parse_serialize.
  intros Hf Hb Hv. pose proof (length_frame m) as Hlf. assert (zlen tag_ ≤ zlen (body m)) as Htl.
  { unfold ProtobufCodec.body. rewrite length_app. lia. }
  assert (readableBytes b = zlen (body m) + 8 + zlen v) as Hl by (rewrite <- length_readable, Hv, length_app by done; lia).
  cbn [onMessage_loop]. rewrite min_eq, Hl. rewrite (proj2 (Z.leb_le _ _)) by lia.
  rewrite (peek_length b m (body m ++ be4 (checksum adler32 (body m)) ++ v));
    [|done|done|rewrite Hv; unfold ProtobufCodec.frame; by rewrite <- !app_assoc].
  orun. rewrite kMin_eq. unfold fits, kChecksumLen, kHeaderLen, kMaxMessageLen in *.
  rewrite (proj2 (Z.ltb_ge _ _)), (proj2 (Z.ltb_ge _ _)) by lia. cbn [orb].
  unfold u64. rewrite Z.mod_small by lia. rewrite (proj2 (Z.leb_le _ _)) by lia.
  rewrite (peekBytes_eq b (4 + _)) by (done || (rewrite length_readable by done; lia)). orun. rewrite raw_passes.
  rewrite peekBytes_eq by (done || (rewrite length_readable by done; lia)). orun.
  rewrite ztake_all by (rewrite length_readable by done; lia).
  assert (zdrop 4 (readable b) = body m ++ be4 (checksum adler32 (body m)) ++ v) as ->.
  { rewrite Hv. unfold ProtobufCodec.frame. rewrite <- app_assoc, zdrop_app by (by rewrite be4_length). by rewrite <- app_assoc. }
  rewrite parse_body by done. rewrite parse_serialize. orun.
  destruct (retrieve_has b (4 + (zlen (body m) + 4))) as (b' & -> & [Hb' Hv' Hr']); [done|rewrite length_readable by done; lia|].
  orun. exists b'. split; [done|]. split; [done| |done]. rewrite Hv', Hv, zdrop_app by lia. done.
Qed.

(** A part of a frame. *)
Lemma loop_wait fuel b t m fut rest : fits m → wf b → readable b ++ fut = frame m ++ rest →
  zlen (readable b) < zlen (frame m) → loop (S fuel) b t = Ret ([], b).
Proof using tag_small.
  intros Hf Hb Hv Hlt. rewrite length_frame in Hlt. cbn [onMessage_loop]. rewrite min_eq, <- length_readable by done.
  destruct (Z.leb_spec (zlen tag_ + 8) (zlen (readable b))) as [Hle|]; [|done].
  unfold ProtobufCodec.frame in Hv. rewrite <- app_assoc in Hv. apply app_prefix in Hv as (v & Hv & _); [|rewrite be4_length; lia].
  rewrite (peek_length b m v) by done. orun. rewrite kMin_eq. assert (zlen tag_ ≤ zlen (body m)) as Htl.
  { unfold ProtobufCodec.body. rewrite length_app. lia. }
  unfold fits, kChecksumLen, kHeaderLen, kMaxMessageLen in *.
  rewrite (proj2 (Z.ltb_ge _ _)), (proj2 (Z.ltb_ge _ _)) by lia. cbn [orb].
  unfold u64. rewrite Z.mod_small by lia. by rewrite (proj2 (Z.leb_gt _ _)) by lia.
Qed.

Definition frames (ms : list Msg) : bytes := concat (frame <$> ms).

(** The frames that are complete. *)
Lemma loop_frames fuel b t ms fut : Forall fits ms → wf b → readable b ++ fut = frames ms →
  zlen (readable b) < Z.of_nat fuel →
  ∃ b', loop fuel b t = Ret (Message <$> take (complete ms (zlen (readable b))) ms, b') ∧ wf b' ∧ room_of b ≤ room_of b' ∧
    readable b' ++ fut = frames (drop (complete ms (zlen (readable b))) ms).
Proof using tag_small raw_passes parse_serialize.
  revert b ms. induction fuel as [|fuel IH]; intros b ms Hms Hb Hv Hfuel; [lia|]. destruct Hms as [|m ms Hm Hms].
  - apply app_eq_nil in Hv as [Hv ->]. exists b. cbn [onMessage_loop complete take drop]. split_and!; [|done|lia|by rewrite Hv].
    rewrite min_eq, <- length_readable, Hv by done. by rewrite (proj2 (Z.leb_gt _ _)) by (cbn; lia).
  - unfold frames in Hv. cbn [fmap list_fmap concat] in Hv. cbn [ProtobufCodec.complete].
    pose proof (length_frame m) as Hlf. destruct (Z.leb_spec (zlen (frame m)) (zlen (readable b))) as [Hle|Hlt].
    + apply app_prefix in Hv as (v & Hv & Hrest); [|done].
      destruct (loop_frame fuel b t m v Hm Hb Hv) as (b1 & -> & [Hb1 Hv1 Hr1]).
      destruct (IH b1 ms) as (b' & Hrun & Hb' & Hr' & Hv'); [done|done|by rewrite Hv1| |].
      { rewrite Hv, length_app in Hfuel. rewrite Hv1. lia. }
      rewrite Hrun. orun. rewrite Hv1 in Hv' |- *.
      replace (zlen (readable b) - zlen (frame m)) with (zlen v) by (rewrite Hv, length_app; lia).
      exists b'. split_and!; [done|done|lia|done].
    + exists b. rewrite (loop_wait fuel b t m fut (frames ms)) by done. split_and!; [done|done|lia|done].
Qed.

(** What is complete later. *)
Lemma complete_more ms n n' : 0 ≤ n ≤ n' →
  complete ms n' = (complete ms n + complete (drop (complete ms n) ms) (n' - zlen (frames (take (complete ms n) ms))))%nat.
Proof.
  revert n n'. induction ms as [|m ms IH]; intros n n' Hn; [done|]. cbn [ProtobufCodec.complete].
  destruct (Z.leb_spec (zlen (frame m)) n).
  - rewrite (proj2 (Z.leb_le _ _)) by lia. cbn [take drop]. rewrite (IH (n - zlen (frame m)) (n' - zlen (frame m))) by lia.
    unfold frames at 2. cbn [fmap list_fmap concat]. rewrite length_app. cbn [Nat.add]. do 3 f_equal. unfold frames. lia.
  - cbn [take drop frames fmap list_fmap concat length Nat.add]. rewrite Z.sub_0_r. done.
Qed.

Lemma complete_fits ms n : 0 ≤ n → zlen (frames (take (complete ms n) ms)) ≤ n.
Proof.
  revert n. induction ms as [|m ms IH]; intros n Hn; cbn [ProtobufCodec.complete take frames fmap list_fmap concat length]; [done|].
  destruct (Z.leb_spec (zlen (frame m)) n); [|done]. cbn [take]. unfold frames. cbn [fmap list_fmap concat].
  rewrite length_app. specialize (IH (n - zlen (frame m))). unfold frames in IH. lia.
Qed.

Notation receive := (receive ParseFromArray adler32 true tag_ rawCb_).

Lemma receive_frames reads b ms fut : Forall fits ms → wf b → Forall (λ r, Forall_byte r.2) reads →
  zlen (concat reads.*2) ≤ room_of b → readable b ++ concat reads.*2 ++ fut = frames ms →
  complete ms (zlen (readable b)) = 0%nat →
  ∃ b', receive b reads = Ret (Message <$> take (complete ms (zlen (readable b) + zlen (concat reads.*2))) ms, b') ∧
    readable b' ++ fut = frames (drop (complete ms (zlen (readable b) + zlen (concat reads.*2))) ms).
Proof using tag_small raw_passes parse_serialize.
  intros Hms Hb Hreads. revert b ms Hms Hb. induction Hreads as [|[t data] reads Hd _ IH]; intros b ms Hms Hb Hroom Hv H0.
  { cbn [fmap list_fmap concat length]. rewrite Z.add_0_r, H0. by exists b. }
  cbn [fmap list_fmap concat snd] in *. rewrite length_app in Hroom |- *. rewrite <- app_assoc in Hv.
  cbn [ProtobufCodec.receive]. destruct (append_has b data) as (b1 & -> & [Hb1 Hv1 Hr1]); [done..|lia|]. orun.
  assert (zlen (readable b1) = zlen (readable b) + zlen data) as Hl1 by (rewrite Hv1, length_app; lia).
  rewrite (assoc_L (++)), <- Hv1 in Hv. unfold onMessage.
  set (k := complete ms (zlen (readable b1))).
  destruct (loop_frames (S (Z.to_nat (readableBytes b1))) b1 t ms (concat reads.*2 ++ fut))
    as (b2 & Hrun & Hb2 & Hr2 & Hv2); [done|done|done|rewrite length_readable by done; lia|].
  rewrite Hrun. orun. fold k in Hv2 |- *.
  assert (zlen (readable b2) = zlen (readable b1) - zlen (frames (take k ms))) as Hl2.
  { apply (f_equal length) in Hv2, Hv. assert (frames ms = frames (take k ms) ++ frames (drop k ms)) as E.
    { unfold frames. by rewrite <- concat_app, <- fmap_app, take_drop. }
    rewrite E, !length_app in Hv. rewrite !length_app in Hv2. lia. }
  pose proof (complete_more ms (zlen (readable b1)) (zlen (readable b1)) ltac:(lia)) as Hm0. fold k in Hm0.
  destruct (IH b2 (drop k ms)) as (b' & Hrun2 & Hv'); [by apply Forall_drop|done|lia|by rewrite Hv2|rewrite Hl2; lia|].
  rewrite Hrun2. orun.
  set (n := zlen (concat reads.*2)) in *.
  pose proof (complete_more ms (zlen (readable b1)) (zlen (readable b) + (zlen data + n)) ltac:(lia)) as Hm.
  fold k in Hm. replace (zlen (readable b) + (zlen data + n) - zlen (frames (take k ms)))
    with (zlen (readable b2) + n) in Hm by lia.
  exists b'. rewrite Nat2Z.inj_add. fold n. rewrite Hm. split; [|by rewrite Hv', drop_drop].
  by rewrite <- fmap_app, take_take_drop.
Qed.

(** C27: with _MUDUO_HOSTTONET_TRANSFORM_ the codec carries messages over a byte stream:
    whatever messages of up to 64 MB one side sends, and however the bytes are cut into
    reads, the other side delivers, in order, exactly the messages whose last byte has
    arrived, and reports no error; when everything has arrived, all of them. *)
Theorem codec_stream ms ds reads fut b : Forall fits ms →
  Forall2 (λ m d, send serialize adler32 true tag_ m = Ret d) ms ds → concat ds = concat reads.*2 ++ fut →
  wf b → readable b = [] → Forall (λ r, Forall_byte r.2) reads → zlen (concat reads.*2) ≤ room_of b →
  ∃ b', receive b reads = Ret (Message <$> take (complete ms (zlen (concat reads.*2))) ms, b') ∧
    (fut = [] → complete ms (zlen (concat reads.*2)) = length ms ∧ readable b' = []).
Proof using tag_bytes serialize_bytes tag_small raw_passes parse_serialize.
  intros Hms Hds Hcut Hb Hv Hreads Hroom.
  assert (concat ds = frames ms) as Hfr.
  { unfold frames. f_equal. clear -Hds Hms tag_bytes serialize_bytes. induction Hds as [|m d ms ds Hd _ IH]; [done|].
    apply Forall_cons in Hms as [Hm Hms]. rewrite (send_frame true m Hm) in Hd. injection Hd as <-. cbn. by rewrite <- IH. }
  destruct (receive_frames reads b ms fut) as (b' & Hrun & Hv'); [done..|by rewrite Hv, <- Hfr, Hcut| |].
  { rewrite Hv. destruct ms as [|m ms]; [done|]. cbn [ProtobufCodec.complete length].
    by rewrite (proj2 (Z.leb_gt _ _)) by (rewrite length_frame; cbn; lia). }
  rewrite Hv in Hrun, Hv'. cbn [length Z.of_nat Z.add] in Hrun, Hv'. exists b'. split; [done|]. intros ->.
  rewrite app_nil_r in Hcut. rewrite <- Hcut, Hfr in Hv' |- *. rewrite app_nil_r in Hv'.
  assert (∀ l, complete l (zlen (frames l)) = length l) as Hall.
  { induction l as [|m l IH]; [done|]. unfold frames. cbn [ProtobufCodec.complete fmap list_fmap concat length].
    rewrite length_app, (proj2 (Z.leb_le _ _)) by lia. f_equal. rewrite <- IH. f_equal. unfold frames. lia. }
  rewrite Hall in Hv' |- *. split; [done|]. by rewrite Hv', drop_all.
Qed.
End stream.

(** ** Arbitrary input *)

(** The input has a frame with the tag, the checksum and the text of the message. *)
Definition genuine (v : bytes) (m : Msg) : Prop :=
  ∃ a p c z, v = a ++ tag_ ++ p ++ c ++ z ∧ zlen c = 4 ∧ asInt32 c = checksum adler32 (tag_ ++ p) ∧
    ParseFromArray p = Some m.

Lemma genuine_later a v m : genuine v m → genuine (a ++ v) m.
Proof. intros (a' & p & c & z & -> & H). exists (a ++ a'), p, c, z. by rewrite <- app_assoc. Qed.

(** [parse] stays inside the message and takes only genuine ones. *)
Lemma parse_any mem len : zlen tag_ + 4 ≤ len ≤ zlen mem →
  ∃ r, parse ParseFromArray adler32 tag_ mem len = Ret r ∧ ∀ m, r = inr m → genuine mem m.
Proof.
  intros Hl. unfold parse, validateChecksum, kChecksumLen. rewrite !load_ok by lia. orun.
  change (zdrop 0 mem) with mem. set (c := ztake 4 (zdrop (len - 4) mem)). set (q := ztake (len - 4) mem).
  assert (mem = q ++ c ++ zdrop 4 (zdrop (len - 4) mem)) as Hmem by (unfold c, q; by rewrite !ztake_zdrop).
  destruct (Z.eqb_spec (checksum adler32 q) (asInt32 c)) as [Hc|]; [|by eexists]. orun.
  case_bool_decide as Ht; [|by eexists]. orun.
  set (p := ztake (len - 4 - zlen tag_) (zdrop (zlen tag_) mem)).
  assert (q = tag_ ++ p) as Hq.
  { unfold q, p. rewrite <- Ht at 1. unfold ztake, zdrop. rewrite take_take_drop. f_equal. lia. }
  eexists. split; [done|]. intros m Hm. destruct (ParseFromArray p) as [m'|] eqn:Hp; [|done]. injection Hm as <-.
  exists [], p, c, (zdrop 4 (zdrop (len - 4) mem)). cbn [app]. split_and!.
  - rewrite (assoc_L (++)), <- Hq. exact Hmem.
  - unfold c. rewrite length_ztake; [done|]. rewrite length_zdrop; lia.
  - by rewrite <- Hq.
  - done.
Qed.

Lemma codec_loop_any transform rawCb_ fuel b t : wf b → zlen (readable b) < Z.of_nat fuel →
  ∃ ms err b' pre, onMessage_loop ParseFromArray adler32 transform tag_ rawCb_ fuel b t =
      Ret ((Message <$> ms) ++ option_list (Error <$> err), b') ∧
    wf b' ∧ readable b = pre ++ readable b' ∧ Forall (genuine (readable b)) ms.
Proof using tag_small.
  revert b. induction fuel as [|fuel IH]; intros b Hb Hfuel; [lia|].
  assert (∀ err, ∃ ms err' b' pre, (Ret (option_list (Error <$> err), b) : outcome (list (callback (Msg := Msg)) * Buffer)) =
      Ret ((Message <$> ms) ++ option_list (Error <$> err'), b') ∧
    wf b' ∧ readable b = pre ++ readable b' ∧ Forall (genuine (readable b)) ms) as Hstop.
  { intros err. by exists [], err, b, []. }
  cbn [onMessage_loop]. rewrite min_eq, <- length_readable by done.
  destruct (Z.leb_spec (zlen tag_ + 8) (zlen (readable b))); [|apply (Hstop None)].
  destruct (peek_any transform b Hb) as (len & ->); [lia|]. orun. rewrite kMin_eq.
  destruct (Z.ltb_spec kMaxMessageLen len); [apply (Hstop (Some kInvalidLength))|].
  destruct (Z.ltb_spec len (zlen tag_ + 4)); [apply (Hstop (Some kInvalidLength))|]. cbn [orb].
  unfold kHeaderLen, kMaxMessageLen in *. unfold u64. rewrite Z.mod_small by lia.
  destruct (Z.leb_spec (4 + len) (zlen (readable b))); [|apply (Hstop None)].
  rewrite (peekBytes_eq b (4 + len)) by (done || lia). orun.
  destruct (retrieve_has b (4 + len)) as (b1 & Hret & [Hb1 Hv1 _]); [done|lia|].
  assert (readable b = ztake (4 + len) (readable b) ++ readable b1) as Hsplit by (by rewrite Hv1, ztake_zdrop).
  assert (zlen (readable b1) < Z.of_nat fuel) as Hfuel1 by (rewrite Hv1, length_zdrop; lia).
  destruct (IH b1 Hb1 Hfuel1) as (ms & err & b' & pre & Hrun & Hb' & Hpre & Hms).
  assert (readable b = (ztake (4 + len) (readable b) ++ pre) ++ readable b') as Hpre' by (by rewrite <- app_assoc, <- Hpre).
  assert (Forall (genuine (readable b)) ms) as Hms'.
  { rewrite Hsplit. eapply Forall_impl; [exact Hms|]. intros m. apply genuine_later. }
  case_match.
  - rewrite Hret. orun. by exists ms, err, b', (ztake (4 + len) (readable b) ++ pre).
  - rewrite peekBytes_eq by (done || lia). orun. rewrite ztake_all by lia.
    destruct (parse_any (zdrop 4 (readable b)) len) as (r & -> & Hr); [rewrite length_zdrop; lia|]. orun.
    destruct r as [code|m]; [apply (Hstop (Some code))|]. rewrite Hret. orun. rewrite Hrun. orun.
    exists (m :: ms), err, b', (ztake (4 + len) (readable b) ++ pre). split_and!; [done..|].
    apply Forall_cons. split; [|done]. rewrite <- (ztake_zdrop 4 (readable b)). by apply genuine_later, Hr.
Qed.

(** C28: for every input, callback, tag and byte order onMessage returns: it reads nothing
    outside of the input, removes a prefix of it, delivers only messages that stand there
    with their tag and a right checksum, and reports at most one error, last. *)
Theorem codec_total transform rawCb_ b t : wf b →
  ∃ ms err b' pre, onMessage ParseFromArray adler32 transform tag_ rawCb_ b t =
      Ret ((Message <$> ms) ++ option_list (Error <$> err), b') ∧
    wf b' ∧ readable b = pre ++ readable b' ∧ Forall (genuine (readable b)) ms.
Proof using tag_small. intros Hb. apply codec_loop_any; [done|]. rewrite length_readable by done. lia. Qed.

(** ** Without the macro *)

(** without the macro, as the library is built, the codec cannot read what it writes:
    fillEmptyBuffer writes the length in network order and peekInt32 reads it in the order
    of the host, so a message with a frame of 5 to 255 bytes is answered with
    kInvalidLength, for every tag, message and checksum. *)
Theorem own_messages_rejected rawCb_ m b t : 5 ≤ zlen (body m) + kChecksumLen ≤ 255 →
  wf b → readable b = [] → 2 ^ 20 ≤ room_of b →
  ∃ d b', send serialize adler32 false tag_ m = Ret d ∧ append b d = Ret b' ∧
    onMessage ParseFromArray adler32 false tag_ rawCb_ b' t = Ret ([Error kInvalidLength], b').
Proof using tag_bytes serialize_bytes tag_small.
  intros Hl Hb Hv Hroom. exists (frame_of false m).
  assert (fits m) as Hf by (unfold fits, kMaxMessageLen; lia). rewrite send_frame by done.
  unfold kChecksumLen in Hl. assert (length (frame_of false m) = (length (body m) + 8)%nat) as Hfl.
  { unfold frame_of. rewrite !length_app, be4_length, length_le_split. lia. }
  destruct (append_has b (frame_of false m)) as (b' & -> & [Hb' Hv' _]); [done| |lia|].
  { unfold frame_of. rewrite !Forall_app. split_and!; [apply be4_bytes|by apply body_bytes|apply le_split_bytes]. }
  exists b'. split_and!; [done..|]. rewrite Hv in Hv'. cbn [app] in Hv'.
  assert (zlen tag_ ≤ zlen (body m)) as Htl by (unfold ProtobufCodec.body; rewrite length_app; lia).
  unfold onMessage. cbn [onMessage_loop]. rewrite min_eq, <- length_readable, Hv' by done.
  rewrite (proj2 (Z.leb_le _ _)) by lia. unfold buf_peekInt32, peekInt32.
  rewrite assert_true by (apply Z.leb_le; rewrite <- length_readable, Hv' by done; lia). orun.
  rewrite (peekBytes_eq b' 4) by (rewrite ?Hv'; done || lia). orun. rewrite Hv'. unfold frame_of.
  rewrite (ztake_app 4 (be4 _)) by (by rewrite be4_length). rewrite kMin_eq.
  destruct (length_swapped (zlen (body m) + kChecksumLen)) as [H|H]; [unfold kChecksumLen; lia| |].
  - by rewrite (proj2 (Z.ltb_lt _ _)) by done.
  - rewrite (proj2 (Z.ltb_lt _ (zlen tag_ + 4))) by lia. by rewrite orb_true_r.
Qed.
End correct.
End ProtobufCodec.

(** ** Witnesses *)

Module ProtobufSample.
Import ProtobufCodec.

(** Messages of bits, as text. *)
Definition text (m : list bool) : bytes := (λ x : bool, if x then 49 else 48) <$> m.
Definition read (l : bytes) : option (list bool) := Some ((λ c, c =? 49) <$> l).

(** The checksum of RFC 1950. *)
Definition adler (l : bytes) : Z :=
  let '(a, b) := foldl (λ ab x, let a := (ab.1 + x) mod 65521 in (a, (ab.2 + a) mod 65521)) (1, 0) l in b * 65536 + a.

Lemma text_bytes m : Forall_byte (text m).
Proof. induction m as [|[] m IH]; constructor; done. Qed.

Lemma read_text m : read (text m) = Some m.
Proof.
  unfold read, text. f_equal. rewrite <- list_fmap_compose. transitivity (id <$> m); [|apply list_fmap_id].
  apply list_fmap_ext. by intros i [].
Qed.

Definition tag : bytes := str "RPC0".
Definition empty : Buffer := mkBuffer (replicate 1032 0) 8 8.
Definition sent : bytes := frame text adler tag [true] ++ frame text adler tag [false; true].

Lemma empty_wf : wf empty.
Proof. apply (bool_decide_unpack _). by vm_compute. Qed.

(** Two messages, the last byte of which has not arrived. *)
Lemma codec_stream_witness : ∃ b',
  receive read adler true tag None empty [(1, ztake 10 sent); (2, ztake 15 (zdrop 10 sent))] = Ret ([Message [true]], b').
Proof.
  destruct (codec_stream text read adler tag (str_bytes _) text_bytes ltac:(by vm_compute) None ltac:(done) read_text
    [[true]; [false; true]] [frame text adler tag [true]; frame text adler tag [false; true]]
    [(1, ztake 10 sent); (2, ztake 15 (zdrop 10 sent))] (zdrop 25 sent) empty) as (b' & H & _).
  - repeat constructor; by vm_compute.
  - repeat constructor; by vm_compute.
  - by vm_compute.
  - apply empty_wf.
  - by vm_compute.
  - repeat constructor; by vm_compute.
  - by vm_compute.
  - exists b'. exact H.
Defined.

Lemma codec_total_witness : ∃ ms err b' pre,
  onMessage read adler false tag None empty 3 = Ret ((Message <$> ms) ++ option_list (Error <$> err), b') ∧
  wf b' ∧ readable empty = pre ++ readable b' ∧ Forall (genuine read adler tag (readable empty)) ms.
Proof. apply codec_total; [by vm_compute|apply empty_wf]. Defined.

Lemma own_messages_rejected_witness : ∃ d b', send text adler false tag [true; false] = Ret d ∧ append empty d = Ret b' ∧
  onMessage read adler false tag None b' 3 = Ret ([Error kInvalidLength], b').
Proof.
  apply own_messages_rejected.
  - apply str_bytes.
  - apply text_bytes.
  - by vm_compute.
  - by vm_compute.
  - apply empty_wf.
  - by vm_compute.
  - by vm_compute.
Defined.
End ProtobufSample.
