(* ===== verification/RpcChannel.v ===== *)
(** * RpcChannel: remote calls (src/muduo-vip/muduo/net/protorpc/RpcChannel.{h,cc}, RpcServer.cc)

    The two sides of a remote procedure call, as operations on a channel, and their
    composition: a client and a server whose channels are joined by two queues of messages.
    That the codec carries messages in order is shown in ProtobufCodec.  The messages are
    those of rpc.proto, of which requests and responses are bytes; the services are
    parameters: which methods they have, which requests they can parse, and what they
    answer.  A service may answer a call at any later time, and in any order. *)

From S2P Require Import Prelude.

Module RpcChannel.

(** ** Messages (rpc.proto) *)

Inductive MessageType : Type := REQUEST | RESPONSE | ERROR.
Inductive ErrorCode : Type :=
| NO_ERROR | WRONG_PROTO | NO_SERVICE | NO_METHOD | INVALID_REQUEST | INVALID_RESPONSE | TIMEOUT.
#[export] Instance MessageType_eq_dec : EqDecision MessageType.
Proof. solve_decision. Defined.
#[export] Instance ErrorCode_eq_dec : EqDecision ErrorCode.
Proof. solve_decision. Defined.

Record RpcMessage : Type := mkMessage {
  type : MessageType;
  id : Z;
  service : bytes;
  method : bytes;
  request : bytes;
  response : bytes;
  error : ErrorCode;
}.

(** A service: its methods, and the requests each of them can parse. *)
Record Service : Type := mkService { FindMethodByName : bytes → bool; ParseRequest : bytes → bytes → bool }.

(** [response] and [done] of a call are pointers; the objects have numbers. *)
Record OutstandingCall : Type := mkOut { out_response : option nat; out_done : option nat }.

Record Channel : Type := mkChannel {
  conn_ : nat;
  id_ : Z;
  outstandings_ : gmap Z OutstandingCall;
  services_ : option (gmap bytes Service);
}.

Definition RpcChannel_ctor (conn : nat) : Channel := mkChannel conn 0 ∅ None.
Definition setServices (ch : Channel) (services : gmap bytes Service) : Channel :=
  mkChannel (conn_ ch) (id_ ch) (outstandings_ ch) (Some services).

(** What an operation does outside of the channel: [codec_.send], [service->CallMethod] with
    a closure for the answer, the response parsed into the object of a call, and [done->Run]. *)
Inductive action : Type :=
| Send (message : RpcMessage)
| CallService (id : Z) (service method request : bytes)
| ParseResponse (object : nat) (text : bytes)
| RunDone (closure : nat).

(** ** Operations *)

(** The mutex is held while the map changes; the channel is returned with the message sent. *)
Definition CallMethod (ch : Channel) (svc mth req : bytes) (response done : option nat) : Channel * list action :=
  let i := s64 (id_ ch + 1) in
  let message := mkMessage REQUEST (u64 i) svc mth req [] NO_ERROR in
  (mkChannel (conn_ ch) i (<[i := mkOut response done]> (outstandings_ ch)) (services_ ch), [Send message]).

Definition doneCallback (response : bytes) (i : Z) : list action :=
  [Send (mkMessage RESPONSE (u64 i) [] [] [] response NO_ERROR)].

(** The branch for requests: an error, or the call of the service. *)
Definition find_method (services : option (gmap bytes Service)) (svc mth req : bytes) : ErrorCode :=
  match services with
  | Some services =>
      match services !! svc with
      | Some s =>
          if FindMethodByName s mth then if ParseRequest s mth req then NO_ERROR else INVALID_REQUEST
          else NO_METHOD
      | None => NO_SERVICE
      end
  | None => NO_SERVICE
  end.

Definition onRpcMessage (ch : Channel) (conn : nat) (message : RpcMessage) : outcome (Channel * list action) :=
  assert (bool_decide (conn = conn_ ch)) ;;
  match type message with
  | RESPONSE =>
      let i := s64 (id message) in
      match outstandings_ ch !! i with
      | Some out =>
          let ch := mkChannel (conn_ ch) (id_ ch) (delete i (outstandings_ ch)) (services_ ch) in
          match out_response out with
          | Some object =>
              Ret (ch, ParseResponse object (response message) ::
                         match out_done out with Some closure => [RunDone closure] | None => [] end)
          | None => Ret (ch, [])
          end
      | None => Ret (ch, [])
      end
  | REQUEST =>
      match find_method (services_ ch) (service message) (method message) (request message) with
      | NO_ERROR => Ret (ch, [CallService (s64 (id message)) (service message) (method message) (request message)])
      | e => Ret (ch, [Send (mkMessage RESPONSE (id message) [] [] [] [] e)])
      end
  | ERROR => Ret (ch, [])
  end.

(** The destructor: the objects that it deletes. *)
Definition RpcChannel_dtor (ch : Channel) : list (option nat * option nat) :=
  (λ x, (out_response x.2, out_done x.2)) <$> map_to_list (outstandings_ ch).

(** ** A client and a server *)

(** Call [n] of the client has the response object and the closure with the number [n]. *)
Record World : Type := mkWorld {
  client : Channel;
  (** [None] after RpcServer::onConnection has released it *)
  server : option Channel;
  to_server : list RpcMessage;
  to_client : list RpcMessage;
  (** calls that services work on: the closure's id, service, method and request *)
  working : list (Z * (bytes * bytes * bytes));
  (** the calls made, and the response objects with the closures that have run *)
  made : list (bytes * bytes * bytes);
  objects : gmap nat bytes;
  ran : list nat;
}.

Inductive event : Type :=
| ECall (svc mth req : bytes)
| EServer
| EAnswer (j : nat)
| EClient
| EDown.

Section system.
(** What the services answer. *)
Variable answer : bytes → bytes → bytes → bytes.

Fixpoint server_does (w : World) (acts : list action) : World :=
  match acts with
  | [] => w
  | Send m :: acts =>
      server_does (mkWorld (client w) (server w) (to_server w) (to_client w ++ [m]) (working w) (made w) (objects w) (ran w)) acts
  | CallService i s m r :: acts =>
      server_does (mkWorld (client w) (server w) (to_server w) (to_client w) (working w ++ [(i, (s, m, r))])
                     (made w) (objects w) (ran w)) acts
  | _ :: acts => server_does w acts
  end.

Fixpoint client_does (w : World) (acts : list action) : World :=
  match acts with
  | [] => w
  | Send m :: acts =>
      client_does (mkWorld (client w) (server w) (to_server w ++ [m]) (to_client w) (working w) (made w) (objects w) (ran w)) acts
  | ParseResponse o text :: acts =>
      client_does (mkWorld (client w) (server w) (to_server w) (to_client w) (working w) (made w)
                     (<[o := text]> (objects w)) (ran w)) acts
  | RunDone c :: acts =>
      client_does (mkWorld (client w) (server w) (to_server w) (to_client w) (working w) (made w) (objects w) (ran w ++ [c])) acts
  | CallService _ _ _ _ :: acts => client_does w acts
  end.

(** [None]: the event cannot happen. *)
Definition step (w : World) (ev : event) : option (outcome World) :=
  match ev with
  | ECall svc mth req =>
      let n := length (made w) in
      let '(ch, acts) := CallMethod (client w) svc mth req (Some n) (Some n) in
      Some (Ret (client_does (mkWorld ch (server w) (to_server w) (to_client w) (working w)
                                (made w ++ [(svc, mth, req)]) (objects w) (ran w)) acts))
  | EServer =>
      match server w, to_server w with
      | Some ch, m :: rest => Some (
          '(ch, acts) ← onRpcMessage ch 1 m;
          Ret (server_does (mkWorld (client w) (Some ch) rest (to_client w) (working w) (made w) (objects w) (ran w)) acts))
      | _, _ => None
      end
  | EAnswer j =>
      match working w !! j with
      | Some (i, (s, m, r)) =>
          let w := mkWorld (client w) (server w) (to_server w) (to_client w) (delete j (working w)) (made w) (objects w) (ran w) in
          match server w with
          | Some _ => Some (Ret (server_does w (doneCallback (answer s m r) i)))
          | None => Some (Abort UseAfterFree)
          end
      | None => None
      end
  | EClient =>
      match to_client w with
      | m :: rest => Some (
          '(ch, acts) ← onRpcMessage (client w) 0 m;
          Ret (client_does (mkWorld ch (server w) (to_server w) rest (working w) (made w) (objects w) (ran w)) acts))
      | [] => None
      end
  | EDown => Some (Ret (mkWorld (client w) None (to_server w) (to_client w) (working w) (made w) (objects w) (ran w)))
  end.

Definition World_ctor (services : gmap bytes Service) : World :=
  mkWorld (RpcChannel_ctor 0) (Some (setServices (RpcChannel_ctor 1) services)) [] [] [] [] ∅ [].

(** ** What a call promises *)

Variable services : gmap bytes Service.

Notation call := (bytes * bytes * bytes)%type.
Definition no_call : call := ([], [], []).
Definition verdict (c : call) : ErrorCode := find_method (Some services) c.1.1 c.1.2 c.2.

(** What ends up in the response object: nothing, when there is no such method. *)
Definition result (c : call) : bytes :=
  if bool_decide (verdict c = NO_ERROR) then answer c.1.1 c.1.2 c.2 else [].

Definition request_of (cs : list call) (k : nat) : RpcMessage :=
  let c := nth k cs no_call in mkMessage REQUEST (u64 (Z.of_nat k + 1)) c.1.1 c.1.2 c.2 [] NO_ERROR.
Definition response_of (cs : list call) (k : nat) : RpcMessage :=
  let c := nth k cs no_call in mkMessage RESPONSE (u64 (Z.of_nat k + 1)) [] [] [] (result c) (verdict c).
Definition work_of (cs : list call) (k : nat) : Z * call := (Z.of_nat k + 1, nth k cs no_call).

#[local] Arguments response_of _ _ : simpl never.
#[local] Arguments verdict _ : simpl never.

Lemma response_error cs k e : verdict (nth k cs no_call) = e → e ≠ NO_ERROR →
  response_of cs k = mkMessage RESPONSE (u64 (Z.of_nat k + 1)) [] [] [] [] e.
Proof using Type. intros He Hne. unfold response_of, result. by rewrite He, bool_decide_false. Qed.

Lemma response_ok cs k s m r : nth k cs no_call = (s, m, r) → verdict (s, m, r) = NO_ERROR →
  response_of cs k = mkMessage RESPONSE (u64 (Z.of_nat k + 1)) [] [] [] (answer s m r) NO_ERROR.
Proof using Type. intros Hc He. unfold response_of, result. by rewrite Hc, He, bool_decide_true. Qed.

(** The calls that are on their way ([ks]), being worked on ([ps]) and answered ([rs]). *)
Record parts (w : World) (ks ps rs : list nat) : Prop := Parts {
  pt_bound : Z.of_nat (length (made w)) < 2 ^ 63 - 1;
  pt_client : conn_ (client w) = 0%nat ∧ id_ (client w) = Z.of_nat (length (made w));
  pt_server ch : server w = Some ch → conn_ ch = 1%nat ∧ services_ ch = Some services;
  pt_requests : to_server w = request_of (made w) <$> ks;
  pt_working : working w = work_of (made w) <$> ps ∧ Forall (λ k, verdict (nth k (made w) no_call) = NO_ERROR) ps;
  pt_responses : to_client w = response_of (made w) <$> rs;
  pt_all : seq 0 (length (made w)) ≡ₚ ran w ++ ks ++ ps ++ rs;
  pt_outstanding i : outstandings_ (client w) !! i =
    if bool_decide (1 ≤ i ∧ Z.to_nat (i - 1) ∈ ks ++ ps ++ rs)
    then Some (mkOut (Some (Z.to_nat (i - 1))) (Some (Z.to_nat (i - 1)))) else None;
  pt_objects k : k ∈ ran w → objects w !! k = Some (result (nth k (made w) no_call));
}.

Definition Inv (w : World) : Prop := ∃ ks ps rs, parts w ks ps rs.

Lemma u64_id k : 0 ≤ k < 2 ^ 63 - 1 → s64 (u64 (k + 1)) = k + 1 ∧ s64 (k + 1) = k + 1.
Proof using Type.
  intros H. unfold u64, s64, sint. change (64 - 1) with 63. rewrite (Z.mod_small (k + 1)) by lia.
  rewrite Z.mod_small by lia. lia.
Qed.

Lemma in_range w ks ps rs k : parts w ks ps rs → k ∈ ran w ++ ks ++ ps ++ rs → (k < length (made w))%nat.
Proof using Type. intros [] Hk. rewrite <- pt_all0 in Hk. apply elem_of_seq in Hk. lia. Qed.

Lemma rpc_inv_start : Inv (World_ctor services).
Proof using Type.
  exists [], [], []. split; cbn; try done; [by intros ? [= <-]| |intros k; set_solver]. intros i. rewrite lookup_empty, bool_decide_false; [done|].
  intros [_ ?]. set_solver.
Qed.

(** A new call. *)
Lemma call_parts w ks ps rs s m r : parts w ks ps rs → Z.of_nat (length (made w)) + 1 < 2 ^ 63 - 1 →
  ∃ w', step w (ECall s m r) = Some (Ret w') ∧ parts w' (ks ++ [length (made w)]) ps rs.
Proof using Type.
  intros HP Hb. pose proof HP as [H1 [H2 H2'] H3 H4 [H5 H5'] H6 H7 H8 H9].
  assert (∀ k, k ∈ ran w ++ ks ++ ps ++ rs → nth k (made w ++ [(s, m, r)]) no_call = nth k (made w) no_call) as Hn.
  { intros k Hk. apply app_nth1. by eapply in_range. }
  destruct (u64_id (Z.of_nat (length (made w)))) as [_ Hid]; [lia|].
  eexists. cbn [step CallMethod client_does]. split; [done|]. rewrite H2', Hid. split; cbn.
  - rewrite length_app. cbn. lia.
  - rewrite length_app. cbn. split; [done|lia].
  - done.
  - rewrite fmap_app, H4. cbn. f_equal.
    + apply list_fmap_ext. intros i k Hk%list_elem_of_lookup_2. unfold request_of. rewrite Hn by set_solver. done.
    + unfold request_of. by rewrite nth_middle.
  - split.
    + rewrite H5. apply list_fmap_ext. intros i k Hk%list_elem_of_lookup_2. unfold work_of. by rewrite Hn by set_solver.
    + apply Forall_forall. intros k Hk. rewrite Hn by set_solver. by eapply Forall_forall in H5'.
  - rewrite H6. apply list_fmap_ext. intros i k Hk%list_elem_of_lookup_2. unfold response_of. by rewrite Hn by set_solver.
  - rewrite length_app, seq_app, H7. cbn. rewrite <- !app_assoc. apply Permutation_app_head, Permutation_app_head.
    rewrite (assoc_L (++)). by rewrite Permutation_app_comm.
  - intros i. destruct (decide (i = Z.of_nat (length (made w)) + 1)) as [->|Hne].
    + rewrite lookup_insert_eq, bool_decide_true; [by replace (Z.to_nat _) with (length (made w)) by lia|].
      split; [lia|]. replace (Z.to_nat _) with (length (made w)) by lia. set_solver.
    + rewrite lookup_insert_ne, H8 by done. apply (f_equal (λ b : bool, if b then _ else _)), bool_decide_ext.
      split; intros [Hi Hin]; (split; [done|]); [set_solver|].
      rewrite !elem_of_app in Hin. rewrite !elem_of_app. rewrite list_elem_of_singleton in Hin.
      assert (Z.to_nat (i - 1) ≠ length (made w)) by lia. tauto.
  - intros k Hk. rewrite Hn by set_solver. by apply H9.
Qed.

(** A call that moves on is still outstanding. *)
Lemma outstanding_moves (l l' : list nat) (out : OutstandingCall) i : l ≡ₚ l' →
  (if bool_decide (1 ≤ i ∧ Z.to_nat (i - 1) ∈ l) then Some out else None) =
  (if bool_decide (1 ≤ i ∧ Z.to_nat (i - 1) ∈ l') then Some out else None).
Proof using Type. intros Hl. apply (f_equal (λ b : bool, if b then _ else _)), bool_decide_ext. by rewrite Hl. Qed.

Lemma to_work (k : nat) ks ps rs : k :: ks ++ ps ++ rs ≡ₚ ks ++ (ps ++ [k]) ++ rs.
Proof using Type. rewrite <- app_assoc. cbn. rewrite !(app_assoc ks ps). apply Permutation_middle. Qed.

Lemma to_answer (k : nat) ks ps rs : k :: ks ++ ps ++ rs ≡ₚ ks ++ ps ++ rs ++ [k].
Proof using Type. by rewrite Permutation_cons_append, <- !app_assoc. Qed.

(** The server reads a request. *)
Lemma server_parts w k ks ps rs : parts w (k :: ks) ps rs → is_Some (server w) →
  ∃ w', step w EServer = Some (Ret w') ∧ made w' = made w ∧ is_Some (server w') ∧ (parts w' ks (ps ++ [k]) rs ∨ parts w' ks ps (rs ++ [k])).
Proof using Type.
  intros HP [ch H3]. pose proof HP as [H1 [H2 H2'] H3' H4 [H5 H5'] H6 H7 H8 H9]. destruct (H3' ch H3) as [H3a H3b].
  assert (k < length (made w))%nat as Hk by (eapply in_range; [done|set_solver]).
  destruct (u64_id (Z.of_nat k)) as [Hid _]; [lia|].
  cbn [step]. rewrite H3, H4. cbn [fmap list_fmap]. unfold onRpcMessage. rewrite H3a.
  rewrite assert_true by done. orun. cbn [type request_of id service method request]. rewrite H3b, Hid.
  change (find_method (Some services) _ _ _) with (verdict (nth k (made w) no_call)).
  destruct (verdict (nth k (made w) no_call)) eqn:Hv; orun; cbn [server_does].
  1: { eexists. split; [done|]. split; [done|]. split; [done|]. left. split; cbn; try done.
    - by intros ? [= <-].
    - split; [|apply Forall_app; by repeat constructor]. rewrite fmap_app, H5. unfold work_of at 3. cbn.
      by destruct (nth k (made w) no_call) as [[? ?] ?].
    - rewrite H7. apply Permutation_app_head. apply to_work.
    - intros i. rewrite H8. apply outstanding_moves, to_work. }
  all: eexists; (split; [done|]); (split; [done|]); (split; [done|]); right; (split; cbn; try done);
    [by intros ? [= <-]
    |rewrite fmap_app, H6; cbn [fmap list_fmap]; by rewrite (response_error _ k _ Hv)
    |rewrite H7; apply Permutation_app_head, to_answer
    |intros i; rewrite H8; apply outstanding_moves, to_answer].
Qed.

(** A service answers, whichever of its calls it likes. *)
Lemma answer_parts w ks ps rs j k : parts w ks ps rs → ps !! j = Some k → is_Some (server w) →
  ∃ w', step w (EAnswer j) = Some (Ret w') ∧ made w' = made w ∧ is_Some (server w') ∧ parts w' ks (delete j ps) (rs ++ [k]).
Proof using Type.
  intros HP Hj [ch H3]. pose proof HP as [H1 [H2 H2'] H3' H4 [H5 H5'] H6 H7 H8 H9].
  assert (ks ++ ps ++ rs ≡ₚ ks ++ delete j ps ++ rs ++ [k]) as Hperm.
  { rewrite (delete_Permutation ps j k Hj) at 1. cbn. rewrite <- (Permutation_middle ks). apply to_answer. }
  cbn [step]. rewrite H5, list_lookup_fmap, Hj. cbn. destruct (nth k (made w) no_call) as [[s m] r] eqn:Hc.
  rewrite H3. eexists. split; [done|]. split; [done|]. split; [done|]. split; cbn; try done.
  - intros ch' Hch'. apply H3'. by rewrite H3.
  - split; [|by apply Forall_delete]. by rewrite list_fmap_delete.
  - rewrite fmap_app, H6. cbn [fmap list_fmap]. rewrite (response_ok _ k s m r Hc); [done|].
    rewrite <- Hc. by eapply Forall_lookup_1 in H5'.
  - by rewrite H7, Hperm.
  - intros i. rewrite H8. by apply outstanding_moves.
Qed.

(** The client reads a response. *)
Lemma client_parts w k ks ps rs : parts w ks ps (k :: rs) →
  ∃ w', step w EClient = Some (Ret w') ∧ made w' = made w ∧ server w' = server w ∧ parts w' ks ps rs.
Proof using Type.
  intros HP. pose proof HP as [H1 [H2 H2'] H3 H4 H5 H6 H7 H8 H9].
  assert (ks ++ ps ++ k :: rs ≡ₚ k :: ks ++ ps ++ rs) as Hperm by (rewrite !(app_assoc ks ps); symmetry; apply Permutation_middle).
  assert (k < length (made w))%nat as Hk by (eapply in_range; [done|set_solver]).
  destruct (u64_id (Z.of_nat k)) as [Hid _]; [lia|].
  assert (NoDup (ran w ++ k :: ks ++ ps ++ rs)) as Hnd by (rewrite <- Hperm, <- H7; apply NoDup_seq).
  apply NoDup_app in Hnd as (_ & Hdis & Hnd). apply NoDup_cons in Hnd as [Hkn _].
  cbn [step]. rewrite H6. cbn [fmap list_fmap]. unfold onRpcMessage. rewrite H2, assert_true by done. orun.
  change (type (response_of (made w) k)) with RESPONSE. change (id (response_of (made w) k)) with (u64 (Z.of_nat k + 1)).
  change (response (response_of (made w) k)) with (result (nth k (made w) no_call)). cbv iota. rewrite Hid, H8, bool_decide_true.
  2: { split; [lia|]. replace (Z.to_nat _) with k by lia. set_solver. }
  cbn [out_response out_done]. replace (Z.to_nat (Z.of_nat k + 1 - 1)) with k by lia. orun. cbn [client_does].
  eexists. split; [done|]. split; [done|]. split; [done|]. split; cbn; try done.
  - rewrite H7, Hperm. by rewrite <- app_assoc.
  - intros i. destruct (decide (i = Z.of_nat k + 1)) as [->|Hne].
    + rewrite lookup_delete_eq, bool_decide_false; [done|]. replace (Z.to_nat _) with k by lia. tauto.
    + rewrite lookup_delete_ne, H8 by done. apply (f_equal (λ b : bool, if b then _ else _)), bool_decide_ext.
      rewrite Hperm, elem_of_cons. assert (1 ≤ i → Z.to_nat (i - 1) ≠ k) by lia. tauto.
  - intros k' [Hk'| ->%list_elem_of_singleton]%elem_of_app; [|by rewrite lookup_insert_eq].
    rewrite lookup_insert_ne; [by apply H9|]. intros <-. apply (Hdis k Hk'). set_solver.
Qed.

(** ** Runs *)

(** The connection goes down. *)
Lemma down_parts w ks ps rs : parts w ks ps rs →
  parts (mkWorld (client w) None (to_server w) (to_client w) (working w) (made w) (objects w) (ran w)) ks ps rs.
Proof using Type. intros []. by split. Qed.

(** The ids do not run out. *)
Definition event_ok (w : World) (ev : event) : Prop :=
  match ev with
  | ECall _ _ _ => Z.of_nat (length (made w)) + 1 < 2 ^ 63 - 1
  | _ => True
  end.

Inductive reachable : World → Prop :=
| reachable_start : reachable (World_ctor services)
| reachable_step w ev w' : reachable w → event_ok w ev → step w ev = Some (Ret w') → reachable w'.

(** A service that answers after the connection went down calls a channel that is gone. *)
Definition late_answer (w : World) (ev : event) : Prop :=
  match ev with EAnswer _ => server w = None | _ => False end.

Lemma rpc_step_inv w ev r : Inv w → event_ok w ev → step w ev = Some r →
  (∃ w', r = Ret w' ∧ Inv w') ∨ late_answer w ev ∧ r = Abort UseAfterFree.
Proof using Type.
  intros (ks & ps & rs & HP) Hok Hs. destruct ev as [s m req| |j| |]; cbn [event_ok late_answer] in *.
  - destruct (call_parts w ks ps rs s m req HP Hok) as (w' & E & HP'). rewrite E in Hs. injection Hs as <-.
    left. exists w'. split; [done|]. by do 3 eexists.
  - destruct (server w) as [ch|] eqn:Hch; [|cbn [step] in Hs; by rewrite Hch in Hs]. destruct ks as [|k ks].
    { cbn [step] in Hs. destruct HP as [_ _ _ E2 _ _ _ _ _]. by rewrite Hch, E2 in Hs. }
    destruct (server_parts w k ks ps rs HP (mk_is_Some _ _ Hch)) as (w' & E & _ & _ & HP'). rewrite E in Hs. injection Hs as <-.
    left. exists w'. split; [done|]. destruct HP'; by do 3 eexists.
  - destruct (ps !! j) as [k|] eqn:Hj.
    + destruct (server w) as [ch|] eqn:Hch.
      * destruct (answer_parts w ks ps rs j k HP Hj (mk_is_Some _ _ Hch)) as (w' & E & _ & _ & HP'). rewrite E in Hs. injection Hs as <-.
        left. exists w'. split; [done|]. by do 3 eexists.
      * right. split; [done|]. cbn [step] in Hs. destruct (working w !! j) as [[i [[s m] q]]|]; [|done].
        cbn in Hs. rewrite Hch in Hs. by injection Hs.
    + cbn [step] in Hs. destruct HP as [_ _ _ _ [E _] _ _ _ _]. by rewrite E, list_lookup_fmap, Hj in Hs.
  - destruct rs as [|k rs].
    { cbn [step] in Hs. destruct HP as [_ _ _ _ _ E _ _ _]. by rewrite E in Hs. }
    destruct (client_parts w k ks ps rs HP) as (w' & E & _ & _ & HP'). rewrite E in Hs. injection Hs as <-.
    left. exists w'. split; [done|]. by do 3 eexists.
  - injection Hs as <-. left. eexists. split; [done|]. exists ks, ps, rs. by apply down_parts.
Qed.

Lemma rpc_reachable_inv w : reachable w → Inv w.
Proof using Type.
  induction 1 as [|w ev w' _ IH Hok Hs]; [apply rpc_inv_start|].
  by destruct (rpc_step_inv w ev _ IH Hok Hs) as [(w2 & [= ->] & ?)|[_ ?]].
Qed.

(** The number of a call, from the id of its messages. *)
Definition call_of (i : Z) : nat := Z.to_nat (i - 1).

Lemma parts_calls w ks ps rs : parts w ks ps rs →
  call_of ∘ id <$> to_server w = ks ∧ call_of ∘ fst <$> working w = ps ∧ call_of ∘ id <$> to_client w = rs.
Proof using Type.
  intros HP. pose proof HP as [H1 _ _ H4 [H5 _] H6 _ _ _]. rewrite H4, H5, H6.
  assert (∀ k, k ∈ ran w ++ ks ++ ps ++ rs → call_of (u64 (Z.of_nat k + 1)) = k) as Hu.
  { intros k Hk. apply (in_range _ _ _ _ _ HP) in Hk. unfold call_of, u64. rewrite Z.mod_small by lia. lia. }
  assert (∀ (l : list nat) {A} (g : A → nat) (h : nat → A), (∀ k, k ∈ l → g (h k) = k) → g <$> (h <$> l) = l) as Hmap.
  { intros l A g h Hl. induction l as [|k l IH]; [done|]. cbn. f_equal; [apply Hl; set_solver|].
    apply IH. intros. apply Hl. set_solver. }
  split_and!; apply Hmap; intros k Hk.
  - apply Hu. set_solver.
  - unfold call_of. cbn. lia.
  - apply Hu. set_solver.
Qed.


(** Events without new calls. *)
Fixpoint run (w : World) (evs : list event) : option World :=
  match evs with
  | [] => Some w
  | ev :: evs =>
      match ev, step w ev with
      | (EServer | EAnswer _ | EClient), Some (Ret w') => run w' evs
      | _, _ => None
      end
  end.

Lemma parts_drain n w ks ps rs : parts w ks ps rs → is_Some (server w) → (3 * length ks + 2 * length ps + length rs ≤ n)%nat →
  ∃ evs w', run w evs = Some w' ∧ made w' = made w ∧ parts w' [] [] [].
Proof using Type.
  revert w ks ps rs. induction n as [|n IH]; intros w ks ps rs HP Hup Hn.
  { destruct ks, ps, rs; cbn in Hn; try lia. by exists [], w. }
  destruct ks as [|k ks].
  - destruct ps as [|p ps]; [destruct rs as [|r rs]; [by exists [], w|]|].
    + destruct (client_parts w r [] [] rs HP) as (w1 & E1 & M1 & S1 & HP1). cbn in Hn.
      destruct (IH w1 [] [] rs HP1) as (evs & w' & ? & ? & ?); [by rewrite S1|cbn; lia|]. exists (EClient :: evs), w'. cbn [run]. rewrite E1.
      split_and!; [done|congruence|done].
    + destruct (answer_parts w [] (p :: ps) rs 0 p HP eq_refl Hup) as (w1 & E1 & M1 & S1 & HP1). cbn in Hn.
      destruct (IH w1 [] ps (rs ++ [p]) HP1 S1) as (evs & w' & ? & ? & ?); [rewrite length_app; cbn; lia|].
      exists (EAnswer 0 :: evs), w'. cbn [run]. rewrite E1. split_and!; [done|congruence|done].
  - destruct (server_parts w k ks ps rs HP Hup) as (w1 & E1 & M1 & S1 & [HP1|HP1]); cbn in Hn;
      destruct (IH _ _ _ _ HP1 S1) as (evs & w' & ? & ? & ?); try (rewrite length_app; cbn; lia);
      exists (EServer :: evs), w'; cbn [run]; rewrite E1; (split_and!; [done|congruence|done]).
Qed.

(** C26: every call can be finished while the connection is up: from every state that a run
    reaches and in which the connection has not gone down, steps of the server, its services
    and the client alone lead to a state in which the closures of all calls that were made
    have run. *)
Theorem rpc_calls_finish w : reachable w → is_Some (server w) →
  ∃ evs w', run w evs = Some w' ∧ made w' = made w ∧ ran w' ≡ₚ seq 0 (length (made w)).
Proof using Type.
  intros (ks & ps & rs & HP)%rpc_reachable_inv Hup.
  destruct (parts_drain _ w ks ps rs HP Hup (le_n _)) as (evs & w' & H1 & H2 & H3).
  exists evs, w'. split_and!; [done..|]. rewrite <- H2, (pt_all _ _ _ _ H3). by rewrite !app_nil_r.
Qed.

(** The error code of a response is not looked at. *)
Lemma error_code_ignored ch conn i text e e' :
  onRpcMessage ch conn (mkMessage RESPONSE i [] [] [] text e) = onRpcMessage ch conn (mkMessage RESPONSE i [] [] [] text e').
Proof using Type. done. Qed.

(** A service that answers after the connection went down calls a channel that is gone. *)
Lemma late_answer_uses_freed_channel w j x : working w !! j = Some x →
  ∃ w', step w EDown = Some (Ret w') ∧ step w' (EAnswer j) = Some (Abort UseAfterFree).
Proof using Type. intros Hj. eexists. split; [done|]. cbn. rewrite Hj. by destruct x as [i [[s m] r]]. Qed.
End system.
End RpcChannel.

(** ** Witnesses *)

Module RpcSample.
Import RpcChannel.

Definition echo (s m r : bytes) : bytes := r.
Definition services : gmap bytes Service :=
  {[ str "Echo" := mkService (λ m, bool_decide (m = str "echo")) (λ _ _, true) ]}.

Definition returns (w : World) (ev : event) : bool := match step echo w ev with Some (Ret _) => true | _ => false end.
Definition after (w : World) (ev : event) : World := match step echo w ev with Some (Ret w') => w' | _ => w end.

Lemma rpc_after_reachable w ev : reachable echo services w → event_ok w ev → returns w ev = true →
  reachable echo services (after w ev).
Proof.
  intros Hw Hok. unfold returns, after. destruct (step echo w ev) as [[w'|]|] eqn:Hs; try done.
  intros _. by eapply reachable_step.
Qed.

(** Two calls, one of which the server has seen. *)
Definition called : World := after (World_ctor services) (ECall (str "Echo") (str "echo") (str "a")).
Definition called_twice : World := after called (ECall (str "Echo") (str "none") (str "b")).
Definition busy : World := after called_twice EServer.

Lemma busy_reachable : reachable echo services busy.
Proof. repeat (apply rpc_after_reachable; [|by vm_compute..]). constructor. Qed.


Lemma rpc_calls_finish_witness : ∃ evs w', run echo busy evs = Some w' ∧ ran w' ≡ₚ [0; 1]%nat.
Proof.
  destruct (rpc_calls_finish echo services busy busy_reachable) as (evs & w' & H1 & _ & H2); [by eexists|].
  exists evs, w'. split; [exact H1|exact H2].
Defined.
End RpcSample.
