(* ===== verification/TcpClient.v ===== *)
(** * TcpClient: a client with its connector and its connection
    (src/muduo-vip/muduo/net/TcpClient.{h,cc})

    A client owns a connector, which makes sockets, and at most one connection, which
    lives in a loop of the pool.  The world below is the client with the queue of
    functors of its loop, the connector of [Connector] and all connections it has made.
    Connections are shared: [use_count] counts who refers to one, and a connection
    nobody refers to is destroyed ([sweep]).  A connection is its state, what is queued
    for it in its own loop and its close callback; data is the subject of
    [TcpConnection].  The connection callback makes no call that closes its connection
    before it returns. *)

From S2P Require Import Prelude SocketIO Channel LogStream TcpConnection Connector TcpServer.

Module TcpClient.

Module K := Connector.
Notation CConnector := K.Connector.

(** ** Connections *)

(** Functors of a connection in its loop, and its close callback: the client's, or
    the one [removeAllInLoop] leaves. *)
Inductive conn_functor : Type := FConnectEstablished | FConnectDestroyed | FForceCloseInLoop.
Inductive close_callback : Type := ClientRemoves | DetailRemoves.

Record Conn : Type := mkConn {
  c_name : bytes;
  c_fd : Z;
  c_loop : Z;
  c_state : TcpConnection.StateE;
  c_queue : list conn_functor;
  c_registered : bool;
  c_callback : close_callback;
  c_user : bool;
  c_freed : bool;
}.

Definition conn_set (c : Conn) (s : TcpConnection.StateE) (q : list conn_functor) (r : bool) : Conn :=
  mkConn (c_name c) (c_fd c) (c_loop c) s q r (c_callback c) (c_user c) (c_freed c).
Definition conn_user (c : Conn) (u : bool) : Conn :=
  mkConn (c_name c) (c_fd c) (c_loop c) (c_state c) (c_queue c) (c_registered c) (c_callback c) u (c_freed c).
Definition conn_free (c : Conn) : Conn :=
  mkConn (c_name c) (c_fd c) (c_loop c) (c_state c) (c_queue c) (c_registered c) (c_callback c) (c_user c) true.

Definition setCloseCallback (c : Conn) (cb : close_callback) : Conn :=
  mkConn (c_name c) (c_fd c) (c_loop c) (c_state c) (c_queue c) (c_registered c) cb (c_user c) (c_freed c).

Definition is_open (c : Conn) : bool :=
  TcpConnection.is_state (c_state c) TcpConnection.kConnected ||
  TcpConnection.is_state (c_state c) TcpConnection.kDisconnecting.

Definition connectEstablished (c : Conn) : outcome Conn :=
  assert (TcpConnection.is_state (c_state c) TcpConnection.kConnecting) ;;
  Ret (conn_set c TcpConnection.kConnected (c_queue c) true).

Definition connectDestroyed (c : Conn) : Conn :=
  conn_set c (if TcpConnection.is_state (c_state c) TcpConnection.kConnected
              then TcpConnection.kDisconnected else c_state c) (c_queue c) false.

Definition shutdown (c : Conn) : Conn :=
  if TcpConnection.is_state (c_state c) TcpConnection.kConnected
  then conn_set c TcpConnection.kDisconnecting (c_queue c) (c_registered c) else c.

Definition forceClose (c : Conn) : Conn :=
  if is_open c
  then conn_set c TcpConnection.kDisconnecting (c_queue c ++ [FForceCloseInLoop]) (c_registered c) else c.

(** [~TcpConnection] and the destructor of its channel. *)
Definition destruct_conn (c : Conn) : outcome Conn :=
  assert (TcpConnection.is_state (c_state c) TcpConnection.kDisconnected) ;;
  assert (negb (c_registered c)) ;;
  Ret (conn_free c).

(** ** The client *)

(** Functors of the client's loop: the next one of the connector, or one of the client. *)
Inductive functor : Type :=
  | QConnector
  | QRestart
  | QDisconnectInLoop
  | QRemoveConnectionInLoop (i : nat)
  | QRemoveAllInLoop (i : option nat).

#[global] Instance functor_eq_dec : EqDecision functor.
Proof. solve_decision. Defined.

(** [alive] says that the client object still exists. *)
Record Client : Type := mkClient {
  alive : bool;
  retry_ : bool;
  connect_ : bool;
  nextConnId_ : Z;
  connection_ : option nat;
  connector_ : CConnector;
  pool : TcpServer.Pool;
  queue : list functor;
  conns : list Conn;
}.

Definition TcpClient_ctor (p : TcpServer.Pool) : Client :=
  mkClient true false true 1 None Connector.Connector_ctor p [] [].

Definition set_alive (w : Client) (b : bool) : Client :=
  mkClient b (retry_ w) (connect_ w) (nextConnId_ w) (connection_ w) (connector_ w) (pool w) (queue w) (conns w).
Definition set_retry (w : Client) (b : bool) : Client :=
  mkClient (alive w) b (connect_ w) (nextConnId_ w) (connection_ w) (connector_ w) (pool w) (queue w) (conns w).
Definition set_connect (w : Client) (b : bool) : Client :=
  mkClient (alive w) (retry_ w) b (nextConnId_ w) (connection_ w) (connector_ w) (pool w) (queue w) (conns w).
Definition set_connection (w : Client) (i : option nat) : Client :=
  mkClient (alive w) (retry_ w) (connect_ w) (nextConnId_ w) i (connector_ w) (pool w) (queue w) (conns w).
Definition set_connector (w : Client) (c : CConnector) : Client :=
  mkClient (alive w) (retry_ w) (connect_ w) (nextConnId_ w) (connection_ w) c (pool w) (queue w) (conns w).
Definition set_queue (w : Client) (q : list functor) : Client :=
  mkClient (alive w) (retry_ w) (connect_ w) (nextConnId_ w) (connection_ w) (connector_ w) (pool w) q (conns w).
Definition set_conns (w : Client) (cs : list Conn) : Client :=
  mkClient (alive w) (retry_ w) (connect_ w) (nextConnId_ w) (connection_ w) (connector_ w) (pool w) (queue w) cs.

Definition queueInLoop (w : Client) (f : functor) : Client := set_queue w (queue w ++ [f]).

(** A call through [this]. *)
Definition on_this (w : Client) : outcome unit := if alive w then Ret tt else Abort UseAfterFree.

Definition conn_at (w : Client) (i : nat) : outcome Conn :=
  match conns w !! i with
  | Some c => if c_freed c then Abort UseAfterFree else Ret c
  | None => Abort NullPointer
  end.
Definition set_conn (w : Client) (i : nat) (c : Conn) : Client := set_conns w (<[i := c]> (conns w)).

(** Who refers to connection [i]: the client, the user, functors of its loop and of
    the client's loop. *)
Definition refers (i : nat) (f : functor) : bool :=
  match f with
  | QRemoveConnectionInLoop j => bool_decide (i = j)
  | QRemoveAllInLoop j => bool_decide (j = Some i)
  | _ => false
  end.
Definition use_count (w : Client) (i : nat) (c : Conn) : nat :=
  (if alive w && bool_decide (connection_ w = Some i) then 1 else 0) +
  (if c_user c then 1 else 0) + length (c_queue c) + length (filter (λ f, refers i f = true) (queue w)).

Definition destroy_unused (w : Client) (i : nat) (c : Conn) : outcome Conn :=
  if c_freed c then Ret c else if (use_count w i c =? 0)%nat then destruct_conn c else Ret c.

Fixpoint sweep_from (w : Client) (i : nat) (cs : list Conn) : outcome (list Conn) :=
  match cs with
  | [] => Ret []
  | c :: cs =>
      c ← destroy_unused w i c;
      cs ← sweep_from w (S i) cs;
      Ret (c :: cs)
  end.
Definition sweep (w : Client) : outcome Client :=
  cs ← sweep_from w 0 (conns w);
  Ret (set_conns w cs).

Section client.
Variables (name_ peer : bytes) (net : nat → Z * Z).

(** [snprintf(buf, sizeof buf, ":%s#%d", ...)] into 32 characters. *)
Definition conn_name (id : Z) : bytes :=
  name_ ++ ztake 31 (str ":" ++ peer ++ str "#" ++ LogStream.decimal id).

(** The set-up runs at once if the connection's loop is the client's, the loop 0. *)
Definition newConnection (w : Client) (sockfd : Z) : outcome Client :=
  on_this w ;;
  '(ioLoop, p) ← TcpServer.getNextLoop (pool w);
  ints [nextConnId_ w + 1] ;;
  let conn := mkConn (conn_name (nextConnId_ w)) sockfd ioLoop TcpConnection.kConnecting [] false ClientRemoves false false in
  conn ← (if ioLoop =? 0 then connectEstablished conn
          else Ret (conn_set conn (c_state conn) [FConnectEstablished] (c_registered conn)));
  Ret (mkClient (alive w) (retry_ w) (connect_ w) (nextConnId_ w + 1) (Some (length (conns w))) (connector_ w) p
         (queue w) (conns w ++ [conn])).

Fixpoint new_connections (w : Client) (fds : list Z) : outcome Client :=
  match fds with
  | [] => Ret w
  | fd :: fds => w ← newConnection w fd; new_connections w fds
  end.

(** After a call of the connector: what it queued is in the queue of the loop, and the
    socket it gave away has become a connection.  [c0] is the connector before. *)
Definition connector_did (w : Client) (c0 c : CConnector) : outcome Client :=
  let w := set_connector w c in
  let w := set_queue w (queue w ++ replicate (length (Connector.pending c) - length (Connector.pending c0)) QConnector) in
  new_connections w (K.given (drop (length (Connector.log c0)) (Connector.log c))).

Definition connector_call (w : Client) (a : Connector.action) : outcome Client :=
  c ← Connector.act net (connector_ w) a;
  connector_did w (connector_ w) c.

(** The first functor of the connector. *)
Definition connector_functor (w : Client) : outcome Client :=
  match Connector.pending (connector_ w) with
  | [] => Ret w
  | f :: fs =>
      let c0 := Connector.set_pending (connector_ w) fs in
      c ← Connector.run_functor net c0 f;
      connector_did w c0 c
  end.

Definition connect (w : Client) (inLoop : bool) : outcome Client :=
  connector_call (set_connect w true) (Connector.AStart inLoop).

Definition reconnect (w : Client) (inLoop : bool) : outcome Client :=
  let w := set_connect w true in
  if inLoop then connector_call w Connector.ARestart else Ret (queueInLoop w QRestart).

Definition disconnectInLoop (w : Client) : outcome Client :=
  on_this w ;;
  let w := set_connect w false in
  match connection_ w with
  | Some i => c ← conn_at w i; Ret (set_conn w i (shutdown c))
  | None => Ret w
  end.

Definition disconnect (w : Client) (inLoop : bool) : outcome Client :=
  if inLoop then disconnectInLoop w else Ret (queueInLoop w QDisconnectInLoop).

Definition stop (w : Client) (inLoop : bool) : outcome Client :=
  connector_call (set_connect w false) (Connector.AStop inLoop).

Definition removeConnectionInLoop (w : Client) (i : nat) : outcome Client :=
  on_this w ;;
  assert (bool_decide (connection_ w = Some i)) ;;
  let w := set_connection w None in
  c ← conn_at w i;
  let w := set_conn w i (conn_set c (c_state c) (c_queue c ++ [FConnectDestroyed]) (c_registered c)) in
  if retry_ w && connect_ w then connector_call w Connector.ARestart else Ret w.

Definition removeConnection (w : Client) (i : nat) (c : Conn) : outcome Client :=
  on_this w ;;
  if c_loop c =? 0 then removeConnectionInLoop w i else Ret (queueInLoop w (QRemoveConnectionInLoop i)).

Definition detail_removeConnection (w : Client) (i : nat) (c : Conn) : Client :=
  set_conn w i (conn_set c (c_state c) (c_queue c ++ [FConnectDestroyed]) (c_registered c)).

(** [TcpConnection::handleClose]. *)
Definition handleClose (w : Client) (i : nat) (c : Conn) : outcome Client :=
  assert (is_open c) ;;
  let c := conn_set c TcpConnection.kDisconnected (c_queue c) (c_registered c) in
  let w := set_conn w i c in
  match c_callback c with
  | ClientRemoves => removeConnection w i c
  | DetailRemoves => Ret (detail_removeConnection w i c)
  end.

(** While it runs, the bound functor and the parameter refer to the connection, too. *)
Definition removeAllInLoop (w : Client) (connection : option nat) : outcome Client :=
  match connection with
  | Some i =>
      c ← conn_at w i;
      let unique := (use_count w i c + 2 =? 1)%nat in
      let c := setCloseCallback c DetailRemoves in
      Ret (set_conn w i (if unique then forceClose c else c))
  | None => connector_call w (Connector.AStop true)
  end.

Definition TcpClient_dtor (w : Client) (inLoop : bool) : outcome Client :=
  if inLoop then w ← removeAllInLoop w (connection_ w); Ret (set_alive w false)
  else Ret (set_alive (queueInLoop w (QRemoveAllInLoop (connection_ w))) false).

(** ** What happens to a client *)

Inductive action : Type :=
  | AConnect (inLoop : bool)
  | AReconnect (inLoop : bool)
  | ADisconnect (inLoop : bool)
  | AStop (inLoop : bool)
  | AEnableRetry
  | ADestroy (inLoop : bool)
  | AUser (i : nat) (keep : bool)
  | ALoop
  | ATimer
  | AEvent (revents err : Z) (self : bool)
  | AConnFunctor (i : nat)
  | AConnClose (i : nat)
  | AOther.

(** Another client or server takes a loop from the pool of the process. *)
Definition other_draws (w : Client) : outcome Client :=
  '(_, p) ← TcpServer.getNextLoop (pool w);
  Ret (mkClient (alive w) (retry_ w) (connect_ w) (nextConnId_ w) (connection_ w) (connector_ w) p (queue w) (conns w)).

Definition run_functor (w : Client) (f : functor) : outcome Client :=
  match f with
  | QConnector => connector_functor w
  | QRestart => on_this w ;; connector_call w Connector.ARestart
  | QDisconnectInLoop => disconnectInLoop w
  | QRemoveConnectionInLoop i => removeConnectionInLoop w i
  | QRemoveAllInLoop i => removeAllInLoop w i
  end.

Definition run_conn_functor (w : Client) (i : nat) (c : Conn) : outcome Client :=
  match c_queue c with
  | [] => Ret w
  | f :: fs =>
      let c := conn_set c (c_state c) fs (c_registered c) in
      match f with
      | FConnectEstablished => c ← connectEstablished c; Ret (set_conn w i c)
      | FConnectDestroyed => Ret (set_conn w i (connectDestroyed c))
      | FForceCloseInLoop => if is_open c then handleClose w i c else Ret (set_conn w i c)
      end
  end.

Definition action_body (w : Client) (a : action) : outcome Client :=
  match a with
  | AConnect inLoop => on_this w ;; connect w inLoop
  | AReconnect inLoop => on_this w ;; reconnect w inLoop
  | ADisconnect inLoop => on_this w ;; disconnect w inLoop
  | AStop inLoop => on_this w ;; stop w inLoop
  | AEnableRetry => on_this w ;; Ret (set_retry w true)
  | ADestroy inLoop => on_this w ;; TcpClient_dtor w inLoop
  | AUser i keep => c ← conn_at w i; Ret (set_conn w i (conn_user c keep))
  | ALoop =>
      match queue w with
      | [] => Ret w
      | f :: q => run_functor (set_queue w q) f
      end
  | ATimer => connector_call w Connector.ATimer
  | AEvent revents err self => connector_call w (Connector.AEvent revents err self)
  | AConnFunctor i => c ← conn_at w i; run_conn_functor w i c
  | AConnClose i => c ← conn_at w i; handleClose w i c
  | AOther => other_draws w
  end.

Definition act (w : Client) (a : action) : outcome Client := w ← action_body w a; sweep w.

(** The loops report events of registered channels and timers that are set.  A timer
    fires, and a connection of the client's own loop ends, in a later iteration than
    the one that queued the release of the connector's channel. *)
Definition possible (w : Client) (a : action) : bool :=
  match a with
  | ATimer => Connector.possible (connector_ w) Connector.ATimer
  | AEvent revents err self => Connector.possible (connector_ w) (Connector.AEvent revents err self)
  | AConnClose i =>
      match conns w !! i with
      | Some c => negb (c_freed c) && is_open c && c_registered c &&
          (negb (c_loop c =? 0) || negb (bool_decide (Connector.FResetChannel ∈ Connector.pending (connector_ w))))
      | None => false
      end
  | AConnFunctor i | AUser i _ => match conns w !! i with Some c => negb (c_freed c) | None => false end
  | _ => true
  end.

(** Nothing is under way: no connection, no attempt, no timer and no queued call. *)
Definition idle (w : Client) : bool :=
  bool_decide (connection_ w = None) && bool_decide (queue w = []) &&
  negb (Connector.is_state (connector_ w) Connector.kConnecting) && (Connector.timers (connector_ w) =? 0)%nat.

(** What the user respects: calls that connect are made when nothing is under way,
    [connect] only while the connector has not connected; [stop] is called in the
    loop, before the connector has connected; the client is not destroyed.  The theorems
    [lost_client_cannot_connect_or_stop] and [destroying_a_connected_client] show what
    happens otherwise. *)
Definition allowed (w : Client) (a : action) : bool :=
  match a with
  | AConnect _ => idle w && Connector.is_state (connector_ w) Connector.kDisconnected
  | AReconnect _ => idle w
  | AStop inLoop => inLoop && negb (Connector.is_state (connector_ w) Connector.kConnected)
  | ADestroy _ => false
  | _ => true
  end.

(** Runs of a client of a started pool with fewer than 2^31 - 2 connections. *)
Inductive reachable (loops : list Z) : Client → Prop :=
  | reachable_ctor : reachable loops (TcpClient_ctor (TcpServer.mkPool loops 0 true))
  | reachable_act w a w' :
      reachable loops w → nextConnId_ w < 2 ^ 31 - 1 → possible w a = true → allowed w a = true →
      act w a = Ret w' → reachable loops w'.

Fixpoint run (w : Client) (l : list action) : option Client :=
  match l with
  | [] => Some w
  | a :: l =>
      if possible w a && allowed w a && (nextConnId_ w <? 2 ^ 31 - 1)
      then match act w a with Ret w' => run w' l | Abort _ => None end else None
  end.

(** ** Invariant: connector and queue *)

Definition count (f : functor) (q : list functor) : nat := length (filter (λ g, g = f) q).

(** What is under way: timers, queued starts, an attempt, a connection. *)
Definition activities (c : CConnector) (q : list functor) (cn : option nat) : nat :=
  K.timers c + K.starting c + count QRestart q + (if K.is_state c K.kConnecting then 1 else 0) +
  (match cn with Some _ => 1 | None => 0 end).

(** [cn] is the connection the client has.  At most one thing is under way; a removal
    is queued behind the release of the connector's channel. *)
Record loop_inv (c : CConnector) (q : list functor) (cn : option nat) : Prop := LoopInv {
  li_reachable : K.reachable net c;
  li_pending : K.pending c ∈ [[]; [K.FStartInLoop]; [K.FResetChannel]];
  li_markers : count QConnector q = length (K.pending c);
  li_one : (activities c q cn ≤ 1)%nat;
  li_idle : (0 < K.timers c)%nat ∨ K.pending c = [K.FStartInLoop] → K.state_ c = K.kDisconnected;
  li_free : K.pending c = [K.FStartInLoop] ∨ QRestart ∈ q → K.channel_ c = None;
  li_up : is_Some cn → K.state_ c = K.kConnected;
  li_order q1 i q2 : q = q1 ++ QRemoveConnectionInLoop i :: q2 → is_Some (K.channel_ c) → QConnector ∈ q1;
  li_remove i : QRemoveConnectionInLoop i ∈ q → cn = Some i ∧ count (QRemoveConnectionInLoop i) q = 1%nat;
  li_none i : QRemoveAllInLoop i ∉ q;
}.

Lemma count_app f q1 q2 : count f (q1 ++ q2) = (count f q1 + count f q2)%nat.
Proof. unfold count. by rewrite filter_app, length_app. Qed.
Lemma count_cons f g q : count f (g :: q) = ((if decide (g = f) then 1 else 0) + count f q)%nat.
Proof. unfold count. rewrite filter_cons. by destruct (decide (g = f)). Qed.
Lemma count_0 f q : count f q = 0%nat ↔ f ∉ q.
Proof.
  unfold count. rewrite length_zero_iff_nil. split.
  - intros E Hf. apply (not_elem_of_nil f). rewrite <- E. by apply list_elem_of_filter.
  - intros Hf. destruct (filter _ q) as [|g q'] eqn:E; [done|]. destruct Hf.
    assert (g ∈ filter (λ g, g = f) q) as [-> ?]%list_elem_of_filter by (rewrite E; by left). done.
Qed.
Lemma count_pos f q : (0 < count f q)%nat ↔ f ∈ q.
Proof.
  pose proof (count_0 f q). split; [|intros Hf; destruct (count f q); [tauto|lia]].
  intros. destruct (decide (f ∈ q)); [done|]. assert (count f q = 0%nat) by tauto. lia.
Qed.

(** The connector is used as it must be. *)
Lemma loop_used c q cn : loop_inv c q cn → K.used_inv net c.
Proof.
  intros [H1 H2 H3 H4 H5 H6 H7 H8 H9 H10]. split; try done; [unfold activities in H4; lia|]. intros Hp. apply H6. by left.
Qed.

Lemma channel_pending c q cn : loop_inv c q cn → K.state_ c ≠ K.kConnecting →
  (is_Some (K.channel_ c) ↔ K.pending c = [K.FResetChannel]).
Proof. intros Hi. by apply (K.used_channel net), (loop_used c q cn). Qed.

Lemma connecting_pending c q cn : loop_inv c q cn → K.state_ c = K.kConnecting →
  K.pending c = [] ∧ K.timers c = 0%nat ∧ QRestart ∉ q ∧ cn = None ∧ QConnector ∉ q ∧ ∀ i, QRemoveConnectionInLoop i ∉ q.
Proof.
  intros Hi Hs. destruct (K.used_connecting net c (loop_used c q cn Hi) Hs) as [Hp Ht].
  pose proof (li_one _ _ _ Hi) as H1. unfold activities, K.is_state in H1. rewrite bool_decide_true in H1 by done.
  assert (cn = None) as -> by (destruct cn; [lia|done]).
  split_and!; [done|lia|apply count_0; lia|done|apply count_0; rewrite (li_markers _ _ _ Hi), Hp; done|].
  intros i Hin. by apply (li_remove _ _ _ Hi) in Hin as [? _].
Qed.

(** With a connection, nothing else is under way. *)
Lemma connected_loop c q i : loop_inv c q (Some i) →
  K.state_ c = K.kConnected ∧ K.timers c = 0%nat ∧ K.starting c = 0%nat ∧ count QRestart q = 0%nat.
Proof.
  intros Hi. pose proof (li_one _ _ _ Hi) as H1. unfold activities in H1. split; [|lia].
  apply (li_up _ _ _ Hi). by eexists.
Qed.

(** After an attempt that was the only thing under way. *)
Lemma attempt_loop c c' q : K.reachable net c' → K.attempt c c' → K.pending c = [] → K.timers c = 0%nat →
  QConnector ∉ q → QRestart ∉ q → (∀ i, QRemoveConnectionInLoop i ∉ q) → (∀ i, QRemoveAllInLoop i ∉ q) →
  loop_inv c' q None.
Proof.
  intros Hr [Hp _ Hs] Hp0 Ht Hq1 Hq2 Hq3 Hq4. rewrite Hp0 in Hp. pose proof (proj2 (count_0 _ _) Hq1).
  pose proof (proj2 (count_0 _ _) Hq2). split.
  - done.
  - rewrite Hp. by left.
  - by rewrite Hp.
  - unfold activities, K.is_state. rewrite K.starting_not by (rewrite Hp; apply not_elem_of_nil).
    destruct Hs as [[-> ?]|(-> & _ & ?)]; case_bool_decide; try done; lia.
  - rewrite Hp. intros [?|?]; [|done]. destruct Hs as [[_ ?]|[? _]]; [lia|done].
  - rewrite Hp. by intros [?|?].
  - by intros [].
  - intros q1 i q2 -> _. destruct (Hq3 i). set_solver.
  - intros i Hi. by destruct (Hq3 i).
  - done.
Qed.

(** Functors that are not the connector's come and go. *)
Lemma loop_pop c f q cn : loop_inv c (f :: q) cn → f ≠ QConnector → (∀ i, f ≠ QRemoveConnectionInLoop i) → loop_inv c q cn.
Proof.
  intros [H1 H2 H3 H4 H5 H6 H7 H8 H9 H10] Hf Hr. rewrite count_cons, decide_False in H3 by done. split; try done.
  - unfold activities in *. rewrite count_cons in H4. lia.
  - intros [?|?]; apply H6; [by left|right; by right].
  - intros q1 i q2 -> Hc. specialize (H8 (f :: q1) i q2 eq_refl Hc). apply elem_of_cons in H8 as [?|?]; [by subst|done].
  - intros i Hi. destruct (H9 i) as [? Hn]; [by right|]. by rewrite count_cons, decide_False in Hn by done.
  - intros i Hi. apply (H10 i). by right.
Qed.

Lemma loop_push c f q cn : loop_inv c q cn → f = QDisconnectInLoop → loop_inv c (q ++ [f]) cn.
Proof.
  intros [H1 H2 H3 H4 H5 H6 H7 H8 H9 H10] ->.
  assert (∀ f, f ≠ QDisconnectInLoop → count f (q ++ [QDisconnectInLoop]) = count f q) as Hc.
  { intros f Hf. rewrite count_app, count_cons, decide_False by done. cbn. lia. }
  split; try done.
  - by rewrite Hc.
  - unfold activities in *. by rewrite Hc.
  - intros [?|?]; apply H6; [by left|right; set_solver].
  - intros q1 i q2 E. destruct q2 as [|f q2] using rev_ind; [apply app_inj_tail in E as [_ ?]; done|].
    rewrite app_comm_cons, app_assoc in E. apply app_inj_tail in E as [-> _]. by eapply H8.
  - intros i Hi. rewrite Hc by done. apply H9. set_solver.
  - intros i. specialize (H10 i). set_solver.
Qed.

(** A connecting connector is done with its channel; [cn] is the connection it made. *)
Lemma ended_loop c c' q cn0 fds cn : loop_inv c q cn0 → K.state_ c = K.kConnecting → K.reachable net c' → K.ended c c' fds →
  (is_Some cn ↔ fds ≠ []) → loop_inv c' (q ++ [QConnector]) cn.
Proof.
  intros Hi Hs Hr [Hp _ Hst] Hcn. destruct (connecting_pending c q cn0 Hi Hs) as (Hp0 & Ht & Hq2 & -> & Hq1 & Hq3).
  rewrite Hp0 in Hp. rewrite Ht in Hst. apply count_0 in Hq1, Hq2. split.
  - done.
  - rewrite Hp. set_solver.
  - rewrite Hp, count_app, Hq1. done.
  - unfold activities, K.is_state. rewrite K.starting_not by (rewrite Hp; set_solver).
    rewrite count_app, Hq2. change (count QRestart [QConnector]) with 0%nat.
    destruct Hst as [(-> & -> & ?)|(? & -> & ->)]; rewrite bool_decide_false by done; destruct cn; try lia.
    exfalso. by apply Hcn; eexists.
  - rewrite Hp. intros [?|?]; [|done]. destruct Hst as [(_ & ? & _)|(_ & _ & ?)]; [done|lia].
  - rewrite Hp. intros [?|Hin]; [done|]. apply elem_of_app in Hin as [Hin|?]; [|set_solver]. apply count_pos in Hin. lia.
  - intros Hcn'%Hcn. destruct Hst as [(-> & _)|(_ & ? & _)]; done.
  - intros q1 j q2 E _. assert (QRemoveConnectionInLoop j ∈ q ++ [QConnector]) as Hj by (rewrite E; set_solver).
    specialize (Hq3 j). set_solver.
  - intros j Hj. specialize (Hq3 j). set_solver.
  - intros j. pose proof (li_none _ _ _ Hi j). set_solver.
Qed.

(** The channel of the connector is released. *)
Lemma reset_loop c q cn : loop_inv c (QConnector :: q) cn → K.pending c = [K.FResetChannel] →
  ∃ c', K.run_functor net (K.set_pending c []) K.FResetChannel = Ret c' ∧ K.log c' = K.log c ∧ K.pending c' = [] ∧
    loop_inv c' q cn.
Proof.
  intros Hi Hp. pose proof Hi as [H1 H2 H3 H4 H5 H6 H7 H8 H9 H10].
  destruct (K.functor_inv net c) as (c' & Ha & _); [by apply (K.connector_inv net)|cbn; by rewrite Hp|].
  assert (K.reachable net c') as Hr.
  { eapply (K.reachable_act net c K.AFunctor); [done|done|cbn; by rewrite Hp|done]. }
  cbn in Ha. rewrite Hp in Ha. exists c'. split; [done|]. cbn in Ha. unfold K.resetChannel in Ha. cbn in Ha.
  assert (K.state_ c ≠ K.kConnecting) as Hnc.
  { intros Hs. apply (connecting_pending _ _ _ Hi) in Hs as [? _]. congruence. }
  destruct (channel_pending c _ _ Hi Hnc) as [_ Hch]. specialize (Hch Hp) as [ch Hch]. rewrite Hch in Ha.
  do 3 apply bind_ret_inv in Ha as (? & _ & Ha). simplify_eq. split; [done|]. split; [done|].
  rewrite count_cons, decide_True, Hp in H3 by done. cbn [length] in H3.
  unfold activities in H4. rewrite count_cons, decide_False in H4 by done. split; try done.
  - by left.
  - cbn -[count]. lia.
  - unfold activities. rewrite K.starting_not by apply not_elem_of_nil. cbn -[count K.is_state]. cbn -[count K.is_state] in H4.
    change (K.is_state _ _) with (K.is_state c K.kConnecting). lia.
  - intros [?|?]; [|done]. apply H5. by left.
  - by intros ? ? ? _ [].
  - intros j Hj. destruct (H9 j) as [? Hn]; [by right|]. by rewrite count_cons, decide_False in Hn by done.
  - intros j Hj. apply (H10 j). by right.
Qed.

Lemma start_loop c q cn : loop_inv c (QConnector :: q) cn → K.pending c = [K.FStartInLoop] →
  ∃ c', K.run_functor net (K.set_pending c []) K.FStartInLoop = Ret c' ∧ K.attempt (K.set_pending c []) c' ∧
    cn = None ∧ loop_inv c' q None.
Proof.
  intros Hi Hp. pose proof Hi as [H1 H2 H3 H4 H5 H6 H7 H8 H9 H10].
  assert (K.state_ c = K.kDisconnected) as Hs by (apply H5; by right).
  assert (K.channel_ c = None) as Hch by (apply H6; by left).
  assert (K.checks c K.AFunctor = true) as Hal.
  { cbn. rewrite Hp. unfold K.can_start, K.is_state. rewrite Hs, Hch. cbn. by rewrite orb_true_r. }
  destruct (K.functor_inv net c) as (c' & Ha & _); [by apply (K.connector_inv net)|done|].
  assert (K.reachable net c') as Hr by (by eapply (K.reachable_act net c K.AFunctor)).
  cbn in Ha. rewrite Hp in Ha. exists c'. split; [done|]. cbn in Ha.
  assert (K.attempt (K.set_pending c []) c') as Hat by (by eapply K.startInLoop_attempt).
  split; [done|]. unfold activities in H4. rewrite (K.starting_queued c Hp), count_cons, decide_False in H4 by done.
  assert (cn = None) as -> by (destruct cn; [lia|done]). split; [done|].
  rewrite count_cons, decide_True, Hp in H3 by done. cbn in H3.
  eapply attempt_loop; [done|done|done|cbn; lia|apply count_0; lia|apply count_0; lia|..].
  - intros j Hj. destruct (H9 j); [by right|done].
  - intros j Hj. apply (H10 j). by right.
Qed.

(** Starting over when nothing else is under way. *)
Lemma restart_loop c q : K.reachable net c → K.channel_ c = None → K.pending c = [] → K.timers c = 0%nat →
  QConnector ∉ q → QRestart ∉ q → (∀ i, QRemoveConnectionInLoop i ∉ q) → (∀ i, QRemoveAllInLoop i ∉ q) →
  ∃ c', K.act net c K.ARestart = Ret c' ∧ K.attempt c c' ∧ loop_inv c' q None.
Proof.
  intros Hr Hch Hp Ht. intros. assert (K.checks c K.ARestart = true) as Hal by (by apply bool_decide_eq_true_2).
  destruct (K.act_inv net c K.ARestart) as (c' & Ha & _); [by apply (K.connector_inv net)|done|done|].
  assert (K.reachable net c') as Hr' by (by eapply (K.reachable_act net c K.ARestart)).
  exists c'. split; [done|]. cbn in Ha. apply K.restart_attempt in Ha; [|done]. split; [done|]. by eapply attempt_loop.
Qed.

Lemma no_reset_channel c q cn : loop_inv c q cn → K.state_ c ≠ K.kConnecting → K.FResetChannel ∉ K.pending c → K.channel_ c = None.
Proof.
  intros Hi Hs Hn. destruct (channel_pending c q cn Hi Hs) as [Hc _]. destruct (K.channel_ c); [|done].
  rewrite Hc in Hn by (by eexists). set_solver.
Qed.

Lemma timer_loop c q cn : loop_inv c q cn → K.possible c K.ATimer = true →
  ∃ c', K.act net c K.ATimer = Ret c' ∧ K.attempt (K.set_timers c (pred (K.timers c))) c' ∧ cn = None ∧
    K.pending c = [] ∧ loop_inv c' q None.
Proof.
  intros Hi Ht. pose proof Ht as [Ht'%Nat.ltb_lt Hn%negb_true_iff%bool_decide_eq_false]%andb_true_iff.
  pose proof Hi as [H1 H2 H3 H4 H5 H6 H7 H8 H9 H10].
  assert (K.state_ c = K.kDisconnected) as Hs by (apply H5; by left).
  assert (K.channel_ c = None) as Hch by (apply (no_reset_channel c q cn Hi); [congruence|done]).
  assert (K.checks c K.ATimer = true) as Hal.
  { cbn. unfold K.can_start, K.is_state. rewrite Hs, Hch. cbn. by rewrite orb_true_r. }
  destruct (K.act_inv net c K.ATimer) as (c' & Ha & _); [by apply (K.connector_inv net)|done|done|].
  assert (K.reachable net c') as Hr by (by eapply (K.reachable_act net c K.ATimer)).
  exists c'. split; [done|]. cbn in Ha.
  assert (K.attempt (K.set_timers c (pred (K.timers c))) c') as Hat by (by eapply K.startInLoop_attempt).
  split; [done|]. unfold activities in H4. assert (cn = None) as -> by (destruct cn; [lia|done]).
  assert (K.pending c = []) as Hp.
  { rewrite !elem_of_cons in H2. destruct H2 as [Hp|[Hp|[Hp|[]%not_elem_of_nil]]]; [done|apply K.starting_queued in Hp; lia|].
    apply (channel_pending c q None Hi) in Hp as [? ?]; congruence. }
  split; [done|]. split; [done|]. rewrite Hp in H3.
  eapply attempt_loop; [done|done|done|cbn; lia|by apply count_0|apply count_0; lia|..]; [|done].
  intros j Hj. by destruct (H9 j).
Qed.

(** ** Invariant: connections *)

(** A connection waits for its set-up, is up, has closed and waits for the client, has
    been given up and waits for its end, has ended. *)
Inductive phase : Type := PNew | PUp | PClosed | PRemoved | PEnded.

Definition is_kept (ph : phase) : bool := match ph with PNew | PUp | PClosed => true | _ => false end.

Definition phase_ok (ph : phase) (c : Conn) : Prop :=
  match ph with
  | PNew => c_state c = TcpConnection.kConnecting ∧ c_queue c = [FConnectEstablished] ∧ c_registered c = false ∧ c_freed c = false
  | PUp => is_open c = true ∧ c_queue c = [] ∧ c_registered c = true ∧ c_freed c = false
  | PClosed => c_state c = TcpConnection.kDisconnected ∧ c_queue c = [] ∧ c_registered c = true ∧ c_freed c = false
  | PRemoved => c_state c = TcpConnection.kDisconnected ∧ c_queue c = [FConnectDestroyed] ∧ c_registered c = true ∧ c_freed c = false
  | PEnded => c_state c = TcpConnection.kDisconnected ∧ c_queue c = [] ∧ c_registered c = false
  end.

Record conn_ok (cn : option nat) (q : list functor) (i : nat) (c : Conn) (ph : phase) : Prop := ConnOk {
  co_phase : phase_ok ph c;
  co_callback : c_callback c = ClientRemoves;
  co_kept : cn = Some i ↔ is_kept ph = true;
  co_leaving : QRemoveConnectionInLoop i ∈ q ↔ ph = PClosed;
}.

Record inv (loops : list Z) (w : Client) : Prop := Inv {
  iw_alive : alive w = true;
  iw_loop : loop_inv (connector_ w) (queue w) (connection_ w);
  iw_id : nextConnId_ w = 1 + zlen (conns w);
  iw_pool : ∃ n, pool w = TcpServer.mkPool loops (TcpServer.next_of loops n) true;
  iw_fds : c_fd <$> conns w = K.given (K.log (connector_ w));
  iw_has i : connection_ w = Some i → (i < length (conns w))%nat;
  iw_conns i c : conns w !! i = Some c → ∃ ph, conn_ok (connection_ w) (queue w) i c ph;
}.

Lemma conn_ok_ext cn q q' i c ph :
  (QRemoveConnectionInLoop i ∈ q' ↔ QRemoveConnectionInLoop i ∈ q) → conn_ok cn q i c ph → conn_ok cn q' i c ph.
Proof. intros E [? ? ? ?]. split; try done. by rewrite E. Qed.

(** Steps that leave the connections alone. *)
Lemma inv_ext loops w w' : inv loops w → loop_inv (connector_ w') (queue w') (connection_ w') →
  alive w' = alive w → nextConnId_ w' = nextConnId_ w → connection_ w' = connection_ w → pool w' = pool w → conns w' = conns w →
  K.given (K.log (connector_ w')) = K.given (K.log (connector_ w)) →
  (∀ i, QRemoveConnectionInLoop i ∈ queue w' ↔ QRemoveConnectionInLoop i ∈ queue w) → inv loops w'.
Proof.
  intros [H1 H2 H3 H4 H5 H6 H7] Hl E1 E2 E3 E4 E5 E6 E7. split; rewrite ?E1, ?E2, ?E4, ?E5, ?E6; try done.
  - by rewrite E3.
  - intros i c Hc. destruct (H7 i c Hc) as [ph Hph]. exists ph. rewrite E3. eapply conn_ok_ext; [apply E7|done].
Qed.

Lemma connector_did_none w c0 c : (∃ l, K.log c = K.log c0 ++ l ∧ K.given l = []) →
  connector_did w c0 c =
    Ret (set_queue (set_connector w c)
           (queue w ++ replicate (length (K.pending c) - length (K.pending c0)) QConnector)).
Proof. intros (l & E & Hl). unfold connector_did. rewrite E, drop_app_length, Hl. done. Qed.

Lemma client_newConnection_inv loops w c q fd : inv loops w → connection_ w = None →
  loop_inv c q (Some (length (conns w))) → K.given (K.log c) = K.given (K.log (connector_ w)) ++ [fd] →
  (∀ i, QRemoveConnectionInLoop i ∉ q) → nextConnId_ w < 2 ^ 31 - 1 →
  ∃ w', newConnection (set_queue (set_connector w c) q) fd = Ret w' ∧ inv loops w' ∧
    connection_ w' = Some (length (conns w)) ∧ queue w' = q ∧ connector_ w' = c ∧ connect_ w' = connect_ w.
Proof.
  intros [H1 H2 H3 [n H4] H5 H6 H7] Hn Hl Hg Hq Hb. unfold newConnection, on_this.
  cbn [alive retry_ connect_ nextConnId_ connection_ connector_ pool queue conns set_queue set_connector].
  rewrite H1, H4, TcpServer.getNextLoop_ok. orun.
  rewrite ints_ok by (repeat constructor; lia). orun.
  set (conn := mkConn _ _ _ _ _ _ _ _ _).
  assert (∃ conn', (if TcpServer.loop_of loops n =? 0 then connectEstablished conn
      else Ret (conn_set conn (c_state conn) [FConnectEstablished] (c_registered conn))) = Ret conn' ∧
      c_fd conn' = fd ∧ c_callback conn' = ClientRemoves ∧ (phase_ok PNew conn' ∨ phase_ok PUp conn')) as (conn' & -> & Hfd & Hcb & Hph).
  { destruct (_ =? 0); eexists; (split; [done|]); split_and!; try done; [by right|by left]. }
  orun. eexists. split; [done|]. split; [|done]. split; cbn; try done.
  - rewrite length_app. cbn. lia.
  - by exists (S n).
  - by rewrite fmap_app, Hg, H5, <- Hfd.
  - intros i [= <-]. rewrite length_app. cbn. lia.
  - intros i d [Hd|[Hlen Hd]]%lookup_app_Some.
    + destruct (H7 i d Hd) as [ph [Hp Hc Hk Hr]]. exists ph. assert (ph ≠ PClosed ∧ is_kept ph = false) as [Hph1 Hph2].
      { destruct (is_kept ph) eqn:E; [|split; [by intros ->|done]]. rewrite Hn in Hk. by destruct Hk as [_ Hk]; specialize (Hk eq_refl). }
      split; [done|done| |]. { rewrite Hph2. apply lookup_lt_Some in Hd. split; [intros [= E]; exfalso; clear - Hd E; lia|done]. }
      specialize (Hq i). tauto.
    + assert (i = length (conns w) ∧ d = conn') as [-> ->].
      { destruct (i - length (conns w))%nat eqn:E; [|done]. cbn in Hd. simplify_eq. split; [lia|done]. }
      specialize (Hq (length (conns w))). destruct Hph as [Hph|Hph]; [exists PNew|exists PUp]; split; try done; split; done || tauto.
Qed.

(** ** Every step keeps the invariant *)

Lemma replicate_0_app (q : list functor) n m : n = m → q ++ replicate (n - m) QConnector = q.
Proof. intros ->. rewrite Nat.sub_diag. cbn. by rewrite app_nil_r. Qed.

Lemma idle_facts loops w : inv loops w → idle w = true →
  connection_ w = None ∧ queue w = [] ∧ K.state_ (connector_ w) ≠ K.kConnecting ∧ K.timers (connector_ w) = 0%nat ∧
  K.pending (connector_ w) = [] ∧ K.channel_ (connector_ w) = None.
Proof.
  intros Hi Hd. unfold idle in Hd. rewrite !andb_true_iff in Hd. destruct Hd as [[[H1 H2] H3] H4].
  apply bool_decide_eq_true in H1, H2. apply Nat.eqb_eq in H4. apply negb_true_iff, bool_decide_eq_false in H3.
  pose proof (iw_loop _ _ Hi) as Hl. assert (K.pending (connector_ w) = []) as Hp.
  { pose proof (li_markers _ _ _ Hl) as E. rewrite H2 in E. by destruct (K.pending (connector_ w)). }
  split_and!; try done. destruct (channel_pending _ _ _ Hl H3) as [Hc _].
  destruct (K.channel_ (connector_ w)); [|done]. rewrite Hp in Hc. by specialize (Hc (ex_intro _ _ eq_refl)).
Qed.

(** An attempt of the connector, started by a call of kind [a]. *)
Lemma call_inv loops w a c0 c : inv loops w → connection_ w = None → K.act net (connector_ w) a = Ret c →
  K.attempt c0 c → K.log c0 = K.log (connector_ w) → K.pending c0 = K.pending (connector_ w) → loop_inv c (queue w) None →
  connector_call w a = Ret (set_queue (set_connector w c) (queue w)) ∧ inv loops (set_queue (set_connector w c) (queue w)).
Proof.
  intros Hi Hn Ha [Hp (l & Hlog & Hg) _] El Ep Hl. unfold connector_call. rewrite Ha. orun. split.
  - rewrite connector_did_none by (exists l; by rewrite Hlog, El). by rewrite replicate_0_app by (by rewrite Hp, Ep).
  - eapply inv_ext; try done; cbn; [by rewrite Hn|]. by rewrite Hlog, K.given_app, Hg, El, app_nil_r.
Qed.

Lemma restart_inv loops w : inv loops w → connection_ w = None → K.channel_ (connector_ w) = None →
  K.timers (connector_ w) = 0%nat → QConnector ∉ queue w → QRestart ∉ queue w →
  ∃ c, K.act net (connector_ w) K.ARestart = Ret c ∧ K.attempt (connector_ w) c ∧
    connector_call w K.ARestart = Ret (set_queue (set_connector w c) (queue w)) ∧
    inv loops (set_queue (set_connector w c) (queue w)).
Proof.
  intros Hi Hn Hch Ht Hq Hr. pose proof (iw_loop _ _ Hi) as Hl.
  assert (K.pending (connector_ w) = []) as Hp.
  { apply count_0 in Hq. rewrite (li_markers _ _ _ Hl) in Hq. by destruct (K.pending (connector_ w)). }
  destruct (restart_loop (connector_ w) (queue w)) as (c & Ha & Hat & Hl'); try done.
  - apply (li_reachable _ _ _ Hl).
  - intros j Hj. apply (li_remove _ _ _ Hl) in Hj as [? _]. congruence.
  - apply (li_none _ _ _ Hl).
  - exists c. split; [done|]. split; [done|]. by eapply call_inv.
Qed.

Lemma set_connect_inv loops w b : inv loops w → inv loops (set_connect w b).
Proof. intros Hi. eapply inv_ext; try done. apply (iw_loop _ _ Hi). Qed.

Lemma client_connect_inv loops w inLoop : inv loops w → idle w = true → K.state_ (connector_ w) = K.kDisconnected →
  ∃ w', connect w inLoop = Ret w' ∧ inv loops w'.
Proof.
  intros Hi Hd Hs. destruct (idle_facts loops w Hi Hd) as (Hn & Hq & _ & Ht & Hp & Hch). unfold connect.
  pose proof (iw_loop _ _ Hi) as Hl. destruct inLoop.
  - assert (K.checks (connector_ w) (K.AStart true) = true) as Hal.
    { cbn. unfold K.can_start, K.is_state. by rewrite Hs, Hch. }
    destruct (K.act_inv net (connector_ w) (K.AStart true)) as (c & Ha & _); [by apply (K.connector_inv net), (li_reachable _ _ _ Hl)|done|done|].
    assert (K.reachable net c) by (eapply (K.reachable_act net _ (K.AStart true)); [apply (li_reachable _ _ _ Hl)|done..]).
    assert (K.attempt (K.set_connect (connector_ w) true) c) as Hat by (by eapply K.startInLoop_attempt).
    eexists. eapply (call_inv loops (set_connect w true)); [by apply set_connect_inv|done|done|done|done|done|].
    cbn. rewrite Hq. eapply attempt_loop; try done; intros; apply not_elem_of_nil.
  - eexists. split; [unfold connector_call; cbn; rewrite connector_did_none; [done|exists []; by rewrite app_nil_r]|].
    eapply inv_ext; [exact Hi|..]; try done; cbn; rewrite Hq, ?Hp; cbn; [|set_solver].
    assert (K.reachable net (K.queueInLoop (K.set_connect (connector_ w) true) K.FStartInLoop)) as Hr.
    { eapply (K.reachable_act net (connector_ w) (K.AStart false)); try done. apply (li_reachable _ _ _ Hl). }
    rewrite Hn. split; cbn; rewrite ?Hp; cbn; try done.
    + set_solver.
    + unfold activities, K.starting, K.is_state. cbn. by rewrite Ht, Hs, ?Hp.
    + intros q1 j q2 E. destruct q1 as [|? []]; cbn in E; simplify_eq.
    + set_solver.
    + set_solver.
Qed.

Lemma reconnect_inv loops w inLoop : inv loops w → idle w = true → ∃ w', reconnect w inLoop = Ret w' ∧ inv loops w'.
Proof.
  intros Hi Hd. destruct (idle_facts loops w Hi Hd) as (Hn & Hq & Hs & Ht & Hp & Hch). unfold reconnect.
  pose proof (iw_loop _ _ Hi) as Hl. destruct inLoop.
  - destruct (restart_inv loops (set_connect w true)) as (c & _ & _ & -> & ?); try done.
    + by apply set_connect_inv.
    + cbn. rewrite Hq. apply not_elem_of_nil.
    + cbn. rewrite Hq. apply not_elem_of_nil.
    + by eexists.
  - eexists. split; [done|]. eapply inv_ext; [exact Hi|..]; try done; cbn; rewrite Hq; cbn; [|set_solver].
    destruct Hl as [H1 H2 H3 H4 H5 H6 H7 H8 H9 H10]. rewrite Hn. split; try done.
    + by rewrite Hp.
    + unfold activities, K.is_state. rewrite Ht, K.starting_not by (rewrite Hp; apply not_elem_of_nil).
      rewrite bool_decide_false by done. vm_compute. lia.
    + intros q1 j q2 E. destruct q1 as [|? []]; cbn in E; simplify_eq.
    + set_solver.
    + set_solver.
Qed.

Lemma ended_inv loops w a c fds : inv loops w → K.state_ (connector_ w) = K.kConnecting →
  K.act net (connector_ w) a = Ret c → K.reachable net c → K.ended (connector_ w) c fds → nextConnId_ w < 2 ^ 31 - 1 →
  ∃ w', connector_call w a = Ret w' ∧ inv loops w' ∧ connect_ w' = connect_ w ∧
    connection_ w' = (match fds with [] => None | _ => Some (length (conns w)) end).
Proof.
  intros Hi Hs Ha Hr He Hb. pose proof (iw_loop _ _ Hi) as Hl. pose proof He as [Hp (l & Hlog & Hg) Hst].
  destruct (connecting_pending _ _ _ Hl Hs) as (Hp0 & Ht & Hq2 & Hn & Hq1 & Hq3).
  assert (∀ cn, is_Some cn ↔ fds ≠ [] → loop_inv c (queue w ++ [QConnector]) cn) as Hl' by (intros; by eapply ended_loop).
  unfold connector_call. rewrite Ha. orun. unfold connector_did. rewrite Hlog, drop_app_length, Hp, length_app, Nat.add_comm, Nat.add_sub, Hg.
  cbn [length replicate queue set_connector]. destruct fds as [|fd fds]; cbn [new_connections].
  - eexists. split; [done|]. split; [|done]. eapply inv_ext; try done; cbn.
    + apply Hl'. by rewrite Hn; split; [intros []|].
    + by rewrite Hlog, K.given_app, Hg, app_nil_r.
    + intros j. set_solver.
  - assert (fds = []) as -> by (destruct Hst as [[? _]|[? _]]; [done|destruct fds; [done|cbn in *; lia]]).
    destruct (client_newConnection_inv loops w c (queue w ++ [QConnector]) fd) as (w' & E & ? & ? & _ & _ & ?); try done.
    + apply Hl'. split; [done|by eexists].
    + by rewrite Hlog, K.given_app, Hg.
    + intros j. specialize (Hq3 j). set_solver.
    + exists w'. change (set_connector (set_queue _ _) _) with (set_queue (set_connector w c) (queue w ++ [QConnector])).
      unfold set_queue, set_connector in *. cbn in *. rewrite E. by orun.
Qed.

Lemma event_inv loops w revents err self : inv loops w →
  K.possible (connector_ w) (K.AEvent revents err self) = true → nextConnId_ w < 2 ^ 31 - 1 →
  ∃ w', connector_call w (K.AEvent revents err self) = Ret w' ∧ inv loops w'.
Proof.
  intros Hi Hp Hb. pose proof (iw_loop _ _ Hi) as Hl. pose proof (li_reachable _ _ _ Hl) as Hr.
  pose proof (K.event_connecting net _ _ _ _ Hr Hp) as Hs.
  destruct (K.act_inv net (connector_ w) (K.AEvent revents err self)) as (c & Ha & _); [by apply (K.connector_inv net)|done|done|].
  assert (K.reachable net c) as Hr' by (by eapply (K.reachable_act net _ (K.AEvent revents err self))).
  destruct (K.handleEvent_ended _ _ _ _ _ Ha Hs) as [(Hs' & Hp' & Hlog & Ht')|[fds He]].
  - eexists. unfold connector_call. rewrite Ha. orun. rewrite connector_did_none by (exists []; by rewrite app_nil_r).
    split; [done|]. rewrite replicate_0_app by (by rewrite Hp').
    destruct (connecting_pending _ _ _ Hl Hs) as (Hp0 & Ht & Hq2 & Hn & Hq1 & Hq3).
    eapply inv_ext; try done; cbn; [|by rewrite Hlog]. rewrite Hn. apply (attempt_loop (connector_ w)); try done.
    + split; [done|exists []; by rewrite app_nil_r|by left].
    + apply (li_none _ _ _ Hl).
  - destruct (ended_inv loops w _ c fds Hi Hs Ha Hr' He Hb) as (w' & ? & ? & _). by exists w'.
Qed.

Lemma stop_inv loops w : inv loops w → K.state_ (connector_ w) ≠ K.kConnected → nextConnId_ w < 2 ^ 31 - 1 →
  ∃ w', stop w true = Ret w' ∧ inv loops w'.
Proof.
  intros Hi Hs Hb. pose proof (iw_loop _ _ Hi) as Hl. pose proof (li_reachable _ _ _ Hl) as Hr.
  assert (K.checks (connector_ w) (K.AStop true) = true) as Hal by (by apply negb_true_iff, bool_decide_eq_false_2).
  destruct (K.act_inv net (connector_ w) (K.AStop true)) as (c & Ha & _); [by apply (K.connector_inv net)|done|done|].
  assert (K.reachable net c) as Hr' by (by eapply (K.reachable_act net _ (K.AStop true))). unfold stop.
  destruct (decide (K.state_ (connector_ w) = K.kConnecting)) as [Hc|Hc].
  - assert (K.ended (connector_ w) c []) as He.
    { cbn in Ha. unfold K.stop in Ha. apply K.stopInLoop_ended in Ha as [? ? ?]; [by split|done]. }
    destruct (ended_inv loops (set_connect w false) (K.AStop true) c []) as (w' & ? & ? & _); try done; [by apply set_connect_inv|by exists w'].
  - assert (c = K.set_connect (connector_ w) false) as ->.
    { cbn in Ha. unfold K.stop, K.stopInLoop, K.is_state in Ha. cbn in Ha. rewrite !bool_decide_false in Ha by done. by simplify_eq. }
    eexists. unfold connector_call. cbn [connector_ set_connect]. rewrite Ha. orun.
    rewrite connector_did_none by (exists []; by rewrite app_nil_r). split; [done|].
    rewrite replicate_0_app by done. eapply (inv_ext loops w); try done. cbn. by destruct Hl; split.
Qed.

(** A connection that changes. *)
Lemma set_conn_inv loops w i c c' ph : inv loops w → conns w !! i = Some c → c_fd c' = c_fd c →
  conn_ok (connection_ w) (queue w) i c' ph → inv loops (set_conn w i c').
Proof.
  intros [H1 H2 H3 H4 H5 H6 H7] Hc Hfd Hok. split; cbn; rewrite ?length_insert; try done.
  - rewrite list_fmap_insert, Hfd, <- H5. apply list_insert_id. by rewrite list_lookup_fmap, Hc.
  - intros j d [(<- & <- & _)|[Hij Hd]]%list_lookup_insert_Some; [by exists ph|by apply H7].
Qed.

Lemma freed_ended ph c : phase_ok ph c → c_freed c = true → ph = PEnded.
Proof. destruct ph; cbn; intros; destruct_and?; congruence. Qed.

Lemma conn_at_ok w i c : conns w !! i = Some c → c_freed c = false → conn_at w i = Ret c.
Proof. unfold conn_at. intros -> ->. done. Qed.

Lemma has_conn loops w i : inv loops w → connection_ w = Some i →
  ∃ c ph, conns w !! i = Some c ∧ conn_ok (connection_ w) (queue w) i c ph ∧ is_kept ph = true ∧ c_freed c = false.
Proof.
  intros Hi Hn. destruct (lookup_lt_is_Some_2 (conns w) i) as [c Hc]; [by apply (iw_has _ _ Hi)|].
  destruct (iw_conns _ _ Hi i c Hc) as [ph Hok]. exists c, ph. pose proof Hok as [Hp _ Hk _]. apply Hk in Hn.
  split_and!; try done. destruct (c_freed c) eqn:E; [|done]. by rewrite (freed_ended ph c) in Hn.
Qed.

Lemma shutdown_ok cn q i c ph : is_kept ph = true → conn_ok cn q i c ph → conn_ok cn q i (shutdown c) ph.
Proof.
  unfold shutdown, TcpConnection.is_state. case_bool_decide as Hs; [|done]. intros Hk [Hp ? ? ?]. split; try done.
  destruct ph; cbn in *; destruct_and?; split_and!; try done; congruence.
Qed.

Lemma disconnectInLoop_inv loops w : inv loops w → ∃ w', disconnectInLoop w = Ret w' ∧ inv loops w'.
Proof.
  intros Hi. unfold disconnectInLoop, on_this. rewrite (iw_alive _ _ Hi). orun. cbn [connection_ set_connect].
  destruct (connection_ w) as [i|] eqn:Hn; [|eexists; split; [done|by apply set_connect_inv]].
  destruct (has_conn loops w i Hi Hn) as (c & ph & Hc & Hok & Hk & Hf).
  rewrite (conn_at_ok _ i c) by done. orun. eexists. split; [done|].
  eapply set_conn_inv; [by apply set_connect_inv|done| |cbn; apply shutdown_ok; [exact Hk|exact Hok]].
  unfold shutdown. by destruct (TcpConnection.is_state _ _).
Qed.

(** The connection of the client is given up: its removal is not queued any more. *)
Lemma loop_pop_remove c q i cn : loop_inv c (QRemoveConnectionInLoop i :: q) cn →
  cn = Some i ∧ K.channel_ c = None ∧ loop_inv c q (Some i) ∧ ∀ j, QRemoveConnectionInLoop j ∉ q.
Proof.
  intros [H1 H2 H3 H4 H5 H6 H7 H8 H9 H10]. destruct (H9 i) as [-> Hc]; [by left|].
  rewrite count_cons, decide_True in Hc by done. rewrite count_cons, decide_False in H3 by done.
  assert (∀ j, QRemoveConnectionInLoop j ∉ q) as Hq.
  { intros j Hj. destruct (H9 j) as [[= <-] _]; [by right|]. apply count_pos in Hj. lia. }
  split_and!; try done.
  - destruct (K.channel_ c) eqn:E; [|done]. destruct (not_elem_of_nil QConnector). eapply (H8 [] i q); [done|by eexists].
  - split; try done.
    + intros [?|?]; apply H6; [by left|right; by right].
    + intros q1 j q2 -> _. destruct (Hq j). set_solver.
    + intros j Hj. by destruct (Hq j).
    + intros j Hj. apply (H10 j). by right.
Qed.

Lemma loop_drop c q i : loop_inv c q (Some i) → (∀ j, QRemoveConnectionInLoop j ∉ q) → loop_inv c q None.
Proof.
  intros [H1 H2 H3 H4 H5 H6 H7 H8 H9 H10] Hq. split; try done.
  - unfold activities in *. cbv iota in *. lia.
  - intros j Hj. by destruct (Hq j).
Qed.

Lemma loop_push_remove c q i : loop_inv c q (Some i) → (∀ j, QRemoveConnectionInLoop j ∉ q) →
  loop_inv c (q ++ [QRemoveConnectionInLoop i]) (Some i).
Proof.
  intros Hi Hq. pose proof Hi as [H1 H2 H3 H4 H5 H6 H7 H8 H9 H10].
  assert (∀ f, f ≠ QRemoveConnectionInLoop i → count f (q ++ [QRemoveConnectionInLoop i]) = count f q) as Hc.
  { intros f Hf. rewrite count_app, count_cons, decide_False by done. cbn. lia. }
  assert (K.state_ c = K.kConnected) as Hs by (apply H7; by eexists). split; try done.
  - by rewrite Hc.
  - unfold activities in *. by rewrite Hc.
  - intros [?|?]; apply H6; [by left|right; set_solver].
  - intros q1 j q2 E Hch. assert (QConnector ∈ q) as Hin.
    { apply count_pos. rewrite H3. apply (channel_pending c q _ Hi) in Hch; [rewrite Hch; cbn; lia|congruence]. }
    destruct q2 as [|f q2 _] using rev_ind; [by apply app_inj_tail in E as [<- _]|].
    rewrite app_comm_cons, app_assoc in E. apply app_inj_tail in E as [-> _]. destruct (Hq j). set_solver.
  - intros j Hj. apply elem_of_app in Hj as [Hj|Hj%list_elem_of_singleton]; [by destruct (Hq j)|]. simplify_eq.
    split; [done|]. rewrite count_app, count_cons, decide_True, (proj2 (count_0 _ _)) by done. done.
  - intros j. specialize (H10 j). set_solver.
Qed.

(** A client whose connection [i] has closed and is in no queue. *)
Record leaving (loops : list Z) (w : Client) (i : nat) (c : Conn) : Prop := Leaving {
  lv_alive : alive w = true;
  lv_loop : loop_inv (connector_ w) (queue w) (connection_ w);
  lv_id : nextConnId_ w = 1 + zlen (conns w);
  lv_pool : ∃ n, pool w = TcpServer.mkPool loops (TcpServer.next_of loops n) true;
  lv_fds : c_fd <$> conns w = K.given (K.log (connector_ w));
  lv_conn : connection_ w = Some i;
  lv_this : conns w !! i = Some c;
  lv_closed : phase_ok PClosed c ∧ c_callback c = ClientRemoves;
  lv_queue j : QRemoveConnectionInLoop j ∉ queue w;
  lv_others j d : i ≠ j → conns w !! j = Some d → ∃ ph, conn_ok (Some i) (queue w) j d ph;
}.

Lemma conn_ok_other i j q d ph : i ≠ j → conn_ok (Some i) q j d ph → conn_ok None q j d ph.
Proof.
  intros Hij [? ? Hk ?]. split; try done. split; [done|]. intros E%Hk. congruence.
Qed.

(** The connection is gone, and a client that shall keep one makes the connector start over. *)
Definition restarted (w w' : Client) : Prop :=
  connection_ w' = None ∧ queue w' = queue w ∧ connect_ w' = connect_ w ∧
  if retry_ w && connect_ w then K.restart net (connector_ w) = Ret (connector_ w')
  else connector_ w' = connector_ w.

Lemma client_removeConnectionInLoop_inv loops w i c : leaving loops w i c → K.channel_ (connector_ w) = None →
  ∃ w', removeConnectionInLoop w i = Ret w' ∧ inv loops w' ∧ nextConnId_ w' = nextConnId_ w ∧
    length (conns w') = length (conns w) ∧ restarted w w'.
Proof.
  intros [H1 H2 H3 H4 H5 H6 H7 [H8 H8'] H9 H10] Hch. unfold removeConnectionInLoop, on_this. rewrite H1. orun.
  rewrite assert_true by (by apply bool_decide_eq_true_2). orun. destruct H8 as (Hs & Hq & Hreg & Hf).
  rewrite (conn_at_ok _ i c) by done. orun. rewrite Hq. cbn [app].
  set (c' := conn_set c _ _ _). rewrite H6 in H2. pose proof (loop_drop _ _ _ H2 H9) as Hl.
  assert (inv loops (set_conn (set_connection w None) i c')) as Hi.
  { split; cbn; rewrite ?length_insert; try done.
    - rewrite list_fmap_insert. rewrite <- H5. apply list_insert_id. by rewrite list_lookup_fmap, H7.
    - intros j d [(<- & <- & _)|[Hij Hd]]%list_lookup_insert_Some.
      + exists PRemoved. split; try done. specialize (H9 i). split; [tauto|done].
      + destruct (H10 j d Hij Hd) as [ph Hok]. exists ph. by eapply conn_ok_other. }
  destruct (connected_loop _ _ _ H2) as (Hst & Ht & Hnf & Hr). cbn [retry_ connect_ set_conn set_conns set_connection].
  unfold restarted. destruct (retry_ w && connect_ w); [|eexists; split; [done|]; split_and!; try done; cbn; by rewrite length_insert].
  destruct (restart_inv loops (set_conn (set_connection w None) i c')) as (k & Ha & _ & -> & Hi'); try done; cbn [queue set_conn set_conns set_connection].
  - apply count_0. rewrite (li_markers _ _ _ H2). pose proof (channel_pending _ _ _ H2) as [_ Hp]; [congruence|].
    pose proof (li_pending _ _ _ H2) as Hp'. rewrite !elem_of_cons in Hp'.
    destruct Hp' as [->|[Hp'|[Hp'|[]%not_elem_of_nil]]]; [done|apply K.starting_queued in Hp'; lia|].
    apply Hp in Hp' as [? ?]. congruence.
  - by apply count_0.
  - eexists. split; [done|]. split_and!; try done. cbn. by rewrite length_insert.
Qed.

Lemma handleClose_inv loops w i c : inv loops w → conns w !! i = Some c → is_open c = true → c_registered c = true →
  c_freed c = false → (c_loop c ≠ 0 ∨ K.channel_ (connector_ w) = None) →
  ∃ w', handleClose w i c = Ret w' ∧ inv loops w' ∧ nextConnId_ w' = nextConnId_ w ∧
    length (conns w') = length (conns w) ∧ if c_loop c =? 0 then restarted w w'
      else connection_ w' = Some i ∧ queue w' = queue w ++ [QRemoveConnectionInLoop i] ∧ connector_ w' = connector_ w ∧
        retry_ w' = retry_ w ∧ connect_ w' = connect_ w.
Proof.
  intros Hi Hc Ho Hreg Hf Hl. destruct (iw_conns _ _ Hi i c Hc) as [ph [Hp Hcb Hk Hr]].
  assert (ph = PUp) as ->.
  { destruct ph; try done; cbn in Hp; destruct_and?; unfold is_open, TcpConnection.is_state in Ho;
      match goal with E : c_state c = _ |- _ => by rewrite E in Ho end. }
  assert (connection_ w = Some i) as Hn by (by apply Hk). destruct Hp as (_ & Hq & _ & _).
  unfold handleClose. rewrite assert_true by done. orun. cbn [c_callback conn_set]. rewrite Hcb.
  unfold removeConnection, on_this. cbn [alive set_conn set_conns]. rewrite (iw_alive _ _ Hi). orun.
  set (c' := conn_set c _ _ _). change (c_loop c') with (c_loop c).
  assert (∀ j, QRemoveConnectionInLoop j ∉ queue w) as Hq'.
  { intros j Hj. pose proof Hj as Hj'. apply (li_remove _ _ _ (iw_loop _ _ Hi)) in Hj as [E _]. simplify_eq. by apply Hr in Hj'. }
  assert (leaving loops (set_conn w i c') i c') as Hlv.
  { destruct Hi as [H1 H2 H3 H4 H5 H6 H7]. split; cbn; rewrite ?length_insert; try done.
    - rewrite list_fmap_insert, <- H5. apply list_insert_id. by rewrite list_lookup_fmap, Hc.
    - apply list_lookup_insert_eq. by eapply lookup_lt_Some.
    - intros j d Hij Hd. rewrite list_lookup_insert_ne in Hd by done. rewrite <- Hn. by apply H7. }
  destruct (Z.eqb_spec (c_loop c) 0) as [Hz|Hz].
  - destruct (client_removeConnectionInLoop_inv loops _ i c' Hlv) as (w' & ? & ? & ? & Hlen & ?); [by destruct Hl|].
    exists w'. split_and!; try done. rewrite Hlen. cbn. by rewrite length_insert.
  - eexists. split; [done|]. split; [|split_and!; try done; cbn; by rewrite length_insert]. destruct Hlv as [H1 H2 H3 H4 H5 H6 H7 H8 H9 H10]. pose proof (iw_has _ _ Hi). split; try done.
    + cbn. rewrite Hn. apply loop_push_remove; [|done]. cbn in H2. by rewrite Hn in H2.
    + cbn. rewrite length_insert. auto.
    + intros j d Hd. destruct (decide (i = j)) as [<-|Hij].
      * exists PClosed. cbn in H7, Hd. rewrite H7 in Hd. simplify_eq. destruct H8. split; [done|done|cbn; by rewrite Hn; split|].
        cbn. set_solver.
      * destruct (H10 j d Hij Hd) as [ph Hok]. exists ph. cbn. rewrite Hn. eapply conn_ok_ext; [|exact Hok]. cbn.
        rewrite elem_of_app, list_elem_of_singleton. split; [intros [?|[= ?]]; congruence || done|by left].
Qed.

Lemma conn_ok_move cn q i c c' ph ph' : conn_ok cn q i c ph → phase_ok ph' c' → c_callback c' = c_callback c →
  is_kept ph' = is_kept ph → (ph' = PClosed ↔ ph = PClosed) → conn_ok cn q i c' ph'.
Proof. intros [Hp Hcb Hk Hr] Hp' Ecb Ek Er. split; [done|congruence|by rewrite Ek|by rewrite Er]. Qed.

Lemma conn_functor_inv loops w i c : inv loops w → conns w !! i = Some c →
  ∃ w', run_conn_functor w i c = Ret w' ∧ inv loops w'.
Proof.
  intros Hi Hc. destruct (iw_conns _ _ Hi i c Hc) as [ph Hok]. unfold run_conn_functor.
  pose proof (co_phase _ _ _ _ _ Hok) as Hp. destruct ph; cbn in Hp; destruct_and?; repeat match goal with E : c_queue c = _ |- _ => rewrite E end;
    try (by exists w).
  - unfold connectEstablished, TcpConnection.is_state. cbn [c_state conn_set]. rewrite assert_true by (by apply bool_decide_eq_true_2).
    orun. eexists. split; [done|]. eapply (set_conn_inv _ _ i c _ PUp); try done. by eapply conn_ok_move.
  - eexists. split; [done|]. eapply (set_conn_inv _ _ i c _ PEnded); try done. eapply conn_ok_move; try done.
    unfold connectDestroyed, TcpConnection.is_state. cbn. by case_bool_decide.
Qed.

Lemma user_inv loops w i c keep : inv loops w → conns w !! i = Some c → inv loops (set_conn w i (conn_user c keep)).
Proof.
  intros Hi Hc. destruct (iw_conns _ _ Hi i c Hc) as [ph [Hp Hcb Hk Hr]].
  eapply (set_conn_inv _ _ i c _ ph); try done.
Qed.

Lemma loop_remove_inv loops w i q : inv loops w → queue w = QRemoveConnectionInLoop i :: q →
  ∃ w', removeConnectionInLoop (set_queue w q) i = Ret w' ∧ inv loops w' ∧ nextConnId_ w' = nextConnId_ w ∧
    length (conns w') = length (conns w) ∧ restarted (set_queue w q) w'.
Proof.
  intros Hi Hq. pose proof (iw_loop _ _ Hi) as Hl. rewrite Hq in Hl.
  destruct (loop_pop_remove _ _ _ _ Hl) as (Hn & Hch & Hl' & Hq'). destruct (has_conn loops w i Hi Hn) as (c & ph & Hc & Hok & Hk & Hf).
  apply (client_removeConnectionInLoop_inv loops (set_queue w q) i c); [|done].
  pose proof Hi as [H1 H2 H3 H4 H5 H6 H7]. destruct Hok as [Hp Hcb _ Hr]. rewrite Hq in Hr.
  assert (ph = PClosed) as -> by (apply Hr; by left).
  split; try done; [cbn; by rewrite Hn|]. intros j d Hij Hd. destruct (H7 j d Hd) as [ph Hok]. exists ph.
  rewrite <- Hn. eapply conn_ok_ext; [|done]. cbn. rewrite Hq, elem_of_cons. split; [by right|].
  intros [E|?]; [simplify_eq|done].
Qed.

Lemma loop_functor_inv loops w f q : inv loops w → queue w = f :: q →
  ∃ w', run_functor (set_queue w q) f = Ret w' ∧ inv loops w'.
Proof.
  intros Hi Hq. pose proof (iw_loop _ _ Hi) as Hl. rewrite Hq in Hl.
  assert (f ≠ QConnector → (∀ i, f ≠ QRemoveConnectionInLoop i) → inv loops (set_queue w q)) as Hpop.
  { intros H1 H2. eapply inv_ext; try done; [by eapply loop_pop|]. intros j. cbn. rewrite Hq, elem_of_cons.
    split; [by right|]. intros [E|?]; [by destruct (H2 j)|done]. }
  destruct f as [| | |i|i]; cbn [run_functor].
  - unfold connector_functor. cbn [connector_ set_queue]. pose proof (li_markers _ _ _ Hl) as Hm.
    rewrite count_cons, decide_True in Hm by done.
    pose proof (li_pending _ _ _ Hl) as Hp. rewrite !elem_of_cons in Hp.
    destruct Hp as [Hp|[Hp|[Hp|[]%not_elem_of_nil]]]; rewrite Hp in Hm |- *; cbn [length] in Hm; [lia|..].
    + destruct (start_loop _ _ _ Hl Hp) as (c & -> & [Ep (l & El & Eg) _] & Hn & Hl'). orun.
      rewrite connector_did_none by (by exists l). eexists. split; [done|].
      rewrite replicate_0_app by (by rewrite Ep). eapply inv_ext; try done; cbn.
      * by rewrite Hn.
      * rewrite El. cbn. by rewrite K.given_app, Eg, app_nil_r.
      * intros j. rewrite Hq. set_solver.
    + destruct (reset_loop _ _ _ Hl Hp) as (c & -> & El & Ep & Hl'). orun.
      rewrite connector_did_none by (exists []; by rewrite app_nil_r). eexists. split; [done|].
      rewrite replicate_0_app by (by rewrite Ep). eapply inv_ext; try done; cbn.
      * by rewrite El.
      * intros j. rewrite Hq. set_solver.
  - unfold on_this. cbn [alive set_queue]. rewrite (iw_alive _ _ Hi). orun. specialize (Hpop ltac:(done) ltac:(done)).
    pose proof (li_one _ _ _ Hl) as Ho. unfold activities in Ho. rewrite count_cons, decide_True in Ho by done.
    assert (K.channel_ (connector_ w) = None) as Hch by (apply (li_free _ _ _ Hl); right; by left).
    assert (connection_ w = None) as Hn by (destruct (connection_ w); [lia|done]).
    destruct (restart_inv loops (set_queue w q)) as (c & _ & _ & -> & ?); try done.
    + cbn. lia.
    + apply count_0. cbn -[count]. pose proof (li_markers _ _ _ Hl) as Hm. rewrite count_cons, decide_False in Hm by done.
      cbn [plus] in Hm. rewrite Hm. pose proof (li_pending _ _ _ Hl) as Hp. rewrite !elem_of_cons in Hp.
      destruct Hp as [->|[Hp|[Hp|[]%not_elem_of_nil]]]; [done|apply K.starting_queued in Hp; lia|].
      apply (channel_pending _ _ _ Hl) in Hp as [? ?]; [congruence|]. intros Hs. unfold K.is_state in Ho.
      rewrite bool_decide_true in Ho by done. lia.
    + apply count_0. cbn -[count]. lia.
    + by eexists.
  - apply disconnectInLoop_inv. by apply Hpop.
  - destruct (loop_remove_inv loops w i q Hi Hq) as (w' & ? & ? & _). by exists w'.
  - destruct (li_none _ _ _ Hl i). by left.
Qed.

(** Only connections that have ended are destroyed. *)
Lemma destroy_unused_ok w i c ph : alive w = true → conn_ok (connection_ w) (queue w) i c ph →
  ∃ c', destroy_unused w i c = Ret c' ∧ conn_ok (connection_ w) (queue w) i c' ph ∧ c_fd c' = c_fd c ∧
    (use_count w i c = 0%nat → c_freed c' = true) ∧ use_count w i c' = use_count w i c ∧
    (c' = c ∨ ph = PEnded) ∧ c_state c' = c_state c ∧ c_loop c' = c_loop c.
Proof.
  intros Ha [Hp Hcb Hk Hr]. unfold destroy_unused. destruct (c_freed c) eqn:Hf.
  { exists c. split_and!; try done. by left. }
  destruct (Nat.eqb_spec (use_count w i c) 0) as [Hu|Hu]; [|exists c; split_and!; try done; by left].
  assert (ph = PEnded) as ->.
  { unfold use_count in Hu. rewrite Ha in Hu. destruct (bool_decide (connection_ w = Some i)) eqn:E; [cbn in Hu; lia|].
    apply bool_decide_eq_false in E. destruct ph; try done; try (destruct E; by apply Hk).
    destruct Hp as (_ & Hq & _). rewrite Hq in Hu. cbn in Hu. lia. }
  destruct Hp as (Hs & Hq & Hreg). unfold destruct_conn, TcpConnection.is_state.
  rewrite (assert_true (bool_decide _)) by (by apply bool_decide_eq_true_2). orun.
  exists (conn_free c). split_and!; try done. by right.
Qed.

Lemma sweep_from_ok w cs i : alive w = true →
  (∀ j c, cs !! j = Some c → ∃ ph, conn_ok (connection_ w) (queue w) (i + j) c ph) →
  ∃ cs', sweep_from w i cs = Ret cs' ∧ c_fd <$> cs' = c_fd <$> cs ∧
    ∀ j c', cs' !! j = Some c' → (use_count w (i + j) c' = 0%nat → c_freed c' = true) ∧
      (∃ ph, conn_ok (connection_ w) (queue w) (i + j) c' ph) ∧
      (c_state c' ≠ TcpConnection.kDisconnected → cs !! j = Some c').
Proof.
  intros Ha. revert i. induction cs as [|c cs IH]; intros i Hok; cbn [sweep_from]; [by exists []|].
  destruct (Hok 0%nat c eq_refl) as [ph Hph]. rewrite Nat.add_0_r in Hph.
  destruct (destroy_unused_ok w i c ph Ha Hph) as (c' & -> & Hph' & Hfd & Hu & Huc & Hor & _). orun.
  destruct (IH (S i)) as (cs' & -> & Hfds & Hcs).
  { intros j d Hd. rewrite Nat.add_succ_comm. by apply Hok. }
  orun. exists (c' :: cs'). split; [done|]. split; [by rewrite !fmap_cons, Hfd, Hfds|].
  intros [|j] d Hd; cbn in Hd.
  - simplify_eq. rewrite Nat.add_0_r, Huc. split; [done|]. split; [by exists ph|]. intros Hne.
    destruct Hor as [E|E]; [by rewrite E|]. subst ph. by destruct Hph' as [(? & _) _ _ _].
  - rewrite <- Nat.add_succ_comm. by apply Hcs.
Qed.

Lemma sweep_inv loops w : inv loops w → ∃ cs, sweep w = Ret (set_conns w cs) ∧ inv loops (set_conns w cs) ∧
  (∀ j c, cs !! j = Some c → use_count w j c = 0%nat → c_freed c = true) ∧ length cs = length (conns w).
Proof.
  intros Hi. pose proof Hi as [H1 H2 H3 H4 H5 H6 H7].
  destruct (sweep_from_ok w (conns w) 0 H1 H7) as (cs & E & Hfds & Hcs). unfold sweep. rewrite E. orun.
  assert (length cs = length (conns w)) as Hlen by (by rewrite <- (length_fmap c_fd cs), Hfds, length_fmap).
  exists cs. split; [done|]. split; [|split; [intros j c Hc; by apply Hcs|done]].
  split; cbn; rewrite ?Hlen, ?Hfds; try done. intros j c Hc. by apply Hcs in Hc as (_ & ? & _).
Qed.

Lemma action_inv loops w a : inv loops w → possible w a = true → allowed w a = true → nextConnId_ w < 2 ^ 31 - 1 →
  ∃ w', action_body w a = Ret w' ∧ inv loops w'.
Proof.
  intros Hi Hp Hal Hb. pose proof (iw_loop _ _ Hi) as Hl.
  destruct a as [l|l|l|l| |l|i k| | |r e s|i|i|]; cbn [action_body allowed possible] in *;
    unfold on_this; rewrite ?(iw_alive _ _ Hi); orun.
  - apply andb_true_iff in Hal as [? ?%K.is_state_true]. by apply client_connect_inv.
  - by apply reconnect_inv.
  - destruct l; [by apply disconnectInLoop_inv|]. eexists. split; [done|].
    eapply inv_ext; try done; cbn; [by apply loop_push|set_solver].
  - apply andb_true_iff in Hal as [-> Hs%negb_true_iff]. apply stop_inv; [done| |done]. by apply bool_decide_eq_false in Hs.
  - eexists. split; [done|]. by eapply inv_ext.
  - done.
  - unfold conn_at. destruct (conns w !! i) as [c|] eqn:Hc; [|done]. apply negb_true_iff in Hp. rewrite Hp. orun.
    eexists. split; [done|]. by apply user_inv.
  - destruct (queue w) as [|f q] eqn:Hq; [by exists w|]. by apply loop_functor_inv.
  - destruct (timer_loop _ _ _ Hl Hp) as (c & Ha & Hat & Hn & Hpe & Hl').
    eexists. by apply (call_inv loops w K.ATimer _ c Hi Hn Ha Hat).
  - by apply event_inv.
  - unfold conn_at. destruct (conns w !! i) as [c|] eqn:Hc; [|done]. apply negb_true_iff in Hp. rewrite Hp. orun.
    by apply conn_functor_inv.
  - unfold conn_at. destruct (conns w !! i) as [c|] eqn:Hc; [|done]. rewrite !andb_true_iff in Hp.
    destruct Hp as [[[Hf%negb_true_iff Ho] Hreg] Hor]. rewrite Hf. orun.
    destruct (handleClose_inv loops w i c) as (w' & ? & ? & _); try done; [|by exists w'].
    apply orb_true_iff in Hor as [?%negb_true_iff%Z.eqb_neq|Hnr%negb_true_iff%bool_decide_eq_false]; [by left|right].
    destruct (iw_conns _ _ Hi i c Hc) as [ph Hok]. assert (connection_ w = Some i) as Hn.
    { apply (co_kept _ _ _ _ _ Hok). pose proof (co_phase _ _ _ _ _ Hok) as Hph. unfold is_open, TcpConnection.is_state in Ho.
      destruct ph; try done; cbn in Hph; destruct_and?; match goal with E : c_state c = _ |- _ => by rewrite E in Ho end. }
    eapply (no_reset_channel _ _ _ Hl); [|done]. rewrite Hn in Hl. destruct (connected_loop _ _ _ Hl). congruence.
  - destruct (iw_pool _ _ Hi) as [n Hn]. unfold other_draws. rewrite Hn, TcpServer.getNextLoop_ok. orun.
    eexists. split; [done|]. destruct Hi as [H1 H2 H3 H4 H5 H6 H7]. split; try done. by exists (S n).
Qed.

(** ** Theorems *)

Lemma client_ctor_inv loops : inv loops (TcpClient_ctor (TcpServer.mkPool loops 0 true)).
Proof.
  split; cbn; try done.
  - split; cbn; try done.
    + constructor.
    + by left.
    + vm_compute. lia.
    + intros i Hi. by apply not_elem_of_nil in Hi.
    + intros i. apply not_elem_of_nil.
  - exists 0%nat. unfold TcpServer.next_of. case_bool_decide; [done|]. by rewrite Nat.Div0.mod_0_l.
Qed.

Lemma client_act_inv loops w a : inv loops w → nextConnId_ w < 2 ^ 31 - 1 → possible w a = true → allowed w a = true →
  ∃ w', act w a = Ret w' ∧ inv loops w' ∧
    ∀ i c, conns w' !! i = Some c → use_count w' i c = 0%nat → c_freed c = true.
Proof.
  intros Hi Hb Hp Ha. destruct (action_inv loops w a Hi Hp Ha Hb) as (w1 & E & Hi1). unfold act. rewrite E. orun.
  destruct (sweep_inv loops w1 Hi1) as (cs & -> & Hi2 & Hu & _). eexists. split; [done|]. split; [done|].
  intros i c Hc Hz. by eapply Hu.
Qed.

Lemma client_reachable_inv loops w : reachable loops w → inv loops w ∧
  ∀ i c, conns w !! i = Some c → use_count w i c = 0%nat → c_freed c = true.
Proof.
  induction 1 as [|w a w' _ [IH _] Hb Hp Ha E]; [split; [apply client_ctor_inv|done]|].
  destruct (client_act_inv loops w a IH Hb Hp Ha) as (w1 & E1 & H1 & H2). rewrite E in E1. injection E1 as <-. exact (conj H1 H2).
Qed.


(** A connecting connector whose socket becomes writable without an error. *)
Lemma event_gives c c' : K.handleEvent c Channel.POLLOUT 0 false = Ret c' → K.state_ c = K.kConnecting →
  K.connect_ c = true → ∃ fd, K.ended c c' [fd].
Proof.
  unfold K.handleEvent. intros H Hs Hc. apply bind_ret_inv in H as (c1 & H1 & H). apply bind_ret_inv in H as (c2 & H2 & [= <-]).
  change (Ret (K.set_channel c (K.poller_ c) ((λ ch, Channel.set_eventHandling ch true) <$> K.channel_ c)) = Ret c1) in H1.
  injection H1 as <-. change (K.handleWrite (K.set_channel c (K.poller_ c) ((λ ch, Channel.set_eventHandling ch true) <$> K.channel_ c)) 0 false = Ret c2) in H2.
  unfold K.handleWrite, K.is_state in H2. cbn in H2. rewrite Hs in H2. cbn in H2.
  apply bind_ret_inv in H2 as ([fd c3] & H2 & H3). pose proof H2 as (Hp & Hl & _ & Ht & Hcn)%K.removeAndReset_fields.
  cbn in Hcn. rewrite Hcn, Hc in H3. injection H3 as <-. exists fd. split; cbn in *; [done|rewrite Hl; by eexists|].
  right. by split_and!; [lia|..].
Qed.

Lemma connecting_event loops w : inv loops w → nextConnId_ w < 2 ^ 31 - 1 →
  K.state_ (connector_ w) = K.kConnecting → K.connect_ (connector_ w) = true →
  possible w (AEvent Channel.POLLOUT 0 false) = true ∧
  ∃ w', act w (AEvent Channel.POLLOUT 0 false) = Ret w' ∧ connection_ w' = Some (length (conns w)) ∧ connect_ w' = connect_ w.
Proof.
  intros Hi Hb Hs Hcn. pose proof (iw_loop _ _ Hi) as Hl. pose proof (li_reachable _ _ _ Hl) as Hr.
  assert (K.possible (connector_ w) (K.AEvent Channel.POLLOUT 0 false) = true) as Hp.
  { pose proof (K.connector_inv net _ Hr) as [Hc _ _]. unfold K.chan_ok, K.is_state in Hc. rewrite Hs in Hc. cbn.
    destruct (K.channel_ (connector_ w)) as [ch|]; [|by destruct Hc]. destruct Hc as (_ & _ & _ & _ & ->).
    rewrite lookup_singleton_eq. by apply bool_decide_eq_true_2. }
  split; [done|].
  destruct (K.act_inv net (connector_ w) (K.AEvent Channel.POLLOUT 0 false)) as (c & Ha & _); [by apply (K.connector_inv net)|done|done|].
  assert (K.reachable net c) as Hr' by (by eapply (K.reachable_act net _ (K.AEvent Channel.POLLOUT 0 false))).
  destruct (event_gives (connector_ w) c Ha Hs Hcn) as [fd He].
  destruct (ended_inv loops w _ c [fd] Hi Hs Ha Hr' He Hb) as (w1 & E & Hi1 & Hc1 & Hn1).
  unfold act. cbn [action_body]. rewrite E. orun. destruct (sweep_inv loops w1 Hi1) as (cs & -> & _). by eexists.
Qed.

Lemma restart_in_progress c c' : K.restart net c = Ret c' → K.classify (net (K.created c)).2 = K.InProgress →
  K.state_ c' = K.kConnecting ∧ K.connect_ c' = true.
Proof.
  unfold K.restart, K.startInLoop. intros H Hn. apply bind_ret_inv in H as (? & _ & H). cbn [K.connect_ K.set_connect] in H.
  unfold K.connect in H. cbn [K.created K.set_connect K.set_retryDelay K.record_call K.setState] in H.
  destruct (net (K.created c)) as [fd e]. cbn [snd] in Hn. rewrite Hn in H. unfold K.connecting in H.
  apply bind_ret_inv in H as (? & _ & H). apply bind_ret_inv in H as ([p ch] & _ & [= <-]). done.
Qed.

Lemma queue_empty_channel loops w : inv loops w → queue w = [] → K.state_ (connector_ w) ≠ K.kConnecting →
  K.channel_ (connector_ w) = None ∧ K.pending (connector_ w) = [].
Proof.
  intros Hi Hq Hs. pose proof (iw_loop _ _ Hi) as Hl. pose proof (li_markers _ _ _ Hl) as Hm. rewrite Hq in Hm.
  assert (K.pending (connector_ w) = []) as Hp by (by destruct (K.pending (connector_ w))). split; [|done].
  destruct (channel_pending _ _ _ Hl Hs) as [Hc _]. destruct (K.channel_ (connector_ w)); [|done].
  rewrite Hp in Hc. by specialize (Hc (ex_intro _ _ eq_refl)).
Qed.

Lemma run_step w a l w' : nextConnId_ w < 2 ^ 31 - 1 → possible w a = true → allowed w a = true → act w a = Ret w' →
  run w (a :: l) = run w' l.
Proof. intros Hb Hp Ha E. cbn. by rewrite Hp, Ha, (proj2 (Z.ltb_lt _ _) Hb), E. Qed.

(** The end of a connection, up to the attempt to replace it. *)
Lemma lost_and_restarted loops w i c : inv loops w → nextConnId_ w < 2 ^ 31 - 1 → queue w = [] → retry_ w && connect_ w = true →
  connection_ w = Some i → conns w !! i = Some c → is_open c = true →
  ∃ w', (∀ l, run w (AConnClose i :: ALoop :: l) = run w' l) ∧ inv loops w' ∧ nextConnId_ w' = nextConnId_ w ∧
    length (conns w') = length (conns w) ∧ K.restart net (connector_ w) = Ret (connector_ w') ∧ connect_ w' = connect_ w.
Proof.
  intros Hi Hb Hq Hr Hn Hc Ho. destruct (has_conn loops w i Hi Hn) as (c0 & ph & Hc0 & [Hp _ _ _] & Hk & Hf). simplify_eq.
  assert (c_registered c = true) as Hreg.
  { destruct ph; try done; cbn in Hp; destruct_and?; try done. unfold is_open, TcpConnection.is_state in Ho.
    match goal with E : c_state c = _ |- _ => by rewrite E in Ho end. }
  pose proof (iw_loop _ _ Hi) as Hl. rewrite Hn in Hl. destruct (connected_loop _ _ _ Hl) as (Hs & _).
  destruct (queue_empty_channel loops w Hi Hq) as [Hch Hpe]; [congruence|].
  destruct (handleClose_inv loops w i c) as (w1 & E1 & Hi1 & Hid1 & Hlen1 & H1); try done; [by right|].
  destruct (sweep_inv loops w1 Hi1) as (cs1 & S1 & Hi1' & _ & Hlen1').
  assert (act w (AConnClose i) = Ret (set_conns w1 cs1)) as A1.
  { unfold act. cbn [action_body]. rewrite (conn_at_ok w i c) by done. orun. rewrite E1. by orun. }
  assert (possible w (AConnClose i) = true) as P1.
  { cbn. rewrite Hc, Hf, Ho, Hreg, Hpe. cbn. by rewrite orb_true_r. }
  assert (∃ w2, action_body (set_conns w1 cs1) ALoop = Ret w2 ∧ inv loops w2 ∧ nextConnId_ w2 = nextConnId_ w ∧
    length (conns w2) = length (conns w) ∧ K.restart net (connector_ w) = Ret (connector_ w2) ∧ connect_ w2 = connect_ w)
    as (w2 & E2 & Hi2 & Hid2 & Hlen2 & Hre & Hcn).
  { cbn [action_body queue set_conns]. destruct (c_loop c =? 0).
    - destruct H1 as (Hn1 & Hq1 & Hc1 & Hr1). rewrite Hr in Hr1. rewrite Hq1, Hq. eexists. split; [done|].
      split_and!; try done. cbn. congruence.
    - destruct H1 as (Hn1 & Hq1 & Hc1 & Hr1 & Hcn1). rewrite Hq in Hq1. cbn in Hq1. rewrite Hq1.
      destruct (loop_remove_inv loops (set_conns w1 cs1) i []) as (w2 & E2 & ? & Hid2 & Hlen2 & _ & _ & Hcn & Hr2); try done.
      exists w2. split; [done|]. cbn in Hr2, Hid2, Hlen2, Hcn. rewrite Hr1, Hcn1, Hr, Hc1 in Hr2.
      split_and!; try done; congruence. }
  destruct (sweep_inv loops w2 Hi2) as (cs2 & S2 & Hi2' & _ & Hlen2').
  exists (set_conns w2 cs2). split_and!; try done; [|cbn; congruence]. intros l.
  rewrite (run_step w (AConnClose i) _ (set_conns w1 cs1)) by done.
  apply run_step; [cbn; lia|done|done|]. unfold act. rewrite E2. by orun.
Qed.

(** C17: A client that shall stay connected ([enableRetry], and [disconnect] was not called)
    replaces a connection it loses, provided that the next attempt to connect is
    accepted: after the connection has closed and its removal has run, the client has a
    new connection as soon as the new socket is writable. *)
Theorem client_reconnects loops w i c : reachable loops w → nextConnId_ w < 2 ^ 31 - 1 →
  queue w = [] → retry_ w && connect_ w = true → connection_ w = Some i → conns w !! i = Some c → is_open c = true →
  K.classify (net (K.created (connector_ w))).2 = K.InProgress →
  ∃ w', run w [AConnClose i; ALoop; AEvent Channel.POLLOUT 0 false] = Some w' ∧
    connection_ w' = Some (length (conns w)) ∧ connect_ w' = true.
Proof.
  intros [Hi _]%client_reachable_inv Hb Hq Hr Hn Hc Ho Hnet.
  destruct (lost_and_restarted loops w i c) as (w1 & E & Hi1 & Hid & Hlen & Hre & Hcn); try done.
  destruct (restart_in_progress _ _ Hre Hnet) as [Hs Hk]. rewrite <- Hid in Hb.
  destruct (connecting_event loops w1 Hi1 Hb Hs Hk) as (Hp & w2 & E2 & Hn2 & Hcn2).
  exists w2. rewrite E, (run_step w1 _ [] w2) by done. split_and!; [done|by rewrite Hn2, Hlen|].
  apply andb_true_iff in Hr as [_ Hr]. congruence.
Qed.

(** [disconnect] is lost while the client connects: it finds no connection to shut
    down and leaves the connector alone, which goes on and makes one. *)
Theorem disconnect_while_connecting_is_lost loops w : reachable loops w → nextConnId_ w < 2 ^ 31 - 1 →
  K.state_ (connector_ w) = K.kConnecting → K.connect_ (connector_ w) = true →
  ∃ w', run w [ADisconnect true; AEvent Channel.POLLOUT 0 false] = Some w' ∧
    connection_ w' = Some (length (conns w)) ∧ connect_ w' = false.
Proof.
  intros [Hi _]%client_reachable_inv Hb Hs Hk. pose proof (iw_loop _ _ Hi) as Hl.
  destruct (connecting_pending _ _ _ Hl Hs) as (_ & _ & _ & Hn & _).
  pose proof (set_connect_inv loops w false Hi) as Hi0. destruct (sweep_inv loops _ Hi0) as (cs & S & Hi1 & _ & Hlen).
  assert (act w (ADisconnect true) = Ret (set_conns (set_connect w false) cs)) as A.
  { unfold act. cbn [action_body disconnect]. unfold disconnectInLoop, on_this. rewrite (iw_alive _ _ Hi). orun.
    cbn [connection_ set_connect]. rewrite Hn. by orun. }
  destruct (connecting_event loops _ Hi1) as (Hp & w2 & E2 & Hn2 & Hcn2); try done.
  exists w2. rewrite (run_step w (ADisconnect true) _ _ Hb eq_refl eq_refl A), (run_step _ _ [] w2) by done.
  split_and!; [done|rewrite Hn2; cbn; by rewrite Hlen|done].
Qed.

(** After a connection was lost and not replaced the connector still thinks that it is
    connected: [connect] fails an assertion and [stop] follows a null pointer. *)
Theorem lost_client_cannot_connect_or_stop loops w : reachable loops w → queue w = [] →
  K.state_ (connector_ w) = K.kConnected →
  act w (AConnect true) = Abort AssertFailed ∧ act w (AStop true) = Abort NullPointer.
Proof.
  intros [Hi _]%client_reachable_inv Hq Hs. destruct (queue_empty_channel loops w Hi Hq) as [Hch _]; [congruence|].
  unfold act. cbn [action_body]. unfold on_this. rewrite (iw_alive _ _ Hi). orun. split.
  - unfold connect, connector_call. cbn. unfold K.startInLoop, K.is_state. cbn. by rewrite Hs.
  - unfold stop, connector_call. cbn. unfold K.stopInLoop, K.is_state. cbn. rewrite Hs. cbn.
    unfold K.removeAndResetChannel. cbn. by rewrite Hch.
Qed.

Lemma sweep_from_abort w cs i0 i c e : cs !! i = Some c → destroy_unused w (i0 + i) c = Abort e →
  (∀ j d, (j < i)%nat → cs !! j = Some d → ∃ d', destroy_unused w (i0 + j) d = Ret d') → sweep_from w i0 cs = Abort e.
Proof.
  revert i0 i. induction cs as [|d cs IH]; intros i0 i Hc He Hb; [done|]. cbn [sweep_from]. destruct i as [|i].
  - cbn in Hc. simplify_eq. rewrite Nat.add_0_r in He. by rewrite He.
  - destruct (Hb 0%nat d) as [d' Hd]; [lia|done|]. rewrite Nat.add_0_r in Hd. rewrite Hd. orun.
    erewrite (IH (S i0) i); [done|done|by rewrite Nat.add_succ_comm|].
    intros j x Hj Hx. rewrite Nat.add_succ_comm. apply Hb; [lia|done].
Qed.

(** Destroying a client whose connection is open, and which nobody else has, stops the
    process: [unique] is never true, since the functor and the parameter refer to the
    connection as well, so that it is not closed before the last reference is dropped. *)
Theorem destroying_a_connected_client loops w i c : reachable loops w → connection_ w = Some i →
  conns w !! i = Some c → is_open c = true → c_user c = false → queue w = [] →
  act w (ADestroy true) = Abort AssertFailed.
Proof.
  intros [Hi _]%client_reachable_inv Hn Hc Ho Hu Hq. destruct (has_conn loops w i Hi Hn) as (c0 & ph & Hc0 & [Hp _ _ _] & Hk & Hf).
  simplify_eq. assert (c_queue c = []) as Hcq.
  { destruct ph; try done; cbn in Hp; destruct_and?; try done. unfold is_open, TcpConnection.is_state in Ho.
    match goal with E : c_state c = _ |- _ => by rewrite E in Ho end. }
  unfold act. cbn [action_body]. unfold on_this. rewrite (iw_alive _ _ Hi). orun. unfold TcpClient_dtor, removeAllInLoop.
  rewrite Hn, (conn_at_ok w i c) by done. orun. rewrite (proj2 (Nat.eqb_neq _ _)) by lia. orun.
  unfold sweep. cbn [conns set_conn set_conns set_alive]. erewrite (sweep_from_abort _ _ 0 i); [done| | |].
  - apply list_lookup_insert_eq. by eapply lookup_lt_Some.
  - unfold destroy_unused, use_count. cbn. rewrite Hf, Hu, Hcq, Hq. cbn. unfold destruct_conn. rewrite (assert_false (TcpConnection.is_state _ _)); [done|].
    cbn. unfold is_open, TcpConnection.is_state in *. by destruct (c_state c).
  - intros j d Hj Hd. rewrite list_lookup_insert_ne in Hd by lia. destruct (iw_conns _ _ Hi j d Hd) as [ph' Hok].
    destruct (destroy_unused_ok w j d ph' (iw_alive _ _ Hi) Hok) as (d' & E & _). exists d'. rewrite <- E.
    unfold destroy_unused, use_count. cbn. rewrite Hn, (bool_decide_false (Some i = Some j)) by (intros [= ?]; lia).
    by rewrite andb_false_r.
Qed.

Lemma client_run_reachable loops l w w' : reachable loops w → run w l = Some w' → reachable loops w'.
Proof.
  revert w. induction l as [|a l IH]; cbn; intros w Hw Hr; [by simplify_eq|].
  destruct (possible w a && allowed w a && (nextConnId_ w <? 2 ^ 31 - 1)) eqn:E; [|done].
  rewrite !andb_true_iff, Z.ltb_lt in E. destruct E as [[? ?] ?].
  destruct (act w a) as [w1|] eqn:Ha; [|done]. apply (IH w1); [|done]. by eapply reachable_act.
Qed.

End client.

(** ** Connections of the client and those of [TcpConnection]

    The connections here are abstractions of the ones in [TcpConnection]: the state,
    and whether the channel is registered, change in the same way. *)

Section abstraction.
Context {OS : Type} `{!SocketIO.SocketIO.Kernel OS}.
Variables (enable_et_ : bool) (cb : TcpConnection.Conn OS → outcome (TcpConnection.Conn OS)).

Definition abstracts (x : TcpConnection.Conn OS) (c : Conn) : Prop :=
  TcpConnection.state_ x = c_state c ∧ Channel.addedToLoop_ (TcpConnection.channel_ x) = c_registered c.

(** The connection callback does not close its connection before it returns. *)
Hypothesis cb_keeps : ∀ x x' c, cb x = Ret x' → abstracts x c → abstracts x' c.

Lemma channel_update_added p ch p' ch' : Channel.channel_update p ch = Ret (p', ch') → Channel.addedToLoop_ ch' = true.
Proof.
  unfold Channel.channel_update, Channel.updateChannel. intros Hx. destruct (_ || _).
  - apply bind_ret_inv in Hx as (? & _ & [= <- <-]). done.
  - do 3 apply bind_ret_inv in Hx as (? & _ & Hx). by destruct (Channel.isNoneEvent _); simplify_eq.
Qed.

Lemma removed_not_added p ch eh p' ch' : Channel.remove eh p ch = Ret (p', ch') → Channel.addedToLoop_ ch' = false.
Proof.
  unfold Channel.remove, Channel.removeChannel. intros Hx. do 6 apply bind_ret_inv in Hx as ([] & _ & Hx). by simplify_eq.
Qed.

Lemma shutdown_abstracts x x' c inLoop :
  TcpConnection.shutdown x inLoop = Ret x' → abstracts x c → abstracts x' (shutdown c).
Proof.
  unfold TcpConnection.shutdown, shutdown. intros Hx [Hs Hr]. rewrite Hs in Hx.
  destruct (TcpConnection.is_state (c_state c) _); [|by simplify_eq]. unfold TcpConnection.runInLoop, TcpConnection.shutdownInLoop in Hx.
  destruct inLoop; [destruct (negb _)|]; simplify_eq; by split.
Qed.

Lemma forceClose_abstracts x x' c : TcpConnection.forceClose x = Ret x' → abstracts x c → abstracts x' (forceClose c).
Proof.
  unfold TcpConnection.forceClose, forceClose, is_open. intros Hx [Hs Hr]. rewrite Hs in Hx.
  destruct (_ || _); simplify_eq; by split.
Qed.

Lemma connectEstablished_abstracts x x' c :
  TcpConnection.connectEstablished false enable_et_ cb x = Ret x' → abstracts x c →
  ∃ c', connectEstablished c = Ret c' ∧ abstracts x' c'.
Proof using cb_keeps.
  unfold TcpConnection.connectEstablished, connectEstablished. intros Hx [Hs Hr]. apply bind_ret_inv in Hx as (u & Ha & Hx).
  cbn in Ha. rewrite Hs in Ha. rewrite Ha. orun. eexists. split; [done|]. apply bind_ret_inv in Hx as (y & Hy & Hx).
  eapply cb_keeps; [done|]. unfold TcpConnection.on_channel in Hy. apply bind_ret_inv in Hy as ([p ch] & Hch & [= <-]).
  split; [done|]. by apply channel_update_added in Hch.
Qed.

Lemma connectDestroyed_abstracts x x' c :
  TcpConnection.connectDestroyed cb x = Ret x' → abstracts x c → abstracts x' (connectDestroyed c).
Proof using cb_keeps.
  unfold TcpConnection.connectDestroyed. intros Hx [Hs Hr]. apply bind_ret_inv in Hx as (y & Hy & Hx).
  unfold TcpConnection.on_channel in Hx. apply bind_ret_inv in Hx as ([p ch] & Hch & [= <-]). apply removed_not_added in Hch.
  split; [|done]. rewrite Hs in Hy. cbn. unfold connectDestroyed. cbn. destruct (TcpConnection.is_state (c_state c) _); [|by simplify_eq].
  apply bind_ret_inv in Hy as (z & Hz & Hy). unfold TcpConnection.on_channel in Hz. apply bind_ret_inv in Hz as ([p1 ch1] & Hz & [= <-]).
  apply (cb_keeps _ _ (conn_set c TcpConnection.kDisconnected [] true)) in Hy as [? _]; [done|].
  split; [done|]. by apply channel_update_added in Hz.
Qed.
End abstraction.

(** ** Examples *)

(** Every attempt is accepted; the connections live in the loops 1 and 2. *)
Definition sample_net (k : nat) : Z * Z := (7 + Z.of_nat k, K.EINPROGRESS).

Definition sample_connecting : list action := [AEnableRetry; AConnect true].
Definition sample_up : list action :=
  sample_connecting ++ [AEvent Channel.POLLOUT 0 false; ALoop; AConnFunctor 0].
Definition sample_lost : list action :=
  [AConnect false; ALoop; AEvent Channel.POLLOUT 0 false; ALoop; AConnFunctor 0; AUser 0 true; ADisconnect true;
   AConnClose 0; ALoop; AConnFunctor 0; AUser 0 false].

Definition sample (l : list action) : Client :=
  default (TcpClient_ctor TcpServer.Pool_ctor)
    (run (str "client") (str "1.2.3.4:80") sample_net (TcpClient_ctor (TcpServer.mkPool [1; 2] 0 true)) l).

Lemma sample_connecting_reachable :
  reachable (str "client") (str "1.2.3.4:80") sample_net [1; 2] (sample sample_connecting).
Proof. eapply (client_run_reachable _ _ _ _ sample_connecting); [constructor|by vm_compute]. Qed.
Lemma sample_up_reachable : reachable (str "client") (str "1.2.3.4:80") sample_net [1; 2] (sample sample_up).
Proof. eapply (client_run_reachable _ _ _ _ sample_up); [constructor|by vm_compute]. Qed.
Lemma sample_lost_reachable : reachable (str "client") (str "1.2.3.4:80") sample_net [1; 2] (sample sample_lost).
Proof. eapply (client_run_reachable _ _ _ _ sample_lost); [constructor|by vm_compute]. Qed.


Lemma client_reconnects_witness : ∃ w',
  run (str "client") (str "1.2.3.4:80") sample_net (sample sample_up) [AConnClose 0; ALoop; AEvent Channel.POLLOUT 0 false] = Some w' ∧
  connection_ w' = Some 1%nat ∧ connect_ w' = true.
Proof.
  eapply (client_reconnects (str "client") (str "1.2.3.4:80") sample_net [1; 2] (sample sample_up) 0); [exact sample_up_reachable|vm_compute; reflexivity..].
Defined.

Lemma disconnect_while_connecting_is_lost_witness : ∃ w',
  run (str "client") (str "1.2.3.4:80") sample_net (sample sample_connecting) [ADisconnect true; AEvent Channel.POLLOUT 0 false] = Some w' ∧
  connection_ w' = Some 0%nat ∧ connect_ w' = false.
Proof.
  apply (disconnect_while_connecting_is_lost (str "client") (str "1.2.3.4:80") sample_net [1; 2] (sample sample_connecting));
    [exact sample_connecting_reachable|vm_compute; reflexivity..].
Defined.

Lemma lost_client_cannot_connect_or_stop_witness :
  act (str "client") (str "1.2.3.4:80") sample_net (sample sample_lost) (AConnect true) = Abort AssertFailed ∧
  act (str "client") (str "1.2.3.4:80") sample_net (sample sample_lost) (AStop true) = Abort NullPointer.
Proof.
  apply (lost_client_cannot_connect_or_stop (str "client") (str "1.2.3.4:80") sample_net [1; 2] (sample sample_lost));
    [exact sample_lost_reachable|vm_compute; reflexivity..].
Defined.

Lemma destroying_a_connected_client_witness :
  act (str "client") (str "1.2.3.4:80") sample_net (sample sample_up) (ADestroy true) = Abort AssertFailed.
Proof.
  eapply (destroying_a_connected_client (str "client") (str "1.2.3.4:80") sample_net [1; 2] (sample sample_up) 0);
    [exact sample_up_reachable|vm_compute; reflexivity..].
Defined.

End TcpClient.
